(* ===== verification/_CoqProject ===== *)
-Q . S2P
Prelude.v
Machine.v
Containers.v
Protocol.v
Parser.v
ParserSafe.v
Checksum.v
Layout.v
ParserSpec.v
Serial.v
OrdMap.v
Reassembly.v
ReassemblySpec.v
ByteString.v
Dissect.v
DissectSafe.v
DissectSpec.v
Float.v
FloatRound.v
Flow.v
FlowTable.v
FlowSpec.v
SeqSpec.v
TableSpec.v
Stats.v
StatsSpec.v
PcapWriter.v
PcapSpec.v
Analyzer.v
AnalyzerSpec.v
Format.v
FormatSpec.v
FloatRange.v
Capture.v
CaptureSpec.v
Dashboard.v
DashboardRange.v
DashboardSpec.v
Report.v
ReportSpec.v
Options.v
OptionsSpec.v
Main.v
SetupSpec.v
MainSpec.v
