(* ===== verification/Prelude.v ===== *)
(** * netscope: a verification library for the packet analyser

    netscope captures frames from an interface or a capture file, decodes them,
    tracks flows (TCP state, retransmissions, round-trip times, reassembled stream
    prefixes, application protocol), keeps statistics and shows them on a
    terminal.  This library models the C++ code under [src/src/] and
    [src/include/] as executable definitions and proves what makes it correct.
    This file is the prelude every other file uses: functional record update,
    the [mem] monad of reads that may leave a buffer and its weakest
    preconditions ([wpm]), list lengths, slices and sums in [Z], tactics
    ([wpm_step], [breflect], [case_test]).

    ** How the program is put together

    [main] parses the options, resolves the interface, opens a capture backend
    (AF_PACKET or libpcap), the analyser and the capture file, and starts the
    capture thread.  That thread runs the backend's read loop and hands each frame
    to [PcapWriter::write] and to [Analyzer::consume].  [consume] calls [decode_packet] (parser.cpp) without a
    lock, then under one mutex [Statistics::add] (stats.cpp) and
    [FlowTable::update] (flow_table.cpp).  [update] finds or creates the flow of
    the packet's canonical key, classifies the TCP segment, advances the TCP
    state, samples round-trip times, feeds the stream reassembler
    (reassembly.cpp) and asks the dissectors (dissect.cpp) for the application
    protocol.  The UI thread expires idle flows, resets, stores kernel counters
    and renders, under the same mutex.  A running flag, cleared by a key, a
    signal, the end of the input, the packet limit or an error, ends both loops;
    the main thread joins, restores the terminal, closes and prints the summary.

    ** Files

    Foundations, independent of the program: [Prelude]; [Machine] (fixed-width
    integers as [Z] with the wrap-around written out, bytes, big-endian values,
    the host byte order as the class [HostOrder]: every theorem holds for both
    orders); [Containers] (unspecified hash-map iteration, [std::sort]);
    [OrdMap] ([std::map] with integer keys); [ByteString] ([std::string]);
    [Float] (IEEE binary64 and its order); [FloatRound] (the result of an
    addition or a division is the rounding of the exact one, and rounding crosses
    no double).

    Models, one per component, each Definition named after its C++ function:
    - [Protocol]: include/protocol.hpp.  Packed headers as loads from the buffer,
      [IpAddress], [DecodedPacket] (field order as in the struct; [seq] and [ack]
      are [seqno] and [ackno]).
    - [Parser]: parser.cpp.  The buffer is a byte list, a pointer an offset, a
      read outside the buffer [OOB].  [decode_l3]'s two address families are
      [decode_ipv4] and [decode_ipv6]; the switch over link types is [decode_l2].
    - [Serial]: the sequence-number comparisons of include/flow.hpp.
    - [Reassembly]: reassembly.cpp.  [push] is the trimming, [push_trimmed] the
      rest of it, [drain_loop] the loop of [drain].
    - [Dissect]: dissect.cpp.  [None] is [return false].
    - [Flow]: keys, states, counters and derived values of a flow (flow.hpp and
      the first half of flow_table.cpp), [advance_tcp_state].
    - [FlowTable]: the table.  [update] is composed of [find_or_create],
      [count_packet], [track_tcp] ([track_sequence], [advance_tcp_state],
      [track_rtt]) and [reassemble_and_dissect], in the order of the code.
    - [Stats]: stats.cpp, Module [Statistics].
    - [PcapWriter]: pcap_writer.cpp over a C stream whose disk may refuse bytes.
    - [Analyzer]: analyzer.hpp: the operations, and the two threads as a step
      relation in which decoding and each critical section are one step.
    - [Format]: what the program uses of [printf] and [std::to_string], exact on
      binary64 values, and the [human_] helpers of stats.cpp.
    - [Capture]: capture.hpp, capture_raw.cpp, capture_pcap.cpp.  The virtual
      functions are the class [Backend]; the read loop, the same in both
      backends, is [capture_loop], its turn up to the sink is [fetch].  Modules
      [RawSocketCapture], [PcapCapture], [UnsupportedRawCapture] are the
      backends.
    - [Dashboard]: dashboard.cpp up to [print_summary]: terminal set-up, keys and
      the frame, section by section ([title_line] to [footer_line]).
    - [Report]: the text output: [format_packet_line], the observer's line,
      [do_list_interfaces], [print_summary].
    - [Options]: [parse_options] of main.cpp, with [strtoull], [atoi] and
      [strtod].
    - [Main]: the rest of main.cpp.  [setup] is what happens before the threads
      start, for any backend; [main_setup] is [setup] for the one [make_capture]
      chooses by its option ([either_backend] of [Capture]); the session is the step relation [session_step] of a capture thread
      ([capture_step], whose states [cpc] are the points of the loop and of the
      thread's body), the main thread ([main_step], [upc]) and the signal
      handler, over one [session] record.  One step is one access to what the
      threads share.

    Theorems:
    - [ParserSafe]: for every input the decoder stays inside the capture, fills
      in well-typed fields, and pairs verdict and error; its result does not
      depend on memory behind the capture.
    - [Checksum]: the checksum is RFC 1071's, and a checksummed header verifies.
    - [Layout], [ParserSpec]: frames built from header fields decode to those
      fields; IPv6 extension chains are walked exactly.
    - [ReassemblySpec]: the prefix is a prefix of the sent stream whatever the
      arrival order (also across the sequence wrap), it is complete when the
      numbers do not wrap, and memory is bounded.
    - [DissectSafe], [DissectSpec]: the dissectors never read outside their
      input and only produce printable, bounded summaries; the DNS name decoder
      terminates and accepts exactly the names of an inductive definition in
      which a pointer may go anywhere, hence every name of RFC 1035, whose
      pointers go backwards; ClientHellos and HTTP requests are recognised with
      their contents.
    - [FlowSpec]: keys are symmetric and separate conversations; TCP states rest
      on evidence; a full connection walks the state diagram, state by state; RTT
      bounds; comparing a time difference with whole seconds is exact to the
      microsecond ([timeval_diff_lt]).
    - [SeqSpec]: [track_sequence] refines a specification on unbounded stream
      positions.
    - [TableSpec]: the table invariant under every call sequence, exact counting
      and frame conditions of [update] against the interface [DissectorLaws],
      its TCP and application refinements, expiry by elapsed microseconds, top-n
      by explicit keys, Karn's rule.
    - [StatsSpec]: every counter is the true count modulo 2^64; throughput is the
      true per-second sums while no packet is later than the window.
    - [PcapSpec]: files written can be read back, in either byte order.
    - [AnalyzerSpec]: every interleaving of the threads equals the completed
      operations in sequence, keeps the invariants and never gets stuck.
    - [FormatSpec]: sizes are printed with the right unit and within half a unit
      of the last digit; durations as hours, minutes and seconds.
    - [CaptureSpec]: the contract of a backend ([BackendLaws], [BackendStart],
      satisfied by both); the loop delivers exactly what arrives up to the limit;
      the raw socket makes its calls in one order and releases what it took on
      every path; no drop is lost from the counters; the default interface is the documented choice.
    - [FloatRange]: results of binary64 operations stay within powers of two.
    - [DashboardRange]: the dashboard's conversions of doubles to integers are in
      range in every state the program reaches, for time spans below 2^31 s and
      less than 2^59 bytes in a second; so a frame can always be drawn.
    - [DashboardSpec], [ReportSpec]: whatever is captured, what is printed is
      printable text and the program's own colour sequences; the height of a
      frame; the terminal gets its settings back.
    - [OptionsSpec]: parsed options are well formed; every set of options has a
      command line that parses to it.
    - [SetupSpec]: threads start only on an open backend, a matching analyser and
      a capture file with its header; otherwise exit code and message.
    - [MainSpec]: the read loop of [Capture] with the program's sink is a schedule
      of the session ([capture_loop_runs]); every run of the session refines the
      analyser run in sequence, respects the packet limit and writes frames before
      they are analysed; once the flag is cleared every schedule ends within 21
      steps, none is stuck before the end, and everything is closed and restored.

    Some lemmas state behaviour that departs from what the code means to do:
    [wrap_strands_segment], [syn_data_loses_first_byte],
    [padding_counts_as_payload], [tcp_reuse_confuses_fins], [hole_tail_lost],
    [server_hello_version_missed], [late_packet_evicts_bucket],
    [short_write_corrupts], [human_duration_overflows],
    [dns_forward_pointer_followed], [header_value_keeps_trailing_blanks],
    [header_found_in_body], and [render_height] (every row of a frame ends in a
    line feed, the last one too).

    ** Bounds and fuel

    Loops that are not structural carry fuel, shown to be enough: [dns_fuel] is
    264 (at most 8 pointers and 254 label steps, since a name is at most 253
    bytes; [NameFuel] is never returned), [ipv6_walk] has the code's 8 hops,
    [tls_fuel] is a quarter of the extension block plus one, since each round
    takes 4 bytes ([tls_ext_loop_fuel]), [find_header] has one round per byte
    ([find_header_fuel]), [fold_carries] three where two are enough for a 32-bit
    sum ([fold_carries_spec]); [drain_loop] is structural on the map.
    [dec] prints with one round per bit, more than the digits of a number;
    [scale_unit] has one round per unit, as the code's loop; [capture_loop] is
    structural on the answers it is given.  The shutdown bound is the sum of the
    longest ways out of the two threads, 10 and 11 steps ([rank_le]).
    Sessions are bounded by 2^63 steps, so that no 64-bit count wraps.
    The checksum theorem assumes at most 131072 bytes, below which the 32-bit
    accumulator cannot overflow (a header has at most 60).

    ** Parameters

    Code that is not in the repository appears as an argument: [ip_str]
    ([inet_ntop]), [localtime], [strerror], [accept] and [fopen_ok] (the C
    stream), [iteration] (the order of a hash map), the sorter of [std::sort], and
    the answers of the kernel, the terminal and libpcap: [raw_os], [raw_event],
    [kstats], [pcap_lib], [pcap_event], [pstats], the device list, the filter
    compiler, the window size and the bytes typed.  What is assumed of them is a
    named hypothesis or record field ([healthy], [iterate_perm], [std_sort],
    [pcap_event_ok]), and the witnesses instantiate them.

    ** Not modelled

    The kernel, the terminal and libpcap themselves; sleeping and blocking (a step
    that waits is a step taken later); the text of [print_usage] and the lines
    [main] prints around the session.  In the session a rendering step only
    updates the window size: what is drawn is [Dashboard.render], about which
    [DashboardSpec] speaks for any state of the analyser.  The copy the main
    thread takes of the backend's counters is one step, although the code does not
    synchronise it.  [timeval_diff] subtracts in [Z], where the code
    subtracts signed 64-bit fields: the two agree unless that subtraction
    overflows, which is undefined and needs time stamps more than 2^63 s apart.
    Numbers out of the range of [int] on the command line are undefined
    behaviour of [atoi] ([OOB]), of which the option theorems say nothing.  What
    frames the kernel queues on a raw socket before the filter is attached and
    the socket bound is the kernel's business: the theorem about [open] states
    the order of the calls only.  Unit tests and helper scripts. *)

From Stdlib Require Export ZArith Lia.
From Stdlib Require Export Strings.Byte.
From stdpp Require Export base tactics numbers list gmap strings.

#[local] Open Scope Z_scope.

(** ** Functional record update

    A record type declares its eta-expansion once ([Eta]); a field setter is
    then found by abstracting the projection out of that expansion. *)

Class Eta (R : Type) := eta_expand : R -> R.
Class Setter {R T : Type} (proj : R -> T) := set_field : (T -> T) -> R -> R.
Arguments set_field {R T} proj {_} _ _ /.

Ltac derive_setter :=
  match goal with
  | |- @Setter ?R ?T ?proj =>
      let inst := constr:(_ : Eta R) in
      let e := eval hnf in inst in
      lazymatch eval pattern proj in e with
      | ?ctx _ => let s := eval cbv beta in (fun (f : T -> T) => ctx (fun r => f (proj r))) in
                  exact s
      end
  end.

#[export] Hint Extern 1 (Setter _) => derive_setter : typeclass_instances.

Declare Scope netscope_scope.
Delimit Scope netscope_scope with ns.
Notation "r <| f := v |>" := (set_field f (fun _ => v) r)
  (at level 12, left associativity, f at next level,
   format "r  <| f  :=  v |>") : netscope_scope.
Notation "r <| f ::= g |>" := (set_field f g r)
  (at level 12, left associativity, f at next level,
   format "r  <| f  ::=  g |>") : netscope_scope.
Global Open Scope netscope_scope.

(** ** Reads that may leave the buffer

    [OOB] is the undefined behaviour of dereferencing a pointer outside the
    captured bytes; it absorbs everything after it. *)

Inductive mem (A : Type) : Type :=
| Val (a : A)
| OOB.
Arguments Val {A} a.
Arguments OOB {A}.

#[export] Instance mem_ret : MRet mem := fun _ a => Val a.
#[export] Instance mem_bind : MBind mem := fun _ _ k m =>
  match m with Val a => k a | OOB => OOB end.
Arguments mem_bind _ _ _ !_ /.

(** [wpm m Q]: the computation stays inside the buffer and its result
    satisfies [Q]. *)
Definition wpm {A} (m : mem A) (Q : A -> Prop) : Prop :=
  match m with Val a => Q a | OOB => False end.

Section wpm.
Context {A B : Type}.
Implicit Types (m : mem A) (Q : A -> Prop).

Lemma wpm_ret (a : A) Q : Q a -> wpm (mret a) Q.
Proof. done. Qed.

Lemma wpm_bind m (k : A -> mem B) (Q : B -> Prop) :
  wpm m (fun a => wpm (k a) Q) -> wpm (m ≫= k) Q.
Proof. by destruct m. Qed.

Lemma wpm_mono m Q Q' : wpm m Q -> (forall a, Q a -> Q' a) -> wpm m Q'.
Proof. destruct m; simpl; auto. Qed.

Lemma wpm_and m Q Q' : wpm m Q -> wpm m Q' -> wpm m (fun a => Q a /\ Q' a).
Proof. destruct m; simpl; auto. Qed.

Lemma wpm_val m Q : wpm m Q <-> exists a, m = Val a /\ Q a.
Proof.
  destruct m as [a|]; simpl; split; [eauto| |done|].
  - by intros (a' & [= ->] & ?).
  - by intros (? & ? & _).
Qed.

Lemma wpm_val_eq m Q a : m = Val a -> wpm m Q -> Q a.
Proof. by intros ->. Qed.

Lemma wpm_if (b : bool) m1 m2 Q :
  (b = true -> wpm m1 Q) -> (b = false -> wpm m2 Q) -> wpm (if b then m1 else m2) Q.
Proof. destruct b; auto. Qed.
End wpm.

(** One step of a goal-directed proof of [wpm]. *)
Ltac wpm_step :=
  match goal with
  | |- wpm (mret _) _ => apply wpm_ret
  | |- wpm (_ ≫= _) _ => apply wpm_bind
  | |- wpm (if _ then _ else _) _ => apply wpm_if; intro
  | |- wpm (match ?x with _ => _ end) _ => destruct x eqn:?
  end.

(** Boolean tests from the code as propositions. *)
Ltac breflect :=
  repeat match goal with
  | H : _ && _ = true |- _ => apply andb_true_iff in H as [? ?]
  | H : _ || _ = false |- _ => apply orb_false_iff in H as [? ?]
  | H : negb _ = true |- _ => apply negb_true_iff in H
  | H : negb _ = false |- _ => apply negb_false_iff in H
  | H : (_ =? _) = true |- _ => apply Z.eqb_eq in H
  | H : (_ =? _) = false |- _ => apply Z.eqb_neq in H
  | H : (_ <? _) = true |- _ => apply Z.ltb_lt in H
  | H : (_ <? _) = false |- _ => apply Z.ltb_ge in H
  | H : (_ <=? _) = true |- _ => apply Z.leb_le in H
  | H : (_ <=? _) = false |- _ => apply Z.leb_gt in H
  end.

(** Case analysis on a boolean test in the goal. *)
Ltac case_test :=
  match goal with
  | |- context [if ?b then _ else _] => destruct b eqn:?
  end.

(** ** Lists *)

Definition zlen {A} (l : list A) : Z := Z.of_nat (length l).
Arguments zlen {A} l : simpl never.

Section zlen.
Context {A : Type}.
Implicit Types l k : list A.
Lemma zlen_nil : zlen (@nil A) = 0. Proof. done. Qed.
Lemma zlen_cons x l : zlen (x :: l) = 1 + zlen l.
Proof. unfold zlen. simpl. lia. Qed.
Lemma zlen_app l k : zlen (l ++ k) = zlen l + zlen k.
Proof. unfold zlen. rewrite length_app. lia. Qed.
Lemma zlen_nonneg l : 0 <= zlen l. Proof. unfold zlen. lia. Qed.
Lemma zlen_take n l : zlen (take n l) = Z.min (Z.of_nat n) (zlen l).
Proof. unfold zlen. rewrite length_take. lia. Qed.
Lemma zlen_drop n l : zlen (drop n l) = Z.max 0 (zlen l - Z.of_nat n).
Proof. unfold zlen. rewrite length_drop. lia. Qed.
Lemma zlen_0 l : zlen l = 0 -> l = [].
Proof. unfold zlen. destruct l; simpl; [done|lia]. Qed.
End zlen.

#[export] Instance zlen_permutation {A} : Proper (Permutation ==> eq) (@zlen A).
Proof. intros l k Hp. unfold zlen. by rewrite Hp. Qed.

(** [slice l p n]: the [n] elements from position [p], as far as they exist. *)
Definition slice {A} (l : list A) (p n : Z) : list A :=
  take (Z.to_nat n) (drop (Z.to_nat p) l).

Section slice.
Context {A : Type}.
Implicit Types l : list A.

Lemma zlen_slice l p n :
  0 <= p -> 0 <= n -> p + n <= zlen l -> zlen (slice l p n) = n.
Proof. intros. unfold slice. rewrite zlen_take, zlen_drop. lia. Qed.

Lemma slice_0 l p : slice l p 0 = [].
Proof. done. Qed.

Lemma slice_app l p n k :
  0 <= p -> 0 <= n -> 0 <= k -> slice l p (n + k) = slice l p n ++ slice l (p + n) k.
Proof.
  intros. unfold slice. rewrite !Z2Nat.inj_add, <-drop_drop by lia.
  by rewrite take_take_drop.
Qed.

Lemma slice_drop l p n (k : nat) :
  0 <= p -> Z.of_nat k <= n ->
  drop k (slice l p n) = slice l (p + Z.of_nat k) (n - Z.of_nat k).
Proof.
  intros. unfold slice.
  rewrite skipn_firstn_comm, drop_drop. f_equal; [lia|]. f_equal. lia.
Qed.

Lemma slice_take l p n (k : nat) :
  Z.of_nat k <= n -> take k (slice l p n) = slice l p (Z.of_nat k).
Proof. intros. unfold slice. rewrite take_take. f_equal. lia. Qed.

Lemma slice_full l : slice l 0 (zlen l) = l.
Proof. unfold slice, zlen. rewrite Nat2Z.id. simpl. apply take_ge. lia. Qed.
End slice.

(** The sum of a measure over a list. *)
Definition zsum {A} (f : A -> Z) (l : list A) : Z := foldr (fun x acc => f x + acc) 0 l.

Section zsum.
Context {A : Type} (f : A -> Z).
Lemma zsum_app l k : zsum f (l ++ k) = zsum f l + zsum f k.
Proof. unfold zsum. induction l; simpl; lia. Qed.
Lemma zsum_snoc l x : zsum f (l ++ [x]) = zsum f l + f x.
Proof. rewrite zsum_app. unfold zsum. simpl. lia. Qed.
Lemma zsum_ext (g : A -> Z) l : (forall x, x ∈ l -> f x = g x) -> zsum f l = zsum g l.
Proof.
  unfold zsum. induction l as [|x l IH]; intros Hx; [done|]. simpl.
  rewrite (Hx x), IH; [done| |by left]. intros y Hy. apply Hx. by right.
Qed.
Lemma zsum_0 l : (forall x, x ∈ l -> f x = 0) -> zsum f l = 0.
Proof.
  unfold zsum. induction l as [|x l IH]; intros H0; [done|]. simpl.
  rewrite (H0 x), IH; [done| |by left]. intros y Hy. apply H0. by right.
Qed.
End zsum.
Arguments zsum {A} f l : simpl never.

Create Rewrite HintDb zlen.
#[export] Hint Rewrite @zlen_nil @zlen_cons @zlen_app : zlen.
