(* ===== verification/Machine.v ===== *)
(** * Machine integers, bytes and the host's byte order

    Unsigned integers of width [w] are [Z] with the wrap-around of the C++
    conversions written out; bytes are [Byte.byte].  The host byte order is the
    interface [HostOrder]: every theorem of the development holds for a little
    and for a big endian host. *)

From S2P Require Import Prelude.
#[local] Open Scope Z_scope.

(** ** Conversions to fixed-width integers *)

Definition u8 (z : Z) : Z := z mod 2 ^ 8.
Definition u16 (z : Z) : Z := z mod 2 ^ 16.
Definition u32 (z : Z) : Z := z mod 2 ^ 32.
Definition u64 (z : Z) : Z := z mod 2 ^ 64.
(** [static_cast<int32_t>] of an unsigned 32-bit value. *)
Definition i32 (z : Z) : Z := let y := u32 z in if y <? 2 ^ 31 then y else y - 2 ^ 32.

(** [++x] of a 64-bit counter. *)
Definition incr (z : Z) : Z := u64 (z + 1).

Definition in_u8 (z : Z) : Prop := 0 <= z < 2 ^ 8.
Definition in_u16 (z : Z) : Prop := 0 <= z < 2 ^ 16.
Definition in_u32 (z : Z) : Prop := 0 <= z < 2 ^ 32.
Definition in_u64 (z : Z) : Prop := 0 <= z < 2 ^ 64.

Lemma u8_in z : in_u8 (u8 z). Proof. apply Z.mod_pos_bound. lia. Qed.
Lemma u16_in z : in_u16 (u16 z). Proof. apply Z.mod_pos_bound. lia. Qed.
Lemma u32_in z : in_u32 (u32 z). Proof. apply Z.mod_pos_bound. lia. Qed.
Lemma u64_in z : in_u64 (u64 z). Proof. apply Z.mod_pos_bound. lia. Qed.
Lemma u8_id z : in_u8 z -> u8 z = z. Proof. apply Z.mod_small. Qed.
Lemma u16_id z : in_u16 z -> u16 z = z. Proof. apply Z.mod_small. Qed.
Lemma u32_id z : in_u32 z -> u32 z = z. Proof. apply Z.mod_small. Qed.
Lemma u64_id z : in_u64 z -> u64 z = z. Proof. apply Z.mod_small. Qed.

Create HintDb word.
#[export] Hint Resolve u8_in u16_in u32_in u64_in : word.

(** ** Bytes *)

Definition bval (b : byte) : Z := Z.of_N (Byte.to_N b).
Definition byte_of (z : Z) : byte :=
  match Byte.of_N (Z.to_N (u8 z)) with Some b => b | None => Byte.x00 end.

Lemma bval_in b : in_u8 (bval b).
Proof. unfold bval, in_u8. pose proof (Byte.to_N_bounded b). lia. Qed.
#[export] Hint Resolve bval_in : word.

Lemma bval_bounds b : 0 <= bval b < 256.
Proof. apply bval_in. Qed.

Lemma byte_of_bval b : byte_of (bval b) = b.
Proof.
  unfold byte_of. rewrite u8_id by apply bval_in.
  unfold bval. by rewrite N2Z.id, Byte.of_to_N.
Qed.

Lemma bval_byte_of z : bval (byte_of z) = u8 z.
Proof.
  unfold byte_of. pose proof (u8_in z) as Hz. unfold in_u8 in Hz.
  destruct (Byte.of_N (Z.to_N (u8 z))) as [b|] eqn:E.
  - apply Byte.to_of_N in E. unfold bval. rewrite E. lia.
  - apply Byte.of_N_None_iff in E. lia.
Qed.

Lemma bval_inj a b : bval a = bval b -> a = b.
Proof. intros H. by rewrite <-(byte_of_bval a), H, byte_of_bval. Qed.

#[export] Instance byte_eq_dec : EqDecision byte := Byte.byte_eq_dec.
#[export] Program Instance byte_countable : Countable byte :=
  inj_countable' Byte.to_N (fun n => byte_of (Z.of_N n)) _.
Next Obligation. intros b. apply (byte_of_bval b). Qed.

(** Bytes of a string literal of the source. *)
Definition lit (s : string) : list byte := String.list_byte_of_string s.

(** ** Big-endian values *)

(** [(a << 8) | b], the way the code assembles a 16-bit field. *)
Definition be16 (a b : byte) : Z := Z.lor (Z.shiftl (bval a) 8) (bval b).

Lemma land_bounds a b n : 0 <= n -> 0 <= a < 2 ^ n -> 0 <= Z.land a b < 2 ^ n.
Proof.
  intros Hn Ha. rewrite <-(Z.mod_small a (2 ^ n)), <-Z.land_ones by lia.
  rewrite <-Z.land_assoc, (Z.land_comm (Z.ones n)), Z.land_assoc, Z.land_ones by done.
  apply Z.mod_pos_bound. lia.
Qed.

Lemma land_shiftl_low a b n : 0 <= n -> 0 <= b < 2 ^ n -> Z.land (Z.shiftl a n) b = 0.
Proof.
  intros Hn Hb. destruct (Z.eq_dec b 0) as [->|Hb0]; [apply Z.land_0_r|].
  apply Z.bits_inj'. intros i Hi. rewrite Z.land_spec, Z.bits_0.
  destruct (Z.lt_ge_cases i n); [by rewrite Z.shiftl_spec_low|].
  assert (Z.log2 b < n) by (apply Z.log2_lt_pow2; lia).
  rewrite (Z.bits_above_log2 b i), andb_false_r by lia. done.
Qed.

Lemma lor_shiftl_add a b n : 0 <= n -> 0 <= b < 2 ^ n -> Z.lor (Z.shiftl a n) b = a * 2 ^ n + b.
Proof.
  intros Hn Hb. rewrite <-Z.shiftl_mul_pow2 by done.
  rewrite <-Z.lxor_lor by (by apply land_shiftl_low).
  symmetry. apply Z.add_nocarry_lxor. by apply land_shiftl_low.
Qed.

Lemma be16_val a b : be16 a b = bval a * 256 + bval b.
Proof. unfold be16. rewrite lor_shiftl_add; [done|lia|apply bval_in]. Qed.

Lemma be16_in a b : in_u16 (be16 a b).
Proof.
  rewrite be16_val. pose proof (bval_bounds a). pose proof (bval_bounds b).
  unfold in_u16. lia.
Qed.
#[export] Hint Resolve be16_in : word.

(** Value of a byte string, most significant byte first, and its inverse. *)
Fixpoint be_value_acc (acc : Z) (bs : list byte) : Z :=
  match bs with [] => acc | b :: bs => be_value_acc (acc * 256 + bval b) bs end.
Definition be_value (bs : list byte) : Z := be_value_acc 0 bs.

Fixpoint be_bytes (n : nat) (z : Z) : list byte :=
  match n with O => [] | S n => be_bytes n (z / 256) ++ [byte_of z] end.

Lemma be_value_acc_app acc l k : be_value_acc acc (l ++ k) = be_value_acc (be_value_acc acc l) k.
Proof. revert acc. induction l; simpl; auto. Qed.

Lemma be_value_snoc l b : be_value (l ++ [b]) = be_value l * 256 + bval b.
Proof. unfold be_value. by rewrite be_value_acc_app. Qed.

Lemma length_be_bytes n z : length (be_bytes n z) = n.
Proof. revert z. induction n; intros; simpl; [done|]. rewrite length_app, IHn. simpl. lia. Qed.

Lemma be_value_in bs : 0 <= be_value bs < 256 ^ zlen bs.
Proof.
  induction bs as [|b bs IH] using rev_ind; [done|].
  rewrite be_value_snoc. replace (zlen (bs ++ [b])) with (zlen bs + 1) by (autorewrite with zlen; lia).
  pose proof (bval_bounds b). pose proof (zlen_nonneg bs).
  rewrite Z.pow_add_r, Z.pow_1_r by lia. nia.
Qed.

Lemma be_value_bytes n z : be_value (be_bytes n z) = z mod 256 ^ Z.of_nat n.
Proof.
  revert z. induction n as [|n IH]; intros z.
  - by rewrite Z.mod_1_r.
  - cbn [be_bytes]. rewrite be_value_snoc, IH, bval_byte_of. unfold u8.
    replace (Z.of_nat (S n)) with (1 + Z.of_nat n) by lia.
    rewrite Z.pow_add_r, Z.pow_1_r by lia. change (2 ^ 8) with 256.
    rewrite Z.rem_mul_r by lia. lia.
Qed.

Lemma be_bytes_value bs : be_bytes (length bs) (be_value bs) = bs.
Proof.
  induction bs as [|b bs IH] using rev_ind; [done|].
  rewrite length_app, be_value_snoc, Nat.add_1_r. cbn [be_bytes].
  pose proof (bval_bounds b).
  rewrite Z.div_add_l, Z.div_small, Z.add_0_r, IH by lia. f_equal. f_equal.
  apply bval_inj. rewrite bval_byte_of. unfold u8. change (2 ^ 8) with 256.
  rewrite Z.add_comm, Z.mod_add, Z.mod_small by lia. done.
Qed.

(** ** The host's byte order *)

Inductive byte_order := LittleEndian | BigEndian.
Class HostOrder := host_order : byte_order.

Section host.
Context {H : HostOrder}.

Definition host_value (bs : list byte) : Z :=
  match host_order with LittleEndian => be_value (rev bs) | BigEndian => be_value bs end.
Definition host_bytes (n : nat) (z : Z) : list byte :=
  match host_order with LittleEndian => rev (be_bytes n z) | BigEndian => be_bytes n z end.

Lemma host_value_bytes n z : host_value (host_bytes n z) = z mod 256 ^ Z.of_nat n.
Proof.
  unfold host_value, host_bytes.
  destruct host_order; rewrite ?rev_involutive; apply be_value_bytes.
Qed.

Lemma host_bytes_value n bs : length bs = n -> host_bytes n (host_value bs) = bs.
Proof.
  intros <-. unfold host_value, host_bytes. destruct host_order.
  - rewrite <-(length_rev bs), be_bytes_value. apply rev_involutive.
  - apply be_bytes_value.
Qed.

Lemma length_host_bytes n z : length (host_bytes n z) = n.
Proof.
  unfold host_bytes. destruct host_order; rewrite ?length_rev; apply length_be_bytes.
Qed.

Lemma host_value_in bs : 0 <= host_value bs < 256 ^ zlen bs.
Proof.
  unfold host_value. destruct host_order; [|apply be_value_in].
  pose proof (be_value_in (rev bs)) as Hb. unfold zlen in *. by rewrite length_rev in Hb.
Qed.

(** [ntohs] and [ntohl]: the value whose big-endian bytes are the bytes the
    host stores for [x]. *)
Definition ntohs (x : Z) : Z := be_value (host_bytes 2 x).
Definition ntohl (x : Z) : Z := be_value (host_bytes 4 x).

Lemma ntohs_host_value a b : ntohs (host_value [a; b]) = be16 a b.
Proof. unfold ntohs. rewrite host_bytes_value by done. by rewrite be16_val. Qed.

Lemma ntohl_host_value bs : length bs = 4%nat -> ntohl (host_value bs) = be_value bs.
Proof. intros. unfold ntohl. by rewrite host_bytes_value. Qed.

Lemma ntohs_in x : in_u16 (ntohs x).
Proof.
  pose proof (be_value_in (host_bytes 2 x)) as Hb. unfold zlen in Hb.
  by rewrite length_host_bytes in Hb.
Qed.

Lemma ntohl_in x : in_u32 (ntohl x).
Proof.
  pose proof (be_value_in (host_bytes 4 x)) as Hb. unfold zlen in Hb.
  by rewrite length_host_bytes in Hb.
Qed.
End host.
#[export] Hint Resolve ntohs_in ntohl_in : word.

(** ** Reads from a buffer *)

(** [m[p]] and [memcpy(_, m + p, n)]. *)
Definition rd (m : list byte) (p : Z) : mem byte :=
  if p <? 0 then OOB else match m !! Z.to_nat p with Some b => Val b | None => OOB end.
Definition rd_bytes (m : list byte) (p n : Z) : mem (list byte) :=
  if (0 <=? p) && (p + n <=? zlen m) then Val (slice m p n) else OOB.

(** Loads of a [uint8_t], [uint16_t] and [uint32_t] object at [m + p]. *)
Definition load8 (m : list byte) (p : Z) : mem Z := b ← rd m p; mret (bval b).
Definition load16 `{HostOrder} (m : list byte) (p : Z) : mem Z :=
  bs ← rd_bytes m p 2; mret (host_value bs).
Definition load32 `{HostOrder} (m : list byte) (p : Z) : mem Z :=
  bs ← rd_bytes m p 4; mret (host_value bs).
(** The 16-bit big-endian field at [m + p], assembled from two reads. *)
Definition load_be16 (m : list byte) (p : Z) : mem Z :=
  a ← rd m p; b ← rd m (p + 1); mret (be16 a b).

Section reads.
Implicit Types (m : list byte) (p n : Z).

Lemma rd_in m p : 0 <= p < zlen m -> exists b, rd m p = Val b /\ m !! Z.to_nat p = Some b.
Proof.
  intros Hp. unfold rd, zlen in *.
  destruct (m !! Z.to_nat p) as [b|] eqn:E.
  - exists b. replace (p <? 0) with false by (symmetry; lia). done.
  - apply lookup_ge_None in E. lia.
Qed.

Lemma wpm_rd m p (Q : byte -> Prop) : 0 <= p < zlen m -> (forall b, Q b) -> wpm (rd m p) Q.
Proof. intros Hp HQ. destruct (rd_in m p Hp) as (b & -> & _). apply HQ. Qed.

Lemma wpm_load8 m p (Q : Z -> Prop) :
  0 <= p < zlen m -> (forall z, in_u8 z -> Q z) -> wpm (load8 m p) Q.
Proof. intros. apply wpm_bind, wpm_rd; [done|]. intros. apply wpm_ret. auto with word. Qed.

Lemma wpm_rd_bytes m p n (Q : list byte -> Prop) :
  0 <= p -> 0 <= n -> p + n <= zlen m -> (forall bs, zlen bs = n -> Q bs) ->
  wpm (rd_bytes m p n) Q.
Proof.
  intros. unfold rd_bytes. replace (_ && _) with true by (symmetry; lia).
  simpl. auto using zlen_slice.
Qed.

Lemma rd_bytes_zlen m p n bs : 0 <= n -> rd_bytes m p n = Val bs -> zlen bs = n.
Proof.
  intros Hn. unfold rd_bytes. destruct (_ && _) eqn:E; [|done]. intros [= <-].
  apply andb_true_iff in E as [? ?]. apply zlen_slice; lia.
Qed.

Lemma wpm_load_be16 m p (Q : Z -> Prop) :
  0 <= p -> p + 2 <= zlen m -> (forall z, in_u16 z -> Q z) -> wpm (load_be16 m p) Q.
Proof.
  intros. do 2 (apply wpm_bind, wpm_rd; [lia|]; intros). apply wpm_ret. auto with word.
Qed.

Context {H : HostOrder}.

Lemma wpm_load16 m p (Q : Z -> Prop) :
  0 <= p -> p + 2 <= zlen m -> (forall z, in_u16 z -> Q z) -> wpm (load16 m p) Q.
Proof.
  intros ? ? HQ. apply wpm_bind, wpm_rd_bytes; [lia..|]. intros bs Hbs. apply wpm_ret, HQ.
  pose proof (host_value_in bs) as Hv. by rewrite Hbs in Hv.
Qed.

Lemma wpm_load32 m p (Q : Z -> Prop) :
  0 <= p -> p + 4 <= zlen m -> (forall z, in_u32 z -> Q z) -> wpm (load32 m p) Q.
Proof.
  intros ? ? HQ. apply wpm_bind, wpm_rd_bytes; [lia..|]. intros bs Hbs. apply wpm_ret, HQ.
  pose proof (host_value_in bs) as Hv. by rewrite Hbs in Hv.
Qed.
End reads.
