(* ===== verification/Containers.v ===== *)
(** * What the C++ library leaves open: map iteration and sorting

    An [std::unordered_map] is a finite map whose loops enumerate the entries in
    an unspecified order ([iteration]).  [std::sort] and [std::partial_sort]
    leave the order of equivalent elements open: a sorter is any function with
    the guarantee [std_sort].  [keep_best] is the selection the code makes with
    them (sort, then drop what exceeds [n]), and [keep_best_spec] what it means. *)

From S2P Require Import Prelude.
From Stdlib Require Import Sorting.Sorted.
From stdpp Require Import sorting.
#[local] Open Scope Z_scope.

(** ** Iteration orders *)

Record iteration (K : Type) `{Countable K} (V : Type) := mkIteration {
  iterate : gmap K V -> list (K * V);
  iterate_perm : forall m, iterate m ≡ₚ map_to_list m;
}.
Arguments iterate {K _ _ V} _ _.
Arguments iterate_perm {K _ _ V} _ _.

Definition any_order {K} `{Countable K} {V} : iteration K V :=
  {| iterate := map_to_list; iterate_perm := fun m => Permutation_refl _ |}.

(** ** Sorting *)

(** A comparator the standard accepts, and its "not after" relation. *)
Record strict_weak {A} (cmp : A -> A -> bool) : Prop := {
  sw_asym : forall x y, cmp x y = true -> cmp y x = false;
  sw_neg_trans : forall x y z, cmp x y = false -> cmp y z = false -> cmp x z = false;
}.

Definition not_worse {A} (cmp : A -> A -> bool) (x y : A) : Prop := cmp y x = false.
#[export] Instance not_worse_dec {A} (cmp : A -> A -> bool) x y : Decision (not_worse cmp x y).
Proof. unfold not_worse. apply _. Defined.

(** What the standard promises: a permutation without an inversion. *)
Record std_sort {A} (sorter : (A -> A -> bool) -> list A -> list A) : Prop := {
  std_perm : forall cmp l, sorter cmp l ≡ₚ l;
  std_sorted : forall cmp l, strict_weak cmp -> StronglySorted (not_worse cmp) (sorter cmp l);
}.

(** Merge sort is one such algorithm. *)
Definition merge_sorter {A} (cmp : A -> A -> bool) (l : list A) : list A :=
  merge_sort (not_worse cmp) l.

Lemma merge_sorter_std {A} : std_sort (@merge_sorter A).
Proof.
  constructor.
  - intros. apply merge_sort_Permutation.
  - intros cmp l [Ha Hn]. apply StronglySorted_merge_sort.
    + intros x y z Hxy Hyz. by apply (Hn z y x).
    + intros x y. destruct (cmp y x) eqn:E; [right; by apply Ha|by left].
Qed.

Lemma StronglySorted_weaken {A} (R R' : A -> A -> Prop) l :
  (forall x y, R x y -> R' x y) -> StronglySorted R l -> StronglySorted R' l.
Proof.
  intros HR. induction 1 as [|x l _ IH Hx]; constructor; [done|]. eapply Forall_impl; [exact Hx|]. auto.
Qed.

(** Sort, then keep at most [n]: [sort; if (v.size() > n) v.resize(n)], and the
    [partial_sort] of the first [n]. *)
Definition keep_best {A} (sorter : (A -> A -> bool) -> list A -> list A) (cmp : A -> A -> bool)
    (n : Z) (l : list A) : list A :=
  let sorted := sorter cmp l in
  if n <? zlen l then firstn (Z.to_nat n) sorted else sorted.

Lemma StronglySorted_app_rel {A} (R : A -> A -> Prop) l k :
  StronglySorted R (l ++ k) -> StronglySorted R l /\ (forall x y, x ∈ l -> y ∈ k -> R x y).
Proof.
  induction l as [|a l IH]; intros Hs; [split; [constructor|intros x y Hx; by apply not_elem_of_nil in Hx]|].
  inversion Hs as [|? ? Hs' Hall]; subst. destruct (IH Hs') as [H1 H2].
  apply Forall_app in Hall as [Hl Hk]. split; [by constructor|].
  intros x y [->|Hx]%elem_of_cons Hy; [by apply (proj1 (Forall_forall _ _) Hk)|by apply H2].
Qed.

(** [best] is a best-[n] selection of [l]: ordered, and nothing left out is
    strictly better than anything kept. *)
Definition best_of {A} (cmp : A -> A -> bool) (n : Z) (l best : list A) : Prop :=
  exists rest,
    best ++ rest ≡ₚ l /\ zlen best = Z.min n (zlen l) /\ StronglySorted (not_worse cmp) best /\
    (forall x y, x ∈ best -> y ∈ rest -> cmp y x = false).

Lemma keep_best_spec {A} (sorter : (A -> A -> bool) -> list A -> list A) cmp n l :
  std_sort sorter -> strict_weak cmp -> 0 <= n -> best_of cmp n l (keep_best sorter cmp n l).
Proof.
  intros [Hperm Hsort] Hcmp Hn. specialize (Hperm cmp l). specialize (Hsort cmp l Hcmp).
  unfold keep_best. set (sorted := sorter cmp l) in *.
  assert (Hl : (if n <? zlen l then firstn (Z.to_nat n) sorted else sorted) =
               firstn (Z.to_nat (Z.min n (zlen sorted))) sorted).
  { assert (Hz : zlen sorted = zlen l) by (by rewrite Hperm). rewrite Hz.
    destruct (n <? zlen l) eqn:E; breflect; [f_equal; lia|].
    rewrite take_ge; [done|]. unfold zlen in *. lia. }
  rewrite Hl. exists (skipn (Z.to_nat (Z.min n (zlen sorted))) sorted). rewrite take_drop.
  rewrite <-(take_drop (Z.to_nat (Z.min n (zlen sorted))) sorted) in Hsort.
  apply StronglySorted_app_rel in Hsort as [H1 H2]. split_and!; [done| |done|done].
  rewrite zlen_take, <-Hperm. pose proof (zlen_nonneg sorted). lia.
Qed.

(** Selection depends only on the elements, not on their order. *)
Lemma best_of_perm {A} (cmp : A -> A -> bool) n l l' best :
  l ≡ₚ l' -> best_of cmp n l best -> best_of cmp n l' best.
Proof. intros Hp (rest & H1 & H2 & H3 & H4). exists rest. split_and!; [by rewrite H1|by rewrite <-Hp|done..]. Qed.

(** Decreasing by a measure is a strict weak order. *)
Lemma strict_weak_measure {A} (f : A -> Z) : strict_weak (fun x y => f y <? f x).
Proof. constructor; intros *; lia. Qed.
