(* ===== verification/Protocol.v ===== *)
(** * Wire headers and the decoded packet

    The model of [include/protocol.hpp]: protocol constants, the packed header
    structs with their accessors, [IpAddress] and [DecodedPacket].  A header
    struct is loaded from the capture buffer the way the packed C++ struct is
    read through [reinterpret_cast]: every multi-byte field keeps the value the
    host would load, and [ntohs]/[ntohl] are applied where the code applies
    them. *)

From S2P Require Import Prelude.
From S2P Require Import Machine.
#[local] Open Scope Z_scope.

(** ** Constants *)

Definition ETHERTYPE_IPV4 : Z := 0x0800.
Definition ETHERTYPE_ARP : Z := 0x0806.
Definition ETHERTYPE_IPV6 : Z := 0x86DD.
Definition ETHERTYPE_VLAN : Z := 0x8100.
Definition ETHERTYPE_QINQ : Z := 0x88A8.

Definition IPPROTO_HOPOPTS_ : Z := 0.
Definition IPPROTO_ICMP_ : Z := 1.
Definition IPPROTO_TCP_ : Z := 6.
Definition IPPROTO_UDP_ : Z := 17.
Definition IPPROTO_IPV6_ROUTE_ : Z := 43.
Definition IPPROTO_IPV6_FRAG_ : Z := 44.
Definition IPPROTO_ICMPV6_ : Z := 58.
Definition IPPROTO_NONXT_ : Z := 59.
Definition IPPROTO_DSTOPTS_ : Z := 60.

Definition TH_FIN : Z := 0x01.
Definition TH_SYN : Z := 0x02.
Definition TH_RST : Z := 0x04.
Definition TH_PSH : Z := 0x08.
Definition TH_ACK : Z := 0x10.
Definition TH_URG : Z := 0x20.
Definition TH_ECE : Z := 0x40.
Definition TH_CWR : Z := 0x80.

Lemma ETHERTYPE_IPV4_in : in_u16 ETHERTYPE_IPV4. Proof. done. Qed.
Lemma ETHERTYPE_IPV6_in : in_u16 ETHERTYPE_IPV6. Proof. done. Qed.
#[export] Hint Resolve ETHERTYPE_IPV4_in ETHERTYPE_IPV6_in : word.

(** [flags & bit] as a condition. *)
Definition has_flag (flags bit : Z) : bool := negb (Z.land flags bit =? 0).

(** ** Header structs *)

Record EthernetHeader := mkEthernetHeader {
  eth_dst : list byte;
  eth_src : list byte;
  eth_ethertype : Z;
}.
Definition sizeof_EthernetHeader : Z := 14.

Record VlanTag := mkVlanTag { vlan_tci : Z; vlan_inner_ethertype : Z }.
Definition sizeof_VlanTag : Z := 4.

Record Ipv4Header := mkIpv4Header {
  ip4_ver_ihl : Z;
  ip4_tos : Z;
  ip4_total_len : Z;
  ip4_id : Z;
  ip4_flags_frag : Z;
  ip4_ttl : Z;
  ip4_proto : Z;
  ip4_checksum : Z;
  ip4_src : Z;
  ip4_dst : Z;
}.
Definition sizeof_Ipv4Header : Z := 20.

Record Ipv6Header := mkIpv6Header {
  ip6_ver_tc_flow : Z;
  ip6_payload_len : Z;
  ip6_next_header : Z;
  ip6_hop_limit : Z;
  ip6_src : list byte;
  ip6_dst : list byte;
}.
Definition sizeof_Ipv6Header : Z := 40.

Record TcpHeader := mkTcpHeader {
  th_sport : Z;
  th_dport : Z;
  th_seq : Z;
  th_ack : Z;
  th_offset_ns : Z;
  th_flags : Z;
  th_window : Z;
  th_checksum : Z;
  th_urgent_ptr : Z;
}.
Definition sizeof_TcpHeader : Z := 20.

Record UdpHeader := mkUdpHeader { uh_sport : Z; uh_dport : Z; uh_len : Z; uh_checksum : Z }.
Definition sizeof_UdpHeader : Z := 8.

Section headers.
Context {H : HostOrder}.

Definition ip4_version (ip : Ipv4Header) : Z := Z.shiftr ip.(ip4_ver_ihl) 4.
Definition ip4_header_len (ip : Ipv4Header) : Z := u8 (Z.land ip.(ip4_ver_ihl) 0x0F * 4).
Definition ip4_dont_fragment (ip : Ipv4Header) : bool :=
  negb (Z.land (ntohs ip.(ip4_flags_frag)) 0x4000 =? 0).
Definition ip4_more_fragments (ip : Ipv4Header) : bool :=
  negb (Z.land (ntohs ip.(ip4_flags_frag)) 0x2000 =? 0).
Definition ip4_frag_offset (ip : Ipv4Header) : Z :=
  u16 (Z.land (ntohs ip.(ip4_flags_frag)) 0x1FFF * 8).
Definition ip4_dscp (ip : Ipv4Header) : Z := u8 (Z.shiftr ip.(ip4_tos) 2).
Definition ip6_version (ip6 : Ipv6Header) : Z :=
  u8 (Z.shiftr (ntohl ip6.(ip6_ver_tc_flow)) 28).
Definition tcp_header_len (tcp : TcpHeader) : Z := u8 (Z.shiftr tcp.(th_offset_ns) 4 * 4).

(** The packed structs, loaded field by field from [m + p]. *)
Definition load_EthernetHeader (m : list byte) (p : Z) : mem EthernetHeader :=
  dst ← rd_bytes m p 6; src ← rd_bytes m (p + 6) 6; ty ← load16 m (p + 12);
  mret (mkEthernetHeader dst src ty).

Definition load_VlanTag (m : list byte) (p : Z) : mem VlanTag :=
  tci ← load16 m p; inner ← load16 m (p + 2); mret (mkVlanTag tci inner).

Definition load_Ipv4Header (m : list byte) (p : Z) : mem Ipv4Header :=
  ver_ihl ← load8 m p; tos ← load8 m (p + 1); total_len ← load16 m (p + 2);
  id ← load16 m (p + 4); flags_frag ← load16 m (p + 6); ttl ← load8 m (p + 8);
  proto ← load8 m (p + 9); checksum ← load16 m (p + 10);
  src ← load32 m (p + 12); dst ← load32 m (p + 16);
  mret (mkIpv4Header ver_ihl tos total_len id flags_frag ttl proto checksum src dst).

Definition load_Ipv6Header (m : list byte) (p : Z) : mem Ipv6Header :=
  vtf ← load32 m p; plen ← load16 m (p + 4); next ← load8 m (p + 6);
  hop ← load8 m (p + 7); src ← rd_bytes m (p + 8) 16; dst ← rd_bytes m (p + 24) 16;
  mret (mkIpv6Header vtf plen next hop src dst).

Definition load_TcpHeader (m : list byte) (p : Z) : mem TcpHeader :=
  sport ← load16 m p; dport ← load16 m (p + 2); sq ← load32 m (p + 4);
  ack ← load32 m (p + 8); off ← load8 m (p + 12); flags ← load8 m (p + 13);
  window ← load16 m (p + 14); checksum ← load16 m (p + 16); urg ← load16 m (p + 18);
  mret (mkTcpHeader sport dport sq ack off flags window checksum urg).

Definition load_UdpHeader (m : list byte) (p : Z) : mem UdpHeader :=
  sport ← load16 m p; dport ← load16 m (p + 2); len ← load16 m (p + 4);
  checksum ← load16 m (p + 6); mret (mkUdpHeader sport dport len checksum).
End headers.

(** ** Addresses *)

Module L3Proto.
Inductive t := Unknown | IPv4 | IPv6 | ARP.
End L3Proto.
Module L4Proto.
Inductive t := Unknown | TCP | UDP | ICMP | ICMPv6 | Other.
End L4Proto.
#[export] Instance L3Proto_eq_dec : EqDecision L3Proto.t.
Proof. solve_decision. Defined.
#[export] Instance L4Proto_eq_dec : EqDecision L4Proto.t.
Proof. solve_decision. Defined.

Record IpAddress := mkIpAddress { is_v6 : bool; ip_bytes : list byte }.
#[export] Instance IpAddress_eq_dec : EqDecision IpAddress.
Proof. solve_decision. Defined.

(** [IpAddress{}] *)
Definition ip_default : IpAddress := mkIpAddress false (replicate 16 Byte.x00).

Definition from_v4 `{HostOrder} (net_order : Z) : IpAddress :=
  mkIpAddress false (host_bytes 4 net_order ++ replicate 12 Byte.x00).
Definition from_v6 (raw : list byte) : IpAddress := mkIpAddress true raw.

Definition ip_eqb (x y : IpAddress) : bool :=
  eqb x.(is_v6) y.(is_v6) && bool_decide (x.(ip_bytes) = y.(ip_bytes)).

(** Lexicographic [operator<] of [std::array<uint8_t, 16>]. *)
Fixpoint bytes_ltb (x y : list byte) : bool :=
  match x, y with
  | _, [] => false
  | [], _ :: _ => true
  | a :: x, b :: y =>
      if bval a <? bval b then true
      else if bval b <? bval a then false else bytes_ltb x y
  end.

Definition ip_ltb (x y : IpAddress) : bool :=
  if eqb x.(is_v6) y.(is_v6) then bytes_ltb x.(ip_bytes) y.(ip_bytes) else negb x.(is_v6).

Definition ip_wf (a : IpAddress) : Prop := length a.(ip_bytes) = 16%nat.

Lemma ip_eqb_spec x y : ip_eqb x y = true <-> x = y.
Proof.
  destruct x as [v b], y as [w c]. unfold ip_eqb. simpl.
  rewrite andb_true_iff, bool_decide_eq_true, eqb_true_iff. naive_solver.
Qed.

Lemma bytes_ltb_irrefl x : bytes_ltb x x = false.
Proof. induction x as [|a x IH]; simpl; [done|]. by rewrite Z.ltb_irrefl. Qed.

Lemma bytes_ltb_asym x y : bytes_ltb x y = true -> bytes_ltb y x = false.
Proof.
  revert y. induction x as [|a x IH]; intros [|b y]; simpl; try done.
  destruct (bval a <? bval b) eqn:?, (bval b <? bval a) eqn:?; breflect; try done; [lia|auto].
Qed.

Lemma bytes_ltb_total x y :
  length x = length y -> bytes_ltb x y = false -> bytes_ltb y x = false -> x = y.
Proof.
  revert y. induction x as [|a x IH]; intros [|b y]; simpl; try done. intros [= Hl].
  destruct (bval a <? bval b) eqn:?, (bval b <? bval a) eqn:?; breflect; try done.
  intros. f_equal; [apply bval_inj; lia|auto].
Qed.

Lemma ip_ltb_irrefl x : ip_ltb x x = false.
Proof. unfold ip_ltb. by rewrite eqb_reflx, bytes_ltb_irrefl. Qed.

Lemma ip_ltb_asym x y : ip_ltb x y = true -> ip_ltb y x = false.
Proof.
  unfold ip_ltb. destruct x as [[] b], y as [[] c]; simpl; try done; apply bytes_ltb_asym.
Qed.

Lemma ip_ltb_total x y :
  ip_wf x -> ip_wf y -> ip_ltb x y = false -> ip_ltb y x = false -> x = y.
Proof.
  unfold ip_ltb, ip_wf. destruct x as [[] b], y as [[] c]; simpl; try done;
    intros; f_equal; apply bytes_ltb_total; congruence.
Qed.

Lemma from_v4_wf `{HostOrder} z : ip_wf (from_v4 z).
Proof. unfold ip_wf, from_v4. cbn [ip_bytes]. rewrite length_app, length_host_bytes. done. Qed.

(** ** The decoded packet *)

Record timeval := mkTimeval { tv_sec : Z; tv_usec : Z }.
Definition timeval_zero : timeval := mkTimeval 0 0.

(** [payload] is the offset of the L4 payload in the capture buffer, [None]
    for [nullptr]; [error] is [None] for [nullptr]. *)
Record DecodedPacket := mkDecodedPacket {
  ts : timeval;
  caplen : Z;
  wirelen : Z;
  has_l2 : bool;
  src_mac : list byte;
  dst_mac : list byte;
  ethertype : Z;
  has_vlan : bool;
  vlan_id : Z;
  l3 : L3Proto.t;
  src_ip : IpAddress;
  dst_ip : IpAddress;
  ttl : Z;
  ip_proto : Z;
  ip_id : Z;
  dscp : Z;
  fragmented : bool;
  first_fragment : bool;
  bad_ip_checksum : bool;
  l4 : L4Proto.t;
  sport : Z;
  dport : Z;
  seqno : Z;
  ackno : Z;
  window : Z;
  tcp_flags : Z;
  icmp_type : Z;
  icmp_code : Z;
  payload : option Z;
  payload_len : Z;
  truncated : bool;
  error : option string;
}.

#[export] Instance DecodedPacket_eta : Eta DecodedPacket := fun p =>
  mkDecodedPacket p.(ts) p.(caplen) p.(wirelen) p.(has_l2) p.(src_mac) p.(dst_mac)
    p.(ethertype) p.(has_vlan) p.(vlan_id) p.(l3) p.(src_ip) p.(dst_ip) p.(ttl)
    p.(ip_proto) p.(ip_id) p.(dscp) p.(fragmented) p.(first_fragment)
    p.(bad_ip_checksum) p.(l4) p.(sport) p.(dport) p.(seqno) p.(ackno) p.(window)
    p.(tcp_flags) p.(icmp_type) p.(icmp_code) p.(payload) p.(payload_len)
    p.(truncated) p.(error).

(** [DecodedPacket{}] *)
Definition packet_default : DecodedPacket :=
  mkDecodedPacket timeval_zero 0 0 false (replicate 6 Byte.x00) (replicate 6 Byte.x00)
    0 false 0 L3Proto.Unknown ip_default ip_default 0 0 0 0 false true false
    L4Proto.Unknown 0 0 0 0 0 0 0 0 None 0 false None.

Definition has_ports (p : DecodedPacket) : bool :=
  match p.(l4) with L4Proto.TCP | L4Proto.UDP => true | _ => false end.

(** ** Bounds of the header accessors *)

Lemma land_ones_mod z n : 0 <= n -> Z.land z (2 ^ n - 1) = z mod 2 ^ n.
Proof. intros. rewrite <-Z.land_ones by done. f_equal. rewrite Z.ones_equiv. lia. Qed.

Section bounds.
Context {H : HostOrder}.

Lemma vlan_id_bounds z : 0 <= u16 (Z.land z 0x0FFF) < 4096.
Proof.
  change 0x0FFF with (2 ^ 12 - 1). rewrite land_ones_mod by lia.
  change (2 ^ 12) with 4096. pose proof (Z.mod_pos_bound z 4096 ltac:(lia)).
  rewrite u16_id; unfold in_u16; lia.
Qed.

Lemma ip4_header_len_bounds ip : 0 <= ip4_header_len ip <= 60.
Proof.
  unfold ip4_header_len. change 0x0F with (2 ^ 4 - 1). rewrite land_ones_mod by lia.
  change (2 ^ 4) with 16. pose proof (Z.mod_pos_bound (ip4_ver_ihl ip) 16 ltac:(lia)).
  rewrite u8_id; unfold in_u8; lia.
Qed.

Lemma tcp_header_len_bounds tcp : in_u8 tcp.(th_offset_ns) -> 0 <= tcp_header_len tcp <= 60.
Proof.
  unfold in_u8, tcp_header_len. intros. rewrite Z.shiftr_div_pow2 by lia.
  change (2 ^ 4) with 16.
  assert (0 <= th_offset_ns tcp / 16 < 16) by (split; [apply Z.div_pos|apply Z.div_lt_upper_bound]; lia).
  rewrite u8_id; unfold in_u8; lia.
Qed.

Lemma ip4_dscp_bounds ip : in_u8 ip.(ip4_tos) -> 0 <= ip4_dscp ip < 64.
Proof.
  unfold in_u8, ip4_dscp. intros. rewrite Z.shiftr_div_pow2 by lia.
  change (2 ^ 2) with 4.
  assert (0 <= ip4_tos ip / 4 < 64) by (split; [apply Z.div_pos|apply Z.div_lt_upper_bound]; lia).
  rewrite u8_id; unfold in_u8; lia.
Qed.
End bounds.
