(* ===== verification/Parser.v ===== *)
(** * The frame decoder

    The model of [src/parser.cpp]: the bounds-checked [Cursor], the IPv6
    extension-header walk, [decode_l4], [decode_l3] and [decode_packet], the
    internet checksum and the display helpers.  The capture buffer is a byte
    list [m]; a pointer into it is an offset.  A dereference outside [m] is
    [OOB], so "never walks off the end of the buffer" is the statement that the
    decoder returns [Val _]. *)

From S2P Require Import Prelude.
From S2P Require Import Machine.
From S2P Require Import Protocol.
#[local] Open Scope Z_scope.

(** ** Link types *)

Module LinkType.
Inductive t := Null | Ethernet | Raw | LinuxSll | LinuxSll2.
(** [static_cast<LinkType>(linktype)] followed by the switch's cases. *)
Definition of_int (z : Z) : option t :=
  if z =? 0 then Some Null
  else if z =? 1 then Some Ethernet
  else if z =? 101 then Some Raw
  else if z =? 113 then Some LinuxSll
  else if z =? 276 then Some LinuxSll2
  else None.
End LinkType.

(** ** Display helpers *)

Definition L3Proto_to_string (p : L3Proto.t) : string :=
  match p with
  | L3Proto.IPv4 => "IPv4" | L3Proto.IPv6 => "IPv6" | L3Proto.ARP => "ARP"
  | _ => "?"
  end.

Definition L4Proto_to_string (p : L4Proto.t) : string :=
  match p with
  | L4Proto.TCP => "TCP" | L4Proto.UDP => "UDP" | L4Proto.ICMP => "ICMP"
  | L4Proto.ICMPv6 => "ICMPv6" | L4Proto.Other => "OTHER"
  | _ => "?"
  end.

Definition tcp_flag_string (p : DecodedPacket) : string :=
  if decide (p.(l4) <> L4Proto.TCP) then "" else
  let flag bit (c : string) := if has_flag p.(tcp_flags) bit then c else "" in
  let s := (flag TH_SYN "S" +:+ flag TH_ACK "A" +:+ flag TH_PSH "P" +:+ flag TH_FIN "F" +:+
            flag TH_RST "R" +:+ flag TH_URG "U" +:+ flag TH_ECE "E" +:+ flag TH_CWR "C")%string in
  if decide (s = "") then "." else s.

Definition service_name (port : Z) (proto : L4Proto.t) : option string :=
  match proto with
  | L4Proto.TCP =>
      if (port =? 20) || (port =? 21) then Some "ftp"%string
      else if port =? 22 then Some "ssh"%string
      else if port =? 23 then Some "telnet"%string
      else if port =? 25 then Some "smtp"%string
      else if port =? 80 then Some "http"%string
      else if port =? 110 then Some "pop3"%string
      else if port =? 143 then Some "imap"%string
      else if port =? 443 then Some "https"%string
      else if port =? 445 then Some "smb"%string
      else if port =? 587 then Some "submission"%string
      else if port =? 993 then Some "imaps"%string
      else if port =? 3306 then Some "mysql"%string
      else if port =? 5432 then Some "postgres"%string
      else if port =? 6379 then Some "redis"%string
      else if port =? 8080 then Some "http-alt"%string
      else if port =? 8443 then Some "https-alt"%string
      else if port =? 27017 then Some "mongo"%string
      else None
  | L4Proto.UDP =>
      if port =? 53 then Some "dns"%string
      else if (port =? 67) || (port =? 68) then Some "dhcp"%string
      else if port =? 123 then Some "ntp"%string
      else if port =? 161 then Some "snmp"%string
      else if port =? 443 then Some "quic"%string
      else if port =? 500 then Some "isakmp"%string
      else if port =? 1900 then Some "ssdp"%string
      else if port =? 5353 then Some "mdns"%string
      else None
  | _ => None
  end.

(** ** Internet checksum (RFC 1071) *)

(** The [while (len > 1)] loop and the odd trailing byte, in [uint32_t]. *)
Fixpoint checksum_loop (m : list byte) (p : Z) (len : nat) (sum : Z) : mem Z :=
  match len with
  | S (S n) =>
      w ← load_be16 m p;
      checksum_loop m (p + 2) n (u32 (sum + w))
  | S O => b ← rd m p; mret (u32 (sum + Z.shiftl (bval b) 8))
  | O => mret sum
  end.

(** [while (sum >> 16) sum = (sum & 0xFFFF) + (sum >> 16);] *)
Fixpoint fold_carries (fuel : nat) (sum : Z) : Z :=
  if Z.shiftr sum 16 =? 0 then sum else
  match fuel with
  | O => sum
  | S fuel => fold_carries fuel (Z.land sum 0xFFFF + Z.shiftr sum 16)
  end.

Definition internet_checksum (m : list byte) (data len : Z) : mem Z :=
  sum ← checksum_loop m data (Z.to_nat len) 0;
  mret (u16 (Z.lnot (fold_carries 3 sum))).

(** ** Cursor *)

Record Cursor := mkCursor { cur_p : Z; cur_left : Z }.

Definition take (cur : Cursor) (n : Z) : option Z * Cursor :=
  if cur.(cur_left) <? n then (None, cur)
  else (Some cur.(cur_p), mkCursor (cur.(cur_p) + n) (cur.(cur_left) - n)).

Definition skip (cur : Cursor) (n : Z) : bool * Cursor :=
  let '(r, cur') := take cur n in (bool_decide (is_Some r), cur').

(** ** Decoding *)

Section decode.
Context {H : HostOrder}.
Variable m : list byte.

(** The walk over IPv6 extension headers.  [hops] counts down the remaining
    iterations of [for (int hops = 0; hops < 8; ++hops)]; the by-reference
    flags live in the packet being decoded, as at the only call site. *)
Fixpoint ipv6_walk (hops : nat) (cur : Cursor) (next : Z) (out : DecodedPacket)
    : mem (Z * Cursor * DecodedPacket) :=
  match hops with
  | O => mret (IPPROTO_NONXT_, cur, out)
  | S hops =>
      if (next =? IPPROTO_HOPOPTS_) || (next =? IPPROTO_IPV6_ROUTE_) ||
         (next =? IPPROTO_DSTOPTS_) then
        match take cur 2 with
        | (None, cur) => mret (IPPROTO_NONXT_, cur, out <| truncated := true |>)
        | (Some h, cur) =>
            h0 ← rd m h; h1 ← rd m (h + 1);
            let ext_len := u32 (bval h1 * 8 + 6) in
            match skip cur ext_len with
            | (false, cur) => mret (IPPROTO_NONXT_, cur, out <| truncated := true |>)
            | (true, cur) => ipv6_walk hops cur (bval h0) out
            end
        end
      else if next =? IPPROTO_IPV6_FRAG_ then
        match take cur 8 with
        | (None, cur) => mret (IPPROTO_NONXT_, cur, out <| truncated := true |>)
        | (Some h, cur) =>
            let out := out <| fragmented := true |> in
            w ← load_be16 m (h + 2);
            let off := u16 (Z.land w 0xFFF8) in
            let out := out <| first_fragment := off =? 0 |> in
            h0 ← rd m h;
            ipv6_walk hops cur (bval h0) out
        end
      else mret (next, cur, out)
  end.

Definition resolve_ipv6_next : Cursor -> Z -> DecodedPacket -> mem (Z * Cursor * DecodedPacket) :=
  ipv6_walk 8.

(** The rest of the buffer as the payload. *)
Definition rest_as_payload (cur : Cursor) (out : DecodedPacket) : DecodedPacket :=
  out <| payload := Some cur.(cur_p) |> <| payload_len := cur.(cur_left) |>.

Definition decode_l4 (cur : Cursor) (out : DecodedPacket) : mem (bool * DecodedPacket) :=
  if out.(ip_proto) =? IPPROTO_TCP_ then
    let out := out <| l4 := L4Proto.TCP |> in
    match take cur sizeof_TcpHeader with
    | (None, _) => mret (true, out <| truncated := true |>)
    | (Some raw, cur) =>
        tcp ← load_TcpHeader m raw;
        let out := out <| sport := ntohs tcp.(th_sport) |> <| dport := ntohs tcp.(th_dport) |>
                       <| seqno := ntohl tcp.(th_seq) |> <| ackno := ntohl tcp.(th_ack) |>
                       <| window := ntohs tcp.(th_window) |> <| tcp_flags := tcp.(th_flags) |> in
        let hlen := tcp_header_len tcp in
        if hlen <? sizeof_TcpHeader then
          mret (true, out <| error := Some "bad TCP data offset"%string |>)
        else match skip cur (hlen - sizeof_TcpHeader) with
        | (false, _) => mret (true, out <| truncated := true |>)
        | (true, cur) => mret (true, rest_as_payload cur out)
        end
    end
  else if out.(ip_proto) =? IPPROTO_UDP_ then
    let out := out <| l4 := L4Proto.UDP |> in
    match take cur sizeof_UdpHeader with
    | (None, _) => mret (true, out <| truncated := true |>)
    | (Some raw, cur) =>
        udp ← load_UdpHeader m raw;
        let out := out <| sport := ntohs udp.(uh_sport) |> <| dport := ntohs udp.(uh_dport) |>
                       <| payload := Some cur.(cur_p) |> in
        let dlen := ntohs udp.(uh_len) in
        let declared := if sizeof_UdpHeader <=? dlen then dlen - sizeof_UdpHeader else 0 in
        mret (true, out <| payload_len := if declared <? cur.(cur_left) then declared
                                          else cur.(cur_left) |>)
    end
  else if (out.(ip_proto) =? IPPROTO_ICMP_) || (out.(ip_proto) =? IPPROTO_ICMPV6_) then
    let out := out <| l4 := if out.(ip_proto) =? IPPROTO_ICMP_ then L4Proto.ICMP
                            else L4Proto.ICMPv6 |> in
    match take cur 4 with
    | (None, _) => mret (true, out <| truncated := true |>)
    | (Some raw, cur) =>
        ty ← rd m raw; code ← rd m (raw + 1);
        let out := out <| icmp_type := bval ty |> <| icmp_code := bval code |> in
        mret (true, rest_as_payload cur out)
    end
  else mret (true, rest_as_payload cur (out <| l4 := L4Proto.Other |>)).

Definition decode_ipv4 (cur : Cursor) (out : DecodedPacket) : mem (bool * DecodedPacket) :=
  match take cur sizeof_Ipv4Header with
  | (None, _) => mret (false, out <| error := Some "truncated IPv4 header"%string |>)
  | (Some raw, cur) =>
      ip ← load_Ipv4Header m raw;
      if negb (ip4_version ip =? 4) then
        mret (false, out <| error := Some "IPv4 version mismatch"%string |>)
      else
      let hlen := ip4_header_len ip in
      if hlen <? sizeof_Ipv4Header then
        mret (false, out <| error := Some "bad IPv4 IHL"%string |>)
      else
      let out := out <| l3 := L3Proto.IPv4 |>
                     <| src_ip := from_v4 ip.(ip4_src) |> <| dst_ip := from_v4 ip.(ip4_dst) |>
                     <| ttl := ip.(ip4_ttl) |> <| ip_proto := ip.(ip4_proto) |>
                     <| ip_id := ntohs ip.(ip4_id) |> <| dscp := ip4_dscp ip |>
                     <| fragmented := ip4_more_fragments ip || (0 <? ip4_frag_offset ip) |>
                     <| first_fragment := ip4_frag_offset ip =? 0 |> in
      out ← (if hlen <=? cur.(cur_left) + sizeof_Ipv4Header then
               ck ← internet_checksum m raw hlen;
               mret (out <| bad_ip_checksum := negb (ck =? 0) |>)
             else mret out);
      match skip cur (hlen - sizeof_Ipv4Header) with
      | (false, _) => mret (true, out <| truncated := true |>)
      | (true, cur) =>
          if negb out.(first_fragment) then
            mret (true, rest_as_payload cur (out <| l4 := L4Proto.Other |>))
          else decode_l4 cur out
      end
  end.

Definition decode_ipv6 (cur : Cursor) (out : DecodedPacket) : mem (bool * DecodedPacket) :=
  match take cur sizeof_Ipv6Header with
  | (None, _) => mret (false, out <| error := Some "truncated IPv6 header"%string |>)
  | (Some raw, cur) =>
      ip6 ← load_Ipv6Header m raw;
      if negb (ip6_version ip6 =? 6) then
        mret (false, out <| error := Some "IPv6 version mismatch"%string |>)
      else
      let out := out <| l3 := L3Proto.IPv6 |>
                     <| src_ip := from_v6 ip6.(ip6_src) |> <| dst_ip := from_v6 ip6.(ip6_dst) |>
                     <| ttl := ip6.(ip6_hop_limit) |> in
      '(next, cur, out) ← resolve_ipv6_next cur ip6.(ip6_next_header) out;
      let out := out <| ip_proto := next |> in
      if out.(truncated) then mret (true, out)
      else if negb out.(first_fragment) then mret (true, out <| l4 := L4Proto.Other |>)
      else decode_l4 cur out
  end.

Definition decode_l3 (cur : Cursor) (ethertype : Z) (out : DecodedPacket)
    : mem (bool * DecodedPacket) :=
  if ethertype =? ETHERTYPE_ARP then
    mret (true, out <| l3 := L3Proto.ARP |> <| l4 := L4Proto.Unknown |>)
  else if ethertype =? ETHERTYPE_IPV4 then decode_ipv4 cur out
  else if ethertype =? ETHERTYPE_IPV6 then decode_ipv6 cur out
  else mret (false, out <| l3 := L3Proto.Unknown |>
                        <| error := Some "unsupported ethertype"%string |>).

(** The VLAN loop: at most [n] more tags.  [None] is the early
    [return false]; [out] then carries the error. *)
Fixpoint unwrap_vlan (n : nat) (cur : Cursor) (ety : Z) (out : DecodedPacket)
    : mem (option (Cursor * Z) * DecodedPacket) :=
  match n with
  | O => mret (Some (cur, ety), out)
  | S n =>
      if (ety =? ETHERTYPE_VLAN) || (ety =? ETHERTYPE_QINQ) then
        match take cur sizeof_VlanTag with
        | (None, _) => mret (None, out <| error := Some "truncated VLAN tag"%string |>)
        | (Some vraw, cur) =>
            vlan ← load_VlanTag m vraw;
            let out := out <| has_vlan := true |>
                           <| vlan_id := u16 (Z.land (ntohs vlan.(vlan_tci)) 0x0FFF) |> in
            unwrap_vlan n cur (ntohs vlan.(vlan_inner_ethertype)) out
        end
      else mret (Some (cur, ety), out)
  end.

(** The link-layer switch: the cursor past the link header and the ethertype,
    or an early [return false]. *)
Definition decode_l2 (linktype : Z) (cur : Cursor) (out : DecodedPacket)
    : mem (option (Cursor * Z) * DecodedPacket) :=
  let fail msg out := mret (None, out <| error := Some msg |>) in
  match LinkType.of_int linktype with
  | Some LinkType.Ethernet =>
      match take cur sizeof_EthernetHeader with
      | (None, _) => fail "truncated Ethernet header"%string out
      | (Some raw, cur) =>
          eth ← load_EthernetHeader m raw;
          let out := out <| has_l2 := true |> <| dst_mac := eth.(eth_dst) |>
                         <| src_mac := eth.(eth_src) |> in
          '(r, out) ← unwrap_vlan 2 cur (ntohs eth.(eth_ethertype)) out;
          match r with
          | None => mret (None, out)
          | Some (cur, ety) => mret (Some (cur, ety), out <| ethertype := ety |>)
          end
      end
  | Some LinkType.LinuxSll =>
      match take cur 16 with
      | (None, _) => fail "truncated SLL header"%string out
      | (Some raw, cur) =>
          ety ← load_be16 m (raw + 14);
          mret (Some (cur, ety), out <| ethertype := ety |>)
      end
  | Some LinkType.LinuxSll2 =>
      match take cur 20 with
      | (None, _) => fail "truncated SLL2 header"%string out
      | (Some raw, cur) =>
          ety ← load_be16 m raw;
          mret (Some (cur, ety), out <| ethertype := ety |>)
      end
  | Some LinkType.Null =>
      match take cur 4 with
      | (None, _) => fail "truncated loopback header"%string out
      | (Some raw, cur) =>
          family ← load32 m raw;
          let ety := if family =? 2 then ETHERTYPE_IPV4 else ETHERTYPE_IPV6 in
          mret (Some (cur, ety), out <| ethertype := ety |>)
      end
  | Some LinkType.Raw =>
      if cur.(cur_left) <? 1 then fail "empty raw frame"%string out else
      b ← rd m cur.(cur_p);
      let ety := if Z.shiftr (bval b) 4 =? 6 then ETHERTYPE_IPV6 else ETHERTYPE_IPV4 in
      mret (Some (cur, ety), out <| ethertype := ety |>)
  | None => fail "unsupported link type"%string out
  end.
End decode.

(** [decode_packet(data, caplen, wirelen, ts, linktype, out)]: [data] is [None]
    for [nullptr]; the returned packet is the final value of [out]. *)
Definition decode_packet `{HostOrder} (data : option (list byte)) (caplen wirelen : Z)
    (ts : timeval) (linktype : Z) : mem (bool * DecodedPacket) :=
  let out := packet_default <| Protocol.ts := ts |> <| Protocol.caplen := caplen |>
                            <| Protocol.wirelen := wirelen |> in
  match data with
  | None => mret (false, out <| error := Some "empty frame"%string |>)
  | Some m =>
      if caplen =? 0 then mret (false, out <| error := Some "empty frame"%string |>) else
      '(r, out) ← decode_l2 m linktype (mkCursor 0 caplen) out;
      match r with
      | None => mret (false, out)
      | Some (cur, ety) => decode_l3 m cur ety out
      end
  end.
