(* ===== verification/ParserSafe.v ===== *)
(** * Memory safety and well-formedness of the decoder

    Every read of the decoder goes through [take], so it stays inside the
    captured bytes whatever the frame holds; the packet it fills in is
    well-formed: every field fits its C++ type and the payload lies inside the
    capture.  The proofs are weakest-precondition style ([wpm]), one lemma per
    function of [Parser]. *)

From S2P Require Import Prelude.
From S2P Require Import Machine.
From S2P Require Import Protocol.
From S2P Require Import Parser.
#[local] Open Scope Z_scope.

(** ** Invariants *)

(** [cur] covers exactly the bytes of the capture it has not handed out. *)
Definition cursor_ok (cap : Z) (cur : Cursor) : Prop :=
  0 <= cur.(cur_p) /\ 0 <= cur.(cur_left) /\ cur.(cur_p) + cur.(cur_left) = cap.

(** The payload span of a packet lies inside the capture. *)
Definition payload_ok (cap : Z) (p : DecodedPacket) : Prop :=
  match p.(payload) with
  | Some q => 0 <= q /\ 0 <= p.(payload_len) /\ q + p.(payload_len) <= cap
  | None => p.(payload_len) = 0
  end.

(** Every field holds a value of its C++ type. *)
Record packet_typed (p : DecodedPacket) : Prop := {
  typed_src_mac : length p.(src_mac) = 6%nat;
  typed_dst_mac : length p.(dst_mac) = 6%nat;
  typed_ethertype : in_u16 p.(ethertype);
  typed_vlan_id : 0 <= p.(vlan_id) < 4096;
  typed_src_ip : ip_wf p.(src_ip);
  typed_dst_ip : ip_wf p.(dst_ip);
  typed_ttl : in_u8 p.(ttl);
  typed_ip_proto : in_u8 p.(ip_proto);
  typed_ip_id : in_u16 p.(ip_id);
  typed_dscp : 0 <= p.(dscp) < 64;
  typed_sport : in_u16 p.(sport);
  typed_dport : in_u16 p.(dport);
  typed_seqno : in_u32 p.(seqno);
  typed_ackno : in_u32 p.(ackno);
  typed_window : in_u16 p.(window);
  typed_tcp_flags : in_u8 p.(tcp_flags);
  typed_icmp_type : in_u8 p.(icmp_type);
  typed_icmp_code : in_u8 p.(icmp_code);
}.

(** Ports, sequence numbers and flags are only filled in for the first
    fragment of a datagram. *)
Definition ports_ok (p : DecodedPacket) : Prop :=
  p.(first_fragment) = false ->
  has_ports p = false /\ p.(sport) = 0 /\ p.(dport) = 0 /\ p.(tcp_flags) = 0.

(** The transport fields have not been written yet. *)
Definition l4_fresh (p : DecodedPacket) : Prop :=
  p.(l4) = L4Proto.Unknown /\ p.(sport) = 0 /\ p.(dport) = 0 /\ p.(tcp_flags) = 0 /\
  p.(payload) = None /\ p.(payload_len) = 0 /\ p.(error) = None.

(** What every return of the decoder guarantees. *)
Record decode_post (cap : Z) (r : bool * DecodedPacket) : Prop := {
  post_typed : packet_typed r.2;
  post_payload : payload_ok cap r.2;
  post_ports : ports_ok r.2;
  post_error : r.1 = false -> is_Some r.2.(error);
  post_partial : r.1 = true -> r.2.(error) = None \/ r.2.(error) = Some "bad TCP data offset"%string;
}.

(** ** Cursor *)

Section cursor.
Implicit Types cur : Cursor.

Lemma take_ok cap cur n r cur' :
  cursor_ok cap cur -> 0 <= n -> take cur n = (r, cur') ->
  cursor_ok cap cur' /\
  match r with
  | Some p => p = cur.(cur_p) /\ 0 <= p /\ p + n <= cap /\ cur'.(cur_p) = p + n
  | None => cur' = cur /\ cur.(cur_left) < n
  end.
Proof.
  unfold take, cursor_ok. intros (? & ? & ?) ?.
  destruct (cur_left cur <? n) eqn:?; intros [= <- <-]; breflect; simpl;
    split_and?; first [done|lia].
Qed.

Lemma skip_ok cap cur n b cur' :
  cursor_ok cap cur -> 0 <= n -> skip cur n = (b, cur') ->
  cursor_ok cap cur' /\
  (if b then cur'.(cur_p) = cur.(cur_p) + n else cur' = cur /\ cur.(cur_left) < n).
Proof.
  unfold skip. intros Hc Hn. destruct (take cur n) as [[p|] c] eqn:E; intros [= <- <-];
    destruct (take_ok _ _ _ _ _ Hc Hn E) as [Hc' Hr]; (split; [done|]); simpl.
  - destruct Hr as (-> & _ & _ & ->). done.
  - done.
Qed.

Lemma take_enough cur n :
  n <= cur.(cur_left) -> take cur n = (Some cur.(cur_p), mkCursor (cur.(cur_p) + n) (cur.(cur_left) - n)).
Proof. intros. unfold take. by replace (_ <? _) with false by (symmetry; lia). Qed.

Lemma skip_enough cur n :
  n <= cur.(cur_left) -> skip cur n = (true, mkCursor (cur.(cur_p) + n) (cur.(cur_left) - n)).
Proof. intros. unfold skip. by rewrite take_enough. Qed.
End cursor.

Ltac sizes :=
  unfold sizeof_EthernetHeader, sizeof_VlanTag, sizeof_Ipv4Header, sizeof_Ipv6Header,
    sizeof_TcpHeader, sizeof_UdpHeader in *.

(** Case analysis on a [take]/[skip] of the code under a cursor invariant. *)
Ltac take_cases :=
  match goal with
  | Hc : cursor_ok ?cap ?cur |- context [match take ?cur ?n with _ => _ end] =>
      let r := fresh "r" in let c := fresh "cur" in let E := fresh "E" in
      let Hc' := fresh "Hc" in let Hr := fresh "Hr" in
      destruct (take cur n) as [r c] eqn:E;
      apply (take_ok cap) in E as [Hc' Hr]; [|exact Hc|sizes; lia]; destruct r
  | Hc : cursor_ok ?cap ?cur |- context [match skip ?cur ?n with _ => _ end] =>
      let r := fresh "r" in let c := fresh "cur" in let E := fresh "E" in
      let Hc' := fresh "Hc" in let Hr := fresh "Hr" in
      destruct (skip cur n) as [r c] eqn:E;
      apply (skip_ok cap) in E as [Hc' Hr]; [|exact Hc|sizes; lia]; destruct r
  end.

(** ** Loads of the header structs *)

Section loads.
Context {H : HostOrder}.
Variable m : list byte.

Ltac loads :=
  repeat first
    [ apply wpm_bind, wpm_rd_bytes; [lia..|intros ? ?]
    | apply wpm_bind, wpm_load16; [lia..|intros ? ?]
    | apply wpm_bind, wpm_load32; [lia..|intros ? ?]
    | apply wpm_bind, wpm_load8; [lia..|intros ? ?]
    | apply wpm_ret ].

Lemma wpm_EthernetHeader p (Q : EthernetHeader -> Prop) :
  0 <= p -> p + sizeof_EthernetHeader <= zlen m ->
  (forall h, length h.(eth_dst) = 6%nat -> length h.(eth_src) = 6%nat -> Q h) ->
  wpm (load_EthernetHeader m p) Q.
Proof.
  unfold sizeof_EthernetHeader, load_EthernetHeader. intros ?? HQ. loads.
  unfold zlen in *. apply HQ; simpl; lia.
Qed.

Lemma wpm_VlanTag p (Q : VlanTag -> Prop) :
  0 <= p -> p + sizeof_VlanTag <= zlen m -> (forall h, Q h) -> wpm (load_VlanTag m p) Q.
Proof. unfold sizeof_VlanTag, load_VlanTag. intros ?? HQ. loads. apply HQ. Qed.

Lemma wpm_Ipv4Header p (Q : Ipv4Header -> Prop) :
  0 <= p -> p + sizeof_Ipv4Header <= zlen m ->
  (forall h, in_u8 h.(ip4_ver_ihl) -> in_u8 h.(ip4_tos) -> in_u8 h.(ip4_ttl) ->
     in_u8 h.(ip4_proto) -> Q h) ->
  wpm (load_Ipv4Header m p) Q.
Proof. unfold sizeof_Ipv4Header, load_Ipv4Header. intros ?? HQ. loads. by apply HQ. Qed.

Lemma wpm_Ipv6Header p (Q : Ipv6Header -> Prop) :
  0 <= p -> p + sizeof_Ipv6Header <= zlen m ->
  (forall h, in_u8 h.(ip6_next_header) -> in_u8 h.(ip6_hop_limit) ->
     length h.(ip6_src) = 16%nat -> length h.(ip6_dst) = 16%nat -> Q h) ->
  wpm (load_Ipv6Header m p) Q.
Proof.
  unfold sizeof_Ipv6Header, load_Ipv6Header. intros ?? HQ. loads.
  unfold zlen in *. apply HQ; simpl; first [done|lia].
Qed.

Lemma wpm_TcpHeader p (Q : TcpHeader -> Prop) :
  0 <= p -> p + sizeof_TcpHeader <= zlen m ->
  (forall h, in_u8 h.(th_offset_ns) -> in_u8 h.(th_flags) -> Q h) ->
  wpm (load_TcpHeader m p) Q.
Proof. unfold sizeof_TcpHeader, load_TcpHeader. intros ?? HQ. loads. by apply HQ. Qed.

Lemma wpm_UdpHeader p (Q : UdpHeader -> Prop) :
  0 <= p -> p + sizeof_UdpHeader <= zlen m -> (forall h, Q h) -> wpm (load_UdpHeader m p) Q.
Proof. unfold sizeof_UdpHeader, load_UdpHeader. intros ?? HQ. loads. apply HQ. Qed.

Lemma wpm_checksum_loop p len sum (Q : Z -> Prop) :
  0 <= p -> p + Z.of_nat len <= zlen m -> in_u32 sum ->
  (forall s, in_u32 s -> Q s) -> wpm (checksum_loop m p len sum) Q.
Proof.
  intros Hp Hl Hs HQ. revert p sum Hp Hl Hs.
  induction len as [len IH] using lt_wf_ind. intros.
  destruct len as [|[|len]]; cbn [checksum_loop].
  - apply wpm_ret; auto.
  - apply wpm_bind, wpm_rd; [lia|]. intros. apply wpm_ret. auto with word.
  - apply wpm_bind, wpm_load_be16; [lia..|]. intros. apply IH; auto with word; lia.
Qed.

Lemma wpm_internet_checksum p len (Q : Z -> Prop) :
  0 <= p -> 0 <= len -> p + len <= zlen m -> (forall s, in_u16 s -> Q s) ->
  wpm (internet_checksum m p len) Q.
Proof.
  intros. apply wpm_bind, wpm_checksum_loop; [lia..|unfold in_u32; lia|].
  intros. apply wpm_ret. auto with word.
Qed.
End loads.

(** ** The decoder, function by function *)

Section decoder.
Context {H : HostOrder}.
Variable m : list byte.
Variable cap : Z.
Hypothesis Hcap : cap <= zlen m.

Lemma post_ok p :
  packet_typed p -> payload_ok cap p -> ports_ok p ->
  p.(error) = None \/ p.(error) = Some "bad TCP data offset"%string ->
  decode_post cap (true, p).
Proof. intros. constructor; done || simpl; congruence. Qed.

Lemma post_fail p :
  packet_typed p -> payload_ok cap p -> ports_ok p -> is_Some p.(error) ->
  decode_post cap (false, p).
Proof. intros. by constructor. Qed.

(** Closes [packet_typed] of a packet that differs from a well-typed one in
    fields whose new values have known bounds. *)
Ltac typed :=
  match goal with
  | Ht : packet_typed _ |- packet_typed _ => solve [destruct Ht; constructor; simpl; auto with word]
  end.

Ltac payload :=
  unfold payload_ok, rest_as_payload, cursor_ok in *; simpl in *;
  repeat match goal with Hp : payload _ = _ |- _ => rewrite Hp end; lia.

Ltac finish :=
  apply wpm_ret; first [apply post_ok | apply post_fail];
  [ typed | payload | unfold ports_ok, has_ports; simpl; intros;
    repeat match goal with E : l4 _ = _ |- _ => rewrite E end;
    first [congruence | split_and?; congruence]
  | simpl; solve [by left | by right | by eexists] ].

Lemma decode_l4_post cur out :
  cursor_ok cap cur -> packet_typed out -> l4_fresh out -> out.(first_fragment) = true ->
  wpm (decode_l4 m cur out) (decode_post cap).
Proof.
  intros Hc Ht (Hl4 & Hsp & Hdp & Hfl & Hpl & Hpn & Herr) Hff. unfold decode_l4.
  repeat (apply wpm_if; intro).
  - take_cases; [|finish]. destruct Hr as (-> & ? & ? & ?).
    apply wpm_bind, wpm_TcpHeader; [lia..|]. intros tcp Hoff Hflg.
    pose proof (tcp_header_len_bounds tcp Hoff).
    apply wpm_if; intros; breflect; [finish|].
    take_cases; finish.
  - take_cases; [|finish]. destruct Hr as (-> & ? & ? & ?).
    apply wpm_bind, wpm_UdpHeader; [lia..|]. intros udp.
    pose proof (ntohs_in (uh_len udp)) as Hlen. unfold in_u16, sizeof_UdpHeader in *.
    repeat (case_test; breflect); finish.
  - take_cases; [|finish]. destruct Hr as (-> & ? & ? & ?).
    do 2 (apply wpm_bind, wpm_rd; [lia|intros]). finish.
  - finish.
Qed.

(** State of the packet before the transport layer is looked at. *)
Record l3_pre (out : DecodedPacket) : Prop := {
  pre_typed : packet_typed out;
  pre_fresh : l4_fresh out;
  pre_first : out.(first_fragment) = true;
  pre_truncated : out.(truncated) = false;
}.

Ltac fresh_l4 := unfold l4_fresh in *; simpl; tauto.

Lemma ntohs_typed z : in_u16 (ntohs z). Proof. apply ntohs_in. Qed.

Lemma decode_ipv4_post cur out :
  cursor_ok cap cur -> l3_pre out -> wpm (decode_ipv4 m cur out) (decode_post cap).
Proof.
  intros Hc [Ht Hf Hff _]. unfold decode_ipv4.
  pose proof Hf as (Hl4 & Hsp & Hdp & Hfl & Hpl & Hpn & Herr).
  take_cases; [|finish]. destruct Hr as (-> & ? & ? & ?). sizes.
  apply wpm_bind, wpm_Ipv4Header; [sizes; lia..|]. intros ip ? ? ? ?.
  pose proof (ip4_dscp_bounds ip ltac:(done)). pose proof (ip4_header_len_bounds ip).
  apply wpm_if; intros; breflect; [finish|].
  apply wpm_if; intros; breflect; [finish|].
  set (ff := ip4_frag_offset ip =? 0).
  match goal with |- wpm (mbind _ (if _ then _ else mret ?o)) _ => set (out1 := o) end.
  assert (packet_typed out1) as Ht1.
  { destruct Ht. constructor; simpl; auto using from_v4_wf with word. }
  apply wpm_bind, (wpm_mono _ (fun o => exists b, o = out1 <| bad_ip_checksum := b |>)).
  - apply wpm_if; intros; breflect.
    + apply wpm_bind, wpm_internet_checksum; [lia..| |].
      * unfold cursor_ok in *. lia.
      * intros. apply wpm_ret. by eexists.
    + apply wpm_ret. exists out1.(bad_ip_checksum). by destruct out1.
  - intros ? [b ->]. subst out1. simpl.
    take_cases; [|finish].
    apply wpm_if; intros; breflect; [finish|].
    apply decode_l4_post; [done| |fresh_l4|done]. typed.
Qed.

(** The extension-header walk changes nothing but its three flags. *)
Definition walk_flags (out out' : DecodedPacket) : Prop :=
  exists fr ff tr,
    out' = out <| fragmented := fr |> <| first_fragment := ff |> <| truncated := tr |>.

Lemma walk_flags_refl out : walk_flags out out.
Proof. exists out.(fragmented), out.(first_fragment), out.(truncated). by destruct out. Qed.

Lemma walk_flags_trans o1 o2 o3 : walk_flags o1 o2 -> walk_flags o2 o3 -> walk_flags o1 o3.
Proof. intros (?&?&?&->) (fr&ff&tr&->). by exists fr, ff, tr. Qed.

Lemma walk_flags_truncated out : walk_flags out (out <| truncated := true |>).
Proof. by exists out.(fragmented), out.(first_fragment), true. Qed.

Lemma walk_flags_fragment out b :
  walk_flags out (out <| fragmented := true |> <| first_fragment := b |>).
Proof. by exists true, b, out.(truncated). Qed.

Definition walk_post (out : DecodedPacket) (r : Z * Cursor * DecodedPacket) : Prop :=
  in_u8 r.1.1 /\ cursor_ok cap r.1.2 /\ walk_flags out r.2.

Lemma ipv6_walk_post hops cur next out :
  cursor_ok cap cur -> in_u8 next -> wpm (ipv6_walk m hops cur next out) (walk_post out).
Proof.
  revert cur next out. induction hops as [|hops IH]; intros cur next out Hc Hn; cbn [ipv6_walk].
  { apply wpm_ret. split_and!; [done|done|apply walk_flags_refl]. }
  apply wpm_if; intros.
  - take_cases.
    2: { apply wpm_ret. split_and!; [done|done|apply walk_flags_truncated]. }
    destruct Hr as (-> & ? & ? & ?).
    do 2 (apply wpm_bind, wpm_rd; [lia|intros ?]).
    pose proof (u32_in (bval b0 * 8 + 6)) as Hext. unfold in_u32 in Hext.
    take_cases; [auto with word|].
    apply wpm_ret. split_and!; [done|done|apply walk_flags_truncated].
  - apply wpm_if; intros.
    + take_cases.
      2: { apply wpm_ret. split_and!; [done|done|apply walk_flags_truncated]. }
      destruct Hr as (-> & ? & ? & ?).
      apply wpm_bind, wpm_load_be16; [lia..|intros].
      apply wpm_bind, wpm_rd; [lia|intros].
      eapply wpm_mono; [by apply IH; auto with word|].
      intros r (? & ? & ?). split_and!; [done|done|].
      eapply walk_flags_trans; [apply walk_flags_fragment|done].
    + apply wpm_ret. split_and!; [done|done|apply walk_flags_refl].
Qed.

Lemma decode_ipv6_post cur out :
  cursor_ok cap cur -> l3_pre out -> wpm (decode_ipv6 m cur out) (decode_post cap).
Proof.
  intros Hc [Ht Hf Hff _]. unfold decode_ipv6.
  pose proof Hf as (Hl4 & Hsp & Hdp & Hfl & Hpl & Hpn & Herr).
  take_cases; [|finish]. destruct Hr as (-> & ? & ? & ?). sizes.
  apply wpm_bind, wpm_Ipv6Header; [sizes; lia..|]. intros ip6 ? ? ? ?.
  apply wpm_if; intros; breflect; [finish|].
  match goal with |- wpm (mbind _ (resolve_ipv6_next _ _ _ ?o)) _ => set (out1 := o) end.
  assert (packet_typed out1) as Ht1 by typed.
  apply wpm_bind. eapply wpm_mono; [by apply ipv6_walk_post|].
  intros [[nx cur'] ?] (Hnx & Hc' & fr & ff & tr & Heq). simpl in Hnx, Hc', Heq.
  subst. subst out1. simpl.
  apply wpm_if; intros; [finish|].
  apply wpm_if; intros; breflect; [finish|].
  apply decode_l4_post; [done| |fresh_l4|done]. typed.
Qed.

Lemma decode_l3_post cur ety out :
  cursor_ok cap cur -> l3_pre out -> wpm (decode_l3 m cur ety out) (decode_post cap).
Proof.
  intros Hc Hp. pose proof Hp as [Ht Hf Hff _].
  pose proof Hf as (Hl4 & Hsp & Hdp & Hfl & Hpl & Hpn & Herr). unfold decode_l3.
  repeat (apply wpm_if; intros).
  - finish.
  - by apply decode_ipv4_post.
  - by apply decode_ipv6_post.
  - finish.
Qed.

(** A link-layer stage either hands on a cursor and an untouched transport
    part, or has set [error]. *)
Definition l2_post (r : option (Cursor * Z) * DecodedPacket) : Prop :=
  match r.1 with
  | Some (cur, ety) => cursor_ok cap cur /\ in_u16 ety /\ l3_pre r.2
  | None => decode_post cap (false, r.2)
  end.

Lemma l2_fail out msg : l3_pre out -> l2_post (None, out <| error := Some msg |>).
Proof.
  intros [Ht Hf Hff _]. destruct Hf as (Hl4 & Hsp & Hdp & Hfl & Hpl & Hpn & Herr).
  unfold l2_post. simpl. apply post_fail; [typed|payload|unfold ports_ok; simpl; congruence|by eexists].
Qed.

Lemma l3_pre_set out out' :
  l3_pre out -> packet_typed out' -> l4_fresh out' ->
  out'.(first_fragment) = out.(first_fragment) -> out'.(truncated) = out.(truncated) ->
  l3_pre out'.
Proof. intros []. constructor; congruence. Qed.

Ltac l2_ok Hp :=
  apply wpm_ret; split_and!;
  [ done | auto with word
  | apply (l3_pre_set _ _ Hp); [destruct Hp; typed|destruct Hp; fresh_l4|done|done] ].

Lemma unwrap_vlan_post n cur ety out :
  cursor_ok cap cur -> in_u16 ety -> l3_pre out ->
  wpm (unwrap_vlan m n cur ety out) l2_post.
Proof.
  revert cur ety out. induction n as [|n IH]; intros cur ety out Hc He Hp; cbn [unwrap_vlan].
  { by apply wpm_ret. }
  apply wpm_if; intros; [|by apply wpm_ret].
  take_cases; [|apply wpm_ret; by apply l2_fail].
  destruct Hr as (-> & ? & ? & ?).
  apply wpm_bind, wpm_VlanTag; [lia..|]. intros vlan.
  apply IH; [done|auto with word|].
  apply (l3_pre_set _ _ Hp); [|destruct Hp; fresh_l4|done..].
  destruct Hp as [[] _ _ _]. constructor; simpl; auto using vlan_id_bounds with word.
Qed.

Lemma decode_l2_post linktype cur out :
  cursor_ok cap cur -> l3_pre out -> wpm (decode_l2 m linktype cur out) l2_post.
Proof.
  intros Hc Hp. unfold decode_l2.
  destruct (LinkType.of_int linktype) as [[]|]; [| | | | |apply wpm_ret; by apply l2_fail].
  - take_cases; [|apply wpm_ret; by apply l2_fail]. destruct Hr as (-> & ? & ? & ?).
    apply wpm_bind, wpm_load32; [lia..|]. intros. 
    destruct (z =? 2); l2_ok Hp.
  - take_cases; [|apply wpm_ret; by apply l2_fail]. destruct Hr as (-> & ? & ? & ?).
    apply wpm_bind, wpm_EthernetHeader; [lia..|]. intros eth ? ?.
    apply wpm_bind. eapply wpm_mono.
    { apply unwrap_vlan_post; [done|auto with word|].
      apply (l3_pre_set _ _ Hp); [destruct Hp; typed|destruct Hp; fresh_l4|done..]. }
    intros [[[cur' ety]|] out'] Hr; [|done]. destruct Hr as (? & ? & Hp'). simpl in Hp'. l2_ok Hp'.
  - apply wpm_if; intros; breflect; [apply wpm_ret; by apply l2_fail|].
    apply wpm_bind, wpm_rd; [unfold cursor_ok in *; lia|]. intros.
    destruct (_ =? 6); l2_ok Hp.
  - take_cases; [|apply wpm_ret; by apply l2_fail]. destruct Hr as (-> & ? & ? & ?).
    apply wpm_bind, wpm_load_be16; [lia..|]. intros. l2_ok Hp.
  - take_cases; [|apply wpm_ret; by apply l2_fail]. destruct Hr as (-> & ? & ? & ?).
    apply wpm_bind, wpm_load_be16; [lia..|]. intros. l2_ok Hp.
Qed.
End decoder.

Lemma packet_default_pre t cap wl :
  l3_pre (packet_default <| ts := t |> <| caplen := cap |> <| wirelen := wl |>).
Proof. constructor; [constructor|..]; done. Qed.

Lemma decode_packet_post `{HostOrder} m cap wl t linktype :
  0 <= cap <= zlen m ->
  wpm (decode_packet (Some m) cap wl t linktype) (decode_post cap).
Proof.
  intros Hcap. unfold decode_packet.
  pose proof (packet_default_pre t cap wl) as Hp. set (out := set_field wirelen _ _) in *.
  apply wpm_if; intros; breflect.
  - apply wpm_ret. subst cap. by apply (l2_fail 0).
  - apply wpm_bind. eapply wpm_mono.
    { apply (decode_l2_post m cap); [lia| |exact Hp]. unfold cursor_ok. simpl. lia. }
    intros [[[cur ety]|] out'] Hr; [|by apply wpm_ret].
    destruct Hr as (? & ? & ?). by apply decode_l3_post; [lia|..].
Qed.

(** ** Reads beyond the capture do not influence the result

    [msub a b]: [b] returns what [a] returns whenever [a] returns.  Every
    decoder function is monotone in the buffer for this order. *)
Definition msub {A} (a b : mem A) : Prop := forall v, a = Val v -> b = Val v.

Section local.
Context {H : HostOrder}.
Variables m x : list byte.

Lemma msub_refl {A} (a : mem A) : msub a a.
Proof. by intros v. Qed.

Lemma msub_bind {A B} (a a' : mem A) (k k' : A -> mem B) :
  msub a a' -> (forall v, msub (k v) (k' v)) -> msub (a ≫= k) (a' ≫= k').
Proof. intros Ha Hk v. destruct a as [y|]; simpl; [|done]. rewrite (Ha y) by done. apply Hk. Qed.

Lemma msub_rd p : msub (rd m p) (rd (m ++ x) p).
Proof.
  intros b. unfold rd. destruct (p <? 0); [done|].
  destruct (m !! Z.to_nat p) eqn:E; [|done]. by rewrite (lookup_app_l_Some _ _ _ _ E).
Qed.

Lemma msub_rd_bytes p n : msub (rd_bytes m p n) (rd_bytes (m ++ x) p n).
Proof.
  intros bs. unfold rd_bytes. destruct (_ && _) eqn:E; [|done]. breflect. intros [= <-].
  rewrite zlen_app. pose proof (zlen_nonneg x).
  replace (_ && _) with true by (symmetry; lia). f_equal.
  unfold slice, zlen in *. destruct (Z.le_gt_cases n 0) as [Hn|Hn].
  - by replace (Z.to_nat n) with 0%nat by lia.
  - rewrite drop_app_le, take_app_le; [done|rewrite length_drop; lia|lia].
Qed.

Ltac msub :=
  repeat first
    [ match goal with
      | |- msub ?a ?a => apply msub_refl
      | |- msub (rd _ _) _ => apply msub_rd
      | |- msub (rd_bytes _ _ _) _ => apply msub_rd_bytes
      | |- msub (_ ≫= _) _ => apply msub_bind; [|intros ?]
      | |- msub (match ?d with _ => _ end) (match ?d with _ => _ end) => destruct d
      end ].

Lemma msub_checksum_loop p len sum :
  msub (checksum_loop m p len sum) (checksum_loop (m ++ x) p len sum).
Proof.
  revert p sum. induction len as [len IH] using lt_wf_ind. intros.
  destruct len as [|[|len]]; cbn [checksum_loop]; unfold load_be16; msub. apply IH. lia.
Qed.

Lemma msub_ipv6_walk hops cur next out :
  msub (ipv6_walk m hops cur next out) (ipv6_walk (m ++ x) hops cur next out).
Proof.
  revert cur next out. induction hops as [|hops IH]; intros; cbn [ipv6_walk];
    unfold load_be16; msub; apply IH.
Qed.

Lemma msub_unwrap_vlan n cur ety out :
  msub (unwrap_vlan m n cur ety out) (unwrap_vlan (m ++ x) n cur ety out).
Proof.
  revert cur ety out. induction n as [|n IH]; intros; cbn [unwrap_vlan];
    unfold load_VlanTag, load16; msub; apply IH.
Qed.

Lemma msub_decode_l4 cur out : msub (decode_l4 m cur out) (decode_l4 (m ++ x) cur out).
Proof.
  unfold decode_l4, load_TcpHeader, load_UdpHeader, load16, load32, load8. msub.
Qed.

Lemma msub_decode_ipv4 cur out : msub (decode_ipv4 m cur out) (decode_ipv4 (m ++ x) cur out).
Proof.
  unfold decode_ipv4, internet_checksum, load_Ipv4Header, load16, load32, load8.
  msub; auto using msub_decode_l4, msub_checksum_loop.
Qed.

Lemma msub_decode_ipv6 cur out : msub (decode_ipv6 m cur out) (decode_ipv6 (m ++ x) cur out).
Proof.
  unfold decode_ipv6, resolve_ipv6_next, load_Ipv6Header, load16, load32, load8.
  msub; auto using msub_decode_l4, msub_ipv6_walk.
Qed.

Lemma msub_decode_l3 cur ety out :
  msub (decode_l3 m cur ety out) (decode_l3 (m ++ x) cur ety out).
Proof. unfold decode_l3. msub; auto using msub_decode_ipv4, msub_decode_ipv6. Qed.

Lemma msub_decode_l2 linktype cur out :
  msub (decode_l2 m linktype cur out) (decode_l2 (m ++ x) linktype cur out).
Proof.
  unfold decode_l2, load_EthernetHeader, load_be16, load16, load32. msub.
  apply msub_unwrap_vlan.
Qed.

Lemma msub_decode_packet cap wirelen t linktype :
  msub (decode_packet (Some m) cap wirelen t linktype)
       (decode_packet (Some (m ++ x)) cap wirelen t linktype).
Proof.
  unfold decode_packet. msub; auto using msub_decode_l2, msub_decode_l3.
Qed.
End local.

(** ** Theorems *)

(** C1: Memory safety and typing of [decode_packet] on every input: whatever the
    [caplen] captured bytes and the link type are, the decoder returns (it reads
    nothing outside the capture), every field it filled in holds a value of its
    C++ type, and the payload span lies inside the capture. *)
Theorem decode_packet_safe `{HostOrder} m cap wl t linktype :
  0 <= cap <= zlen m ->
  exists ok out, decode_packet (Some m) cap wl t linktype = Val (ok, out) /\
    packet_typed out /\ payload_ok cap out.
Proof.
  intros Hc. destruct (proj1 (wpm_val _ _) (decode_packet_post m cap wl t linktype Hc))
    as ([ok out] & Hd & []). eauto.
Qed.

Definition little_endian : HostOrder := LittleEndian.

(** An IPv4 frame cut off in its header. *)
Definition cut_frame : list byte :=
  replicate 12 Byte.x11 ++ [Byte.x08; Byte.x00; Byte.x45; Byte.x00; Byte.x00; Byte.x28].

Lemma decode_packet_safe_witness :
  exists ok out, decode_packet (H := little_endian) (Some cut_frame) 18 60 timeval_zero 1 = Val (ok, out) /\
    packet_typed out /\ payload_ok 18 out.
Proof. apply decode_packet_safe. vm_compute. intuition discriminate. Defined.

(** C38: The verdict of [decode_packet] and its error field agree: a rejected
    frame always carries a reason; an accepted one carries none, except the bad
    TCP data offset, which the decoder reports without rejecting.  A later
    fragment of a datagram never shows ports or TCP flags. *)
Theorem decode_packet_verdict `{HostOrder} m cap wl t linktype ok out :
  0 <= cap <= zlen m ->
  decode_packet (Some m) cap wl t linktype = Val (ok, out) ->
  (ok = false -> is_Some out.(error)) /\
  (ok = true -> out.(error) = None \/ out.(error) = Some "bad TCP data offset"%string) /\
  (out.(first_fragment) = false ->
     has_ports out = false /\ out.(sport) = 0 /\ out.(dport) = 0 /\ out.(tcp_flags) = 0).
Proof.
  intros Hc Hd. by destruct (wpm_val_eq _ _ _ Hd (decode_packet_post m cap wl t linktype Hc)).
Qed.

Lemma decode_packet_verdict_witness :
  let out := packet_default <| caplen := 3 |> <| wirelen := 3 |>
               <| error := Some "truncated Ethernet header"%string |> in
  decode_packet (H := little_endian) (Some (lit "EEE")) 3 3 timeval_zero 1 = Val (false, out) /\
  is_Some out.(error).
Proof.
  intros out. assert (Hd : decode_packet (H := little_endian) (Some (lit "EEE")) 3 3 timeval_zero 1
                           = Val (false, out)) by (vm_compute; reflexivity).
  split; [exact Hd|].
  apply (decode_packet_verdict (H := little_endian) (lit "EEE") 3 3 timeval_zero 1 false out);
    [vm_compute; intuition discriminate|exact Hd|reflexivity].
Defined.

(** The decoder's result depends on the captured bytes only: memory beyond
    [caplen] (the rest of a reused capture buffer) never changes it. *)
Lemma decode_packet_local `{HostOrder} m x cap wl t linktype :
  zlen m = cap ->
  decode_packet (Some (m ++ x)) cap wl t linktype = decode_packet (Some m) cap wl t linktype.
Proof.
  intros Hc. pose proof (zlen_nonneg m).
  destruct (proj1 (wpm_val _ _) (decode_packet_post m cap wl t linktype ltac:(lia))) as (r & Hd & _).
  rewrite Hd. by apply msub_decode_packet.
Qed.

Lemma decode_packet_local_witness :
  decode_packet (H := little_endian) (Some (lit "EEE" ++ lit "more")) 3 9 timeval_zero 1 =
  decode_packet (H := little_endian) (Some (lit "EEE")) 3 9 timeval_zero 1.
Proof. apply decode_packet_local. reflexivity. Defined.
