(* ===== verification/Checksum.v ===== *)
(** * The internet checksum against RFC 1071

    [Parser.internet_checksum] sums 16-bit words in a [uint32_t] and folds the
    carries at the end.  The reference is one's-complement arithmetic: the
    complement of the word sum modulo 65535, with the representative 65535 for
    a non-zero multiple. *)

From S2P Require Import Prelude.
From S2P Require Import Machine.
From S2P Require Import Protocol.
From S2P Require Import Parser.
From S2P Require Import ParserSafe.
#[local] Open Scope Z_scope.

(** ** Reference definitions *)

(** Sum of the big-endian 16-bit words, the last byte padded with zero. *)
Fixpoint word_sum (l : list byte) : Z :=
  match l with
  | a :: b :: l => be16 a b + word_sum l
  | [a] => bval a * 256
  | [] => 0
  end.

(** The one's-complement representative of a sum. *)
Definition ones_fold (s : Z) : Z := if s =? 0 then 0 else (s - 1) mod 65535 + 1.

Definition rfc1071 (l : list byte) : Z := 65535 - ones_fold (word_sum l).

(** ** Arithmetic of the reference *)

Lemma word_sum_bounds l : 0 <= word_sum l <= 65535 * ((zlen l + 1) / 2).
Proof.
  induction l as [l IH] using (induction_ltof1 _ length). unfold ltof in IH.
  destruct l as [|a [|b l]]; [done| |].
  - simpl. pose proof (bval_bounds a). change ((zlen [a] + 1) / 2) with 1. lia.
  - cbn [word_sum]. pose proof (be16_in a b) as Hw. unfold in_u16 in Hw.
    specialize (IH l ltac:(simpl; lia)).
    replace ((zlen (a :: b :: l) + 1) / 2) with ((zlen l + 1) / 2 + 1); [lia|].
    rewrite !zlen_cons. replace (1 + (1 + zlen l) + 1) with (zlen l + 1 + 1 * 2) by lia.
    by rewrite Z.div_add by lia.
Qed.

Lemma word_sum_app l k : Nat.Even (length l) -> word_sum (l ++ k) = word_sum l + word_sum k.
Proof.
  induction l as [l IH] using (induction_ltof1 _ length). unfold ltof in IH. intros He.
  destruct l as [|a [|b l]]; [done| |].
  - destruct He as [n Hn]. simpl in Hn. lia.
  - simpl. rewrite (IH l); [lia|simpl; lia|]. destruct He as [n Hn]. exists (n - 1)%nat. simpl in Hn. lia.
Qed.

Lemma ones_fold_spec s r :
  0 <= s -> 0 <= r <= 65535 -> (r = 0 <-> s = 0) -> s mod 65535 = r mod 65535 -> r = ones_fold s.
Proof.
  intros Hs Hr H0 Hm. unfold ones_fold. destruct (s =? 0) eqn:E; breflect; [tauto|].
  assert (1 <= r) by lia.
  rewrite Zminus_mod, Hm, <-Zminus_mod, Z.mod_small; lia.
Qed.

Lemma ones_fold_bounds s : 0 <= ones_fold s <= 65535.
Proof.
  unfold ones_fold. case_test; [lia|]. pose proof (Z.mod_pos_bound (s - 1) 65535). lia.
Qed.

Lemma ones_fold_full s : 0 < s -> s mod 65535 = 0 -> ones_fold s = 65535.
Proof. intros. symmetry. apply ones_fold_spec; lia || done. Qed.

Lemma ones_fold_mod s : 0 <= s -> (s - ones_fold s) mod 65535 = 0.
Proof.
  intros. unfold ones_fold. destruct (s =? 0) eqn:E; breflect; [by subst|].
  replace (s - ((s - 1) mod 65535 + 1)) with (s - 1 - (s - 1) mod 65535) by lia.
  rewrite Zminus_mod_idemp_r, Z.sub_diag. done.
Qed.

(** ** The loops of the code *)

Lemma fold_step s :
  0 <= s -> Z.land s 0xFFFF + Z.shiftr s 16 = s mod 65536 + s / 65536.
Proof.
  intros. rewrite Z.shiftr_div_pow2 by lia. change 0xFFFF with (2 ^ 16 - 1).
  rewrite land_ones_mod by lia. done.
Qed.

Lemma fold_step_mod s : 0 <= s -> (s mod 65536 + s / 65536) mod 65535 = s mod 65535.
Proof.
  intros. rewrite (Z.div_mod s 65536) at 3 by lia.
  replace (65536 * (s / 65536) + s mod 65536)
    with (s mod 65536 + s / 65536 + (s / 65536) * 65535) by lia.
  by rewrite Z.mod_add by lia.
Qed.

(** The carry loop as executed: it ends within [fuel] rounds and keeps the
    residue. *)
Lemma fold_carries_spec fuel s :
  0 <= s -> (s < 65536 \/ (s <= 131070 /\ (1 <= fuel)%nat) \/ (s < 4294967296 /\ (2 <= fuel)%nat)) ->
  let r := fold_carries fuel s in
  0 <= r < 65536 /\ (r = 0 <-> s = 0) /\ r mod 65535 = s mod 65535.
Proof.
  revert s. induction fuel as [|fuel IH]; intros s Hs Hb; cbn [fold_carries].
  - assert (s < 65536) by lia. case_test; split_and!; done || lia.
  - rewrite Z.shiftr_div_pow2 by lia. change (2 ^ 16) with 65536.
    destruct (s / 65536 =? 0) eqn:E; breflect.
    + assert (s < 65536) by (pose proof (Z.div_mod s 65536); pose proof (Z.mod_pos_bound s 65536); lia).
      split_and!; done || lia.
    + pose proof (fold_step s Hs) as Hf. rewrite Z.shiftr_div_pow2 in Hf by lia.
      change (2 ^ 16) with 65536 in Hf. rewrite Hf. clear Hf.
      pose proof (Z.div_mod s 65536 ltac:(lia)). pose proof (Z.mod_pos_bound s 65536 ltac:(lia)).
      destruct (IH (s mod 65536 + s / 65536)) as (? & Hz & Hm); [lia|lia|].
      rewrite Hm, fold_step_mod by lia. split_and!; lia || done.
Qed.

Lemma u16_lnot r : 0 <= r < 65536 -> u16 (Z.lnot r) = 65535 - r.
Proof.
  intros. unfold u16. rewrite <-(Z.mod_add _ 1) by lia. unfold Z.lnot.
  rewrite Z.mod_small; lia.
Qed.

Lemma checksum_loop_sum m p len sum :
  0 <= p -> p + Z.of_nat len <= zlen m -> 0 <= sum ->
  sum + word_sum (slice m p (Z.of_nat len)) < 2 ^ 32 ->
  checksum_loop m p len sum = Val (sum + word_sum (slice m p (Z.of_nat len))).
Proof.
  revert p sum. induction len as [len IH] using lt_wf_ind. intros p sum Hp Hl Hs Hb.
  destruct len as [|[|len]]; cbn [checksum_loop].
  - by rewrite slice_0, Z.add_0_r.
  - destruct (rd_in m p ltac:(lia)) as (b & Hr & Hlk). rewrite Hr. cbn [mbind mem_bind].
    assert (Hsl : slice m p (Z.of_nat 1) = [b]).
    { unfold slice. by rewrite (drop_S _ _ _ Hlk). }
    rewrite Hsl in *. simpl in *. rewrite Z.shiftl_mul_pow2 by lia. change (2 ^ 8) with 256.
    rewrite u32_id; [done|]. pose proof (bval_bounds b). unfold in_u32. lia.
  - unfold load_be16.
    destruct (rd_in m p ltac:(lia)) as (a & Ha & Hla). rewrite Ha. cbn [mbind mem_bind].
    destruct (rd_in m (p + 1) ltac:(lia)) as (b & Hrb & Hlb). rewrite Hrb. simpl.
    assert (Hsl : slice m p (Z.of_nat (S (S len))) = a :: b :: slice m (p + 2) (Z.of_nat len)).
    { unfold slice. rewrite (drop_S _ _ _ Hla). rewrite !Nat2Z.id. cbn [firstn]. f_equal.
      replace (S (Z.to_nat p)) with (Z.to_nat (p + 1)) by lia.
      rewrite (drop_S _ _ _ Hlb). cbn [firstn]. f_equal. f_equal. f_equal. lia. }
    rewrite Hsl in *. cbn [word_sum] in *.
    pose proof (be16_in a b) as Hw. unfold in_u16 in Hw.
    pose proof (word_sum_bounds (slice m (p + 2) (Z.of_nat len))).
    rewrite u32_id by (unfold in_u32; lia).
    rewrite IH; [f_equal; lia|lia..].
Qed.

Lemma internet_checksum_slice m p len :
  0 <= p -> 0 <= len <= 131072 -> p + len <= zlen m ->
  internet_checksum m p len = Val (rfc1071 (slice m p len)).
Proof.
  intros Hp Hl Hm. unfold internet_checksum.
  pose proof (word_sum_bounds (slice m p len)) as Hw. rewrite zlen_slice in Hw by lia.
  assert ((len + 1) / 2 < 65537) by (apply Z.div_lt_upper_bound; lia).
  rewrite checksum_loop_sum; rewrite ?Z2Nat.id; [|lia..]. cbn [mbind mem_bind]. rewrite Z.add_0_l.
  destruct (fold_carries_spec 3 (word_sum (slice m p len))) as (Hr & Hz & Hmod); [lia|lia|].
  rewrite u16_lnot by lia. unfold rfc1071. f_equal. f_equal. f_equal.
  apply ones_fold_spec; lia || done.
Qed.

(** ** Theorems *)

(** C22: The code's [internet_checksum] (a 32-bit accumulator, an odd last byte
    padded on the right, carries folded at the end) is the RFC 1071
    one's-complement checksum of the bytes, for every buffer of at most 128 KiB;
    the accumulator does not overflow. *)
Theorem internet_checksum_rfc1071 m p len :
  0 <= p -> 0 <= len <= 131072 -> p + len <= zlen m ->
  internet_checksum m p len = Val (rfc1071 (slice m p len)).
Proof. apply internet_checksum_slice. Qed.

Lemma internet_checksum_rfc1071_witness :
  internet_checksum (lit "netscope") 2 5 = Val (rfc1071 (lit "tscop")).
Proof. apply (internet_checksum_rfc1071 (lit "netscope") 2 5); vm_compute; intuition discriminate. Defined.

(** Writing the checksum of a header (with a zero checksum field) into an
    aligned field of that header makes it verify: the decoder's sum is 0, so
    [bad_ip_checksum] is not raised on a correctly checksummed header. *)
Lemma checksummed_header_verifies pre post :
  Nat.Even (length pre) -> zlen pre + 2 + zlen post <= 131072 ->
  let ck := rfc1071 (pre ++ [Byte.x00; Byte.x00] ++ post) in
  let header := pre ++ be_bytes 2 ck ++ post in
  internet_checksum header 0 (zlen header) = Val 0.
Proof.
  intros He Hl ck header.
  assert (Hbe : exists a b, be_bytes 2 ck = [a; b] /\ be16 a b = ck).
  { unfold ck. exists (byte_of (ck / 256)), (byte_of ck). split; [done|].
    rewrite be16_val, !bval_byte_of. unfold u8. change (2 ^ 8) with 256.
    pose proof (ones_fold_bounds (word_sum (pre ++ [x00; x00] ++ post))).
    unfold ck, rfc1071 in *. set (c := 65535 - _) in *.
    pose proof (Z.div_mod c 256 ltac:(lia)). pose proof (Z.mod_pos_bound c 256 ltac:(lia)).
    rewrite (Z.mod_small (c / 256)); lia. }
  destruct Hbe as (a & b & Hbe & Hck).
  assert (Hlen : zlen header = zlen pre + 2 + zlen post).
  { unfold header. rewrite Hbe. autorewrite with zlen. lia. }
  pose proof (zlen_nonneg pre). pose proof (zlen_nonneg post).
  rewrite internet_checksum_slice, slice_full by lia. f_equal. unfold rfc1071.
  unfold header. rewrite Hbe, (word_sum_app _ _ He). cbn [app word_sum]. rewrite Hck.
  unfold ck, rfc1071. rewrite (word_sum_app _ _ He). cbn [app word_sum].
  replace (be16 x00 x00) with 0 by done. rewrite Z.add_0_l.
  set (s := word_sum pre + word_sum post).
  pose proof (word_sum_bounds pre). pose proof (word_sum_bounds post).
  assert (0 <= s) by (unfold s; lia).
  replace (word_sum pre + (65535 - ones_fold s + word_sum post))
    with (s - ones_fold s + 1 * 65535) by (unfold s; lia).
  rewrite ones_fold_full; [lia| |].
  - assert (ones_fold s <= s).
    { unfold ones_fold. destruct (s =? 0) eqn:E; breflect; [lia|].
      pose proof (Z.mod_le (s - 1) 65535). lia. }
    lia.
  - rewrite Z.mod_add by lia. by apply ones_fold_mod.
Qed.

Lemma checksummed_header_verifies_witness :
  let header := lit "12345678" ++ be_bytes 2 (rfc1071 (lit "12345678" ++ [Byte.x00; Byte.x00] ++ lit "abc"))
                ++ lit "abc" in
  internet_checksum header 0 (zlen header) = Val 0.
Proof.
  apply (checksummed_header_verifies (lit "12345678") (lit "abc")).
  - by exists 4%nat.
  - vm_compute. discriminate.
Defined.
