(* ===== verification/Layout.v ===== *)
(** * Byte layouts inside a buffer

    [at_off m p bs]: the bytes [bs] stand at offset [p] of the buffer [m].
    Header encoders, and the loads of [Protocol] as their left inverses; used
    to state what the decoder returns on frames built from header fields. *)

From S2P Require Import Prelude.
From S2P Require Import Machine.
From S2P Require Import Protocol.
#[local] Open Scope Z_scope.

Definition at_off (m : list byte) (p : Z) (bs : list byte) : Prop :=
  exists pre post, m = pre ++ bs ++ post /\ p = zlen pre.

Section at_off.
Implicit Types (m bs : list byte) (p : Z).

Lemma at_off_start bs post : at_off (bs ++ post) 0 bs.
Proof. by exists [], post. Qed.

Lemma at_off_whole m : at_off m 0 m.
Proof. exists [], []. by rewrite app_nil_r. Qed.

Lemma at_off_app m p a b : at_off m p (a ++ b) -> at_off m p a /\ at_off m (p + zlen a) b.
Proof.
  intros (pre & post & -> & ->). split.
  - exists pre, (b ++ post). by rewrite <-!app_assoc.
  - exists (pre ++ a), post. rewrite <-!app_assoc, zlen_app. done.
Qed.

Lemma at_off_cons m p a b : at_off m p (a :: b) -> at_off m p [a] /\ at_off m (p + 1) b.
Proof. apply (at_off_app m p [a] b). Qed.

Lemma at_off_nonneg m p bs : at_off m p bs -> 0 <= p /\ p + zlen bs <= zlen m.
Proof.
  intros (pre & post & -> & ->). rewrite !zlen_app.
  pose proof (zlen_nonneg pre). pose proof (zlen_nonneg post). lia.
Qed.

Lemma at_off_slice m p bs n : at_off m p bs -> n = zlen bs -> slice m p n = bs.
Proof.
  intros (pre & post & -> & ->) ->. unfold slice, zlen. rewrite !Nat2Z.id.
  by rewrite drop_app_length, take_app_length.
Qed.

Lemma rd_at m p b : at_off m p [b] -> rd m p = Val b.
Proof.
  intros (pre & post & -> & ->). unfold rd, zlen. rewrite Nat2Z.id.
  rewrite (proj2 (Z.ltb_ge (Z.of_nat (length pre)) 0)) by lia. by rewrite (list_lookup_middle pre post b) by done.
Qed.

Lemma rd_bytes_at m p bs n : at_off m p bs -> n = zlen bs -> rd_bytes m p n = Val bs.
Proof.
  intros Ha ->. pose proof (at_off_nonneg _ _ _ Ha). unfold rd_bytes.
  replace (_ && _) with true by (symmetry; lia). by rewrite (at_off_slice _ _ _ _ Ha).
Qed.

Lemma load8_at m p z : in_u8 z -> at_off m p [byte_of z] -> load8 m p = Val z.
Proof. intros Hz Ha. unfold load8. rewrite (rd_at _ _ _ Ha). simpl. by rewrite bval_byte_of, u8_id. Qed.

Lemma load_be16_at m p z : in_u16 z -> at_off m p (be_bytes 2 z) -> load_be16 m p = Val z.
Proof.
  intros Hz Ha. unfold load_be16. simpl in Ha. apply at_off_cons in Ha as [Ha Hb].
  rewrite (rd_at _ _ _ Ha). simpl. rewrite (rd_at _ _ _ Hb). simpl.
  rewrite be16_val, !bval_byte_of. unfold u8, in_u16 in *. change (2 ^ 8) with 256.
  change (2 ^ 16) with 65536 in Hz.
  pose proof (Z.div_mod z 256 ltac:(lia)). pose proof (Z.mod_pos_bound z 256 ltac:(lia)).
  rewrite (Z.mod_small (z / 256)) by lia. f_equal. lia.
Qed.

Context {H : HostOrder}.

Lemma load16_at m p z : at_off m p (be_bytes 2 z) -> load16 m p = Val (host_value (be_bytes 2 z)).
Proof. intros Ha. unfold load16. by rewrite (rd_bytes_at _ _ _ _ Ha). Qed.

Lemma load32_at m p bs :
  zlen bs = 4 -> at_off m p bs -> load32 m p = Val (host_value bs).
Proof. intros Hl Ha. unfold load32. by rewrite (rd_bytes_at _ _ _ _ Ha). Qed.

Lemma ntohs_load z : in_u16 z -> ntohs (host_value (be_bytes 2 z)) = z.
Proof.
  intros Hz. unfold ntohs. rewrite host_bytes_value by apply length_be_bytes.
  rewrite be_value_bytes. by apply Z.mod_small.
Qed.

Lemma ntohl_load z : in_u32 z -> ntohl (host_value (be_bytes 4 z)) = z.
Proof.
  intros Hz. unfold ntohl. rewrite host_bytes_value by apply length_be_bytes.
  rewrite be_value_bytes. by apply Z.mod_small.
Qed.

Lemma from_v4_load bs : length bs = 4%nat -> from_v4 (host_value bs) = mkIpAddress false (bs ++ replicate 12 x00).
Proof. intros. unfold from_v4. by rewrite host_bytes_value. Qed.
End at_off.

Lemma zlen_be_bytes n z : zlen (be_bytes n z) = Z.of_nat n.
Proof. unfold zlen. by rewrite length_be_bytes. Qed.
#[export] Hint Rewrite zlen_be_bytes : zlen.

(** Splits an [at_off] fact about an explicit concatenation into one fact per
    piece, with normalised offsets. *)
Ltac split_at H :=
  lazymatch type of H with
  | at_off _ _ (_ ++ _) =>
      let Ha := fresh "A" in let Hb := fresh "A" in
      apply at_off_app in H as [Ha Hb]; split_at Hb
  | at_off _ _ (?a :: ?b :: _) =>
      let Ha := fresh "A" in let Hb := fresh "A" in
      apply at_off_cons in H as [Ha Hb]; split_at Hb
  | _ => idtac
  end.

(** ** Header encoders *)

(** IPv4 header fields in host terms; addresses and options as bytes. *)
Record ipv4_fields := mkIpv4Fields {
  v4_tos : Z; v4_total_len : Z; v4_id : Z; v4_flags_frag : Z; v4_ttl : Z; v4_proto : Z;
  v4_checksum : Z; v4_src : list byte; v4_dst : list byte; v4_options : list byte;
}.

Record ipv4_fields_ok (h : ipv4_fields) : Prop := {
  v4_tos_ok : in_u8 h.(v4_tos);
  v4_id_ok : in_u16 h.(v4_id);
  v4_flags_frag_ok : in_u16 h.(v4_flags_frag);
  v4_ttl_ok : in_u8 h.(v4_ttl);
  v4_proto_ok : in_u8 h.(v4_proto);
  v4_src_ok : zlen h.(v4_src) = 4;
  v4_dst_ok : zlen h.(v4_dst) = 4;
  v4_options_ok : exists k, zlen h.(v4_options) = 4 * k /\ k <= 10;
}.

Definition v4_hlen (h : ipv4_fields) : Z := 20 + zlen h.(v4_options).

Definition ipv4_bytes (h : ipv4_fields) : list byte :=
  [byte_of (64 + v4_hlen h / 4)] ++ [byte_of h.(v4_tos)] ++ be_bytes 2 h.(v4_total_len) ++
  be_bytes 2 h.(v4_id) ++ be_bytes 2 h.(v4_flags_frag) ++ [byte_of h.(v4_ttl)] ++
  [byte_of h.(v4_proto)] ++ be_bytes 2 h.(v4_checksum) ++ h.(v4_src) ++ h.(v4_dst) ++
  h.(v4_options).

Record tcp_fields := mkTcpFields {
  t_sport : Z; t_dport : Z; t_seq : Z; t_ack : Z; t_flags : Z; t_window : Z;
  t_checksum : Z; t_urgent : Z; t_options : list byte;
}.

Record tcp_fields_ok (t : tcp_fields) : Prop := {
  t_sport_ok : in_u16 t.(t_sport);
  t_dport_ok : in_u16 t.(t_dport);
  t_seq_ok : in_u32 t.(t_seq);
  t_ack_ok : in_u32 t.(t_ack);
  t_flags_ok : in_u8 t.(t_flags);
  t_window_ok : in_u16 t.(t_window);
  t_options_ok : exists k, zlen t.(t_options) = 4 * k /\ k <= 10;
}.

Definition t_hlen (t : tcp_fields) : Z := 20 + zlen t.(t_options).

Definition tcp_bytes (t : tcp_fields) : list byte :=
  be_bytes 2 t.(t_sport) ++ be_bytes 2 t.(t_dport) ++ be_bytes 4 t.(t_seq) ++
  be_bytes 4 t.(t_ack) ++ [byte_of (t_hlen t / 4 * 16)] ++ [byte_of t.(t_flags)] ++
  be_bytes 2 t.(t_window) ++ be_bytes 2 t.(t_checksum) ++ be_bytes 2 t.(t_urgent) ++
  t.(t_options).

(** The 802.1Q tags and the final ethertype. *)
Fixpoint vlan_bytes (tags : list Z) (ety : Z) : list byte :=
  match tags with
  | [] => be_bytes 2 ety
  | tci :: tags => be_bytes 2 ETHERTYPE_VLAN ++ be_bytes 2 tci ++ vlan_bytes tags ety
  end.

Definition eth_bytes (dst src : list byte) (tags : list Z) (ety : Z) : list byte :=
  dst ++ src ++ vlan_bytes tags ety.

(** ** Loads are left inverses of the encoders *)

(** Performs the next load of the goal with the [at_off] fact at its offset. *)
Ltac do_load :=
  match goal with
  | A : at_off ?m ?q [byte_of ?z] |- context [load8 ?m ?o] =>
      replace o with q by (autorewrite with zlen; lia);
      rewrite (load8_at m q z) by first [exact A | assumption]
  | A : at_off ?m ?q (be_bytes 2 ?z) |- context [load16 ?m ?o] =>
      replace o with q by (autorewrite with zlen; lia); rewrite (load16_at m q z A)
  | A : at_off ?m ?q ?bs |- context [load32 ?m ?o] =>
      replace o with q by (autorewrite with zlen; lia);
      rewrite (load32_at m q bs) by first [exact A | by autorewrite with zlen]
  | A : at_off ?m ?q ?bs |- context [rd_bytes ?m ?o ?n] =>
      replace o with q by (autorewrite with zlen; lia);
      rewrite (rd_bytes_at m q bs n) by first [exact A | autorewrite with zlen; lia]
  end; cbn [mbind mem_bind].

Section loads.
Context {H : HostOrder}.
Variable m : list byte.

Definition ip4_loaded (h : ipv4_fields) : Ipv4Header :=
  mkIpv4Header (64 + v4_hlen h / 4) h.(v4_tos) (host_value (be_bytes 2 h.(v4_total_len)))
    (host_value (be_bytes 2 h.(v4_id))) (host_value (be_bytes 2 h.(v4_flags_frag)))
    h.(v4_ttl) h.(v4_proto) (host_value (be_bytes 2 h.(v4_checksum)))
    (host_value h.(v4_src)) (host_value h.(v4_dst)).

Definition tcp_loaded (t : tcp_fields) : TcpHeader :=
  mkTcpHeader (host_value (be_bytes 2 t.(t_sport))) (host_value (be_bytes 2 t.(t_dport)))
    (host_value (be_bytes 4 t.(t_seq))) (host_value (be_bytes 4 t.(t_ack)))
    (t_hlen t / 4 * 16) t.(t_flags) (host_value (be_bytes 2 t.(t_window)))
    (host_value (be_bytes 2 t.(t_checksum))) (host_value (be_bytes 2 t.(t_urgent))).

Lemma hlen_words z : (exists k, z = 4 * k /\ k <= 10) -> 0 <= z -> 5 <= (20 + z) / 4 <= 15 /\ 20 + z = 4 * ((20 + z) / 4).
Proof.
  intros (k & -> & ?) ?. replace (20 + 4 * k) with ((5 + k) * 4) by lia.
  rewrite Z.div_mul by lia. lia.
Qed.

Lemma load_Ipv4Header_at p h :
  ipv4_fields_ok h -> at_off m p (ipv4_bytes h) ->
  load_Ipv4Header m p = Val (ip4_loaded h).
Proof.
  intros [] A. pose proof (hlen_words _ v4_options_ok0 (zlen_nonneg _)).
  assert (in_u8 (64 + v4_hlen h / 4)) by (unfold in_u8, v4_hlen; lia).
  unfold ipv4_bytes in A. split_at A. unfold load_Ipv4Header.
  do 10 do_load. done.
Qed.

Lemma load_TcpHeader_at p t :
  tcp_fields_ok t -> at_off m p (tcp_bytes t) -> load_TcpHeader m p = Val (tcp_loaded t).
Proof.
  intros [] A. pose proof (hlen_words _ t_options_ok0 (zlen_nonneg _)).
  assert (in_u8 (t_hlen t / 4 * 16)) by (unfold in_u8, t_hlen; lia).
  unfold tcp_bytes in A. split_at A. unfold load_TcpHeader.
  do 9 do_load. done.
Qed.

Lemma zlen_ipv4_bytes h : ipv4_fields_ok h -> zlen (ipv4_bytes h) = v4_hlen h.
Proof. intros []. unfold ipv4_bytes, v4_hlen. autorewrite with zlen. lia. Qed.

Lemma zlen_tcp_bytes t : zlen (tcp_bytes t) = t_hlen t.
Proof. unfold tcp_bytes, t_hlen. autorewrite with zlen. lia. Qed.

(** *** Accessors on the loaded headers *)

Lemma ip4_loaded_version h : ipv4_fields_ok h -> ip4_version (ip4_loaded h) = 4.
Proof.
  intros []. pose proof (hlen_words _ v4_options_ok0 (zlen_nonneg _)).
  unfold ip4_version, ip4_loaded, v4_hlen. cbn [ip4_ver_ihl].
  rewrite Z.shiftr_div_pow2 by lia. change (2 ^ 4) with 16.
  symmetry. apply (Z.div_unique _ _ _ ((20 + zlen (v4_options h)) / 4)); lia.
Qed.

Lemma ip4_loaded_hlen h : ipv4_fields_ok h -> ip4_header_len (ip4_loaded h) = v4_hlen h.
Proof.
  intros []. pose proof (hlen_words _ v4_options_ok0 (zlen_nonneg _)).
  unfold ip4_header_len, ip4_loaded, v4_hlen. cbn [ip4_ver_ihl].
  change 0x0F with (2 ^ 4 - 1). rewrite land_ones_mod by lia. change (2 ^ 4) with 16.
  replace ((64 + (20 + zlen (v4_options h)) / 4) mod 16) with ((20 + zlen (v4_options h)) / 4).
  - rewrite u8_id; unfold in_u8; lia.
  - apply (Z.mod_unique _ _ 4); lia.
Qed.

Lemma tcp_loaded_hlen t : tcp_fields_ok t -> tcp_header_len (tcp_loaded t) = t_hlen t.
Proof.
  intros []. pose proof (hlen_words _ t_options_ok0 (zlen_nonneg _)).
  unfold tcp_header_len, tcp_loaded, t_hlen. cbn [th_offset_ns].
  rewrite Z.shiftr_div_pow2 by lia. change (2 ^ 4) with 16.
  rewrite Z.div_mul by lia. rewrite u8_id; unfold in_u8; lia.
Qed.
End loads.
