(* ===== verification/ParserSpec.v ===== *)
(** * What the decoder returns

    Functional theorems about [decode_packet]: frames built from header fields
    decode to exactly those fields (with any IPv4 and TCP options and up to two
    VLAN tags); the IPv6 extension-header walk against an inductive
    specification of header chains. *)

From S2P Require Import Prelude.
From S2P Require Import Machine.
From S2P Require Import Protocol.
From S2P Require Import Parser.
From S2P Require Import ParserSafe.
From S2P Require Import Checksum.
From S2P Require Import Layout.
#[local] Open Scope Z_scope.

(** ** Link layer *)

Definition first_ety (tags : list Z) (ety : Z) : Z :=
  match tags with [] => ety | _ => ETHERTYPE_VLAN end.

Fixpoint vlan_rest (tags : list Z) (ety : Z) : list byte :=
  match tags with
  | [] => []
  | tci :: tags => be_bytes 2 tci ++ be_bytes 2 (first_ety tags ety) ++ vlan_rest tags ety
  end.

Lemma vlan_bytes_split tags ety :
  vlan_bytes tags ety = be_bytes 2 (first_ety tags ety) ++ vlan_rest tags ety.
Proof.
  induction tags as [|tci tags IH]; cbn [vlan_bytes first_ety vlan_rest].
  - by rewrite app_nil_r.
  - by rewrite IH.
Qed.

Lemma zlen_vlan_rest tags ety : zlen (vlan_rest tags ety) = 4 * zlen tags.
Proof.
  induction tags as [|tci tags IH]; cbn [vlan_rest]; autorewrite with zlen; [done|lia].
Qed.

Lemma zlen_eth_bytes dst src tags ety :
  zlen dst = 6 -> zlen src = 6 -> zlen (eth_bytes dst src tags ety) = 14 + 4 * zlen tags.
Proof.
  intros. unfold eth_bytes. rewrite vlan_bytes_split. autorewrite with zlen.
  rewrite zlen_vlan_rest. lia.
Qed.

(** The packet after the tags [tags] have been unwrapped. *)
Definition with_vlan (tags : list Z) (out : DecodedPacket) : DecodedPacket :=
  fold_left (fun o tci => o <| has_vlan := true |> <| vlan_id := Z.land tci 0x0FFF |>) tags out.

Definition not_vlan (ety : Z) : Prop := ety <> ETHERTYPE_VLAN /\ ety <> ETHERTYPE_QINQ.

Lemma first_ety_in tags ety : in_u16 ety -> in_u16 (first_ety tags ety).
Proof. by destruct tags. Qed.

Section frames.
Context {H : HostOrder}.
Variable m : list byte.

Lemma vlan_id_land tci : in_u16 tci -> u16 (Z.land tci 0x0FFF) = Z.land tci 0x0FFF.
Proof.
  intros. apply u16_id. change 0x0FFF with (2 ^ 12 - 1). rewrite land_ones_mod by lia.
  change (2 ^ 12) with 4096. pose proof (Z.mod_pos_bound tci 4096). unfold in_u16. lia.
Qed.

Lemma unwrap_vlan_at n tags ety p left out :
  (length tags <= n)%nat -> Forall in_u16 tags -> in_u16 ety -> not_vlan ety ->
  at_off m p (vlan_rest tags ety) -> 4 * zlen tags <= left ->
  unwrap_vlan m n (mkCursor p left) (first_ety tags ety) out =
    Val (Some (mkCursor (p + 4 * zlen tags) (left - 4 * zlen tags), ety), with_vlan tags out).
Proof.
  intros Hn Ht He [Hv Hq]. revert n p left out Hn.
  induction Ht as [|tci tags Htci Ht IH]; intros n p left out Hn A Hl.
  - cbn [first_ety with_vlan fold_left]. rewrite (zlen_nil (A := Z)). simpl.
    destruct n as [|n]; cbn [unwrap_vlan].
    { rewrite !Z.add_0_r, Z.sub_0_r. done. }
    rewrite (proj2 (Z.eqb_neq _ _) Hv), (proj2 (Z.eqb_neq _ _) Hq). simpl.
    rewrite !Z.add_0_r, Z.sub_0_r. done.
  - destruct n as [|n]; [simpl in Hn; lia|]. cbn [unwrap_vlan first_ety].
    rewrite Z.eqb_refl. cbn [orb]. rewrite zlen_cons in *. pose proof (zlen_nonneg tags).
    rewrite take_enough by (unfold sizeof_VlanTag; simpl; lia). cbn [cur_p cur_left].
    cbn [vlan_rest] in A. split_at A. unfold load_VlanTag.
    do 2 do_load. cbn [mret mem_ret mbind mem_bind].
    cbn [vlan_tci vlan_inner_ethertype].
    rewrite !ntohs_load by auto using first_ety_in. rewrite vlan_id_land by done.
    unfold sizeof_VlanTag.
    rewrite IH.
    + unfold with_vlan. cbn [fold_left].
      replace (p + 4 + 4 * zlen tags) with (p + 4 * (1 + zlen tags)) by lia.
      by replace (left - 4 - 4 * zlen tags) with (left - 4 * (1 + zlen tags)) by lia.
    + simpl in Hn. lia.
    + match goal with A : at_off m ?q (vlan_rest _ _) |- _ => 
        replace (p + 4) with q by (autorewrite with zlen; lia); exact A end.
    + lia.
Qed.

(** The packet after the Ethernet header and its tags. *)
Definition eth_out (dst src : list byte) (tags : list Z) (ety : Z) (out : DecodedPacket) : DecodedPacket :=
  with_vlan tags (out <| has_l2 := true |> <| dst_mac := dst |> <| src_mac := src |>)
    <| ethertype := ety |>.

Lemma decode_l2_at dst src tags ety left out :
  zlen dst = 6 -> zlen src = 6 -> (length tags <= 2)%nat -> Forall in_u16 tags ->
  in_u16 ety -> not_vlan ety ->
  at_off m 0 (eth_bytes dst src tags ety) -> 14 + 4 * zlen tags <= left ->
  decode_l2 m 1 (mkCursor 0 left) out =
    Val (Some (mkCursor (14 + 4 * zlen tags) (left - (14 + 4 * zlen tags)), ety),
         eth_out dst src tags ety out).
Proof.
  intros Hd Hs Hn Ht He Hv A Hl. pose proof (zlen_nonneg tags).
  unfold decode_l2. change (LinkType.of_int 1) with (Some LinkType.Ethernet). cbv iota.
  rewrite take_enough by (unfold sizeof_EthernetHeader; simpl; lia). cbn [cur_p cur_left].
  unfold eth_bytes in A. rewrite vlan_bytes_split in A. split_at A.
  unfold load_EthernetHeader. do 3 do_load. cbn [mret mem_ret mbind mem_bind eth_dst eth_src eth_ethertype].
  rewrite ntohs_load by auto using first_ety_in. unfold sizeof_EthernetHeader.
  erewrite unwrap_vlan_at; [|done..| |lia].
  - cbn [mbind mem_bind mret mem_ret]. unfold eth_out.
    replace (0 + 14 + 4 * zlen tags) with (14 + 4 * zlen tags) by lia.
    by replace (left - 14 - 4 * zlen tags) with (left - (14 + 4 * zlen tags)) by lia.
  - match goal with A : at_off m ?q (vlan_rest _ _) |- _ => 
      replace (0 + 14) with q by (autorewrite with zlen; lia); exact A end.
Qed.

(** ** IPv4 *)

Definition v4_address (bs : list byte) : IpAddress := mkIpAddress false (bs ++ replicate 12 x00).
Definition v4_frag_offset (h : ipv4_fields) : Z := Z.land h.(v4_flags_frag) 0x1FFF * 8.
Definition v4_more_fragments (h : ipv4_fields) : bool := negb (Z.land h.(v4_flags_frag) 0x2000 =? 0).

Definition ipv4_out (h : ipv4_fields) (out : DecodedPacket) : DecodedPacket :=
  out <| l3 := L3Proto.IPv4 |> <| src_ip := v4_address h.(v4_src) |>
      <| dst_ip := v4_address h.(v4_dst) |> <| ttl := h.(v4_ttl) |>
      <| ip_proto := h.(v4_proto) |> <| ip_id := h.(v4_id) |>
      <| dscp := Z.shiftr h.(v4_tos) 2 |>
      <| fragmented := v4_more_fragments h || (0 <? v4_frag_offset h) |>
      <| first_fragment := v4_frag_offset h =? 0 |>
      <| bad_ip_checksum := negb (rfc1071 (ipv4_bytes h) =? 0) |>.

Lemma frag_offset_loaded h : ipv4_fields_ok h -> ip4_frag_offset (ip4_loaded h) = v4_frag_offset h.
Proof.
  intros []. unfold ip4_frag_offset, v4_frag_offset. cbn [ip4_loaded ip4_flags_frag].
  rewrite ntohs_load by done. change 0x1FFF with (2 ^ 13 - 1). rewrite land_ones_mod by lia.
  change (2 ^ 13) with 8192. pose proof (Z.mod_pos_bound (v4_flags_frag h) 8192).
  apply u16_id. unfold in_u16. lia.
Qed.

Lemma dscp_loaded h : ipv4_fields_ok h -> ip4_dscp (ip4_loaded h) = Z.shiftr h.(v4_tos) 2.
Proof.
  intros []. unfold ip4_dscp. cbn [ip4_loaded ip4_tos]. apply u8_id. unfold in_u8 in *.
  rewrite Z.shiftr_div_pow2 by lia. change (2 ^ 2) with 4. change (2 ^ 8) with 256 in *.
  split; [apply Z.div_pos; lia|apply Z.div_lt_upper_bound; lia].
Qed.

(** A complete IPv4 header hands the rest of the capture to the transport
    decoder, or records it as the payload of a later fragment. *)
Lemma decode_ipv4_at h p left out :
  ipv4_fields_ok h -> at_off m p (ipv4_bytes h) -> v4_hlen h <= left ->
  decode_ipv4 m (mkCursor p left) out =
    let cur := mkCursor (p + v4_hlen h) (left - v4_hlen h) in
    if v4_frag_offset h =? 0 then decode_l4 m cur (ipv4_out h out)
    else Val (true, rest_as_payload cur (ipv4_out h out <| l4 := L4Proto.Other |>)).
Proof.
  intros Hh A Hl. pose proof (at_off_nonneg _ _ _ A) as [Hp Hm].
  pose proof (zlen_ipv4_bytes h Hh) as Hz. rewrite Hz in Hm.
  assert (20 <= v4_hlen h) by (unfold v4_hlen; pose proof (zlen_nonneg (v4_options h)); lia).
  assert (v4_hlen h <= 60) by (destruct Hh as [_ _ _ _ _ _ _ (? & ? & ?)]; unfold v4_hlen; lia).
  unfold decode_ipv4. rewrite take_enough by (unfold sizeof_Ipv4Header; simpl; lia).
  cbn [cur_p cur_left]. rewrite (load_Ipv4Header_at _ _ _ Hh A). cbn [mbind mem_bind].
  rewrite ip4_loaded_version, ip4_loaded_hlen by done. rewrite Z.eqb_refl. cbn [negb].
  unfold sizeof_Ipv4Header. rewrite (proj2 (Z.ltb_ge (v4_hlen h) 20)) by lia.
  rewrite (proj2 (Z.leb_le _ _)) by lia.
  rewrite internet_checksum_slice by lia. rewrite (at_off_slice _ _ _ _ A) by done.
  cbn [mbind mem_bind mret mem_ret].
  rewrite frag_offset_loaded, dscp_loaded by done.
  rewrite skip_enough by (simpl; lia). cbn [cur_p cur_left].
  destruct Hh. cbn [ip4_loaded ip4_src ip4_dst ip4_ttl ip4_proto ip4_id].
  rewrite !from_v4_load by (unfold zlen in *; lia). rewrite ntohs_load by done.
  unfold ip4_more_fragments. cbn [ip4_loaded ip4_flags_frag]. rewrite ntohs_load by done.
  replace (p + 20 + (v4_hlen h - 20)) with (p + v4_hlen h) by lia.
  replace (left - 20 - (v4_hlen h - 20)) with (left - v4_hlen h) by lia.
  unfold ipv4_out, v4_more_fragments. simpl first_fragment. cbv zeta.
  destruct (v4_frag_offset h =? 0); reflexivity.
Qed.

(** ** TCP *)

Definition tcp_out (t : tcp_fields) (out : DecodedPacket) : DecodedPacket :=
  out <| l4 := L4Proto.TCP |> <| sport := t.(t_sport) |> <| dport := t.(t_dport) |>
      <| seqno := t.(t_seq) |> <| ackno := t.(t_ack) |> <| window := t.(t_window) |>
      <| tcp_flags := t.(t_flags) |>.

Lemma decode_tcp_at t p left out :
  tcp_fields_ok t -> out.(ip_proto) = IPPROTO_TCP_ -> at_off m p (tcp_bytes t) ->
  t_hlen t <= left ->
  decode_l4 m (mkCursor p left) out =
    Val (true, rest_as_payload (mkCursor (p + t_hlen t) (left - t_hlen t)) (tcp_out t out)).
Proof.
  intros Ht Hproto A Hl.
  assert (20 <= t_hlen t) by (unfold t_hlen; pose proof (zlen_nonneg (t_options t)); lia).
  unfold decode_l4. rewrite Hproto. rewrite Z.eqb_refl.
  rewrite take_enough by (unfold sizeof_TcpHeader; simpl; lia). cbn [cur_p cur_left].
  rewrite (load_TcpHeader_at _ _ _ Ht A). cbn [mbind mem_bind].
  rewrite tcp_loaded_hlen by done. unfold sizeof_TcpHeader.
  rewrite (proj2 (Z.ltb_ge (t_hlen t) 20)) by lia.
  rewrite skip_enough by (simpl; lia). cbn [cur_p cur_left].
  destruct Ht. cbn [tcp_loaded th_sport th_dport th_seq th_ack th_flags th_window].
  rewrite !ntohs_load, !ntohl_load by done.
  replace (p + 20 + (t_hlen t - 20)) with (p + t_hlen t) by lia.
  replace (left - 20 - (t_hlen t - 20)) with (left - t_hlen t) by lia. reflexivity.
Qed.
End frames.

(** ** IPv6 extension headers *)

(** One extension header: a hop-by-hop, routing or destination-options header
    ([body] has [8 * len + 6] bytes), or a fragment header. *)
Inductive ext_header :=
| ExtOptions (kind : Z) (len : Z) (body : list byte)
| ExtFragment (reserved : byte) (offset_flags : Z) (ident : list byte).

Definition ext_kind (e : ext_header) : Z :=
  match e with ExtOptions k _ _ => k | ExtFragment _ _ _ => IPPROTO_IPV6_FRAG_ end.

Definition ext_ok (e : ext_header) : Prop :=
  match e with
  | ExtOptions k len body =>
      (k = IPPROTO_HOPOPTS_ \/ k = IPPROTO_IPV6_ROUTE_ \/ k = IPPROTO_DSTOPTS_) /\
      in_u8 len /\ zlen body = 8 * len + 6
  | ExtFragment _ off ident => in_u16 off /\ zlen ident = 4
  end.

Definition ext_bytes (e : ext_header) (next : Z) : list byte :=
  match e with
  | ExtOptions _ len body => [byte_of next] ++ [byte_of len] ++ body
  | ExtFragment r off ident => [byte_of next] ++ [r] ++ be_bytes 2 off ++ ident
  end.

Definition first_kind (es : list ext_header) (upper : Z) : Z :=
  match es with [] => upper | e :: _ => ext_kind e end.

Fixpoint chain_bytes (es : list ext_header) (upper : Z) : list byte :=
  match es with
  | [] => []
  | e :: es => ext_bytes e (first_kind es upper) ++ chain_bytes es upper
  end.

(** What a header tells the decoder about fragmentation. *)
Definition ext_flags (out : DecodedPacket) (e : ext_header) : DecodedPacket :=
  match e with
  | ExtOptions _ _ _ => out
  | ExtFragment _ off _ =>
      out <| fragmented := true |> <| first_fragment := Z.land off 0xFFF8 =? 0 |>
  end.

Definition is_extension (next : Z) : bool :=
  (next =? IPPROTO_HOPOPTS_) || (next =? IPPROTO_IPV6_ROUTE_) ||
  (next =? IPPROTO_DSTOPTS_) || (next =? IPPROTO_IPV6_FRAG_).

Lemma ext_kind_in e : ext_ok e -> in_u8 (ext_kind e).
Proof. destruct e; simpl; [|done]. by intros ([-> | [-> | ->]] & _). Qed.

Lemma first_kind_in es upper : Forall ext_ok es -> in_u8 upper -> in_u8 (first_kind es upper).
Proof. intros He Hu. destruct He; [done|]. by apply ext_kind_in. Qed.

Section ipv6_chain.
Context {H : HostOrder}.
Variable m : list byte.

(** One round of the walk consumes one header. *)
Lemma ipv6_walk_step hops e next p left out :
  ext_ok e -> in_u8 next -> at_off m p (ext_bytes e next) -> zlen (ext_bytes e next) <= left ->
  ipv6_walk m (S hops) (mkCursor p left) (ext_kind e) out =
    ipv6_walk m hops (mkCursor (p + zlen (ext_bytes e next)) (left - zlen (ext_bytes e next)))
      next (ext_flags out e).
Proof.
  intros He Hn A Hl. destruct e as [k len body|r off ident]; cbn [ext_bytes ext_kind ext_flags] in *.
  - destruct He as (Hk & Hlen & Hb). rewrite !zlen_app in *. rewrite Hb in *.
    change (zlen [byte_of next]) with 1 in *. change (zlen [byte_of len]) with 1 in *.
    unfold in_u8 in Hlen. split_at A. cbn [ipv6_walk].
    replace (_ || _ || _) with true by (destruct Hk as [-> | [-> | ->]]; done).
    rewrite take_enough by (simpl; lia). cbn [cur_p cur_left].
    rewrite (rd_at m p (byte_of next)) by done. cbn [mbind mem_bind].
    rewrite (rd_at m (p + 1) (byte_of len)) by done. cbn [mbind mem_bind].
    rewrite !bval_byte_of, !u8_id by done.
    rewrite u32_id by (unfold in_u32; change (2 ^ 8) with 256 in *; lia).
    rewrite skip_enough by (simpl; lia). cbn [cur_p cur_left].
    replace (p + 2 + (len * 8 + 6)) with (p + (1 + (1 + (8 * len + 6)))) by lia.
    by replace (left - 2 - (len * 8 + 6)) with (left - (1 + (1 + (8 * len + 6)))) by lia.
  - destruct He as (Hoff & Hi). rewrite !zlen_app, zlen_be_bytes, Hi in *.
    change (zlen [byte_of next]) with 1 in *. change (zlen [r]) with 1 in *.
    split_at A. cbn [ipv6_walk].
    change ((IPPROTO_IPV6_FRAG_ =? IPPROTO_HOPOPTS_) || (IPPROTO_IPV6_FRAG_ =? IPPROTO_IPV6_ROUTE_)
      || (IPPROTO_IPV6_FRAG_ =? IPPROTO_DSTOPTS_)) with false.
    change (IPPROTO_IPV6_FRAG_ =? IPPROTO_IPV6_FRAG_) with true. cbv iota.
    rewrite take_enough by (simpl; lia). cbn [cur_p cur_left].
    match goal with Ab : at_off m ?q (be_bytes 2 off) |- _ =>
      replace (p + 2) with q by (change (zlen [byte_of next]) with 1; change (zlen [r]) with 1; lia);
      rewrite (load_be16_at m q off) by done end.
    cbn [mbind mem_bind]. rewrite (rd_at m p (byte_of next)) by done. cbn [mbind mem_bind].
    rewrite bval_byte_of, u8_id by done.
    rewrite u16_id by (by apply land_bounds).
    reflexivity.
Qed.

Lemma ipv6_walk_chain hops es upper p left out :
  (length es < hops)%nat -> Forall ext_ok es -> in_u8 upper -> is_extension upper = false ->
  at_off m p (chain_bytes es upper) -> zlen (chain_bytes es upper) <= left ->
  ipv6_walk m hops (mkCursor p left) (first_kind es upper) out =
    Val (upper,
         mkCursor (p + zlen (chain_bytes es upper)) (left - zlen (chain_bytes es upper)),
         fold_left ext_flags es out).
Proof.
  intros Hh He Hu Hx. revert hops p left out Hh.
  induction He as [|e es He Hes IH]; intros hops p left out Hh A Hl;
    (destruct hops as [|hops]; [simpl in Hh; lia|]).
  - cbn [ipv6_walk first_kind chain_bytes fold_left]. unfold is_extension in Hx.
    apply orb_false_iff in Hx as [Hx Hf]. rewrite Hx, Hf.
    change (zlen (@nil byte)) with 0. by rewrite Z.add_0_r, Z.sub_0_r.
  - cbn [chain_bytes first_kind fold_left] in *. rewrite zlen_app in *.
    apply at_off_app in A as [A Ar].
    pose proof (zlen_nonneg (chain_bytes es upper)).
    rewrite (ipv6_walk_step _ _ (first_kind es upper));
      [|done|by apply first_kind_in|done|lia].
    rewrite IH; [|simpl in Hh; lia|done|lia].
    set (a := zlen (ext_bytes _ _)). set (b := zlen (chain_bytes _ _)).
    by rewrite <-Z.add_assoc, Z.sub_add_distr.
Qed.

(** A chain that uses up the hop budget ends as "no next header". *)
Lemma ipv6_walk_exhausted hops es upper p left out :
  (hops <= length es)%nat -> Forall ext_ok es -> in_u8 upper ->
  at_off m p (chain_bytes es upper) -> zlen (chain_bytes es upper) <= left ->
  exists cur, ipv6_walk m hops (mkCursor p left) (first_kind es upper) out =
    Val (IPPROTO_NONXT_, cur, fold_left ext_flags (firstn hops es) out).
Proof.
  intros Hh He Hu. revert hops p left out Hh.
  induction He as [|e es He Hes IH]; intros hops p left out Hh A Hl;
    (destruct hops as [|hops]; [by eexists|]); [simpl in Hh; lia|].
  cbn [chain_bytes first_kind fold_left firstn] in *. rewrite zlen_app in *.
  apply at_off_app in A as [A Ar]. pose proof (zlen_nonneg (chain_bytes es upper)).
  rewrite (ipv6_walk_step _ _ (first_kind es upper));
    [|done|by apply first_kind_in|done|lia].
  apply IH; [simpl in Hh; lia|done|lia].
Qed.
End ipv6_chain.

(** ** Whole frames *)

(** An Ethernet frame carrying a TCP segment over IPv4. *)
Definition tcp_frame (dst src : list byte) (tags : list Z) (h : ipv4_fields) (t : tcp_fields)
    (data : list byte) : list byte :=
  eth_bytes dst src tags ETHERTYPE_IPV4 ++ ipv4_bytes h ++ tcp_bytes t ++ data.

Definition arrival (t : timeval) (cap wl : Z) : DecodedPacket :=
  packet_default <| ts := t |> <| caplen := cap |> <| wirelen := wl |>.

Lemma decode_packet_l2 `{HostOrder} dst src tags ety rest wl t :
  zlen dst = 6 -> zlen src = 6 -> (length tags <= 2)%nat -> Forall in_u16 tags ->
  in_u16 ety -> not_vlan ety ->
  let m := eth_bytes dst src tags ety ++ rest in
  let cap := zlen m in
  decode_packet (Some m) cap wl t 1 =
    decode_l3 m (mkCursor (14 + 4 * zlen tags) (zlen rest)) ety
      (eth_out dst src tags ety (arrival t cap wl)).
Proof.
  intros Hd Hs Hn Ht He Hv m cap.
  assert (Hcap : cap = 14 + 4 * zlen tags + zlen rest)
    by (unfold cap, m; rewrite zlen_app, zlen_eth_bytes by done; lia).
  pose proof (zlen_nonneg tags). pose proof (zlen_nonneg rest).
  unfold decode_packet. rewrite (proj2 (Z.eqb_neq cap 0)) by lia.
  rewrite (decode_l2_at m dst src tags ety) by (done || lia || apply at_off_start).
  cbn [mbind mem_bind].
  by replace (cap - (14 + 4 * zlen tags)) with (zlen rest) by lia.
Qed.

Lemma decode_tcp_frame `{HostOrder} dst src tags h t data wl tv :
  zlen dst = 6 -> zlen src = 6 -> (length tags <= 2)%nat -> Forall in_u16 tags ->
  ipv4_fields_ok h -> h.(v4_proto) = IPPROTO_TCP_ -> v4_frag_offset h = 0 -> tcp_fields_ok t ->
  let m := tcp_frame dst src tags h t data in
  decode_packet (Some m) (zlen m) wl tv 1 =
    Val (true,
         tcp_out t (ipv4_out h (eth_out dst src tags ETHERTYPE_IPV4 (arrival tv (zlen m) wl)))
           <| payload := Some (zlen m - zlen data) |> <| payload_len := zlen data |>).
Proof.
  intros Hd Hs Hn Ht Hh Hp Hf Htcp m. unfold m, tcp_frame.
  rewrite decode_packet_l2 by (done || by split). unfold decode_l3.
  change (ETHERTYPE_IPV4 =? ETHERTYPE_ARP) with false. rewrite Z.eqb_refl. cbv iota.
  set (e := eth_bytes _ _ _ _).
  assert (He : 14 + 4 * zlen tags = zlen e) by (unfold e; by rewrite zlen_eth_bytes).
  pose proof (at_off_whole (e ++ ipv4_bytes h ++ tcp_bytes t ++ data)) as A.
  split_at A. rewrite Z.add_0_l in *.
  rewrite He, (decode_ipv4_at _ h) by
    (done || (rewrite zlen_app, zlen_ipv4_bytes by done;
              pose proof (zlen_nonneg (tcp_bytes t ++ data)); lia)).
  rewrite Hf. cbv zeta. change (0 =? 0) with true. cbv iota.
  rewrite !zlen_app, zlen_ipv4_bytes, zlen_tcp_bytes in * by done.
  pose proof (zlen_nonneg data).
  rewrite (decode_tcp_at _ t) by (done || lia).
  unfold rest_as_payload. cbn [cur_p cur_left].
  replace (v4_hlen h + (t_hlen t + zlen data) - v4_hlen h - t_hlen t) with (zlen data) by lia.
  by replace (zlen e + (v4_hlen h + (t_hlen t + zlen data)) - zlen data)
    with (zlen e + v4_hlen h + t_hlen t) by lia.
Qed.

(** C12: Decoding is the inverse of encoding for TCP over IPv4: a frame built
    from an Ethernet header with up to two VLAN tags, an IPv4 header and a TCP
    header with any options, and any data decodes to exactly those fields, in
    host byte order on every host, with the payload at its offset in the frame
    and the header-checksum verdict of RFC 1071. *)
Theorem decode_tcp_ipv4_frame `{HostOrder} dst src tags h t data wl tv :
  zlen dst = 6 -> zlen src = 6 -> (length tags <= 2)%nat -> Forall in_u16 tags ->
  ipv4_fields_ok h -> h.(v4_proto) = IPPROTO_TCP_ -> v4_frag_offset h = 0 -> tcp_fields_ok t ->
  let m := tcp_frame dst src tags h t data in
  decode_packet (Some m) (zlen m) wl tv 1 =
    Val (true,
         tcp_out t (ipv4_out h (eth_out dst src tags ETHERTYPE_IPV4 (arrival tv (zlen m) wl)))
           <| payload := Some (zlen m - zlen data) |> <| payload_len := zlen data |>).
Proof. apply decode_tcp_frame. Qed.

Definition sample_ipv4 (proto flags : Z) (total : Z) : ipv4_fields :=
  mkIpv4Fields 0 total 7 flags 64 proto 0 (lit "srcA") (lit "dstB") [].

Definition sample_tcp (flags : Z) : tcp_fields :=
  mkTcpFields 443 51000 1000 2000 flags 65535 0 0 (lit "opts").

Definition sample_frame (flags : Z) (data : list byte) : list byte :=
  tcp_frame (lit "dstmac") (lit "srcmac") [5; 0x2064] (sample_ipv4 IPPROTO_TCP_ 0 48)
    (sample_tcp flags) data.

Lemma sample_ipv4_ok proto flags total :
  in_u8 proto -> in_u16 flags -> ipv4_fields_ok (sample_ipv4 proto flags total).
Proof. constructor; try done. by exists 0. Qed.

Lemma sample_tcp_ok flags : in_u8 flags -> tcp_fields_ok (sample_tcp flags).
Proof. constructor; try done. by exists 1. Qed.

Lemma decode_tcp_ipv4_frame_witness :
  let m := sample_frame TH_ACK (lit "data") in
  decode_packet (H := little_endian) (Some m) (zlen m) 99 timeval_zero 1 =
    Val (true,
         tcp_out (sample_tcp TH_ACK)
           (ipv4_out (sample_ipv4 IPPROTO_TCP_ 0 48)
              (eth_out (lit "dstmac") (lit "srcmac") [5; 0x2064] ETHERTYPE_IPV4
                 (arrival timeval_zero (zlen m) 99)))
           <| payload := Some (zlen m - zlen (lit "data")) |> <| payload_len := zlen (lit "data") |>).
Proof.
  apply (decode_tcp_ipv4_frame (H := little_endian) (lit "dstmac") (lit "srcmac") [5; 0x2064]
           (sample_ipv4 IPPROTO_TCP_ 0 48) (sample_tcp TH_ACK) (lit "data") 99 timeval_zero);
    try reflexivity.
  - by repeat constructor.
  - by apply sample_ipv4_ok.
  - by apply sample_tcp_ok.
Defined.

(** C25: The extension-header walk of IPv6 implements the chain format: fewer
    than eight hop-by-hop, routing, destination-options and fragment headers are
    skipped exactly, the upper-layer protocol is the last "next header" value and
    the fragmentation flags are those of the fragment headers met; a chain that
    is longer than the hop budget ends as "no next header", whatever it holds. *)
Theorem resolve_ipv6_next_chain `{HostOrder} m es upper p left out :
  Forall ext_ok es -> in_u8 upper -> is_extension upper = false ->
  at_off m p (chain_bytes es upper) -> zlen (chain_bytes es upper) <= left ->
  let n := zlen (chain_bytes es upper) in
  ((length es < 8)%nat ->
     resolve_ipv6_next m (mkCursor p left) (first_kind es upper) out =
       Val (upper, mkCursor (p + n) (left - n), fold_left ext_flags es out)) /\
  ((8 <= length es)%nat ->
     exists cur, resolve_ipv6_next m (mkCursor p left) (first_kind es upper) out =
       Val (IPPROTO_NONXT_, cur, fold_left ext_flags (firstn 8 es) out)).
Proof.
  intros He Hu Hx A Hl. unfold resolve_ipv6_next. split; intros Hn.
  - by apply ipv6_walk_chain.
  - by apply ipv6_walk_exhausted.
Qed.

Definition sample_chain : list ext_header :=
  [ExtOptions IPPROTO_HOPOPTS_ 0 (lit "padpad"); ExtFragment x00 8 (lit "idid")].

Lemma resolve_ipv6_next_chain_witness :
  let m := lit "x" ++ chain_bytes sample_chain IPPROTO_UDP_ ++ lit "tail" in
  resolve_ipv6_next m (mkCursor 1 20) (first_kind sample_chain IPPROTO_UDP_) packet_default =
    Val (IPPROTO_UDP_, mkCursor 17 4, fold_left ext_flags sample_chain packet_default).
Proof.
  intros m.
  apply (proj1 (resolve_ipv6_next_chain (H := little_endian) m sample_chain IPPROTO_UDP_ 1 20 packet_default
    ltac:(by repeat constructor; auto) ltac:(done) ltac:(reflexivity)
    ltac:(by exists (lit "x"), (lit "tail")) ltac:(by vm_compute))).
  simpl. lia.
Defined.

(** The decoder takes everything behind the TCP header as payload and does
    not look at the IPv4 total length: a bare acknowledgement that the Ethernet
    driver padded to the minimum frame size decodes as a segment carrying the
    padding. *)
Lemma padding_counts_as_payload `{HostOrder} dst src h t pad wl tv :
  zlen dst = 6 -> zlen src = 6 -> ipv4_fields_ok h -> h.(v4_proto) = IPPROTO_TCP_ ->
  v4_frag_offset h = 0 -> tcp_fields_ok t -> h.(v4_total_len) = v4_hlen h + t_hlen t ->
  let m := tcp_frame dst src [] h t pad in
  exists out, decode_packet (Some m) (zlen m) wl tv 1 = Val (true, out) /\
    out.(payload_len) = zlen pad /\ out.(tcp_flags) = t.(t_flags).
Proof.
  intros. eexists. split.
  { apply decode_tcp_frame; try done. simpl. lia. }
  done.
Qed.

Lemma padding_counts_as_payload_witness :
  let t := mkTcpFields 443 51000 1000 2000 TH_ACK 65535 0 0 [] in
  let m := tcp_frame (lit "dstmac") (lit "srcmac") [] (sample_ipv4 IPPROTO_TCP_ 0 40) t
             (repeat x00 6) in
  zlen m = 60 /\
  exists out, decode_packet (H := little_endian) (Some m) (zlen m) 60 timeval_zero 1 = Val (true, out) /\
    out.(payload_len) = 6 /\ out.(tcp_flags) = TH_ACK.
Proof.
  intros t m. split; [reflexivity|].
  apply (padding_counts_as_payload (H := little_endian) (lit "dstmac") (lit "srcmac")
           (sample_ipv4 IPPROTO_TCP_ 0 40) t (repeat x00 6)); try reflexivity.
  - by apply sample_ipv4_ok.
  - constructor; try done. by exists 0.
Defined.
