(* ===== verification/Serial.v ===== *)
(** * Serial-number arithmetic on 32-bit sequence numbers (include/flow.hpp)

    [seq_lt], [seq_le] and [seq_gt] compare two sequence numbers by the sign of
    their wrapped difference (RFC 1982).  On numbers [base + x] of a stream that
    spans less than half of the sequence space they agree with the order of the
    offsets [x], whatever the base and wherever the wrap falls. *)

From S2P Require Import Prelude.
From S2P Require Import Machine.
#[local] Open Scope Z_scope.

Definition seq_lt (a b : Z) : bool := i32 (u32 (a - b)) <? 0.
Definition seq_le (a b : Z) : bool := i32 (u32 (a - b)) <=? 0.
Definition seq_gt (a b : Z) : bool := 0 <? i32 (u32 (a - b)).

(** The sequence number [x] bytes after [base]. *)
Definition seq_at (base x : Z) : Z := u32 (base + x).

Section serial.
Implicit Types base x y : Z.

Lemma seq_at_in base x : in_u32 (seq_at base x).
Proof. apply u32_in. Qed.

Lemma seq_at_diff base x y : u32 (seq_at base x - seq_at base y) = u32 (x - y).
Proof.
  unfold seq_at, u32. rewrite <-Zminus_mod. f_equal. lia.
Qed.

Lemma seq_at_add base x n : u32 (seq_at base x + n) = seq_at base (x + n).
Proof. unfold seq_at, u32. rewrite Zplus_mod_idemp_l. f_equal. lia. Qed.

Lemma seq_at_dist base x y : 0 <= x - y < 2 ^ 32 -> u32 (seq_at base x - seq_at base y) = x - y.
Proof. intros. rewrite seq_at_diff. by apply u32_id. Qed.

Lemma i32_u32 z : - 2 ^ 31 <= z < 2 ^ 31 -> i32 (u32 z) = z.
Proof.
  intros Hz. unfold i32. rewrite (u32_id (u32 z)) by apply u32_in. unfold u32.
  destruct (Z.neg_nonneg_cases z) as [?|?].
  - replace (z mod 2 ^ 32) with (z + 2 ^ 32) by (apply (Z.mod_unique _ _ (-1)); lia).
    rewrite (proj2 (Z.ltb_ge _ _)) by lia. lia.
  - rewrite Z.mod_small by lia. rewrite (proj2 (Z.ltb_lt _ _)) by lia. done.
Qed.

(** Within half of the sequence space the comparisons are those of offsets. *)
Lemma seq_lt_at base x y : - 2 ^ 31 <= x - y < 2 ^ 31 -> seq_lt (seq_at base x) (seq_at base y) = (x <? y).
Proof. intros. unfold seq_lt. rewrite seq_at_diff, i32_u32 by done. lia. Qed.
Lemma seq_le_at base x y : - 2 ^ 31 <= x - y < 2 ^ 31 -> seq_le (seq_at base x) (seq_at base y) = (x <=? y).
Proof. intros. unfold seq_le. rewrite seq_at_diff, i32_u32 by done. lia. Qed.
Lemma seq_gt_at base x y : - 2 ^ 31 <= x - y < 2 ^ 31 -> seq_gt (seq_at base x) (seq_at base y) = (y <? x).
Proof. intros. unfold seq_gt. rewrite seq_at_diff, i32_u32 by done. lia. Qed.

Lemma seq_at_inj base x y : - 2 ^ 31 <= x - y < 2 ^ 31 -> seq_at base x = seq_at base y -> x = y.
Proof.
  intros Hd E. pose proof (seq_at_diff base x y) as Hz. rewrite E, Z.sub_diag in Hz.
  assert (Hi : i32 (u32 0) = i32 (u32 (x - y))) by (by rewrite Hz).
  rewrite !i32_u32 in Hi by lia. lia.
Qed.

Lemma seq_at_0 base : in_u32 base -> seq_at base 0 = base.
Proof. intros. unfold seq_at. rewrite Z.add_0_r. by apply u32_id. Qed.

Lemma seq_lt_irrefl x : seq_lt x x = false.
Proof. unfold seq_lt. by rewrite Z.sub_diag. Qed.
End serial.

(** The sequence-number comparisons are exact and survive wraparound: for
    positions [x] and [y] of one stream that are less than 2^31 bytes apart,
    [seq_lt], [seq_le] and [seq_gt] of the wrapped 32-bit numbers decide
    [x < y], [x <= y] and [x > y] for every base. *)
Lemma serial_compare_exact base x y :
  - 2 ^ 31 <= x - y < 2 ^ 31 ->
  seq_lt (seq_at base x) (seq_at base y) = (x <? y) /\
  seq_le (seq_at base x) (seq_at base y) = (x <=? y) /\
  seq_gt (seq_at base x) (seq_at base y) = (y <? x).
Proof. auto using seq_lt_at, seq_le_at, seq_gt_at. Qed.

Lemma serial_compare_exact_witness :
  seq_at (2 ^ 32 - 2) 5 = 3 /\ seq_lt (seq_at (2 ^ 32 - 2) 0) (seq_at (2 ^ 32 - 2) 5) = true.
Proof.
  split; [reflexivity|].
  apply (serial_compare_exact (2 ^ 32 - 2) 0 5). split; vm_compute; congruence.
Defined.
