(* ===== verification/OrdMap.v ===== *)
(** * [std::map] with integer keys

    The map a C++ [std::map<uint32_t, T>] keeps: an association list in
    increasing key order, whose first entry is [begin()].  [om_emplace] inserts
    only when the key is absent, as [emplace] does; [om_insert] puts an entry at
    its place and overwrites the value of a key that is present. *)

From S2P Require Import Prelude.
From Stdlib Require Import Sorting.Sorted.
#[local] Open Scope Z_scope.

Definition omap (A : Type) := list (Z * A).

Section omap.
Context {A : Type}.
Implicit Types (m : omap A) (k : Z) (v : A).

Fixpoint om_find k m : option A :=
  match m with
  | [] => None
  | (k', v) :: m => if k =? k' then Some v else om_find k m
  end.

(** The entry at its place in key order; an entry with the same key is replaced. *)
Fixpoint om_insert k v m : omap A :=
  match m with
  | [] => [(k, v)]
  | (k', v') :: r =>
      if k <? k' then (k, v) :: m
      else if k =? k' then (k, v) :: r
      else (k', v') :: om_insert k v r
  end.

(** [emplace]: the new map and the value already there, if any. *)
Definition om_emplace k v m : omap A * option A :=
  match om_find k m with
  | Some old => (m, Some old)
  | None => (om_insert k v m, None)
  end.

Definition om_lt (x y : Z * A) : Prop := x.1 < y.1.
Definition om_sorted m : Prop := StronglySorted om_lt m.

Lemma om_sorted_tail x m : om_sorted (x :: m) -> om_sorted m.
Proof. by inversion 1. Qed.

Lemma om_sorted_head k v m k' v' :
  om_sorted ((k, v) :: m) -> (k', v') ∈ m -> k < k'.
Proof.
  intros Hs Hin. inversion Hs as [|? ? _ Hall]; subst.
  by apply (proj1 (Forall_forall _ _) Hall (k', v')).
Qed.

Lemma om_insert_in k v m x :
  om_sorted m -> x ∈ om_insert k v m <-> x = (k, v) \/ (x ∈ m /\ x.1 <> k).
Proof.
  intros Hs. induction m as [|[k' v'] m IH]; cbn [om_insert].
  { set_solver. }
  pose proof (om_sorted_head _ _ _ x.1 x.2 Hs) as Hx.
  rewrite <-surjective_pairing in Hx. specialize (IH (om_sorted_tail _ _ Hs)).
  destruct (k <? k') eqn:E1; [|destruct (k =? k') eqn:E2]; breflect;
    rewrite !elem_of_cons, ?IH; split; intros.
  - destruct_or!; [by left|subst x; right; simpl; split; [by left|lia]|].
    right. split; [by right|]. specialize (Hx ltac:(done)). lia.
  - naive_solver.
  - destruct_or!; [by left|]. right. split; [by right|]. specialize (Hx ltac:(done)). lia.
  - destruct_or!; [by left|]. destruct H as [[->|?] ?]; [simpl in *; lia|by right].
  - destruct_or!; [subst x; right; simpl; split; [by left|lia]|by left|]. naive_solver.
  - naive_solver.
Qed.

Lemma om_insert_sorted k v m : om_sorted m -> om_sorted (om_insert k v m).
Proof.
  induction m as [|[k' v'] m IH]; intros Hs; cbn [om_insert].
  { by repeat constructor. }
  pose proof (om_sorted_tail _ _ Hs) as Ht.
  destruct (k <? k') eqn:E1; [|destruct (k =? k') eqn:E2]; breflect.
  - constructor; [done|]. apply Forall_forall. intros [k2 v2] Hin.
    apply elem_of_cons in Hin as [[= -> ->]|Hin]; unfold om_lt; simpl; [lia|].
    pose proof (om_sorted_head _ _ _ _ _ Hs Hin). lia.
  - subst k'. constructor; [done|]. by inversion Hs.
  - constructor; [by apply IH|]. apply Forall_forall. intros [k2 v2] Hin.
    apply om_insert_in in Hin as [[= -> ->]|[Hin _]]; unfold om_lt; simpl; [lia| |done].
    apply (om_sorted_head _ _ _ _ _ Hs Hin).
Qed.

Lemma om_find_in k v m : om_find k m = Some v -> (k, v) ∈ m.
Proof.
  induction m as [|[k' v'] m IH]; cbn [om_find]; [done|].
  destruct (k =? k') eqn:E; breflect; [intros [= ->]; subst; left|right; auto].
Qed.

Lemma om_in_find k v m : om_sorted m -> (k, v) ∈ m -> om_find k m = Some v.
Proof.
  intros Hs. induction m as [|[k' v'] m IH]; cbn [om_find]; intros Hin.
  { by apply not_elem_of_nil in Hin. }
  apply elem_of_cons in Hin as [[= -> ->]|Hin]; [by rewrite Z.eqb_refl|].
  pose proof (om_sorted_head _ _ _ _ _ Hs Hin).
  rewrite (proj2 (Z.eqb_neq _ _)) by lia. apply IH; [by apply om_sorted_tail in Hs|done].
Qed.

(** ** A measure summed over the values *)

Section sum.
Variable f : A -> Z.

Definition om_sum m : Z := foldr (fun x acc => f x.2 + acc) 0 m.

Lemma om_sum_insert k v m :
  om_sorted m ->
  om_sum (om_insert k v m) = om_sum m + f v - match om_find k m with Some old => f old | None => 0 end.
Proof.
  induction m as [|[k' v'] m IH]; intros Hs; cbn [om_insert om_find]; [simpl; lia|].
  destruct (k <? k') eqn:E1; [|destruct (k =? k') eqn:E2]; breflect.
  - rewrite (proj2 (Z.eqb_neq k k')) by lia.
    destruct (om_find k m) as [old|] eqn:Hf; [|simpl; lia].
    pose proof (om_sorted_head _ _ _ _ _ Hs (om_find_in _ _ _ Hf)). lia.
  - simpl. lia.
  - simpl. rewrite IH by (by apply om_sorted_tail in Hs). lia.
Qed.

Lemma om_sum_nonneg m : (forall v, 0 <= f v) -> 0 <= om_sum m.
Proof. intros Hf. induction m as [|[k v] m IH]; simpl; [done|]. specialize (Hf v). lia. Qed.
End sum.
End omap.
