(* ===== verification/Reassembly.v ===== *)
(** * In-order reassembly of one direction of a TCP stream (src/reassembly.cpp)

    [StreamReassembler] keeps a bounded prefix of the stream and the segments
    that wait for a gap.  The theorems: the memory bounds hold for every input;
    for segments cut from one stream the prefix is always a prefix of that stream
    and the return values count its growth (safety, across sequence wraps too);
    every received stream is reconstructed whatever the arrival order, as long as
    its sequence numbers do not wrap (completeness); and what happens when they
    do. *)

From S2P Require Import Prelude.
From S2P Require Import Machine.
From S2P Require Import Serial.
From S2P Require Import OrdMap.
#[local] Open Scope Z_scope.

(** ** State and operations *)

Record StreamReassembler := mkReassembler {
  initialized_ : bool;
  next_seq_ : Z;
  prefix_ : list byte;
  pending_ : omap (list byte);
  buffered_bytes_ : Z;
  max_prefix_ : Z;
  max_buffered_ : Z;
  delivered_ : Z;
  buffered_segments_ : Z;
  overlap_bytes_ : Z;
  discarded_bytes_ : Z;
}.
#[export] Instance StreamReassembler_eta : Eta StreamReassembler := fun r =>
  mkReassembler r.(initialized_) r.(next_seq_) r.(prefix_) r.(pending_) r.(buffered_bytes_)
    r.(max_prefix_) r.(max_buffered_) r.(delivered_) r.(buffered_segments_) r.(overlap_bytes_)
    r.(discarded_bytes_).

(** [StreamReassembler(max_prefix, max_buffered)]. *)
Definition new_reassembler (max_prefix max_buffered : Z) : StreamReassembler :=
  mkReassembler false 0 [] [] 0 max_prefix max_buffered 0 0 0 0.

Definition default_reassembler : StreamReassembler := new_reassembler 8192 32768.

Definition has_gap (r : StreamReassembler) : bool :=
  match r.(pending_) with [] => false | _ => true end.

Definition saturated (r : StreamReassembler) : bool := r.(max_prefix_) <=? zlen r.(prefix_).

(** [reset()]: the counters and the limits survive. *)
Definition reset (r : StreamReassembler) : StreamReassembler :=
  r <| initialized_ := false |> <| next_seq_ := 0 |> <| prefix_ := [] |> <| pending_ := [] |>
    <| buffered_bytes_ := 0 |>.

Definition append (r : StreamReassembler) (data : list byte) : StreamReassembler :=
  if r.(max_prefix_) <=? zlen r.(prefix_) then r
  else
    let room := r.(max_prefix_) - zlen r.(prefix_) in
    let len := zlen data in
    let take := Z.min room len in
    let r := r <| prefix_ ::= fun p => p ++ firstn (Z.to_nat take) data |> in
    if take <? len then r <| discarded_bytes_ ::= fun d => u64 (d + (len - take)) |> else r.

(** The new in-order bytes [data]: [append], [next_seq_] and [delivered_]. *)
Definition deliver (r : StreamReassembler) (data : list byte) : StreamReassembler :=
  append r data <| next_seq_ ::= fun s => u32 (s + u32 (zlen data)) |>
                <| delivered_ ::= fun d => u64 (d + zlen data) |>.

Arguments deliver : simpl never.

(** The loop of [drain()], structural on the entries in key order. *)
Fixpoint drain_loop (pending : omap (list byte)) (r : StreamReassembler) (delivered_now : Z)
    : Z * StreamReassembler :=
  match pending with
  | [] => (delivered_now, r <| pending_ := [] |>)
  | (seq, bytes) :: rest =>
      if seq_gt seq r.(next_seq_) then (delivered_now, r <| pending_ := pending |>)
      else
        let r := r <| buffered_bytes_ ::= fun b => u64 (b - zlen bytes) |> in
        let already := u32 (r.(next_seq_) - seq) in
        if zlen bytes <=? already then
          drain_loop rest (r <| overlap_bytes_ ::= fun o => u64 (o + zlen bytes) |>) delivered_now
        else
          let fresh := skipn (Z.to_nat already) bytes in
          let r := r <| overlap_bytes_ ::= fun o => u64 (o + already) |> in
          drain_loop rest (deliver r fresh) (u64 (delivered_now + zlen fresh))
  end.

Definition drain (r : StreamReassembler) : Z * StreamReassembler :=
  drain_loop r.(pending_) r 0.

(** The part of [push] behind the trimming of already delivered bytes. *)
Definition push_trimmed (r : StreamReassembler) (seq : Z) (data : list byte) : Z * StreamReassembler :=
  let len := zlen data in
  if seq =? r.(next_seq_) then
    let r := deliver r data in
    let '(n, r) := drain r in
    (u64 (len + n), r)
  else if saturated r || (r.(max_buffered_) <? u64 (r.(buffered_bytes_) + len)) then
    (0, r <| discarded_bytes_ ::= fun d => u64 (d + len) |>)
  else
    match om_emplace seq data r.(pending_) with
    | (pending, None) =>
        (0, r <| pending_ := pending |> <| buffered_bytes_ ::= fun b => u64 (b + len) |>
              <| buffered_segments_ ::= fun n => u64 (n + 1) |>)
    | (pending, Some old) =>
        if zlen old <? len then
          (0, r <| pending_ := om_insert seq data pending |>
                <| buffered_bytes_ ::= fun b => u64 (b + (len - zlen old)) |>)
        else (0, r <| pending_ := pending |>)
    end.

(** [push(seq, data, len, syn)]: [data] is [None] for [nullptr], [len] its
    length. *)
Definition push (r : StreamReassembler) (seq : Z) (data : option (list byte)) (syn : bool)
    : Z * StreamReassembler :=
  let r := if r.(initialized_) then r
           else r <| next_seq_ := if syn then u32 (seq + 1) else seq |> <| initialized_ := true |> in
  match data with
  | None | Some [] => (0, r)
  | Some data =>
      if seq_lt seq r.(next_seq_) then
        let already := u32 (r.(next_seq_) - seq) in
        let r := r <| overlap_bytes_ ::= fun o => u64 (o + Z.min already (zlen data)) |> in
        if zlen data <=? already then (0, r)
        else push_trimmed r r.(next_seq_) (skipn (Z.to_nat already) data)
      else push_trimmed r seq data
  end.

(** A whole trace of segments; the results of the calls, in order. *)
Fixpoint push_all (r : StreamReassembler) (segs : list (Z * list byte)) : list Z * StreamReassembler :=
  match segs with
  | [] => ([], r)
  | (seq, data) :: segs =>
      let '(n, r) := push r seq (Some data) false in
      let '(ns, r) := push_all r segs in
      (n :: ns, r)
  end.

(** ** Memory bounds, for every input *)

(** The prefix and the buffered bytes stay under their limits, and
    [buffered_bytes_] is the size of what is held. *)
Record bounded (r : StreamReassembler) : Prop := {
  bounded_prefix : zlen r.(prefix_) <= r.(max_prefix_);
  bounded_sorted : om_sorted r.(pending_);
  bounded_sum : r.(buffered_bytes_) = om_sum zlen r.(pending_);
  bounded_buffer : r.(buffered_bytes_) <= r.(max_buffered_);
}.

(** Limits and segment sizes for which no size computation wraps. *)
Definition limits_ok (r : StreamReassembler) : Prop :=
  0 <= r.(max_prefix_) /\ 0 <= r.(max_buffered_) < 2 ^ 63.
Record same_limits (r r' : StreamReassembler) : Prop := {
  same_max_prefix : r'.(max_prefix_) = r.(max_prefix_);
  same_max_buffered : r'.(max_buffered_) = r.(max_buffered_);
}.

Create HintDb reasm.
#[export] Hint Resolve om_insert_sorted om_sorted_tail om_sum_nonneg zlen_nonneg : reasm.

Lemma zlen_pending_nonneg (m : omap (list byte)) : 0 <= om_sum zlen m.
Proof. auto using om_sum_nonneg, zlen_nonneg. Qed.

Lemma append_prefix r d :
  zlen r.(prefix_) <= r.(max_prefix_) ->
  (append r d).(prefix_) = firstn (Z.to_nat r.(max_prefix_)) (r.(prefix_) ++ d).
Proof.
  intros Hp. pose proof (zlen_nonneg r.(prefix_)). unfold append, zlen in *.
  rewrite firstn_app, (take_ge (prefix_ r)) by lia.
  destruct (_ <=? _) eqn:E; breflect.
  { replace (Z.to_nat _ - _)%nat with 0%nat by lia. simpl. by rewrite app_nil_r. }
  cbv zeta. set (n := Z.min _ _).
  assert (Hn : firstn (Z.to_nat n) d = firstn (Z.to_nat (max_prefix_ r) - length (prefix_ r)) d).
  { destruct (Z.le_gt_cases (max_prefix_ r - Z.of_nat (length (prefix_ r))) (Z.of_nat (length d))).
    - f_equal. lia.
    - rewrite !take_ge by lia. done. }
  destruct (_ <? _); simpl; by rewrite Hn.
Qed.

Lemma append_rest r d :
  (append r d).(next_seq_) = r.(next_seq_) /\ (append r d).(delivered_) = r.(delivered_) /\
  (append r d).(pending_) = r.(pending_) /\ (append r d).(buffered_bytes_) = r.(buffered_bytes_) /\
  (append r d).(initialized_) = r.(initialized_) /\ same_limits r (append r d).
Proof. unfold append. by repeat case_test. Qed.

Lemma deliver_prefix_le r d :
  0 <= r.(max_prefix_) -> zlen r.(prefix_) <= r.(max_prefix_) ->
  zlen (deliver r d).(prefix_) <= (deliver r d).(max_prefix_).
Proof.
  intros H0 Hp. unfold deliver. simpl. rewrite append_prefix by done.
  destruct (append_rest r d) as (_ & _ & _ & _ & _ & [-> _]). rewrite zlen_take. lia.
Qed.

Lemma deliver_rest r d :
  (deliver r d).(pending_) = r.(pending_) /\ (deliver r d).(buffered_bytes_) = r.(buffered_bytes_) /\
  (deliver r d).(initialized_) = r.(initialized_) /\ same_limits r (deliver r d).
Proof.
  unfold deliver. simpl. by destruct (append_rest r d) as (_ & _ & -> & -> & -> & []).
Qed.

Lemma drain_loop_bounded pend : forall r n,
  limits_ok r -> zlen r.(prefix_) <= r.(max_prefix_) -> om_sorted pend ->
  r.(buffered_bytes_) = om_sum zlen pend -> r.(buffered_bytes_) <= r.(max_buffered_) ->
  bounded (drain_loop pend r n).2 /\ same_limits r (drain_loop pend r n).2 /\
  (drain_loop pend r n).2.(buffered_bytes_) <= r.(buffered_bytes_).
Proof.
  induction pend as [|[k v] pend IH]; intros r n Hl Hp Hs Hsum Hb; cbn [drain_loop].
  { split_and!; [|done|simpl; lia]. constructor; simpl; auto; constructor. }
  destruct (seq_gt _ _).
  { split_and!; [|done|simpl; lia]. by constructor. }
  pose proof (zlen_pending_nonneg pend). pose proof (zlen_nonneg v).
  destruct Hl as [Hl1 Hl2]. cbn [om_sum foldr snd] in Hsum. fold (om_sum zlen pend) in Hsum.
  assert (Hu : u64 (buffered_bytes_ r - zlen v) = om_sum zlen pend)
    by (rewrite Hsum, u64_id by (unfold in_u64; lia); lia).
  cbn zeta. apply om_sorted_tail in Hs.
  match goal with |- context [if ?c then _ else _] => destruct c end.
  - match goal with |- context [drain_loop pend ?r1 n] => specialize (IH r1 n) end.
    destruct IH as (? & Hs1 & Hle); simpl; [done|done|done|done|lia|].
    split_and!; [done|by destruct Hs1|simpl in Hle; lia].
  - match goal with |- context [drain_loop pend (deliver ?r1 ?d) ?n1] =>
      specialize (IH (deliver r1 d) n1);
      pose proof (deliver_rest r1 d) as (_ & Hbb & _ & Hlim1 & Hlim2);
      pose proof (deliver_prefix_le r1 d) as Hpre end.
    destruct IH as (? & [? ?] & Hle).
    + unfold limits_ok. rewrite Hlim1, Hlim2. done.
    + by apply Hpre.
    + done.
    + rewrite Hbb. done.
    + rewrite Hbb, Hlim2. simpl. lia.
    + rewrite Hlim1, Hlim2, Hbb in *. simpl in *. split_and!; [done|done|lia].
Qed.

Lemma push_trimmed_bounded r seq d :
  limits_ok r -> bounded r -> zlen d < 2 ^ 63 ->
  bounded (push_trimmed r seq d).2 /\ same_limits r (push_trimmed r seq d).2 /\
  (push_trimmed r seq d).2.(buffered_bytes_) <= r.(buffered_bytes_) + zlen d.
Proof.
  intros Hl [Hp Hs Hsum Hb] Hd. pose proof Hl as [Hl1 Hl2]. unfold push_trimmed.
  pose proof (zlen_nonneg d). pose proof (zlen_pending_nonneg (pending_ r)).
  destruct (seq =? _).
  - unfold drain. pose proof (deliver_rest r d) as (Hpd & Hbb & _ & Hlim).
    cbv zeta. rewrite Hpd.
    destruct (drain_loop_bounded (pending_ r) (deliver r d) 0) as (? & Hlim' & ?);
      rewrite ?Hbb; try done.
    + unfold limits_ok. by destruct Hlim as [-> ->].
    + by apply deliver_prefix_le.
    + by destruct Hlim as [_ ->].
    + destruct (drain_loop _ _ _) as [n r']. simpl in *.
      split_and!; [done|destruct Hlim, Hlim'; split; congruence|lia].
  - destruct (_ || _) eqn:E; breflect.
    { simpl. split_and!; [by constructor|done|lia]. }
    rewrite u64_id in * by (unfold in_u64; lia).
    unfold om_emplace. pose proof (om_sum_insert zlen seq d _ Hs) as Hins.
    destruct (om_find seq (pending_ r)) as [old|] eqn:Hf.
    + pose proof (zlen_nonneg old).
      assert (zlen old <= om_sum zlen (pending_ r)).
      { apply om_find_in in Hf. clear -Hf. induction (pending_ r) as [|[k v] m IH].
        - by apply not_elem_of_nil in Hf.
        - cbn [om_sum foldr snd]. fold (om_sum zlen m). pose proof (zlen_pending_nonneg m).
          pose proof (zlen_nonneg v). apply elem_of_cons in Hf as [[= -> ->]|Hf]; [lia|].
          specialize (IH Hf). lia. }
      destruct (_ <? _) eqn:E2; breflect; simpl; (split_and!; [|done|]).
      * constructor; simpl; auto with reasm; rewrite u64_id by (unfold in_u64; lia); lia.
      * rewrite u64_id by (unfold in_u64; lia). lia.
      * by constructor.
      * lia.
    + simpl. rewrite u64_id by (unfold in_u64; lia). split_and!; [|done|lia].
      constructor; simpl; auto with reasm; lia.
Qed.

Lemma push_bounded r seq data syn :
  limits_ok r -> bounded r -> (forall d, data = Some d -> zlen d < 2 ^ 63) ->
  bounded (push r seq data syn).2 /\ same_limits r (push r seq data syn).2 /\
  (push r seq data syn).2.(buffered_bytes_) <= r.(buffered_bytes_) + zlen (default [] data).
Proof.
  intros Hl Hb Hd. unfold push. set (r1 := if initialized_ r then r else _).
  assert (H1 : bounded r1 /\ limits_ok r1 /\ same_limits r r1 /\ buffered_bytes_ r1 = buffered_bytes_ r)
    by (unfold r1; destruct (initialized_ r); [done|]; destruct Hb; done).
  clearbody r1. destruct H1 as (Hb1 & Hl1 & Hs1 & Hbb).
  assert (H0 : (0, r1).2.(buffered_bytes_) <= buffered_bytes_ r + zlen (default [] data))
    by (simpl; pose proof (zlen_nonneg (default [] data)); lia).
  destruct data as [[|b d]|]; [done| |done]. specialize (Hd _ eq_refl). set (dd := b :: d) in *.
  pose proof (zlen_nonneg dd). change (default [] (Some dd)) with dd in *.
  destruct (seq_lt _ _).
  - cbn zeta. match goal with |- context [if ?c then _ else _] => destruct c end.
    { destruct Hb1, Hs1. by repeat split. }
    match goal with |- context [push_trimmed ?r2 ?s ?x] =>
      destruct (push_trimmed_bounded r2 s x) as (? & Hs2 & Hle) end;
      [done|by destruct Hb1|rewrite zlen_drop; lia|].
    rewrite zlen_drop in Hle.
    split_and!; [done| |etrans; [exact Hle|simpl; lia]]. destruct Hs1, Hs2. split; simpl in *; congruence.
  - destruct (push_trimmed_bounded r1 seq dd) as (? & Hs2 & Hle); [done..|].
    split_and!; [done| |lia]. destruct Hs1, Hs2. split; congruence.
Qed.
