(* ===== verification/ReassemblySpec.v ===== *)
(** * The reassembler against the stream it reconstructs

    The specification is the byte stream itself: a segment [(seq, data)] is cut
    from the stream [S] whose first byte has sequence number [base] when [data]
    stands at some offset of [S] and [seq] is that offset's number.  The
    reassembler refines "the longest prefix received so far": [progress] is the
    simulation step every [push] satisfies. *)

From S2P Require Import Prelude.
From S2P Require Import Machine.
From S2P Require Import Serial.
From S2P Require Import OrdMap.
From S2P Require Import Reassembly.
#[local] Open Scope Z_scope.

Section stream.
Variables (base : Z) (S : list byte).
Hypothesis Hshort : zlen S < 2 ^ 31.

(** The segment [data] with number [seq] stands at [off]. *)
Record seg_at (off seq : Z) (data : list byte) : Prop := {
  seg_off : 0 <= off;
  seg_end : off + zlen data <= zlen S;
  seg_seq : seq = seq_at base off;
  seg_data : data = slice S off (zlen data);
}.

Definition seg_of (x : Z * list byte) : Prop := exists off, seg_at off x.1 x.2.

(** [r] has delivered exactly the first [D] bytes of the stream. *)
Record aligned (D : Z) (r : StreamReassembler) : Prop := {
  al_D : 0 <= D <= zlen S;
  al_init : r.(initialized_) = true;
  al_next : r.(next_seq_) = seq_at base D;
  al_delivered : r.(delivered_) = D;
  al_prefix : r.(prefix_) = firstn (Z.to_nat r.(max_prefix_)) (slice S 0 D);
  al_max : 0 <= r.(max_prefix_);
}.

(** Byte [i] has arrived: delivered, or held in an entry. *)
Definition held (pend : omap (list byte)) (i : Z) : Prop :=
  exists k v off, (k, v) ∈ pend /\ seg_at off k v /\ off <= i < off + zlen v.

Definition covered (D : Z) (pend : omap (list byte)) (i : Z) : Prop := i < D \/ held pend i.

(** Nothing held can be delivered yet. *)
Definition waiting (D : Z) (pend : omap (list byte)) : Prop :=
  forall k v off, (k, v) ∈ pend -> seg_at off k v -> D < off.

Lemma seg_at_unique off off' k v v' : seg_at off k v -> seg_at off' k v' -> off = off'.
Proof.
  intros [Ho He -> _] [Ho' He' Hk _]. apply (seq_at_inj base); [|done].
  pose proof (zlen_nonneg v). pose proof (zlen_nonneg v'). lia.
Qed.

Lemma aligned_prefix_le D r : aligned D r -> zlen r.(prefix_) <= r.(max_prefix_).
Proof. intros []. rewrite al_prefix0, zlen_take. lia. Qed.

Lemma aligned_deliver D r n d :
  aligned D r -> 0 <= n -> D + n <= zlen S -> d = slice S D n -> aligned (D + n) (deliver r d).
Proof.
  intros Ha Hn Hle ->. pose proof (aligned_prefix_le _ _ Ha) as Hpre. destruct Ha.
  pose proof (append_rest r (slice S D n)) as (Hns & Hdl & _ & _ & Hi & Hm & _).
  assert (Hz : zlen (slice S D n) = n) by (apply zlen_slice; lia).
  unfold deliver. constructor; simpl; rewrite ?Hz, ?Hns, ?Hdl, ?Hi, ?Hm.
  - lia.
  - done.
  - rewrite al_next0, (u32_id n) by (unfold in_u32; lia). apply seq_at_add.
  - rewrite u64_id by (unfold in_u64; lia). lia.
  - rewrite append_prefix, al_prefix0 by done. rewrite (slice_app S 0 D n) by lia.
    rewrite !take_app, take_take, Nat.min_id. f_equal.
    rewrite length_take. f_equal. lia.
  - done.
Qed.

Lemma aligned_set D r r' :
  aligned D r -> r'.(initialized_) = r.(initialized_) -> r'.(next_seq_) = r.(next_seq_) ->
  r'.(delivered_) = r.(delivered_) -> r'.(prefix_) = r.(prefix_) ->
  r'.(max_prefix_) = r.(max_prefix_) -> aligned D r'.
Proof. intros [] **. constructor; congruence. Qed.

(** The bytes of a segment behind position [D]. *)
Lemma seg_trim off seq data D :
  seg_at off seq data -> off <= D < off + zlen data ->
  skipn (Z.to_nat (D - off)) data = slice S D (off + zlen data - D).
Proof.
  intros [Ho He _ Hd] HD. rewrite Hd at 1. rewrite slice_drop by lia.
  f_equal; lia.
Qed.

(** What a run of [drain] from [D] to [D'] does. *)
Record drained (D : Z) (pend : omap (list byte)) (n D' n' : Z) (r' : StreamReassembler) : Prop := {
  dr_le : D <= D';
  dr_al : aligned D' r';
  dr_ret : n' = n + (D' - D);
  dr_sub : forall x, x ∈ r'.(pending_) -> x ∈ pend;
  dr_cov : forall i, covered D pend i -> covered D' r'.(pending_) i;
  dr_head : match r'.(pending_) with
            | [] => True
            | (k, v) :: _ => forall off, seg_at off k v -> D' < off
            end;
}.

Lemma drained_cons D1 D2 pend k v n1 n2 D' n' r' :
  drained D2 pend n2 D' n' r' -> D1 <= D2 -> n2 = n1 + (D2 - D1) ->
  (forall off, seg_at off k v -> off + zlen v <= D2) ->
  drained D1 ((k, v) :: pend) n1 D' n' r'.
Proof.
  intros [] Hle Hn Hkv. constructor; [lia|done|lia| |auto|done].
  - intros x Hx. right. auto.
  - intros i [Hi|(k' & v' & off & Hin & Hs & Hr)]; [left; lia|].
    apply elem_of_cons in Hin as [[= -> ->]|Hin].
    + specialize (Hkv _ Hs). apply dr_cov0. left. lia.
    + apply dr_cov0. right. by exists k', v', off.
Qed.

Lemma drain_loop_spec pend : forall D r n,
  aligned D r -> Forall seg_of pend -> 0 <= n -> n + (zlen S - D) < 2 ^ 64 ->
  exists D', drained D pend n D' (drain_loop pend r n).1 (drain_loop pend r n).2.
Proof.
  induction pend as [|[k v] pend IH]; intros D r n Ha Hp Hn Hov; cbn [drain_loop].
  { exists D. constructor; simpl; [lia|by apply (aligned_set _ r)|lia|done|done|done]. }
  inversion Hp as [|? ? [off Hs] Hp']; subst. simpl in Hs. pose proof (al_D _ _ Ha).
  pose proof (zlen_nonneg v). destruct (Hs) as [Ho He Hk _].
  rewrite (al_next _ _ Ha), Hk, seq_gt_at by lia.
  destruct (D <? off) eqn:E; breflect.
  { exists D. constructor; simpl; [lia|by apply (aligned_set _ r)|lia|by subst k|by subst k|].
    intros off' Hs'. rewrite Hk in Hs. by rewrite (seg_at_unique _ _ _ _ _ Hs' Hs). }
  cbn zeta. simpl next_seq_. rewrite (al_next _ _ Ha), seq_at_dist by lia.
  assert (Hu : forall off', seg_at off' (seq_at base off) v -> off' = off)
    by (intros; rewrite Hk in Hs; eauto using seg_at_unique).
  destruct (zlen v <=? D - off) eqn:E2; breflect.
  - match goal with |- context [drain_loop pend ?r1 n] => destruct (IH D r1 n) as [D' HD] end;
      [by apply (aligned_set _ r)|done..|].
    exists D'. eapply drained_cons; [exact HD|lia|lia|]. intros off' ->%Hu. lia.
  - rewrite (seg_trim off k v D) by (done || lia). rewrite zlen_slice by lia.
    rewrite u64_id by (unfold in_u64; lia).
    match goal with |- context [drain_loop pend ?r1 ?n1] =>
      destruct (IH (D + (off + zlen v - D)) r1 n1) as [D' HD] end;
      [apply aligned_deliver; [by apply (aligned_set _ r)|lia|lia|done]|done|lia|lia|].
    exists D'. eapply drained_cons; [exact HD|lia|lia|]. intros off' ->%Hu. lia.
Qed.

Definition no_wrap : Prop := 0 <= base /\ base + zlen S < 2 ^ 32.

(** Without a wrap the key order is the stream order, so it is enough to look
    at the first entry. *)
Lemma head_waiting D pend :
  no_wrap -> om_sorted pend -> Forall seg_of pend ->
  match pend with [] => True | (k, v) :: _ => forall off, seg_at off k v -> D < off end ->
  waiting D pend.
Proof.
  intros [Hb Hw] Hs Hp Hhd k v off Hin Hat. destruct pend as [|[k0 v0] pend].
  { by apply not_elem_of_nil in Hin. }
  inversion Hp as [|? ? [off0 Hat0] _]; subst. simpl in Hat0. specialize (Hhd _ Hat0).
  apply elem_of_cons in Hin as [[= -> ->]|Hin].
  { by rewrite (seg_at_unique _ _ _ _ _ Hat Hat0). }
  pose proof (om_sorted_head _ _ _ _ _ Hs Hin). destruct Hat as [Ho He -> _], Hat0 as [Ho0 He0 -> _].
  pose proof (zlen_nonneg v). pose proof (zlen_nonneg v0). unfold seq_at in *.
  rewrite !u32_id in * by (unfold in_u32; lia). lia.
Qed.

(** One [push] of a segment of the stream at [off], from [D] to [D']. *)
Record progress (D : Z) (r : StreamReassembler) (off len n D' : Z) (r' : StreamReassembler) : Prop := {
  pg_le : D <= D';
  pg_al : aligned D' r';
  pg_segs : Forall seg_of r'.(pending_);
  pg_ret : n = D' - D;
  pg_keep : forall i, covered D r.(pending_) i -> covered D' r'.(pending_) i;
  pg_new : zlen S <= r.(max_prefix_) -> r.(buffered_bytes_) + len <= r.(max_buffered_) ->
           forall i, off <= i < off + len -> covered D' r'.(pending_) i;
  pg_wait : no_wrap -> om_sorted r'.(pending_) -> waiting D r.(pending_) -> waiting D' r'.(pending_);
}.

(** A [push] that leaves the position and the held entries alone. *)
Lemma progress_same D r off len r' :
  aligned D r -> Forall seg_of r.(pending_) -> aligned D r' -> r'.(pending_) = r.(pending_) ->
  (zlen S <= r.(max_prefix_) -> r.(buffered_bytes_) + len <= r.(max_buffered_) ->
   forall i, off <= i < off + len -> covered D r.(pending_) i) ->
  progress D r off len 0 D r'.
Proof. intros Ha Hs Ha' Hp Hn. constructor; rewrite ?Hp; auto; lia. Qed.

Lemma held_insert pend k v off i :
  om_sorted pend -> seg_at off k v ->
  (forall old, om_find k pend = Some old -> zlen old <= zlen v) ->
  held pend i -> held (om_insert k v pend) i.
Proof.
  intros Hs Hat Hold (k' & v' & off' & Hin & Hat' & Hr).
  destruct (decide (k' = k)) as [->|Hne].
  - rewrite (om_in_find _ _ _ Hs Hin) in Hold. specialize (Hold _ eq_refl).
    assert (off' = off) as -> by eauto using seg_at_unique.
    exists k, v, off. split_and!; [|done|lia..]. apply om_insert_in; [done|by left].
  - exists k', v', off'. split_and!; [|done|lia..]. apply om_insert_in; [done|by right].
Qed.

Lemma progress_insert D r off k v r' :
  bounded r -> aligned D r -> Forall seg_of r.(pending_) -> seg_at off k v -> D < off ->
  (forall old, om_find k r.(pending_) = Some old -> zlen old <= zlen v) ->
  aligned D r' -> r'.(pending_) = om_insert k v r.(pending_) ->
  progress D r off (zlen v) 0 D r'.
Proof.
  intros [] Ha Hs Hat HD Hold Ha' Hp.
  constructor; rewrite ?Hp; [lia|done| |lia|..].
  - apply Forall_forall. intros x Hx. apply om_insert_in in Hx as [->|[Hx _]]; [by exists off| |done].
    by apply (proj1 (Forall_forall _ _) Hs).
  - intros i [Hi|Hi]; [by left|right]. by eapply held_insert.
  - intros _ _ i Hi. right. exists k, v, off. split_and!; [|done|lia..].
    apply om_insert_in; [done|by left].
  - intros _ _ Hw k' v' off' Hin Hat'.
    apply om_insert_in in Hin as [[= -> ->]|[Hin _]]; [|by eapply Hw|done].
    by rewrite (seg_at_unique _ _ _ _ _ Hat' Hat).
Qed.

Lemma push_trimmed_spec D r off seq d :
  limits_ok r -> bounded r -> aligned D r -> Forall seg_of r.(pending_) ->
  seg_at off seq d -> D <= off ->
  exists D', progress D r off (zlen d) (push_trimmed r seq d).1 D' (push_trimmed r seq d).2.
Proof.
  intros [Hl1 Hl2] Hb Ha Hs Hat HD. pose proof (al_D _ _ Ha). destruct (Hat) as [Ho He Hk Hd].
  pose proof (zlen_nonneg d). unfold push_trimmed. rewrite (al_next _ _ Ha).
  destruct (seq =? seq_at base D) eqn:E; breflect.
  - assert (off = D) as -> by (apply (seq_at_inj base); [lia|congruence]).
    pose proof (deliver_rest r d) as (Hpd & _). unfold drain. cbv zeta. rewrite Hpd.
    destruct (drain_loop_spec (pending_ r) (D + zlen d) (deliver r d) 0) as [D' []];
      [by apply aligned_deliver|done|lia|lia|].
    destruct (drain_loop _ _ _) as [n r']. simpl in *. exists D'. simpl.
    pose proof (al_D _ _ dr_al0).
    constructor; [lia|done| |rewrite u64_id by (unfold in_u64; lia); lia|..].
    + apply Forall_forall. intros x Hx. apply (proj1 (Forall_forall _ _) Hs). auto.
    + intros i [Hi|Hi]; apply dr_cov0; [left; lia|by right].
    + intros _ _ i Hi. apply dr_cov0. left. lia.
    + intros Hw Hso _. apply head_waiting; [done|done| |done].
      apply Forall_forall. intros x Hx. apply (proj1 (Forall_forall _ _) Hs). auto.
  - assert (D < off) by (destruct (decide (off = D)) as [->|]; [done|lia]).
    destruct (_ || _) eqn:E2.
    { exists D. apply progress_same; [done|done|by apply (aligned_set _ r)|done|].
      intros Hm Hbuf i Hi. apply orb_true_iff in E2 as [E2|E2]; breflect.
      - unfold saturated in E2. breflect. rewrite (al_prefix _ _ Ha), zlen_take in E2.
        rewrite zlen_slice in E2 by lia. left. lia.
      - pose proof (bounded_sum _ Hb). pose proof (zlen_pending_nonneg (pending_ r)).
        rewrite u64_id in E2 by (unfold in_u64; lia). lia. }
    exists D. unfold om_emplace. destruct (om_find seq (pending_ r)) as [old|] eqn:Hf.
    + destruct (zlen old <? zlen d) eqn:E3; breflect.
      * eapply progress_insert; [done..| |by apply (aligned_set _ r)|done].
        rewrite Hf. intros ? [= <-]. lia.
      * apply progress_same; [done|done|by apply (aligned_set _ r)|done|]. intros _ _ i Hi.
        apply om_find_in in Hf.
        destruct (proj1 (Forall_forall _ _) Hs _ Hf) as [off' Hat']. simpl in Hat'.
        assert (off' = off) as ->.
        { destruct Hat' as [? ? Hk' _]. pose proof (zlen_nonneg old).
          apply (seq_at_inj base); [lia|congruence]. }
        right. exists seq, old, off. split_and!; [done|done|lia..].
    + eapply progress_insert; [done..| |by apply (aligned_set _ r)|done].
      rewrite Hf. done.
Qed.

(** Trimming delivered bytes off the front changes nothing else. *)
Lemma progress_front D r off len n D' r' off1 len1 r1 :
  progress D r1 off1 len1 n D' r' -> r1.(pending_) = r.(pending_) ->
  r1.(buffered_bytes_) = r.(buffered_bytes_) -> same_limits r r1 ->
  off1 <= D -> off + len = off1 + len1 -> off <= off1 -> 
  progress D r off len n D' r'.
Proof.
  intros [] Hp Hb [Hm1 Hm2] Ho Hlen Hoff. rewrite ?Hp, ?Hb, ?Hm1, ?Hm2 in *.
  constructor; [done..| |done]. intros ? ? i Hi.
  destruct (decide (i < D)); [left; lia|]. apply pg_new0; lia.
Qed.

Lemma push_spec D r off seq d :
  limits_ok r -> bounded r -> aligned D r -> Forall seg_of r.(pending_) -> seg_at off seq d ->
  exists D', progress D r off (zlen d) (push r seq (Some d) false).1 D' (push r seq (Some d) false).2.
Proof.
  intros Hl Hb Ha Hs Hat. pose proof (al_D _ _ Ha). destruct (Hat) as [Ho He Hk Hd].
  unfold push. rewrite (al_init _ _ Ha).
  destruct d as [|b0 d0] eqn:Ed.
  { exists D. apply progress_same; [done..|]. intros _ _ i. rewrite zlen_nil. lia. }
  rewrite <-Ed in *. clear Ed b0 d0. pose proof (zlen_nonneg d).
  rewrite (al_next _ _ Ha), Hk, seq_lt_at by lia.
  destruct (off <? D) eqn:E; breflect; [|rewrite <-Hk; by apply push_trimmed_spec].
  cbv zeta. rewrite seq_at_dist by lia. destruct (zlen d <=? D - off) eqn:E2; breflect.
  { exists D. apply progress_same; [done|done|by apply (aligned_set _ r)|done|].
    intros _ _ i Hi. left. lia. }
  rewrite (seg_trim off seq d D) by (done || lia).
  set (d' := slice S D (off + zlen d - D)).
  assert (Hz : zlen d' = off + zlen d - D) by (apply zlen_slice; lia).
  match goal with |- context [push_trimmed ?r1 ?s d'] =>
    destruct (push_trimmed_spec D r1 D s d') as [D' Hpg] end;
    [done|by destruct Hb|by apply (aligned_set _ r)|done| |lia|].
  - constructor; [lia|lia| |by rewrite Hz]. simpl. by rewrite (al_next _ _ Ha).
  - exists D'. eapply progress_front; [exact Hpg|done|done|done|lia|lia|lia].
Qed.
End stream.

(** ** Traces *)

Definition trace_bytes (segs : list (Z * list byte)) : Z := foldr (fun x acc => zlen x.2 + acc) 0 segs.

Definition added_total (ns : list Z) : Z := foldr Z.add 0 ns.

Lemma trace_bytes_nonneg segs : 0 <= trace_bytes segs.
Proof. induction segs as [|[k d] segs IH]; simpl; [done|]. pose proof (zlen_nonneg d). lia. Qed.

Section trace.
Variables (base : Z) (S : list byte).
Hypothesis Hshort : zlen S < 2 ^ 31.

Record state_ok (D : Z) (r : StreamReassembler) : Prop := {
  ok_limits : limits_ok r;
  ok_bounded : bounded r;
  ok_aligned : aligned base S D r;
  ok_segs : Forall (seg_of base S) r.(pending_);
}.

(** Byte [i] of the stream lies in segment [x]. *)
Definition carries (x : Z * list byte) (i : Z) : Prop :=
  exists off, seg_at base S off x.1 x.2 /\ off <= i < off + zlen x.2.

Record ran (D : Z) (r : StreamReassembler) (segs : list (Z * list byte)) (ns : list Z)
    (D' : Z) (r' : StreamReassembler) : Prop := {
  rn_ok : state_ok D' r';
  rn_le : D <= D';
  rn_limits : same_limits r r';
  rn_sum : added_total ns = D' - D;
  rn_keep : forall i, covered base S D r.(pending_) i -> covered base S D' r'.(pending_) i;
  rn_new : zlen S <= r.(max_prefix_) -> r.(buffered_bytes_) + trace_bytes segs <= r.(max_buffered_) ->
           forall x i, x ∈ segs -> carries x i -> covered base S D' r'.(pending_) i;
  rn_wait : no_wrap base S -> waiting base S D r.(pending_) -> waiting base S D' r'.(pending_);
}.

Lemma push_all_spec segs : forall D r,
  state_ok D r -> Forall (seg_of base S) segs ->
  exists D', ran D r segs (push_all r segs).1 D' (push_all r segs).2.
Proof.
  induction segs as [|[k d] segs IH]; intros D r [Hl Hb Ha Hs] Hseg; cbn [push_all].
  { exists D. constructor; simpl; try done; [lia|]. intros _ _ x i Hx. by apply not_elem_of_nil in Hx. }
  inversion Hseg as [|? ? [off Hat] Hseg']; subst. simpl in Hat.
  destruct (push_spec base S Hshort D r off k d Hl Hb Ha Hs Hat) as [D1 Hpg].
  assert (Hd : forall d', Some d = Some d' -> zlen d' < 2 ^ 63).
  { intros ? [= <-]. destruct Hat. lia. }
  destruct (push_bounded r k (Some d) false Hl Hb Hd) as (Hb1 & Hsl & Hbuf). simpl default in Hbuf.
  destruct (push r k (Some d) false) as [n r1]. simpl in Hpg, Hb1, Hsl, Hbuf.
  destruct (IH D1 r1) as [D' Hrn]; [|done|].
  { destruct Hpg. constructor; [|done..]. unfold limits_ok. by destruct Hsl as [-> ->]. }
  destruct (push_all r1 segs) as [ns r']. simpl in Hrn |- *. exists D'.
  destruct Hpg, Hrn. pose proof (trace_bytes_nonneg segs).
  constructor; [done|lia| |simpl in *; unfold added_total in *; simpl; lia|auto| |].
  - destruct Hsl, rn_limits0. split; congruence.
  - destruct Hsl as [Hm1 Hm2]. rewrite Hm1, Hm2 in *. cbn [trace_bytes foldr snd]. 
    fold (trace_bytes segs). intros Hm Hsum x i Hx Hc.
    apply elem_of_cons in Hx as [->|Hx]; [|apply (rn_new0 ltac:(done) ltac:(lia) x); done].
    destruct Hc as (off' & Hat' & Hi). simpl in Hat', Hi.
    rewrite (seg_at_unique base S Hshort _ _ _ _ _ Hat' Hat) in Hi.
    apply rn_keep0, pg_new0; [lia|lia|done].
  - intros Hw Hwait. apply rn_wait0; [done|]. apply pg_wait0; [done| |done]. by destruct Hb1.
Qed.

(** All bytes covered and nothing deliverable held: everything is delivered. *)
Lemma covered_delivered D r :
  state_ok D r -> waiting base S D r.(pending_) ->
  (forall i, 0 <= i < zlen S -> covered base S D r.(pending_) i) -> D = zlen S.
Proof.
  intros [_ _ Ha _] Hw Hc. pose proof (al_D _ _ _ _ Ha).
  destruct (decide (D = zlen S)) as [|Hne]; [done|]. exfalso.
  destruct (Hc D ltac:(lia)) as [?|(k & v & off & Hin & Hat & Hi)]; [lia|].
  specialize (Hw k v off Hin Hat). lia.
Qed.
End trace.

(** A reassembler that has seen the SYN of a connection. *)
Definition after_syn (max_prefix max_buffered isn : Z) : StreamReassembler :=
  (push (new_reassembler max_prefix max_buffered) isn None true).2.

(** The number of the first data byte. *)
Definition data_base (isn : Z) : Z := u32 (isn + 1).

Lemma after_syn_ok max_prefix max_buffered isn S :
  0 <= max_prefix -> 0 <= max_buffered < 2 ^ 63 ->
  state_ok (data_base isn) S 0 (after_syn max_prefix max_buffered isn).
Proof.
  intros Hp Hb. constructor; [done| |constructor; simpl; try done|by constructor].
  - constructor; simpl; [rewrite zlen_nil; lia|constructor|done|lia].
  - pose proof (zlen_nonneg S). lia.
  - unfold data_base. rewrite seq_at_0; [done|apply u32_in].
  - rewrite slice_0. by rewrite firstn_nil.
Qed.

(** C5: Safety of reassembly: after the SYN, feed the segments of one byte stream
    shorter than 2^31 bytes in any order, with any overlaps, repetitions and
    losses, over any initial sequence number (the 32-bit numbers may wrap on the
    way): the prefix is always exactly the
    first [D] bytes of that stream, up to the prefix limit, the next expected
    number is that of byte [D], the values [push] returned add up to [D], and the
    memory bounds hold. *)
Theorem push_all_prefix S isn max_prefix max_buffered segs :
  zlen S < 2 ^ 31 -> 0 <= max_prefix -> 0 <= max_buffered < 2 ^ 63 ->
  Forall (seg_of (data_base isn) S) segs ->
  let '(ns, r) := push_all (after_syn max_prefix max_buffered isn) segs in
  exists D, 0 <= D <= zlen S /\
    r.(prefix_) = firstn (Z.to_nat max_prefix) (slice S 0 D) /\
    r.(next_seq_) = seq_at (data_base isn) D /\ r.(delivered_) = D /\ added_total ns = D /\ bounded r.
Proof.
  intros HS Hp Hb Hseg.
  destruct (push_all_spec (data_base isn) S HS segs 0 (after_syn max_prefix max_buffered isn))
    as [D Hrn]; [by apply after_syn_ok|done|].
  destruct (push_all _ _) as [ns r]. destruct Hrn as [[_ Hbd [] _] _ [Hm _] Hsum _ _ _].
  exists D. simpl in *. split_and!; try done; [lia..| |lia].
  rewrite al_prefix0. by rewrite Hm.
Qed.

Definition sample_segs : list (Z * list byte) :=
  [(1, lit "ghi"); (4294967292, lit "bcd"); (4294967291, lit "ab"); (4294967295, lit "efg")].

(** The segments [sample_segs] of "abcdefghi" cross the sequence wrap. *)
Lemma sample_segs_ok : Forall (seg_of (data_base 4294967290) (lit "abcdefghi")) sample_segs.
Proof.
  unfold sample_segs. repeat constructor.
  - by exists 6.
  - by exists 1.
  - by exists 0.
  - by exists 4.
Qed.

Lemma push_all_prefix_witness :
  let '(ns, r) := push_all (after_syn 8192 32768 4294967290) sample_segs in
  exists D, 0 <= D <= 9 /\
    r.(prefix_) = firstn (Z.to_nat 8192) (slice (lit "abcdefghi") 0 D) /\
    r.(next_seq_) = seq_at (data_base 4294967290) D /\ r.(delivered_) = D /\ added_total ns = D /\ bounded r.
Proof.
  apply (push_all_prefix (lit "abcdefghi") 4294967290 8192 32768 sample_segs);
    [reflexivity|vm_compute; discriminate|split; [vm_compute; discriminate|reflexivity]|exact sample_segs_ok].
Defined.

(** C6: Completeness of reassembly: when the SYN has been seen, the stream is
    shorter than 2^31 bytes and its sequence numbers do not wrap, it fits the
    prefix limit and the segments fit the buffer, then receiving segments that
    together cover the stream reconstructs it completely, in whatever order they
    arrive and however they overlap. *)
Theorem push_all_complete S isn max_prefix max_buffered segs :
  data_base isn + zlen S < 2 ^ 32 -> zlen S < 2 ^ 31 ->
  zlen S <= max_prefix -> trace_bytes segs <= max_buffered < 2 ^ 63 ->
  Forall (seg_of (data_base isn) S) segs ->
  (forall i, 0 <= i < zlen S -> exists x, x ∈ segs /\ carries (data_base isn) S x i) ->
  let '(ns, r) := push_all (after_syn max_prefix max_buffered isn) segs in
  r.(prefix_) = S /\ added_total ns = zlen S.
Proof.
  intros Hw HS Hp [Hb1 Hb2] Hseg Hcov. pose proof (zlen_nonneg S). pose proof (trace_bytes_nonneg segs).
  destruct (push_all_spec (data_base isn) S HS segs 0 (after_syn max_prefix max_buffered isn))
    as [D Hrn]; [apply after_syn_ok; lia|done|].
  destruct (push_all _ _) as [ns r]. destruct Hrn as [Hok _ [Hm _] Hsum _ Hnew Hwait].
  simpl in Hok, Hm, Hsum, Hnew, Hwait.
  assert (D = zlen S) as ->.
  { apply (covered_delivered (data_base isn) S D r Hok).
    - apply Hwait; [split; [apply u32_in|done]|]. intros k v off Hin. by apply not_elem_of_nil in Hin.
    - intros i Hi. destruct (Hcov i Hi) as (x & Hx & Hc). apply (Hnew ltac:(lia) ltac:(lia) x); done. }
  destruct Hok as [_ _ [] _]. split; [|lia].
  rewrite al_prefix0, slice_full, Hm. apply take_ge. unfold zlen in *. lia.
Qed.

Definition late_first : list (Z * list byte) :=
  [(8, lit "hi"); (1, lit "abcd"); (4, lit "defg")].

Lemma late_first_ok : Forall (seg_of (data_base 0) (lit "abcdefghi")) late_first.
Proof. repeat constructor; [by exists 7|by exists 0|by exists 3]. Qed.

Lemma late_first_covers i :
  0 <= i < 9 -> exists x, x ∈ late_first /\ carries (data_base 0) (lit "abcdefghi") x i.
Proof.
  intros Hi. destruct (decide (i < 4)); [|destruct (decide (i < 7))].
  - exists (1, lit "abcd"). split; [by repeat constructor|]. exists 0.
    split; [done|]. change (zlen _) with 4. lia.
  - exists (4, lit "defg"). split; [by repeat constructor|]. exists 3.
    split; [done|]. change (zlen _) with 4. lia.
  - exists (8, lit "hi"). split; [by repeat constructor|]. exists 7.
    split; [done|]. change (zlen _) with 2. lia.
Qed.

Lemma push_all_complete_witness :
  let '(ns, r) := push_all (after_syn 8192 32768 0) late_first in
  r.(prefix_) = lit "abcdefghi" /\ added_total ns = 9.
Proof.
  apply (push_all_complete (lit "abcdefghi") 0 8192 32768 late_first);
    [reflexivity|reflexivity|vm_compute; discriminate|split; [vm_compute; discriminate|reflexivity]
    |exact late_first_ok|exact late_first_covers].
Defined.

(** Without the no-wrap condition completeness fails: [drain] looks at the
    numerically smallest key of the map, so a segment behind the wrap hides one
    before it.  Here every byte of "abcdefgh" has arrived, nothing was discarded,
    and yet the reassembler stops after "abc" with the next expected segment in
    its map. *)
Lemma wrap_strands_segment :
  let isn := 2 ^ 32 - 6 in let b := data_base isn in
  let segs := [(u32 (b + 6), lit "gh"); (u32 (b + 3), lit "def"); (b, lit "abc")] in
  let '(ns, r) := push_all (after_syn 8192 32768 isn) segs in
  Forall (seg_of b (lit "abcdefgh")) segs /\
  r.(prefix_) = lit "abc" /\ r.(discarded_bytes_) = 0 /\
  om_find r.(next_seq_) r.(pending_) = Some (lit "def").
Proof.
  vm_compute. split_and!; try reflexivity. repeat constructor; [exists 6|exists 3|exists 0];
    by constructor.
Qed.

Lemma push_trimmed_next r d :
  r.(pending_) = [] -> zlen d < 2 ^ 64 ->
  push_trimmed r r.(next_seq_) d = (zlen d, deliver r d <| pending_ := [] |>).
Proof.
  intros Hp Hd. pose proof (zlen_nonneg d). unfold push_trimmed, drain. rewrite Z.eqb_refl. cbv zeta.
  pose proof (deliver_rest r d) as (-> & _). rewrite Hp. cbn [drain_loop].
  by rewrite Z.add_0_r, u64_id.
Qed.

Lemma append_overlap r d : (append r d).(overlap_bytes_) = r.(overlap_bytes_).
Proof. unfold append. by repeat case_test. Qed.

(** Data carried by the SYN segment itself (TCP Fast Open) loses its first
    byte: the SYN consumes a sequence number, but [push] aligns the data with the
    SYN's own number and trims one byte of it as already delivered. *)
Lemma syn_data_loses_first_byte max_prefix max_buffered isn b data :
  in_u32 isn -> 0 < max_prefix -> zlen data < 2 ^ 31 ->
  let '(n, r) := push (new_reassembler max_prefix max_buffered) isn (Some (b :: data)) true in
  n = zlen data /\ r.(prefix_) = firstn (Z.to_nat max_prefix) data /\
  (data <> [] -> r.(overlap_bytes_) = 1).
Proof.
  intros Hi Hm Hd. pose proof (zlen_nonneg data).
  pose proof (seq_lt_at isn 0 1 ltac:(lia)) as Hlt. pose proof (seq_at_dist isn 1 0 ltac:(lia)) as Hdist.
  rewrite seq_at_0 in Hlt, Hdist by done.
  unfold push. cbn [new_reassembler initialized_ set_field next_seq_].
  change (u32 (isn + 1)) with (seq_at isn 1).
  simpl next_seq_. rewrite Hlt, Hdist. cbv zeta. rewrite zlen_cons.
  change (0 <? 1) with true. cbv iota.
  destruct (1 + zlen data <=? 1 - 0) eqn:E; breflect.
  { assert (data = []) as -> by (apply zlen_0; lia). simpl. by rewrite firstn_nil. }
  change (drop (Z.to_nat (1 - 0)) (b :: data)) with data.
  rewrite push_trimmed_next by (done || lia). split_and!; [done| |].
  - simpl. unfold deliver. simpl prefix_. rewrite append_prefix; [done|simpl; rewrite zlen_nil; lia].
  - intros _. simpl. unfold deliver. simpl overlap_bytes_. rewrite append_overlap. simpl.
    rewrite Z.min_l by lia. done.
Qed.

Lemma syn_data_loses_first_byte_witness :
  let '(n, r) := push (new_reassembler 8192 32768) 99 (Some (lit "GET /")) true in
  n = 4 /\ r.(prefix_) = lit "ET /".
Proof.
  pose proof (syn_data_loses_first_byte 8192 32768 99 "G"%byte (lit "ET /") ltac:(by split)
    ltac:(done) ltac:(done)) as Hw.
  destruct (push _ _ _ _) as [n r]. destruct Hw as (Hn & Hp & _). split; [exact Hn|exact Hp].
Defined.

(** ** Memory *)

Inductive op := OpPush (seq : Z) (data : option (list byte)) (syn : bool) | OpReset.

Definition op_ok (o : op) : Prop :=
  match o with OpPush _ (Some d) _ => zlen d < 2 ^ 63 | _ => True end.

Definition step (r : StreamReassembler) (o : op) : StreamReassembler :=
  match o with OpPush seq data syn => (push r seq data syn).2 | OpReset => reset r end.

(** C32: The memory of a direction is capped for every sequence of calls, with
    arbitrary segments: the prefix never exceeds its limit, the held segments
    never exceed the buffer limit, and [buffered_bytes_] is always their exact
    size. *)
Theorem reassembler_memory_bounded max_prefix max_buffered ops :
  0 <= max_prefix -> 0 <= max_buffered < 2 ^ 63 -> Forall op_ok ops ->
  let r := fold_left step ops (new_reassembler max_prefix max_buffered) in
  zlen r.(prefix_) <= max_prefix /\
  r.(buffered_bytes_) = om_sum zlen r.(pending_) /\ om_sum zlen r.(pending_) <= max_buffered.
Proof.
  intros Hp Hb Hops.
  enough (Hg : forall r, bounded r -> same_limits (new_reassembler max_prefix max_buffered) r ->
    let r' := fold_left step ops r in
    bounded r' /\ same_limits (new_reassembler max_prefix max_buffered) r').
  { destruct (Hg (new_reassembler max_prefix max_buffered)) as [[] [Hm1 Hm2]]; [|done|].
    - constructor; simpl; [rewrite zlen_nil; lia|constructor|done|lia].
    - simpl in *. lia. }
  induction Hops as [|o ops Ho _ IH]; intros r Hbd [Hm1 Hm2]; [done|]. simpl. apply IH.
  - destruct o as [seq data syn|]; simpl.
    + apply push_bounded; [by unfold limits_ok; rewrite Hm1, Hm2|done|]. by intros d ->.
    + constructor; simpl; [rewrite zlen_nil, Hm1; simpl; lia|constructor|done|rewrite Hm2; simpl; lia].
  - destruct o as [seq data syn|]; simpl; [|done].
    destruct (push_bounded r seq data syn) as (_ & [Hq1 Hq2] & _);
      [by unfold limits_ok; rewrite Hm1, Hm2|done|by intros d ->|split; congruence].
Qed.

Lemma reassembler_memory_bounded_witness :
  let r := fold_left step [OpPush 5 (Some (lit "abc")) false; OpReset; OpPush 9 None true;
                           OpPush 20 (Some (lit "late")) false; OpPush 20 (Some (lit "later")) false]
             (new_reassembler 16 64) in
  zlen r.(prefix_) <= 16 /\
  r.(buffered_bytes_) = om_sum zlen r.(pending_) /\ om_sum zlen r.(pending_) <= 64.
Proof.
  apply (reassembler_memory_bounded 16 64); [done|done|by repeat constructor].
Defined.
