(* ===== verification/ByteString.v ===== *)
(** * [std::string] as a list of bytes

    The string operations the dissectors use, with the C++ semantics of
    positions ([std::string::npos] is [None]). *)

From S2P Require Import Prelude.
From S2P Require Import Machine.
#[local] Open Scope Z_scope.

Section strings.
Implicit Types s p : list byte.

Fixpoint is_prefix p s : bool :=
  match p, s with
  | [], _ => true
  | _, [] => false
  | a :: p, b :: s => Byte.eqb a b && is_prefix p s
  end.

(** [s.find(p)]. *)
Fixpoint find_sub p s : option Z :=
  if is_prefix p s then Some 0
  else match s with
       | [] => None
       | _ :: s => option_map (Z.add 1) (find_sub p s)
       end.

(** [s.find_first_of(chars)]. *)
Fixpoint find_any (chars : list byte) s : option Z :=
  match s with
  | [] => None
  | b :: s => if existsb (Byte.eqb b) chars then Some 0 else option_map (Z.add 1) (find_any chars s)
  end.

(** [s.substr(pos, n)] and [s.substr(pos)] for [pos <= s.size()]. *)
Definition substr s (pos : Z) (n : option Z) : list byte :=
  match n with
  | Some n => slice s pos n
  | None => skipn (Z.to_nat pos) s
  end.

(** [s.find(p, pos)] for [pos <= s.size()]. *)
Definition find_from p s (pos : Z) : option Z :=
  option_map (Z.add pos) (find_sub p (skipn (Z.to_nat pos) s)).

(** [tolower] in the C locale. *)
Definition tolower (b : byte) : byte :=
  if (65 <=? bval b) && (bval b <=? 90) then byte_of (bval b + 32) else b.

(** [strncasecmp(s, name, strlen(name)) == 0]. *)
Definition is_prefix_nocase (name s : list byte) : bool :=
  is_prefix (map tolower name) (map tolower s).

(** [std::to_string] of a non-negative number with at most [fuel] digits. *)
Fixpoint decimal (fuel : nat) (z : Z) : list byte :=
  match fuel with
  | O => []
  | S fuel => (if z <? 10 then [] else decimal fuel (z / 10)) ++ [byte_of (48 + z mod 10)]
  end.
Definition to_decimal : Z -> list byte := decimal 20.

(** ** Lemmas *)

Lemma is_prefix_spec p s : is_prefix p s = true <-> exists k, s = p ++ k.
Proof.
  revert s. induction p as [|a p IH]; intros s; simpl.
  { split; [by eexists|done]. }
  destruct s as [|b s]; [split; [done|by intros (? & ?)]|].
  rewrite andb_true_iff, IH. split.
  - intros [E [k ->]]. apply Byte.byte_dec_bl in E as ->. by exists k.
  - intros [k [= -> ->]]. split; [destruct a; reflexivity|by exists k].
Qed.

Lemma is_prefix_app p k : is_prefix p (p ++ k) = true.
Proof. apply is_prefix_spec. by exists k. Qed.

Lemma find_sub_bounds p s i : find_sub p s = Some i -> 0 <= i /\ i + zlen p <= zlen s.
Proof.
  revert i. induction s as [|b s IH]; intros i; cbn [find_sub].
  - destruct (is_prefix p []) eqn:E; [|done]. intros [= <-].
    apply is_prefix_spec in E as [k E]. destruct p; [|done]. unfold zlen. simpl. lia.
  - destruct (is_prefix p (b :: s)) eqn:E.
    + intros [= <-]. apply is_prefix_spec in E as [k ->]. rewrite zlen_app.
      pose proof (zlen_nonneg k). lia.
    + destruct (find_sub p s) as [j|]; [|done]. intros [= <-]. specialize (IH j eq_refl).
      rewrite zlen_cons. lia.
Qed.

Lemma find_any_bounds cs s i : find_any cs s = Some i -> 0 <= i < zlen s.
Proof.
  revert i. induction s as [|b s IH]; intros i; cbn [find_any]; [done|]. rewrite zlen_cons.
  destruct (existsb _ _).
  - intros [= <-]. pose proof (zlen_nonneg s). lia.
  - destruct (find_any cs s) as [j|]; [|done]. intros [= <-]. specialize (IH j eq_refl). lia.
Qed.

(** The first occurrence, found when nothing before it starts one. *)
Lemma find_sub_first p s k :
  (forall i, (i < length s)%nat -> is_prefix p (skipn i (s ++ p ++ k)) = false) ->
  find_sub p (s ++ p ++ k) = Some (zlen s).
Proof.
  induction s as [|b s IH]; intros Hno.
  - simpl app. destruct (p ++ k) as [|b l] eqn:E; cbn [find_sub].
    + destruct p; [done|]. done.
    + rewrite <-E, is_prefix_app. done.
  - cbn [app find_sub]. pose proof (Hno 0%nat ltac:(simpl; lia)) as H0. cbn [app drop] in H0.
    rewrite H0, IH; [by rewrite zlen_cons|]. intros i Hi. apply (Hno (S i)). simpl. lia.
Qed.

(** A pattern whose first byte does not occur before it. *)
Lemma find_sub_char a p s k :
  a ∉ s -> find_sub (a :: p) (s ++ (a :: p) ++ k) = Some (zlen s).
Proof.
  intros Ha. apply find_sub_first. intros i Hi.
  rewrite drop_app_le by lia. destruct (drop i s) as [|b l] eqn:E.
  { apply (f_equal length) in E. rewrite length_drop in E. simpl in E. lia. }
  simpl. destruct (Byte.eqb a b) eqn:Eb; [|done]. exfalso. apply Ha.
  apply Byte.byte_dec_bl in Eb as ->. rewrite <-(take_drop i s), E. apply elem_of_app. right. by left.
Qed.

Lemma find_any_app cs s b k :
  Forall (fun c => existsb (Byte.eqb c) cs = false) s -> existsb (Byte.eqb b) cs = true ->
  find_any cs (s ++ b :: k) = Some (zlen s).
Proof.
  intros Hs Hb. induction Hs as [|c s Hc _ IH]; cbn [app find_any].
  - by rewrite Hb.
  - rewrite Hc, IH. simpl. by rewrite zlen_cons.
Qed.

Lemma substr_app s k : substr (s ++ k) 0 (Some (zlen s)) = s.
Proof. unfold substr, slice, zlen. rewrite Nat2Z.id. apply take_app_length. Qed.

Lemma substr_skip s k : substr (s ++ k) (zlen s) None = k.
Proof. unfold substr, zlen. rewrite Nat2Z.id. by rewrite drop_app_length. Qed.

Lemma zlen_substr_le s pos n : zlen (substr s pos n) <= zlen s.
Proof.
  destruct n; unfold substr, slice; rewrite ?zlen_take, ?zlen_drop; pose proof (zlen_nonneg s); lia.
Qed.

(** ** Decimal numbers are digits *)

Definition is_digit (b : byte) : Prop := 48 <= bval b <= 57.

Lemma decimal_digits fuel z : 0 <= z -> Forall is_digit (decimal fuel z).
Proof.
  revert z. induction fuel as [|fuel IH]; intros z Hz; cbn [decimal]; [constructor|].
  apply Forall_app. split.
  - destruct (z <? 10); [constructor|]. apply IH. by apply Z.div_pos.
  - repeat constructor; rewrite bval_byte_of; pose proof (Z.mod_pos_bound z 10 ltac:(lia));
      unfold u8; rewrite Z.mod_small by lia; lia.
Qed.

Lemma zlen_decimal fuel z k :
  0 <= z < 10 ^ Z.of_nat k -> (0 < k)%nat -> zlen (decimal fuel z) <= Z.of_nat k.
Proof.
  revert z k. induction fuel as [|fuel IH]; intros z k Hz Hk; cbn [decimal]; [rewrite zlen_nil; lia|].
  autorewrite with zlen. destruct (z <? 10) eqn:E; breflect; [rewrite zlen_nil; lia|].
  destruct k as [|[|k]]; [lia|simpl in Hz; lia|].
  rewrite Nat2Z.inj_succ, Z.pow_succ_r in Hz by lia.
  enough (zlen (decimal fuel (z / 10)) <= Z.of_nat (S k)) by lia.
  apply IH; [|lia]. split; [apply Z.div_pos; lia|apply Z.div_lt_upper_bound; lia].
Qed.
End strings.
