(* ===== verification/Dissect.v ===== *)
(** * Application protocol identification (src/dissect.cpp)

    Every dissector reads attacker-controlled bytes: [data] is the memory from
    the pointer on and a read outside it is [OOB].  A result [None] is the
    C++ [return false] ([out] is untouched then), [Some info] the C++ [return
    true] with the fields the code assigned.  A [std::string] argument is its
    byte list. *)

From S2P Require Import Prelude.
From S2P Require Import Machine.
From S2P Require Import ByteString.
#[local] Open Scope Z_scope.
Arguments lit : simpl never.

Module AppProtocol.
Inductive t := Unknown | HTTP | TLS | DNS | SSH | DHCP | NTP | Other.
#[global] Instance t_eq_dec : EqDecision t. Proof. solve_decision. Defined.
(** [static_cast<uint8_t>(proto)]. *)
Definition to_int (p : t) : Z :=
  match p with
  | Unknown => 0 | HTTP => 1 | TLS => 2 | DNS => 3 | SSH => 4 | DHCP => 5 | NTP => 6 | Other => 7
  end.
End AppProtocol.

Definition AppProtocol_to_string (p : AppProtocol.t) : string :=
  match p with
  | AppProtocol.HTTP => "HTTP" | AppProtocol.TLS => "TLS" | AppProtocol.DNS => "DNS"
  | AppProtocol.SSH => "SSH" | AppProtocol.DHCP => "DHCP" | AppProtocol.NTP => "NTP"
  | AppProtocol.Other => "other" | AppProtocol.Unknown => "-"
  end.

Record AppInfo := mkAppInfo { proto : AppProtocol.t; summary : list byte; conclusive : bool }.
#[export] Instance AppInfo_eta : Eta AppInfo := fun r => mkAppInfo r.(proto) r.(summary) r.(conclusive).

Definition app_default : AppInfo := mkAppInfo AppProtocol.Unknown [] false.
Definition identified (a : AppInfo) : bool := negb (bool_decide (a.(proto) = AppProtocol.Unknown)).

(** ** ByteReader: position and bytes left *)

Record ByteReader := mkReader { br_p : Z; br_left : Z }.

(** A read that may fail: [None] is the C++ [false]. *)
Abbreviation rdm A := (mem (option A)).
Definition fail {A} : rdm A := Val None.
Definition ok {A} (a : A) : rdm A := Val (Some a).
Definition obind {A B} (x : rdm A) (k : A -> rdm B) : rdm B :=
  match x with Val (Some a) => k a | Val None => Val None | OOB => OOB end.
(** [if (!e) return false;] *)
Notation "'let?' x := e 'in' k" := (obind e (fun x => k))
  (at level 10, x pattern, e at level 100, k at level 200) : netscope_scope.

Section reader.
Variable m : list byte.

Definition read_u8 (r : ByteReader) : rdm (Z * ByteReader) :=
  if r.(br_left) <? 1 then fail
  else b ← rd m r.(br_p); ok (bval b, mkReader (r.(br_p) + 1) (r.(br_left) - 1)).

Definition read_u16 (r : ByteReader) : rdm (Z * ByteReader) :=
  if r.(br_left) <? 2 then fail
  else v ← load_be16 m r.(br_p); ok (v, mkReader (r.(br_p) + 2) (r.(br_left) - 2)).

Definition skip_bytes (r : ByteReader) (n : Z) : rdm ByteReader :=
  if r.(br_left) <? n then fail else ok (mkReader (r.(br_p) + n) (r.(br_left) - n)).

Definition read_str (r : ByteReader) (n : Z) : rdm (list byte * ByteReader) :=
  if r.(br_left) <? n then fail
  else bs ← rd_bytes m r.(br_p) n; ok (bs, mkReader (r.(br_p) + n) (r.(br_left) - n)).
End reader.

(** ** Names *)

Definition tls_version_name (version : Z) : list byte :=
  if version =? 0x0300 then lit "SSL3.0"
  else if version =? 0x0301 then lit "TLS1.0"
  else if version =? 0x0302 then lit "TLS1.1"
  else if version =? 0x0303 then lit "TLS1.2"
  else if version =? 0x0304 then lit "TLS1.3"
  else lit "TLS?".

Definition dns_type_name (type : Z) : list byte :=
  if type =? 1 then lit "A" else if type =? 2 then lit "NS"
  else if type =? 5 then lit "CNAME" else if type =? 6 then lit "SOA"
  else if type =? 12 then lit "PTR" else if type =? 15 then lit "MX"
  else if type =? 16 then lit "TXT" else if type =? 28 then lit "AAAA"
  else if type =? 33 then lit "SRV" else if type =? 65 then lit "HTTPS"
  else lit "?".

Definition dns_rcode_name (rcode : Z) : list byte :=
  if rcode =? 0 then lit "NOERROR" else if rcode =? 1 then lit "FORMERR"
  else if rcode =? 2 then lit "SERVFAIL" else if rcode =? 3 then lit "NXDOMAIN"
  else if rcode =? 4 then lit "NOTIMP" else if rcode =? 5 then lit "REFUSED"
  else lit "RCODE?".

(** ** Text helpers *)

Definition crlf : list byte := [Byte.x0d; Byte.x0a].

(** The header lines from the current position on; each round consumes a line
    and its CRLF, so [length headers] rounds are enough. *)
Fixpoint find_header_loop (fuel : nat) (headers name : list byte) : option (list byte) :=
  match fuel with
  | O => None
  | S fuel =>
      match headers with
      | [] => None
      | _ =>
          let eol := find_sub crlf headers in
          let line_end := default (zlen headers) eol in
          if (zlen name <? line_end) && is_prefix_nocase name headers &&
             bool_decide (headers !! Z.to_nat (zlen name) = Some ":"%byte)
          then
            let rest := substr headers (zlen name + 1) (Some (line_end - (zlen name + 1))) in
            let value := list_find (fun b => b <> " "%byte /\ b <> Byte.x09) rest in
            match value with
            | Some (v, _) => Some (skipn v rest)
            | None => None
            end
          else match eol with
               | None => None
               | Some e => find_header_loop fuel (substr headers (e + 2) None) name
               end
      end
  end.

(** [find_header]: [None] also when the value is empty ([value.empty()]). *)
Definition find_header (headers name : list byte) : option (list byte) :=
  find_header_loop (S (length headers)) headers name.

Definition printable (b : byte) : bool := (0x20 <=? bval b) && (bval b <? 0x7F).

Fixpoint sanitize_loop (inp : list byte) (max_len : Z) (out : list byte) : list byte :=
  match inp with
  | [] => out
  | c :: inp =>
      if max_len <=? zlen out then out ++ lit ".."
      else sanitize_loop inp max_len (out ++ [if printable c then c else "."%byte])
  end.
Definition sanitize (inp : list byte) (max_len : Z) : list byte := sanitize_loop inp max_len [].

(** ** HTTP *)

Definition kMethods : list (list byte) :=
  map lit ["GET "; "POST "; "HEAD "; "PUT "; "DELETE "; "OPTIONS "; "PATCH "; "CONNECT "; "TRACE "]%string.

Definition dissect_http (data : list byte) : option AppInfo :=
  let is_response := is_prefix (lit "HTTP/1.") data in
  let is_request := existsb (fun p => is_prefix p data) kMethods in
  if negb is_request && negb is_response then None else
  match find_sub crlf data with
  | None => Some (mkAppInfo AppProtocol.HTTP (lit "HTTP") false)
  | Some line_end =>
      let first_line := substr data 0 (Some line_end) in
      if is_response then Some (mkAppInfo AppProtocol.HTTP (sanitize first_line 72) true)
      else
        let sp1 := find_sub [" "%byte] first_line in
        let sp2 := match sp1 with Some i => find_from [" "%byte] first_line (i + 1) | None => None end in
        let method := match sp1 with Some i => substr first_line 0 (Some i) | None => first_line end in
        let path := match sp1 with
                    | Some i => substr first_line (i + 1)
                                  (match sp2 with Some j => Some (j - i - 1) | None => None end)
                    | None => lit "/"
                    end in
        let headers_complete := match find_sub (crlf ++ crlf) data with Some _ => true | None => false end in
        let host := default [] (find_header (substr data (line_end + 2) None) (lit "Host")) in
        Some (mkAppInfo AppProtocol.HTTP
                (sanitize (method ++ lit " " ++ host ++ path) 72)
                (headers_complete || negb (bool_decide (host = []))))
  end.

(** ** SSH *)

Definition dissect_ssh (data : list byte) : option AppInfo :=
  if negb (is_prefix (lit "SSH-") data) then None
  else
    let eol := find_any crlf data in
    Some (mkAppInfo AppProtocol.SSH (sanitize (substr data 0 (Some (default (zlen data) eol))) 48)
            (match eol with Some _ => true | None => false end)).

(** ** TLS *)

(** What the extension loop knows: the server name and the highest
    supported version. *)
Record ext_state := mkExt { ext_sni : list byte; ext_max : Z }.

(** The [server_name] body: list length, name type, name length, name; the
    name is left alone when the body is malformed. *)
Definition read_sni (m : list byte) (sub : ByteReader) : rdm (list byte) :=
  let? (_, sub) := read_u16 m sub in
  let? (name_type, sub) := read_u8 m sub in
  let? (name_len, sub) := read_u16 m sub in
  if name_type =? 0 then
    let? (sni, _) := read_str m sub name_len in ok sni
  else fail.

(** The version loop of [supported_versions]. *)
Fixpoint versions_loop (m : list byte) (n : nat) (sub : ByteReader) (supported_max : Z) : mem Z :=
  match n with
  | O => mret supported_max
  | S n =>
      r ← read_u16 m sub;
      match r with
      | None => mret supported_max
      | Some (v, sub) =>
          versions_loop m n sub (if (supported_max <? v) && (v <=? 0x0304) then v else supported_max)
      end
  end.

(** One extension of type [ext_type] whose body is the reader [sub]. *)
Definition tls_extension (m : list byte) (ext_type : Z) (sub : ByteReader) (st : ext_state) : mem ext_state :=
  if (ext_type =? 0x0000) && bool_decide (st.(ext_sni) = []) then
    r ← read_sni m sub;
    mret (match r with Some sni => mkExt sni st.(ext_max) | None => st end)
  else if ext_type =? 0x002B then
    r ← read_u8 m sub;
    match r with
    | None => mret st
    | Some (list_len, sub) =>
        v ← versions_loop m (Z.to_nat (list_len / 2)) sub st.(ext_max);
        mret (mkExt st.(ext_sni) v)
    end
  else mret st.

(** The extension loop; a round takes at least four bytes off [remaining]. *)
Fixpoint tls_ext_loop (fuel : nat) (m : list byte) (r : ByteReader) (remaining : Z) (st : ext_state)
    : mem ext_state :=
  match fuel with
  | O => mret st
  | S fuel =>
      if remaining <? 4 then mret st else
      h ← (let? (ext_type, r) := read_u16 m r in
           let? (ext_len, r) := read_u16 m r in ok (ext_type, ext_len, r));
      match h with
      | None => mret st
      | Some (ext_type, ext_len, r) =>
          let remaining := remaining - 4 in
          if remaining <? ext_len then mret st else
          st ← tls_extension m ext_type (mkReader r.(br_p) ext_len) st;
          s ← skip_bytes r ext_len;
          match s with
          | None => mret st
          | Some r => tls_ext_loop fuel m r (remaining - ext_len) st
          end
      end
  end.

Definition tls_fuel (remaining : Z) : nat := S (Z.to_nat (remaining / 4)).

(** The fixed part of a Hello behind the handshake length: the version and the
    reader at the extensions. *)
Definition tls_hello (m : list byte) (is_client_hello : bool) (r : ByteReader) : rdm (Z * ByteReader) :=
  let? (hello_version, r) := read_u16 m r in
  let? r := skip_bytes r 32 in
  let? (session_id_len, r) := read_u8 m r in
  let? r := skip_bytes r session_id_len in
  if is_client_hello then
    let? (cipher_suites_len, r) := read_u16 m r in
    let? r := skip_bytes r cipher_suites_len in
    let? (compression_len, r) := read_u8 m r in
    let? r := skip_bytes r compression_len in ok (hello_version, r)
  else
    let? r := skip_bytes r 2 in
    let? r := skip_bytes r 1 in ok (hello_version, r).

(** From the extensions length on. *)
Definition tls_finish (m : list byte) (is_client_hello : bool) (hello_version : Z) (r : ByteReader)
    : rdm AppInfo :=
  e ← read_u16 m r;
  match e with
  | None => ok (mkAppInfo AppProtocol.TLS (tls_version_name hello_version) false)
  | Some (extensions_len, r) =>
      let remaining := Z.min extensions_len r.(br_left) in
      st ← tls_ext_loop (tls_fuel remaining) m r remaining (mkExt [] 0);
      let name := tls_version_name (if st.(ext_max) =? 0 then hello_version else st.(ext_max)) in
      if bool_decide (st.(ext_sni) = []) then
        ok (mkAppInfo AppProtocol.TLS
              (name ++ lit (if is_client_hello then " client-hello" else " server-hello"))
              (negb is_client_hello))
      else ok (mkAppInfo AppProtocol.TLS (name ++ lit " sni=" ++ sanitize st.(ext_sni) 48) true)
  end.

Definition dissect_tls (data : list byte) : rdm AppInfo :=
  let r := mkReader 0 (zlen data) in
  let? (content_type, r) := read_u8 data r in
  let? (record_version, r) := read_u16 data r in
  let? (_, r) := read_u16 data r in
  if negb (content_type =? 0x16) then fail else
  if negb (Z.shiftr record_version 8 =? 0x03) then fail else
  let? (handshake_type, r) := read_u8 data r in
  if negb (handshake_type =? 0x01) && negb (handshake_type =? 0x02) then
    ok (mkAppInfo AppProtocol.TLS (tls_version_name record_version) false)
  else
    let? (_, r) := read_u8 data r in
    let? (_, r) := read_u16 data r in
    let is_client_hello := handshake_type =? 0x01 in
    let? (hello_version, r) := tls_hello data is_client_hello r in
    tls_finish data is_client_hello hello_version r.

(** ** DNS *)

(** The result of the name loop; [NameFuel] is never reached ([dns_fuel]). *)
Inductive name_result :=
| NameBad
| NameOk (name : list byte) (consumed : Z)
| NameFuel.

(** [while (pos < msg_len)]: every round lengthens the name, which is at most
    253 bytes long, or follows one of at most 8 pointers. *)
Fixpoint dns_name_loop (fuel : nat) (msg : list byte) (msg_len offset pos : Z) (name : list byte)
    (consumed : Z) (followed_pointer : bool) (jumps : Z) : mem name_result :=
  match fuel with
  | O => mret NameFuel
  | S fuel =>
      if msg_len <=? pos then mret NameBad else
      b ← rd msg pos;
      let len := bval b in
      if Z.land len 0xC0 =? 0xC0 then
        if msg_len <=? pos + 1 then mret NameBad else
        b1 ← rd msg (pos + 1);
        let target := Z.lor (Z.shiftl (Z.land len 0x3F) 8) (bval b1) in
        let consumed := if followed_pointer then consumed else pos + 2 - offset in
        let jumps' := jumps + 1 in
        if (msg_len <=? target) || (8 <? jumps') then mret NameBad
        else dns_name_loop fuel msg msg_len offset target name consumed true jumps'
      else if negb (Z.land len 0xC0 =? 0) then mret NameBad
      else if len =? 0 then
        let consumed := if followed_pointer then consumed else pos + 1 - offset in
        mret (NameOk (if bool_decide (name = []) then lit "." else name) consumed)
      else if msg_len <? pos + 1 + len then mret NameBad
      else
        label ← rd_bytes msg (pos + 1) len;
        let name := (if bool_decide (name = []) then [] else name ++ lit ".") ++ label in
        if 253 <? zlen name then mret NameBad
        else dns_name_loop fuel msg msg_len offset (pos + 1 + len) name consumed followed_pointer jumps
  end.

Definition dns_fuel : nat := 264.

(** Conversion compares the loop's arguments before it runs the loop. *)
#[global] Strategy 100 [dns_name_loop].

Definition decode_dns_name (msg : list byte) (msg_len offset : Z) : mem name_result :=
  dns_name_loop dns_fuel msg msg_len offset offset [] 0 false 0.

(** [dissect_dns(data, len, out)] for [data != nullptr]. *)
Definition dissect_dns (data : list byte) (len : Z) : rdm AppInfo :=
  if len <? 12 then fail else
  flags ← load_be16 data 2;
  qdcount ← load_be16 data 4;
  ancount ← load_be16 data 6;
  let is_response := negb (Z.land flags 0x8000 =? 0) in
  let opcode := u8 (Z.land (Z.shiftr flags 11) 0x0F) in
  let rcode := u8 (Z.land flags 0x0F) in
  if (5 <? opcode) || (qdcount =? 0) || (16 <? qdcount) then fail else
  r ← decode_dns_name data len 12;
  match r with
  | NameOk qname consumed =>
      let type_at := 12 + consumed in
      qtype ← (if type_at + 2 <=? len then load_be16 data type_at else mret 0);
      ok (mkAppInfo AppProtocol.DNS
            (lit (if is_response then "response " else "query ") ++ dns_type_name qtype ++ lit " " ++
             sanitize qname 48 ++
             (if is_response
              then lit " -> " ++ dns_rcode_name rcode ++ lit " (" ++ to_decimal ancount ++ lit " ans)"
              else []))
            true)
  | _ => fail
  end.

(** ** Entry points *)

(** [if (e) return true;] *)
Definition orelse {A} (x k : rdm A) : rdm A :=
  match x with Val None => k | _ => x end.

Definition tls_port (service : Z) : bool :=
  (service =? 443) || (service =? 8443) || (service =? 993) || (service =? 995) || (service =? 465).

Definition dissect_tcp_stream (prefix : list byte) (sport dport : Z) : rdm AppInfo :=
  if zlen prefix <? 4 then fail else
  let service := Z.min sport dport in
  let tls_first := tls_port service in
  orelse (if tls_first then dissect_tls prefix else fail)
  (orelse (mret (dissect_http prefix))
  (orelse (if negb tls_first then dissect_tls prefix else fail)
  (orelse (mret (dissect_ssh prefix))
  (if (service =? 53) && (2 <? zlen prefix) then
     declared ← load_be16 prefix 0;
     if (12 <=? declared) && (declared <=? zlen prefix - 2)
     then dissect_dns (skipn 2 prefix) declared
     else fail
   else fail)))).

(** [dissect_udp_payload(data, len, ...)]; [None] is [nullptr]. *)
Definition dissect_udp_payload (data : option (list byte)) (len sport dport : Z) : rdm AppInfo :=
  match data with
  | None => fail
  | Some data =>
      if len =? 0 then fail else
      let service := Z.min sport dport in
      orelse (if (service =? 53) || (sport =? 5353) || (dport =? 5353) then dissect_dns data len else fail)
      (orelse
        (if ((service =? 67) || (service =? 68)) && (240 <? len) then
           c ← rd_bytes data 236 4;
           if bool_decide (c = [Byte.x63; Byte.x82; Byte.x53; Byte.x63]) then
             b0 ← rd data 0;
             ok (mkAppInfo AppProtocol.DHCP (lit (if bval b0 =? 1 then "request" else "reply")) true)
           else fail
         else fail)
      (orelse
        (if (service =? 123) && (48 <=? len) then
           b0 ← rd data 0;
           let mode := Z.land (bval b0) 0x07 in
           let version := Z.land (Z.shiftr (bval b0) 3) 0x07 in
           if (1 <=? version) && (version <=? 4)
           then ok (mkAppInfo AppProtocol.NTP (lit "v" ++ to_decimal version ++ lit " mode=" ++ to_decimal mode) true)
           else fail
         else fail)
      (orelse
        (if (service =? 443) || (service =? 80) then
           b0 ← rd data 0;
           if negb (Z.land (bval b0) 0x40 =? 0)
           then ok (mkAppInfo AppProtocol.Other (lit "QUIC?") true)
           else fail
         else fail)
      (dissect_dns data len))))
  end.
