(* ===== verification/DissectSafe.v ===== *)
(** * Memory safety and output hygiene of the dissectors

    Whatever bytes the stream holds, no dissector reads outside them, and the
    summary it produces is short and made of printable characters only (terminal
    escape sequences of a hostile peer never reach the screen).  The DNS name
    decoder terminates within its fuel. *)

From S2P Require Import Prelude.
From S2P Require Import Machine.
From S2P Require Import ByteString.
From S2P Require Import Dissect.
#[local] Open Scope Z_scope.

(** ** Partial reads *)

(** [wpo x Q]: no read of [x] leaves the buffer, and a result satisfies [Q]. *)
Definition wpo {A} (x : rdm A) (Q : A -> Prop) : Prop :=
  wpm x (fun r => match r with Some a => Q a | None => True end).

Section wpo.
Context {A B : Type}.
Implicit Types (x : rdm A) (Q : A -> Prop).

Lemma wpo_fail Q : wpo fail Q. Proof. done. Qed.
Lemma wpo_ok (a : A) Q : Q a -> wpo (ok a) Q. Proof. done. Qed.
Lemma wpo_obind x (k : A -> rdm B) (Q : B -> Prop) :
  wpo x (fun a => wpo (k a) Q) -> wpo (obind x k) Q.
Proof. by destruct x as [[a|]|]. Qed.
Lemma wpo_mbind (x : mem A) (k : A -> rdm B) (Q : B -> Prop) :
  wpm x (fun a => wpo (k a) Q) -> wpo (x ≫= k) Q.
Proof. by destruct x. Qed.
Lemma wpo_orelse x k Q : wpo x Q -> wpo k Q -> wpo (orelse x k) Q.
Proof. by destruct x as [[a|]|]. Qed.
Lemma wpo_if (b : bool) x1 x2 Q :
  (b = true -> wpo x1 Q) -> (b = false -> wpo x2 Q) -> wpo (if b then x1 else x2) Q.
Proof. destruct b; auto. Qed.
Lemma wpo_mono x Q Q' : wpo x Q -> (forall a, Q a -> Q' a) -> wpo x Q'.
Proof. destruct x as [[a|]|]; simpl; auto. Qed.
End wpo.

(** ** Text *)

Definition text_ok (s : list byte) : Prop := Forall (fun b => printable b = true) s.

Lemma text_lit s : forallb printable (lit s) = true -> text_ok (lit s).
Proof. intros H. apply Forall_forall. intros b Hb. rewrite forallb_forall in H. apply H. by apply list_elem_of_In. Qed.

Lemma text_app a b : text_ok a -> text_ok b -> text_ok (a ++ b).
Proof. intros. by apply Forall_app. Qed.

Lemma text_decimal z : 0 <= z -> text_ok (to_decimal z).
Proof.
  intros Hz. eapply Forall_impl; [by apply decimal_digits|]. intros b Hb. unfold is_digit in Hb.
  unfold printable. by rewrite !(proj2 (Z.leb_le _ _)), (proj2 (Z.ltb_lt _ _)) by lia.
Qed.

Lemma printable_dot b : printable (if printable b then b else "."%byte) = true.
Proof. by destruct (printable b) eqn:E. Qed.

Lemma sanitize_loop_ok inp max_len : forall out,
  text_ok out -> 0 <= max_len -> zlen out <= max_len ->
  text_ok (sanitize_loop inp max_len out) /\ zlen (sanitize_loop inp max_len out) <= max_len + 2.
Proof.
  induction inp as [|c inp IH]; intros out Ho Hm Hl; cbn [sanitize_loop]; [split; [done|lia]|].
  destruct (_ <=? _) eqn:E; breflect.
  - split; [by apply text_app; [|apply text_lit]|]. rewrite zlen_app. change (zlen (lit "..")) with 2. lia.
  - apply IH; [|done|autorewrite with zlen; lia]. apply text_app; [done|].
    by repeat constructor; apply printable_dot.
Qed.

Lemma sanitize_ok inp max_len : 0 <= max_len ->
  text_ok (sanitize inp max_len) /\ zlen (sanitize inp max_len) <= max_len + 2.
Proof. intros. apply sanitize_loop_ok; [constructor|done|rewrite zlen_nil; lia]. Qed.

(** A sanitised string keeps printable text that fits. *)
Lemma sanitize_loop_id inp max_len : forall out,
  text_ok inp -> zlen out + zlen inp <= max_len -> sanitize_loop inp max_len out = out ++ inp.
Proof.
  induction inp as [|c inp IH]; intros out Ht Hl; cbn [sanitize_loop]; [by rewrite app_nil_r|].
  inversion Ht as [|? ? Hc Ht']; subst. rewrite zlen_cons in Hl. pose proof (zlen_nonneg inp).
  rewrite (proj2 (Z.leb_gt _ _)) by lia. rewrite Hc, IH; [by rewrite <-app_assoc|done|].
  autorewrite with zlen. lia.
Qed.

Lemma sanitize_id s max_len : text_ok s -> zlen s <= max_len -> sanitize s max_len = s.
Proof. intros. apply (sanitize_loop_id s max_len []); [done|by rewrite zlen_nil]. Qed.

(** What every dissector promises about its result. *)
Definition info_ok (a : AppInfo) : Prop :=
  a.(proto) <> AppProtocol.Unknown /\ text_ok a.(summary) /\ zlen a.(summary) <= 96.

Create HintDb text.
#[export] Hint Resolve text_app text_decimal : text.
#[export] Hint Extern 1 (text_ok (lit _)) => (by apply text_lit) : text.
#[export] Hint Extern 1 (text_ok (sanitize _ _)) => (apply sanitize_ok; lia) : text.

Ltac text_tac :=
  repeat match goal with
  | |- text_ok (_ ++ _) => apply text_app
  | |- text_ok (to_decimal _) => apply text_decimal; lia
  | |- text_ok (lit _) => apply text_lit; reflexivity
  | |- text_ok [] => constructor
  | |- text_ok _ => assumption
  end.

Lemma tls_version_name_ok v : text_ok (tls_version_name v) /\ zlen (tls_version_name v) <= 6.
Proof. unfold tls_version_name. repeat case_test; (split; [auto with text|vm_compute; congruence]). Qed.

Lemma dns_type_name_ok v : text_ok (dns_type_name v) /\ zlen (dns_type_name v) <= 5.
Proof. unfold dns_type_name. repeat case_test; (split; [auto with text|vm_compute; congruence]). Qed.

Lemma dns_rcode_name_ok v : text_ok (dns_rcode_name v) /\ zlen (dns_rcode_name v) <= 8.
Proof. unfold dns_rcode_name. repeat case_test; (split; [auto with text|vm_compute; congruence]). Qed.

(** ** The reader *)

Definition reader_ok (m : list byte) (r : ByteReader) : Prop :=
  0 <= r.(br_p) /\ 0 <= r.(br_left) /\ r.(br_p) + r.(br_left) <= zlen m.

Section reads.
Variable m : list byte.
Implicit Types r : ByteReader.

Lemma wpo_read_u8 r : reader_ok m r ->
  wpo (read_u8 m r) (fun x => in_u8 x.1 /\ reader_ok m x.2 /\ x.2.(br_left) <= r.(br_left)).
Proof.
  intros (? & ? & ?). unfold read_u8. apply wpo_if; intros; breflect; [apply wpo_fail|].
  apply wpo_mbind, wpm_rd; [lia|]. intros. apply wpo_ok. unfold reader_ok. simpl. split; [auto with word|lia].
Qed.

Lemma wpo_read_u16 r : reader_ok m r ->
  wpo (read_u16 m r) (fun x => in_u16 x.1 /\ reader_ok m x.2 /\ x.2.(br_left) <= r.(br_left)).
Proof.
  intros (? & ? & ?). unfold read_u16. apply wpo_if; intros; breflect; [apply wpo_fail|].
  apply wpo_mbind, wpm_load_be16; [lia..|]. intros. apply wpo_ok. unfold reader_ok. simpl. split; [done|lia].
Qed.

Lemma wpo_skip_bytes r n : reader_ok m r -> 0 <= n ->
  wpo (skip_bytes r n) (fun r' => reader_ok m r' /\ r'.(br_left) <= r.(br_left)).
Proof.
  intros (? & ? & ?) ?. unfold skip_bytes. apply wpo_if; intros; breflect; [apply wpo_fail|].
  apply wpo_ok. unfold reader_ok. simpl. lia.
Qed.

Lemma wpo_read_str r n : reader_ok m r -> 0 <= n -> wpo (read_str m r n) (fun x => reader_ok m x.2).
Proof.
  intros (? & ? & ?) ?. unfold read_str. apply wpo_if; intros; breflect; [apply wpo_fail|].
  apply wpo_mbind, wpm_rd_bytes; [lia..|]. intros. apply wpo_ok. unfold reader_ok. simpl. lia.
Qed.
End reads.

Lemma in_u8_nonneg z : in_u8 z -> 0 <= z. Proof. by intros []. Qed.
Lemma in_u16_nonneg z : in_u16 z -> 0 <= z. Proof. by intros []. Qed.
#[export] Hint Resolve in_u8_nonneg in_u16_nonneg : word.

(** One read of a dissector. *)
Ltac read_step :=
  first
    [ apply wpo_obind; eapply wpo_mono;
      [ first [ apply wpo_read_u8 | apply wpo_read_u16
              | apply wpo_skip_bytes | apply wpo_read_str ]; solve [eauto with word | lia]
      | intros []; simpl; intros (? & ? & ?) || intros (? & ?) || intros ? ]
    | apply wpo_fail
    | apply wpo_if; intros
    | apply wpo_ok ].

(** ** TLS *)

Section tls.
Variable m : list byte.

Lemma wpo_read_sni r : reader_ok m r -> wpo (read_sni m r) (fun _ => True).
Proof. intros. unfold read_sni. repeat read_step; done. Qed.

Lemma wpm_opt {A B} (x : rdm A) (k : option A -> mem B) (Q : B -> Prop) (P : A -> Prop) :
  wpo x P -> (forall a, P a -> wpm (k (Some a)) Q) -> wpm (k None) Q -> wpm (x ≫= k) Q.
Proof. destruct x as [[a|]|]; simpl; auto. Qed.

Lemma wpm_versions_loop n : forall sub v (Q : Z -> Prop),
  reader_ok m sub -> (forall z, Q z) -> wpm (versions_loop m n sub v) Q.
Proof.
  induction n as [|n IH]; intros sub v Q Hr HQ; cbn [versions_loop]; [by apply wpm_ret|].
  eapply wpm_opt; [by apply wpo_read_u16| |by apply wpm_ret].
  intros [v' sub'] (? & ? & ?). by apply IH.
Qed.

Lemma wpm_tls_extension ty sub st (Q : ext_state -> Prop) :
  reader_ok m sub -> (forall s, Q s) -> wpm (tls_extension m ty sub st) Q.
Proof.
  intros Hr HQ. unfold tls_extension. apply wpm_if; intros _.
  - eapply wpm_opt; [by apply wpo_read_sni| |]; intros; apply wpm_ret; apply HQ.
  - apply wpm_if; intros _; [|by apply wpm_ret].
    eapply wpm_opt; [by apply wpo_read_u8| |by apply wpm_ret].
    intros [n sub'] (? & ? & ?). apply wpm_bind, wpm_versions_loop; [done|]. intros. by apply wpm_ret.
Qed.

Lemma wpm_tls_ext_loop fuel : forall r remaining st (Q : ext_state -> Prop),
  reader_ok m r -> remaining <= r.(br_left) -> (forall s, Q s) ->
  wpm (tls_ext_loop fuel m r remaining st) Q.
Proof.
  induction fuel as [|fuel IH]; intros r rem st Q Hr Hrem HQ; cbn [tls_ext_loop]; [by apply wpm_ret|].
  apply wpm_if; intros; breflect; [by apply wpm_ret|].
  apply wpm_opt with (P := fun x => in_u16 x.1.2 /\ reader_ok m x.2 /\ x.2.(br_left) = r.(br_left) - 4);
    [|intros [[ty len] r'] (Hlen & Hr' & Hl); simpl in *|by apply wpm_ret].
  - destruct Hr as (? & ? & ?). unfold read_u16. rewrite (proj2 (Z.ltb_ge _ _)) by lia.
    apply wpo_obind, wpo_mbind, wpm_load_be16; [lia..|]. intros ty _. apply wpo_ok.
    cbn [br_left br_p]. rewrite (proj2 (Z.ltb_ge _ _)) by lia.
    apply wpo_obind, wpo_mbind, wpm_load_be16; [lia..|]. intros len Hlen.
    repeat apply wpo_ok. unfold reader_ok. simpl. split; [done|lia].
  - apply in_u16_nonneg in Hlen. apply wpm_if; intros; breflect; [by apply wpm_ret|].
    destruct Hr' as (? & ? & ?).
    apply wpm_bind, wpm_tls_extension; [unfold reader_ok; simpl; lia|]. intros st'.
    unfold skip_bytes. rewrite (proj2 (Z.ltb_ge _ _)) by lia. cbn [mbind mem_bind ok].
    apply IH; [unfold reader_ok; simpl; lia|simpl; lia|done].
Qed.

Lemma wpo_tls_hello b r : reader_ok m r -> wpo (tls_hello m b r) (fun x => reader_ok m x.2).
Proof. intros. unfold tls_hello. repeat read_step; done. Qed.

Lemma wpo_tls_finish b v r : reader_ok m r -> wpo (tls_finish m b v r) info_ok.
Proof.
  intros Hr. unfold tls_finish. eapply wpm_opt; [by apply wpo_read_u16| |].
  - intros [elen r'] (He & Hr' & _). simpl in He. apply wpo_mbind, wpm_tls_ext_loop; [done|lia|].
    intros st. set (v' := if _ =? _ then v else _). destruct (tls_version_name_ok v').
    apply wpo_if; intros _; apply wpo_ok; unfold info_ok; cbn [proto summary conclusive]; (split_and!; [done| |]).
    + apply text_app; [done|]. destruct b; auto with text.
    + rewrite zlen_app. destruct b; simpl; change (zlen (lit " client-hello")) with 13 in *;
        change (zlen (lit " server-hello")) with 13 in *; lia.
    + auto with text.
    + rewrite !zlen_app. change (zlen (lit " sni=")) with 5.
      pose proof (sanitize_ok (ext_sni st) 48 ltac:(lia)). lia.
  - apply wpo_ok. destruct (tls_version_name_ok v). unfold info_ok. simpl. split_and!; [done|done|lia].
Qed.
End tls.

Lemma wpo_dissect_tls data : wpo (dissect_tls data) info_ok.
Proof.
  unfold dissect_tls.
  assert (reader_ok data (mkReader 0 (zlen data)))
    by (unfold reader_ok; simpl; pose proof (zlen_nonneg data); lia).
  do 3 read_step. apply wpo_if; intros _; [apply wpo_fail|].
  apply wpo_if; intros _; [apply wpo_fail|]. read_step. apply wpo_if; intros _.
  - apply wpo_ok. destruct (tls_version_name_ok z0). unfold info_ok. cbn [proto summary conclusive].
    split_and!; [done|done|lia].
  - do 2 read_step. apply wpo_obind. eapply wpo_mono; [by apply wpo_tls_hello|].
    intros [v r'] Hr'. by apply wpo_tls_finish.
Qed.

(** ** HTTP and SSH *)

Lemma info_ok_sanitize p s n b : 0 <= n <= 90 -> p <> AppProtocol.Unknown ->
  info_ok (mkAppInfo p (sanitize s n) b).
Proof.
  intros Hn Hp. pose proof (sanitize_ok s n ltac:(lia)) as [? ?]. unfold info_ok.
  cbn [proto summary]. split_and!; [done|done|lia].
Qed.

Lemma info_ok_lit p s b :
  forallb printable (lit s) = true -> zlen (lit s) <= 96 -> p <> AppProtocol.Unknown ->
  info_ok (mkAppInfo p (lit s) b).
Proof. intros. unfold info_ok. cbn [proto summary]. split_and!; auto using text_lit. Qed.

Lemma dissect_http_ok data a : dissect_http data = Some a -> info_ok a.
Proof.
  unfold dissect_http. destruct (_ && _); [done|].
  destruct (find_sub crlf data); [|intros [= <-]; by apply info_ok_lit].
  destruct (is_prefix (lit "HTTP/1.") data); intros [= <-]; by apply info_ok_sanitize.
Qed.

Lemma dissect_ssh_ok data a : dissect_ssh data = Some a -> info_ok a.
Proof. unfold dissect_ssh. destruct (negb _); [done|]. intros [= <-]. by apply info_ok_sanitize. Qed.

(** ** DNS *)

Definition name_post (msg_len offset : Z) (r : name_result) : Prop :=
  match r with
  | NameBad => True
  | NameOk name consumed => 0 < zlen name <= 253 /\ 0 < consumed /\ offset + consumed <= msg_len
  | NameFuel => False
  end.

(** Rounds the loop may still take. *)
Definition name_measure (name : list byte) (jumps : Z) : Z := (254 - zlen name) + (9 - jumps).

Definition add_label (name label : list byte) : list byte :=
  (if bool_decide (name = []) then [] else name ++ lit ".") ++ label.

Lemma zlen_add_label name label :
  zlen (add_label name label) = zlen name + (if bool_decide (name = []) then 0 else 1) + zlen label.
Proof.
  unfold add_label. destruct (bool_decide_reflect (name = [])) as [->|]; autorewrite with zlen; [lia|].
  change (zlen (lit ".")) with 1. lia.
Qed.

Lemma dns_name_loop_post msg msg_len offset fuel : forall pos name consumed followed jumps,
  0 <= offset -> msg_len <= zlen msg -> 0 <= pos -> zlen name <= 253 -> 0 <= jumps <= 8 ->
  (if followed : bool then 0 < consumed /\ offset + consumed <= msg_len else offset <= pos) ->
  name_measure name jumps < Z.of_nat fuel ->
  wpm (dns_name_loop fuel msg msg_len offset pos name consumed followed jumps) (name_post msg_len offset).
Proof.
  induction fuel as [|fuel IH]; intros pos name c followed jumps Ho Hm Hp Hn Hj Hc Hf;
    cbn [dns_name_loop]; [unfold name_measure in Hf; lia|].
  apply wpm_if; intros; breflect; [by apply wpm_ret|].
  apply wpm_bind, wpm_rd; [lia|]. intros b. pose proof (bval_bounds b).
  apply wpm_if; intros; breflect.
  - apply wpm_if; intros; breflect; [by apply wpm_ret|].
    apply wpm_bind, wpm_rd; [lia|]. intros b1. pose proof (bval_bounds b1).
    set (target := Z.lor _ _).
    assert (0 <= target) by (apply Z.lor_nonneg; split; [|lia]; apply Z.shiftl_nonneg, Z.land_nonneg; lia).
    apply wpm_if; intros E; [by apply wpm_ret|]. breflect.
    apply IH; [done|done|done|done|lia|destruct followed; lia|unfold name_measure in *; lia].
  - apply wpm_if; intros; breflect; [by apply wpm_ret|].
    apply wpm_if; intros; breflect.
    + apply wpm_ret. unfold name_post. split_and!; [| |destruct followed; lia..].
      * destruct (bool_decide_reflect (name = [])) as [|Hne]; [done|].
        destruct name; [done|]. rewrite zlen_cons. pose proof (zlen_nonneg name). lia.
      * destruct (bool_decide_reflect (name = [])) as [|Hne]; [done|lia].
    + apply wpm_if; intros; breflect; [by apply wpm_ret|].
      apply wpm_bind, wpm_rd_bytes; [lia..|]. intros label Hl.
      change ((if bool_decide (name = []) then [] else name ++ lit ".") ++ label) with (add_label name label).
      pose proof (zlen_add_label name label) as Hz.
      apply wpm_if; intros; breflect; [by apply wpm_ret|].
      apply IH; [done|done|lia|done|done|destruct followed; lia|].
      unfold name_measure in *. destruct (bool_decide _); lia.
Qed.

Lemma decode_dns_name_post msg msg_len offset :
  0 <= offset -> msg_len <= zlen msg ->
  wpm (decode_dns_name msg msg_len offset) (name_post msg_len offset).
Proof.
  intros. apply dns_name_loop_post; [done|done|done|by rewrite zlen_nil|done|lia|].
  unfold name_measure, dns_fuel. rewrite zlen_nil. lia.
Qed.

Lemma wpo_dissect_dns data len : len <= zlen data -> wpo (dissect_dns data len) info_ok.
Proof.
  intros Hl. unfold dissect_dns. apply wpo_if; intros; breflect; [apply wpo_fail|].
  do 3 (apply wpo_mbind, wpm_load_be16; [lia..|]; intros ? ?).
  apply wpo_if; intros _; [apply wpo_fail|].
  apply wpo_mbind. eapply wpm_mono; [apply decode_dns_name_post; lia|].
  intros [|qname consumed|] Hr; [done| |done]. destruct Hr as (? & ? & ?). cbv zeta.
  apply wpo_mbind. apply wpm_mono with (Q := fun _ => True).
  { apply wpm_if; intros; breflect; [apply wpm_load_be16; [lia..|done]|done]. }
  intros qtype _. apply wpo_ok. unfold info_ok. cbn [proto summary].
  destruct (dns_type_name_ok qtype). destruct (sanitize_ok qname 48 ltac:(lia)).
  set (rcode := u8 _). destruct (dns_rcode_name_ok rcode). unfold in_u16 in *.
  assert (zlen (to_decimal z1) <= 5) by (apply (zlen_decimal 20 z1 5); lia).
  split_and!; [done| |].
  - destruct (negb _); text_tac.
  - destruct (negb _); autorewrite with zlen; change (zlen (lit "response ")) with 9;
      change (zlen (lit "query ")) with 6; change (zlen (lit " ")) with 1;
      change (zlen (lit " -> ")) with 4; change (zlen (lit " (")) with 2;
      change (zlen (lit " ans)")) with 5; rewrite ?zlen_nil; lia.
Qed.

(** ** Entry points *)

Lemma wpo_dissect_tcp_stream prefix sport dport :
  wpo (dissect_tcp_stream prefix sport dport) info_ok.
Proof.
  unfold dissect_tcp_stream. apply wpo_if; intros; breflect; [apply wpo_fail|]. cbv zeta.
  assert (Htls : forall b : bool, wpo (if b then dissect_tls prefix else fail) info_ok)
    by (intros []; [apply wpo_dissect_tls|apply wpo_fail]).
  apply wpo_orelse; [done|]. apply wpo_orelse.
  { destruct (dissect_http prefix) eqn:E; [by apply (dissect_http_ok prefix)|done]. }
  apply wpo_orelse; [done|]. apply wpo_orelse.
  { destruct (dissect_ssh prefix) eqn:E; [by apply (dissect_ssh_ok prefix)|done]. }
  apply wpo_if; intros; [|apply wpo_fail].
  apply wpo_mbind, wpm_load_be16; [lia..|]. intros d Hd.
  apply wpo_if; intros; breflect; [|apply wpo_fail].
  apply wpo_dissect_dns. rewrite zlen_drop. lia.
Qed.

Lemma wpo_dissect_udp_payload data len sport dport :
  0 <= len <= zlen data -> wpo (dissect_udp_payload (Some data) len sport dport) info_ok.
Proof.
  intros Hl. unfold dissect_udp_payload. apply wpo_if; intros; breflect; [apply wpo_fail|]. cbv zeta.
  assert (Hdns : wpo (dissect_dns data len) info_ok) by (apply wpo_dissect_dns; lia).
  apply wpo_orelse; [by destruct (_ || _)|].
  apply wpo_orelse.
  { apply wpo_if; intros; breflect; [|apply wpo_fail].
    apply wpo_mbind, wpm_rd_bytes; [lia..|]. intros bs _. apply wpo_if; intros _; [|apply wpo_fail].
    apply wpo_mbind, wpm_rd; [lia|]. intros b. apply wpo_ok.
    destruct (_ =? 1); by apply info_ok_lit. }
  apply wpo_orelse.
  { apply wpo_if; intros; breflect; [|apply wpo_fail].
    apply wpo_mbind, wpm_rd; [lia|]. intros b. cbv zeta.
    apply wpo_if; intros; breflect; [|apply wpo_fail]. apply wpo_ok. unfold info_ok. cbn [proto summary].
    set (v := Z.land (Z.shiftr _ _) _) in *. set (md := Z.land (bval b) 7) in *.
    assert (0 <= md < 8) by (unfold md; change 7 with (Z.ones 3); rewrite Z.land_ones by lia;
      apply Z.mod_pos_bound; lia).
    split_and!; [done|text_tac|].
    autorewrite with zlen. change (zlen (lit "v")) with 1. change (zlen (lit " mode=")) with 6.
    pose proof (zlen_decimal 20 v 1 ltac:(lia) ltac:(lia)).
    pose proof (zlen_decimal 20 md 1 ltac:(lia) ltac:(lia)). unfold to_decimal. lia. }
  apply wpo_orelse; [|done].
  apply wpo_if; intros; [|apply wpo_fail].
  apply wpo_mbind, wpm_rd; [lia|]. intros b. apply wpo_if; intros _; [|apply wpo_fail].
  by apply info_ok_lit.
Qed.

(** ** The fuel is enough *)

Lemma read_u16_nonneg m r n r' : read_u16 m r = Val (Some (n, r')) -> 0 <= n.
Proof.
  unfold read_u16. case_test; [done|]. destruct (load_be16 m (br_p r)) as [v|] eqn:E; [|done].
  intros [= <- _]. unfold load_be16 in E. destruct (rd m (br_p r)) as [a|]; [|done]. simpl in E.
  destruct (rd m (br_p r + 1)) as [b|]; [|done]. injection E as <-. apply be16_in.
Qed.

(** More fuel than [tls_fuel] changes nothing. *)
Lemma tls_ext_loop_fuel m fuel fuel' : forall r remaining st,
  remaining / 4 < Z.of_nat fuel -> remaining / 4 < Z.of_nat fuel' ->
  tls_ext_loop fuel m r remaining st = tls_ext_loop fuel' m r remaining st.
Proof.
  assert (Hneg : forall z, z / 4 < Z.of_nat 0 -> (z <? 4) = true).
  { intros z Hz. apply Z.ltb_lt. destruct (Z.lt_ge_cases z 4); [done|].
    pose proof (Z.div_pos z 4 ltac:(lia) ltac:(lia)). lia. }
  revert fuel'. induction fuel as [|fuel IH]; intros [|fuel'] r rem st Hf Hf'; cbn [tls_ext_loop];
    [done|by rewrite Hneg|by rewrite Hneg|]. clear Hneg.
  destruct (rem <? 4) eqn:E; [done|]. apply Z.ltb_ge in E.
  destruct (read_u16 m r) as [[[ty r1]|]|]; try done. cbn [obind].
  destruct (read_u16 m r1) as [[[len r2]|]|] eqn:Er; try done. apply read_u16_nonneg in Er.
  cbn [obind ok mbind mem_bind]. case_test; [done|].
  destruct (tls_extension _ _ _ _) as [st'|]; [|done]. cbn [mbind mem_bind].
  destruct (skip_bytes r2 len) as [[r3|]|]; try done. cbn [mbind mem_bind].
  assert ((rem - 4 - len) / 4 <= rem / 4 - 1).
  { replace (rem / 4 - 1) with ((rem - 4) / 4); [apply Z.div_le_mono; lia|].
    replace (rem - 4) with (rem + (-1) * 4) by lia. rewrite Z.div_add by lia. lia. }
  apply IH; lia.
Qed.

(** The header search stops by itself: more rounds than bytes change nothing. *)
Lemma find_header_fuel fuel fuel' : forall headers name,
  (length headers < fuel)%nat -> (length headers < fuel')%nat ->
  find_header_loop fuel headers name = find_header_loop fuel' headers name.
Proof.
  revert fuel'. induction fuel as [|fuel IH]; intros [|fuel'] headers name Hf Hf'; try lia.
  cbn [find_header_loop]. destruct headers as [|b bs]; [done|].
  case_test; [done|]. destruct (find_sub crlf (b :: bs)) as [e|] eqn:E; [|done].
  apply find_sub_bounds in E as [He _].
  assert (Hl : (length (substr (b :: bs) (e + 2) None) < length (b :: bs))%nat).
  { unfold substr. rewrite length_drop. simpl length. lia. }
  apply IH; lia.
Qed.

(** ** Theorems *)

(** C9: The dissectors never read outside the bytes they are given: for every
    stream prefix and every datagram, with every pair of ports, the calls return,
    and a result they produce names a protocol with a summary of at most 96
    characters that are all printable, so no control character of a hostile peer
    reaches the terminal. *)
Theorem dissect_safe prefix data len sport dport :
  0 <= len <= zlen data ->
  (exists r, dissect_tcp_stream prefix sport dport = Val r /\ from_option info_ok True r) /\
  (exists r, dissect_udp_payload (Some data) len sport dport = Val r /\ from_option info_ok True r).
Proof.
  intros Hl. split; apply wpm_val.
  - apply (wpm_mono _ _ _ (wpo_dissect_tcp_stream prefix sport dport)). by intros [].
  - apply (wpm_mono _ _ _ (wpo_dissect_udp_payload data len sport dport Hl)). by intros [].
Qed.

Lemma dissect_safe_witness :
  (exists r, dissect_tcp_stream (lit "SSH-2.0-x") 53 40000 = Val r /\ from_option info_ok True r) /\
  (exists r, dissect_udp_payload (Some (lit "AAAA")) 3 53 40000 = Val r /\ from_option info_ok True r).
Proof. apply dissect_safe. vm_compute. intuition discriminate. Defined.

(** C19: Decoding a DNS name terminates on every message within 264 rounds
    (compression loops included), never reads past [msg_len], and a decoded name
    has between 1 and 253 bytes and consumes a non-empty part of the message. *)
Theorem decode_dns_name_total msg msg_len offset :
  0 <= offset -> msg_len <= zlen msg ->
  exists r, decode_dns_name msg msg_len offset = Val r /\
    match r with
    | NameBad => True
    | NameOk name consumed => 0 < zlen name <= 253 /\ 0 < consumed /\ offset + consumed <= msg_len
    | NameFuel => False
    end.
Proof. intros. apply wpm_val. by apply decode_dns_name_post. Qed.

(** A name that is a compression pointer to itself. *)
Lemma decode_dns_name_total_witness :
  exists r, decode_dns_name [Byte.xc0; Byte.x00] 2 0 = Val r /\
    match r with
    | NameBad => True
    | NameOk name consumed => 0 < zlen name <= 253 /\ 0 < consumed /\ 0 + consumed <= 2
    | NameFuel => False
    end.
Proof. apply decode_dns_name_total; vm_compute; discriminate. Defined.
