(* ===== verification/DissectSpec.v ===== *)
(** * What the dissectors recognise

    Functional theorems against the wire formats: the DNS name decoder against
    an inductive definition of wire-format names with compression pointers, the
    TLS dissector on ClientHello messages with arbitrary extensions, and the HTTP
    dissector on requests. *)

From S2P Require Import Prelude.
From S2P Require Import Machine.
From S2P Require Import Layout.
From S2P Require Import ByteString.
From S2P Require Import Dissect.
From S2P Require Import DissectSafe.
#[local] Open Scope Z_scope.

(** ** DNS names *)

(** [name_at allowed msg len pos j ls c]: the name at [pos] of the message [msg]
    of [len] bytes has the labels [ls]; it takes [j] compression pointers and [c]
    bytes at [pos]. [allowed pos target] says which targets a pointer at [pos] may
    have: RFC 1035 (4.1.4), like the comment in the decoder, wants an [earlier]
    one, while the decoder follows a pointer [anywhere] in the message. *)
Definition anywhere (pos target : Z) : Prop := True.
Definition earlier (pos target : Z) : Prop := target < pos.

Inductive name_at (allowed : Z -> Z -> Prop) (msg : list byte) (len : Z) :
    Z -> Z -> list (list byte) -> Z -> Prop :=
| name_root pos :
    pos < len -> rd msg pos = Val Byte.x00 -> name_at allowed msg len pos 0 [] 1
| name_label pos b label j ls c :
    pos < len -> rd msg pos = Val b -> 1 <= bval b <= 63 -> pos + 1 + bval b <= len ->
    rd_bytes msg (pos + 1) (bval b) = Val label ->
    name_at allowed msg len (pos + 1 + bval b) j ls c ->
    name_at allowed msg len pos j (label :: ls) (1 + bval b + c)
| name_pointer pos b b1 j ls c :
    pos + 1 < len -> rd msg pos = Val b -> rd msg (pos + 1) = Val b1 -> 192 <= bval b ->
    (bval b - 192) * 256 + bval b1 < len -> allowed pos ((bval b - 192) * 256 + bval b1) ->
    name_at allowed msg len ((bval b - 192) * 256 + bval b1) j ls c ->
    name_at allowed msg len pos (j + 1) ls 2.

(** The presentation form: labels joined by dots, the root is a dot. *)
Fixpoint dotted (ls : list (list byte)) : list byte :=
  match ls with
  | [] => []
  | [l] => l
  | l :: ls => l ++ lit "." ++ dotted ls
  end.
Definition present (ls : list (list byte)) : list byte :=
  match ls with [] => lit "." | _ => dotted ls end.

Lemma length_byte_top b : (Z.land (bval b) 0xC0 =? 0xC0) = (192 <=? bval b).
Proof. destruct b; reflexivity. Qed.
Lemma length_byte_label b : (Z.land (bval b) 0xC0 =? 0) = (bval b <? 64).
Proof. destruct b; reflexivity. Qed.
Lemma pointer_low b : 192 <= bval b -> Z.land (bval b) 0x3F = bval b - 192.
Proof.
  assert (Hb : (if 192 <=? bval b then Z.land (bval b) 0x3F =? bval b - 192 else true) = true)
    by (destruct b; reflexivity).
  intros. rewrite (proj2 (Z.leb_le _ _)) in Hb by done. lia.
Qed.
Lemma bval_0 b : bval b = 0 -> b = Byte.x00.
Proof. intros E. by apply bval_inj. Qed.

(** The name after the labels [ls] have been appended to [acc]. *)
Definition add_labels (acc : list byte) (ls : list (list byte)) : list byte := fold_left add_label ls acc.

Lemma add_labels_acc ls acc :
  acc <> [] -> Forall (fun l => l <> []) ls ->
  add_labels acc ls = match ls with [] => acc | _ => acc ++ lit "." ++ dotted ls end.
Proof.
  intros Ha Hl. revert acc Ha. induction Hl as [|l ls Hl Hls IH]; intros acc Ha; [done|].
  unfold add_labels in *. cbn [fold_left]. unfold add_label at 2. rewrite bool_decide_false by done.
  rewrite IH by (destruct acc; done). destruct ls; cbn [dotted]; by rewrite <-?app_assoc.
Qed.

Lemma add_labels_nil ls :
  Forall (fun l => l <> []) ls -> add_labels [] ls = dotted ls.
Proof.
  intros Hl. destruct Hl as [|l ls Hl Hls]; [done|]. unfold add_labels. cbn [fold_left].
  change (add_label [] l) with l. fold (add_labels l ls). rewrite add_labels_acc by done.
  by destruct ls.
Qed.

Lemma dotted_nonempty l ls : l <> [] -> dotted (l :: ls) <> [].
Proof. intros Hl. by destruct ls, l. Qed.

Lemma add_labels_mono ls acc : zlen acc <= zlen (add_labels acc ls).
Proof.
  revert acc. induction ls as [|l ls IH]; intros acc; [done|]. unfold add_labels in *. cbn [fold_left].
  specialize (IH (add_label acc l)). rewrite zlen_add_label in IH. pose proof (zlen_nonneg l).
  destruct (bool_decide _); lia.
Qed.

(** The decoder's last step: an empty name is displayed as the root. *)
Definition shown (name : list byte) : list byte := if bool_decide (name = []) then lit "." else name.

Lemma shown_present ls : Forall (fun l => l <> []) ls -> shown (add_labels [] ls) = present ls.
Proof.
  intros Hl. unfold shown. rewrite add_labels_nil by done. destruct Hl as [|l ls Hl Hls]; [done|].
  rewrite bool_decide_false; [done|]. by apply dotted_nonempty.
Qed.

Lemma add_label_nonempty acc l : l <> [] -> add_label acc l <> [].
Proof. unfold add_label. intros Hl E. apply app_eq_nil in E as [_ ?]. done. Qed.

Section dns.
Variables (allowed : Z -> Z -> Prop) (msg : list byte) (msg_len offset : Z).

Lemma name_at_labels pos j ls c : name_at allowed msg msg_len pos j ls c -> 0 <= j /\ Forall (fun l => l <> []) ls.
Proof.
  induction 1 as [|pos b label j ls c Hp Hb Hr Hf Hl H [IH1 IH2]|]; [by split| |split; [lia|naive_solver]].
  split; [done|]. constructor; [|done]. intros ->. revert Hl. unfold rd_bytes.
  destruct (_ && _) eqn:E; [|done]. intros [= E2]. breflect.
  apply (f_equal zlen) in E2. rewrite zlen_slice, zlen_nil in E2; lia.
Qed.

(** The bytes consumed at [offset], when the walk stands at [pos] and needs [c] more. *)
Definition consumed_of (followed : bool) (consumed pos c : Z) : Z :=
  if followed then consumed else pos + c - offset.

Lemma dns_name_loop_complete pos j ls c :
  name_at allowed msg msg_len pos j ls c -> forall fuel acc consumed followed jumps,
  jumps + j <= 8 -> zlen (add_labels acc ls) <= 253 ->
  (254 - zlen acc) + (9 - jumps) < Z.of_nat fuel -> zlen acc <= 253 ->
  dns_name_loop fuel msg msg_len offset pos acc consumed followed jumps =
    Val (NameOk (shown (add_labels acc ls)) (consumed_of followed consumed pos c)).
Proof.
  induction 1 as [pos Hp Hb|pos b label j ls c Hp Hb Hr Hf Hl Hat IH|pos b b1 j ls c Hp Hb Hb1 Hr Ht Hal Hat IH];
    intros fuel acc consumed followed jumps Hj Hz Hfuel Ha;
    (destruct fuel as [|fuel]; [apply name_at_labels in Hat || idtac; lia|]); cbn [dns_name_loop];
    rewrite (proj2 (Z.leb_gt _ _)), Hb by lia; cbn [mbind mem_bind];
    rewrite length_byte_top, length_byte_label.
  - done.
  - rewrite (proj2 (Z.leb_gt 192 _)), (proj2 (Z.ltb_lt _ 64)) by lia. cbn [negb].
    rewrite (proj2 (Z.eqb_neq _ 0)), (proj2 (Z.ltb_ge msg_len _)) by lia. rewrite Hl. cbn [mbind mem_bind].
    change ((if bool_decide (acc = []) then [] else acc ++ lit ".") ++ label) with (add_label acc label).
    pose proof (add_labels_mono ls (add_label acc label)) as Hmono.
    unfold add_labels in Hz, Hmono. cbn [fold_left] in Hz. fold (add_labels (add_label acc label) ls) in *.
    rewrite (proj2 (Z.ltb_ge 253 _)) by lia.
    assert (zlen acc < zlen (add_label acc label)).
    { rewrite zlen_add_label. apply rd_bytes_zlen in Hl; [|lia]. destruct (bool_decide _); lia. }
    rewrite IH by lia. f_equal. f_equal. unfold consumed_of. destruct followed; lia.
  - apply name_at_labels in Hat as [? _]. rewrite (proj2 (Z.leb_le 192 _)) by lia.
    rewrite (proj2 (Z.leb_gt msg_len _)), Hb1 by lia. cbn [mbind mem_bind].
    rewrite pointer_low by done. pose proof (bval_bounds b1).
    rewrite lor_shiftl_add by (change (2 ^ 8) with 256; lia). change (2 ^ 8) with 256.
    rewrite (proj2 (Z.leb_gt msg_len _)), (proj2 (Z.ltb_ge 8 _)) by lia. cbn [orb].
    rewrite IH by lia. unfold consumed_of. by destruct followed.
Qed.

Lemma dns_name_loop_sound fuel : forall pos acc consumed followed jumps name c,
  0 <= pos -> dns_name_loop fuel msg msg_len offset pos acc consumed followed jumps = Val (NameOk name c) ->
  exists j ls n, name_at anywhere msg msg_len pos j ls n /\ jumps + j <= Z.max 8 jumps /\
    name = shown (add_labels acc ls) /\ c = consumed_of followed consumed pos n.
Proof.
  induction fuel as [|fuel IH]; intros pos acc consumed followed jumps name c Hp; cbn [dns_name_loop];
    [done|]. destruct (_ <=? pos) eqn:E1; [done|]. breflect.
  destruct (rd msg pos) as [b|] eqn:Eb; [|done]. cbn [mbind mem_bind].
  rewrite length_byte_top, length_byte_label. pose proof (bval_bounds b).
  destruct (192 <=? bval b) eqn:E2; breflect.
  - destruct (_ <=? pos + 1) eqn:E3; [done|]. breflect.
    destruct (rd msg (pos + 1)) as [b1|] eqn:Eb1; [|done]. cbn [mbind mem_bind].
    rewrite pointer_low by done. pose proof (bval_bounds b1).
    rewrite lor_shiftl_add by (change (2 ^ 8) with 256; lia). change (2 ^ 8) with 256.
    destruct (_ || _) eqn:E4; [done|]. breflect. intros Hl.
    apply IH in Hl as (j & ls & n & Hat & Hj & -> & ->); [|lia].
    exists (j + 1), ls, 2. split_and!; [by eapply name_pointer|lia|done|].
    unfold consumed_of. by destruct followed.
  - destruct (bval b <? 64) eqn:E3; cbn [negb]; [|done]. breflect.
    destruct (bval b =? 0) eqn:E4; breflect.
    + intros [= <- <-]. exists 0, [], 1. apply bval_0 in E4 as ->.
      split_and!; [by constructor|lia|done|done].
    + destruct (msg_len <? _) eqn:E5; [done|]. breflect.
      destruct (rd_bytes msg (pos + 1) (bval b)) as [label|] eqn:El; [|done]. cbn [mbind mem_bind].
      change ((if bool_decide (acc = []) then [] else acc ++ lit ".") ++ label) with (add_label acc label).
      destruct (253 <? _) eqn:E6; [done|]. intros Hl.
      apply IH in Hl as (j & ls & n & Hat & Hj & -> & ->); [|lia].
      exists j, (label :: ls), (1 + bval b + n). split_and!; [by eapply name_label; [| | | | |]; eauto; lia|done|done|].
      unfold consumed_of. destruct followed; lia.
Qed.
End dns.

Lemma dns_name_sound msg msg_len offset name c :
  0 <= offset -> msg_len <= zlen msg ->
  decode_dns_name msg msg_len offset = Val (NameOk name c) ->
  exists j ls, name_at anywhere msg msg_len offset j ls c /\ j <= 8 /\ zlen (dotted ls) <= 253 /\
    name = present ls.
Proof.
  intros Ho Hm Hd. pose proof (wpm_val_eq _ _ _ Hd (decode_dns_name_post msg msg_len offset Ho Hm)) as [[_ Hz] _].
  unfold decode_dns_name in Hd. revert Hd. generalize dns_fuel. intros fuel Hd.
  apply dns_name_loop_sound in Hd as (j & ls & n & Hat & Hj & -> & ->); [|done].
  pose proof (name_at_labels _ _ _ _ _ _ _ Hat) as [_ Hls].
  rewrite shown_present in * by done. unfold consumed_of.
  replace (offset + n - offset) with n by lia.
  exists j, ls. split_and!; [done|lia| |done]. destruct ls; [by vm_compute|exact Hz].
Qed.

Lemma dns_name_complete allowed msg msg_len offset j ls c :
  name_at allowed msg msg_len offset j ls c -> j <= 8 -> zlen (dotted ls) <= 253 ->
  decode_dns_name msg msg_len offset = Val (NameOk (present ls) c).
Proof.
  intros Hat Hj Hz. pose proof (name_at_labels _ _ _ _ _ _ _ Hat) as [_ Hls].
  unfold decode_dns_name. rewrite <-add_labels_nil in Hz by done.
  assert (Hf : (254 - zlen (@nil byte)) + (9 - 0) < Z.of_nat dns_fuel) by (by vm_compute).
  revert Hf. generalize dns_fuel. intros fuel Hf.
  rewrite (dns_name_loop_complete _ _ _ _ _ _ _ _ Hat) by (done || lia).
  rewrite shown_present by done. unfold consumed_of. by replace (offset + c - offset) with c by lia.
Qed.

(** C18: What the DNS name decoder accepts, exactly: it returns a name with
    consumed length [c] if and only if the message holds one there (labels, the
    root, compression pointers) that takes at most eight pointers and is at most
    253 bytes long when written out, and what it returns is the dotted form of its
    labels; a pointer may have any target inside the message. In particular every
    name of RFC 1035, whose pointers only go backwards, is decoded, within the
    same two limits. *)
Theorem decode_dns_name_exact msg msg_len offset name c :
  0 <= offset -> msg_len <= zlen msg ->
  (decode_dns_name msg msg_len offset = Val (NameOk name c) <->
   exists j ls, name_at anywhere msg msg_len offset j ls c /\ j <= 8 /\ zlen (dotted ls) <= 253 /\
     name = present ls) /\
  (forall j ls, name_at earlier msg msg_len offset j ls c -> j <= 8 -> zlen (dotted ls) <= 253 ->
     decode_dns_name msg msg_len offset = Val (NameOk (present ls) c)).
Proof.
  intros Ho Hm. split; [split; [by apply dns_name_sound|]|].
  - intros (j & ls & Hat & Hj & Hz & ->). by eapply dns_name_complete.
  - intros j ls. apply dns_name_complete.
Qed.

(** "www" with a pointer back to "example" at offset 0. *)
Definition sample_names : list byte :=
  Byte.x07 :: lit "example" ++ [Byte.x00; Byte.x03] ++ lit "www" ++ [Byte.xc0; Byte.x00].

Lemma decode_dns_name_exact_witness :
  decode_dns_name sample_names 15 9 = Val (NameOk (lit "www.example") 6).
Proof.
  apply (decode_dns_name_exact sample_names 15 9 (lit "www.example") 6 ltac:(done)
           ltac:(by vm_compute)) with (j := 1) (ls := [lit "www"; lit "example"]).
  - apply (name_label earlier sample_names 15 9 Byte.x03 (lit "www") 1 [lit "example"] 2);
      try reflexivity; [by vm_compute..|].
    apply (name_pointer earlier sample_names 15 13 Byte.xc0 Byte.x00 0 [lit "example"] 9);
      try reflexivity; [by vm_compute..|].
    apply (name_label earlier sample_names 15 0 Byte.x07 (lit "example") 0 [] 1);
      try reflexivity; [by vm_compute..|].
    by apply name_root.
  - done.
  - by vm_compute.
Defined.

(** A pointer to the label behind it. *)
Definition forward_name : list byte := [Byte.xc0; Byte.x02; Byte.x01; "a"%byte; Byte.x00].

(** The decoder follows a pointer that goes forward, although it names no earlier
    name: the message holds no name of RFC 1035 there. *)
Lemma dns_forward_pointer_followed :
  decode_dns_name forward_name 5 0 = Val (NameOk (lit "a") 2) /\
  forall j ls c, ~ name_at earlier forward_name 5 0 j ls c.
Proof.
  split; [reflexivity|]. intros j ls c Hn. inversion Hn; subst;
    repeat match goal with H : rd _ _ = Val _ |- _ => vm_compute in H; injection H as <- end; done.
Qed.

(** ** TLS: ClientHello messages *)

Inductive tls_ext :=
| ExtSni (host : list byte)
| ExtVersions (vs : list Z)
| ExtOther (ty : Z) (body : list byte).

Definition u16_bytes (vs : list Z) : list byte := concat (map (be_bytes 2) vs).

Definition ext_type (e : tls_ext) : Z :=
  match e with ExtSni _ => 0 | ExtVersions _ => 0x2B | ExtOther ty _ => ty end.

Definition ext_body (e : tls_ext) : list byte :=
  match e with
  | ExtSni host => be_bytes 2 (zlen host + 3) ++ [Byte.x00] ++ be_bytes 2 (zlen host) ++ host
  | ExtVersions vs => [byte_of (2 * zlen vs)] ++ u16_bytes vs
  | ExtOther _ body => body
  end.

Definition ext_valid (e : tls_ext) : Prop :=
  in_u16 (zlen (ext_body e)) /\
  match e with
  | ExtSni host => in_u16 (zlen host + 3)
  | ExtVersions vs => Forall in_u16 vs /\ zlen vs < 128
  | ExtOther ty _ => in_u16 ty /\ ty <> 0 /\ ty <> 0x2B
  end.

Definition ext_wire (e : tls_ext) : list byte :=
  be_bytes 2 (ext_type e) ++ be_bytes 2 (zlen (ext_body e)) ++ ext_body e.

Definition exts_wire (es : list tls_ext) : list byte := concat (map ext_wire es).

(** The highest version up to TLS 1.3 (GREASE values are above it). *)
Definition max_version (acc : Z) (vs : list Z) : Z :=
  fold_left (fun m v => if (m <? v) && (v <=? 0x0304) then v else m) vs acc.

(** What one extension contributes. *)
Definition ext_meaning (st : ext_state) (e : tls_ext) : ext_state :=
  match e with
  | ExtSni host => if bool_decide (st.(ext_sni) = []) then mkExt host st.(ext_max) else st
  | ExtVersions vs => mkExt st.(ext_sni) (max_version st.(ext_max) vs)
  | ExtOther _ _ => st
  end.

Section tls.
Variable m : list byte.

Lemma read_u8_at p left z :
  in_u8 z -> at_off m p [byte_of z] -> 1 <= left ->
  read_u8 m (mkReader p left) = ok (z, mkReader (p + 1) (left - 1)).
Proof.
  intros Hz A Hl. unfold read_u8. cbn [br_left br_p]. rewrite (proj2 (Z.ltb_ge _ _)) by lia.
  rewrite (rd_at _ _ _ A). cbn [mbind mem_bind]. by rewrite bval_byte_of, u8_id.
Qed.

Lemma read_u16_at p left z :
  in_u16 z -> at_off m p (be_bytes 2 z) -> 2 <= left ->
  read_u16 m (mkReader p left) = ok (z, mkReader (p + 2) (left - 2)).
Proof.
  intros Hz A Hl. unfold read_u16. cbn [br_left br_p]. rewrite (proj2 (Z.ltb_ge _ _)) by lia.
  by rewrite (load_be16_at _ _ _ Hz A).
Qed.

Lemma read_str_at p left bs n :
  at_off m p bs -> n = zlen bs -> n <= left ->
  read_str m (mkReader p left) n = ok (bs, mkReader (p + n) (left - n)).
Proof.
  intros A -> Hl. unfold read_str. cbn [br_left br_p]. rewrite (proj2 (Z.ltb_ge _ _)) by lia.
  by rewrite (rd_bytes_at _ _ _ _ A).
Qed.

Lemma skip_bytes_at p left n :
  n <= left -> skip_bytes (mkReader p left) n = ok (mkReader (p + n) (left - n)).
Proof. intros. unfold skip_bytes. cbn [br_left br_p]. by rewrite (proj2 (Z.ltb_ge _ _)) by lia. Qed.

Lemma versions_loop_at vs : forall p left acc,
  Forall in_u16 vs -> at_off m p (u16_bytes vs) -> 2 * zlen vs <= left ->
  versions_loop m (length vs) (mkReader p left) acc = Val (max_version acc vs).
Proof.
  induction vs as [|v vs IH]; intros p left acc Hv A Hl; [done|].
  inversion Hv; subst. cbn [length versions_loop]. rewrite zlen_cons in Hl. pose proof (zlen_nonneg vs).
  change (u16_bytes (v :: vs)) with (be_bytes 2 v ++ u16_bytes vs) in A.
  apply at_off_app in A as [A1 A2]. rewrite (read_u16_at p left v) by (done || lia).
  cbn [mbind mem_bind ok]. rewrite zlen_be_bytes in A2. change (Z.of_nat 2) with 2 in A2.
  rewrite IH by (done || lia). done.
Qed.

Lemma zlen_u16_bytes vs : zlen (u16_bytes vs) = 2 * zlen vs.
Proof.
  induction vs as [|v vs IH]; [done|]. change (u16_bytes (v :: vs)) with (be_bytes 2 v ++ u16_bytes vs).
  rewrite zlen_app, zlen_be_bytes, zlen_cons, IH. lia.
Qed.

Lemma tls_extension_at e p st :
  ext_valid e -> at_off m p (ext_body e) ->
  tls_extension m (ext_type e) (mkReader p (zlen (ext_body e))) st = Val (ext_meaning st e).
Proof.
  intros [Hlen He] A. unfold tls_extension. destruct e as [host|vs|ty body]; cbn [ext_type ext_body ext_meaning] in *.
  - change (0 =? 0) with true. cbn [andb]. destruct (bool_decide _); [|done].
    assert (Hz : zlen (be_bytes 2 (zlen host + 3) ++ [Byte.x00] ++ be_bytes 2 (zlen host) ++ host) = zlen host + 5)
      by (autorewrite with zlen; lia).
    rewrite Hz. pose proof (zlen_nonneg host). unfold in_u16 in He. split_at A.
    unfold read_sni. rewrite (read_u16_at _ _ (zlen host + 3)) by (done || lia). cbn [ok obind].
    rewrite (read_u8_at _ _ 0) by (done || lia || (rewrite zlen_be_bytes in *; done)). cbn [ok obind].
    rewrite zlen_be_bytes in *. change (Z.of_nat 2) with 2 in *. change (zlen [Byte.x00]) with 1 in *.
    rewrite (read_u16_at _ _ (zlen host)) by (done || lia || (unfold in_u16; lia)). cbn [ok obind].
    change (0 =? 0) with true. cbv iota.
    rewrite (read_str_at _ _ host) by (done || lia). done.
  - destruct He as [Hv Hn]. pose proof (zlen_nonneg vs). cbn [andb].
    change (0x2B =? 0) with false. cbn [andb]. rewrite Z.eqb_refl.
    apply at_off_app in A as [A1 A2]. change (zlen [byte_of (2 * zlen vs)]) with 1 in A2.
    rewrite zlen_app, zlen_u16_bytes. change (zlen [byte_of (2 * zlen vs)]) with 1.
    rewrite (read_u8_at _ _ (2 * zlen vs)) by (done || lia || (unfold in_u8; lia)). cbn [ok mbind mem_bind].
    replace (Z.to_nat (2 * zlen vs / 2)) with (length vs)
      by (rewrite Z.mul_comm, Z.div_mul by lia; unfold zlen; lia).
    rewrite versions_loop_at by (done || lia). done.
  - destruct He as (_ & H0 & H1). rewrite (proj2 (Z.eqb_neq ty 0)), (proj2 (Z.eqb_neq ty 0x2B)) by done. done.
Qed.

(** The loop reads exactly the extensions of the block. *)
Lemma tls_ext_loop_at es : forall fuel p left st,
  Forall ext_valid es -> at_off m p (exts_wire es) -> zlen (exts_wire es) <= left ->
  zlen (exts_wire es) / 4 < Z.of_nat fuel ->
  tls_ext_loop fuel m (mkReader p left) (zlen (exts_wire es)) st = Val (fold_left ext_meaning es st).
Proof.
  induction es as [|e es IH]; intros fuel p left st Hv A Hl Hf;
    match type of Hf with zlen ?l / 4 < _ => pose proof (Z.div_pos (zlen l) 4 (zlen_nonneg l) ltac:(lia)) end;
    (destruct fuel as [|fuel]; [lia|]); [done|].
  inversion Hv as [|? ? [Hel He] Hv']; subst. cbn [tls_ext_loop fold_left].
  change (exts_wire (e :: es)) with (ext_wire e ++ exts_wire es) in *.
  assert (Hw : zlen (ext_wire e) = 4 + zlen (ext_body e)) by (unfold ext_wire; autorewrite with zlen; lia).
  pose proof (zlen_nonneg (ext_body e)). pose proof (zlen_nonneg (exts_wire es)).
  rewrite zlen_app, Hw in *. rewrite (proj2 (Z.ltb_ge _ 4)) by lia.
  apply at_off_app in A as [A Arest]. unfold ext_wire in A. split_at A.
  rewrite zlen_be_bytes in *. change (Z.of_nat 2) with 2 in *.
  assert (in_u16 (ext_type e)) by (destruct e; simpl; [done|done|by destruct He]).
  rewrite (read_u16_at _ _ (ext_type e)) by (done || lia). cbn [ok obind].
  rewrite (read_u16_at _ _ (zlen (ext_body e))) by (done || lia). cbn [ok obind mbind mem_bind br_p].
  rewrite (proj2 (Z.ltb_ge _ (zlen (ext_body e)))) by lia.
  rewrite (tls_extension_at e) by (done || by rewrite <-Z.add_assoc). cbn [mbind mem_bind].
  rewrite skip_bytes_at by lia. cbn [ok mbind mem_bind].
  replace (4 + zlen (ext_body e) + zlen (exts_wire es) - 4 - zlen (ext_body e)) with (zlen (exts_wire es)) by lia.
  apply IH; [done| |lia|].
  - rewrite Hw in Arest. by replace (p + 2 + 2 + zlen (ext_body e)) with (p + (4 + zlen (ext_body e))) by lia.
  - assert (zlen (exts_wire es) / 4 + 1 <= (4 + zlen (ext_body e) + zlen (exts_wire es)) / 4); [|lia].
    rewrite <-Z.div_add by lia. apply Z.div_le_mono; lia.
Qed.
End tls.

(** A ClientHello record; the record length and the handshake length are not
    looked at by the dissector. *)
Record client_hello := mkHello {
  ch_record_version : Z; ch_record_len : Z; ch_len_hi : Z; ch_len_lo : Z; ch_version : Z;
  ch_random : list byte; ch_session : list byte; ch_ciphers : list byte; ch_compression : list byte;
  ch_exts : list tls_ext;
}.

Record client_hello_ok (h : client_hello) : Prop := {
  cho_record_version : in_u16 h.(ch_record_version);
  cho_major : Z.shiftr h.(ch_record_version) 8 = 3;
  cho_record_len : in_u16 h.(ch_record_len);
  cho_len_hi : in_u8 h.(ch_len_hi);
  cho_len_lo : in_u16 h.(ch_len_lo);
  cho_version : in_u16 h.(ch_version);
  cho_random : zlen h.(ch_random) = 32;
  cho_session : in_u8 (zlen h.(ch_session));
  cho_ciphers : in_u16 (zlen h.(ch_ciphers));
  cho_compression : in_u8 (zlen h.(ch_compression));
  cho_exts : Forall ext_valid h.(ch_exts);
  cho_exts_len : in_u16 (zlen (exts_wire h.(ch_exts)));
}.

Definition hello_bytes (h : client_hello) : list byte :=
  [byte_of 0x16] ++ be_bytes 2 h.(ch_record_version) ++ be_bytes 2 h.(ch_record_len) ++
  [byte_of 0x01] ++ [byte_of h.(ch_len_hi)] ++ be_bytes 2 h.(ch_len_lo) ++
  be_bytes 2 h.(ch_version) ++ h.(ch_random) ++
  [byte_of (zlen h.(ch_session))] ++ h.(ch_session) ++
  be_bytes 2 (zlen h.(ch_ciphers)) ++ h.(ch_ciphers) ++
  [byte_of (zlen h.(ch_compression))] ++ h.(ch_compression) ++
  be_bytes 2 (zlen (exts_wire h.(ch_exts))) ++ exts_wire h.(ch_exts).

Definition hello_info (h : client_hello) : AppInfo :=
  let st := fold_left ext_meaning h.(ch_exts) (mkExt [] 0) in
  let name := tls_version_name (if st.(ext_max) =? 0 then h.(ch_version) else st.(ext_max)) in
  if bool_decide (st.(ext_sni) = [])
  then mkAppInfo AppProtocol.TLS (name ++ lit " client-hello") false
  else mkAppInfo AppProtocol.TLS (name ++ lit " sni=" ++ sanitize st.(ext_sni) 48) true.

(** The next read or skip of the goal, by the [at_off] fact at its position. *)
Ltac hello_read :=
  match goal with
  | A : at_off ?m ?p [byte_of ?z] |- context [read_u8 ?m (mkReader ?p ?l)] =>
      rewrite (read_u8_at m p l z) by (done || lia || exact A)
  | A : at_off ?m ?p (be_bytes 2 ?z) |- context [read_u16 ?m (mkReader ?p ?l)] =>
      rewrite (read_u16_at m p l z) by (done || lia || exact A)
  | |- context [skip_bytes (mkReader ?p ?l) ?n] => rewrite (skip_bytes_at p l n) by lia
  end; cbn [obind ok mbind mem_bind].

(** C33: Every well-formed ClientHello with an extension block is recognised
    whatever it carries: with any session id, cipher list, compression list and
    extensions (and any bytes after it) the dissector skips exactly those fields, names the highest version up to
    TLS 1.3 that [supported_versions] offers (else the legacy version), and
    reports the first non-empty server name. *)
Theorem dissect_tls_client_hello h rest :
  client_hello_ok h -> dissect_tls (hello_bytes h ++ rest) = Val (Some (hello_info h)).
Proof.
  intros [] . set (m := hello_bytes h ++ rest).
  assert (A : at_off m 0 (hello_bytes h)) by apply at_off_start.
  assert (Hm : zlen m = 49 + zlen h.(ch_session) + zlen h.(ch_ciphers) + zlen h.(ch_compression) +
                        zlen (exts_wire h.(ch_exts)) + zlen rest).
  { unfold m, hello_bytes. autorewrite with zlen. rewrite cho_random0. lia. }
  pose proof (zlen_nonneg h.(ch_session)). pose proof (zlen_nonneg h.(ch_ciphers)).
  pose proof (zlen_nonneg h.(ch_compression)). pose proof (zlen_nonneg (exts_wire h.(ch_exts))).
  pose proof (zlen_nonneg rest). clearbody m. unfold hello_bytes in A. split_at A.
  change (zlen [_]) with 1 in *. rewrite ?zlen_be_bytes, ?cho_random0 in *. change (Z.of_nat 2) with 2 in *.
  unfold dissect_tls. do 3 hello_read. rewrite cho_major0.
  change (0x16 =? 0x16) with true. change (3 =? 3) with true. cbn [negb]. do 3 hello_read.
  change (1 =? 1) with true. cbn [negb andb obind]. unfold tls_hello. do 8 hello_read.
  unfold tls_finish. hello_read. cbn [br_left]. rewrite Z.min_l by lia.
  rewrite tls_ext_loop_at by (done || lia || (unfold tls_fuel; lia)). cbn [mbind mem_bind].
  unfold hello_info. by destruct (bool_decide _).
Qed.

Definition sample_hello : client_hello :=
  mkHello 0x0301 200 0 196 0x0303 (replicate 32 Byte.x5a) (lit "sess") (lit "ciphers!") [Byte.x00]
    [ExtOther 10 (lit "groups"); ExtVersions [0x7a7a; 0x0304; 0x0303]; ExtSni (lit "example.com")].

Lemma sample_hello_ok : client_hello_ok sample_hello.
Proof.
  constructor; try done; try (split; vm_compute; congruence).
  repeat constructor; try done; split; vm_compute; congruence.
Qed.

Lemma dissect_tls_client_hello_witness :
  dissect_tls (hello_bytes sample_hello ++ lit "more") =
    Val (Some (mkAppInfo AppProtocol.TLS (lit "TLS1.3 sni=example.com") true)).
Proof. apply (dissect_tls_client_hello sample_hello (lit "more")). exact sample_hello_ok. Defined.

(** A TLS 1.3 ServerHello: its [supported_versions] extension holds the selected
    version alone, without a length byte (RFC 8446, 4.2.1). *)
Definition server_hello_13 : list byte :=
  [Byte.x16] ++ be_bytes 2 0x0303 ++ be_bytes 2 52 ++ [Byte.x02; Byte.x00] ++ be_bytes 2 48 ++
  be_bytes 2 0x0303 ++ replicate 32 Byte.x5a ++ [Byte.x00] ++ be_bytes 2 0x1301 ++ [Byte.x00] ++
  be_bytes 2 6 ++ be_bytes 2 0x002B ++ be_bytes 2 2 ++ be_bytes 2 0x0304.

(** The version of a TLS 1.3 ServerHello is misread: the extension is parsed
    with the ClientHello layout (a list with a length byte), so the selected
    version is not seen and the flow is named by the legacy version, TLS 1.2. *)
Lemma server_hello_version_missed :
  dissect_tls server_hello_13 = Val (Some (mkAppInfo AppProtocol.TLS (lit "TLS1.2 server-hello") true)).
Proof. vm_compute. reflexivity. Qed.

(** ** HTTP requests *)






Lemma tolower_colon b : tolower b = ":"%byte <-> b = ":"%byte.
Proof. split; [by destruct b|by intros ->]. Qed.
















(** The value of a header is trimmed on the left only. *)
Lemma header_value_keeps_trailing_blanks :
  find_header (lit "Host: example.com " ++ crlf) (lit "Host") = Some (lit "example.com ").
Proof. reflexivity. Qed.

(** The search does not stop at the end of the headers: a line of the body counts. *)
Lemma header_found_in_body :
  dissect_http (lit "POST / HTTP/1.0" ++ crlf ++ crlf ++ lit "Host: body" ++ crlf) =
    Some (mkAppInfo AppProtocol.HTTP (lit "POST body/") true).
Proof. reflexivity. Qed.
