(* ===== verification/Float.v ===== *)
(** * IEEE 754 double precision

    [double] as the standard library's executable specification of binary64
    ([SpecFloat] with 53 bits of precision and maximal exponent 1024, rounding to
    nearest even), and the order facts the statistics need: [<] and [<=] are the
    lexicographic order of a key, so they are transitive and total on numbers. *)

From S2P Require Import Prelude.
From Stdlib Require Import SpecFloat.
#[local] Open Scope Z_scope.

Definition f64 : Type := spec_float.
#[export] Instance f64_eq_dec : EqDecision f64.
Proof. solve_decision. Defined.

Definition fadd : f64 -> f64 -> f64 := SFadd 53 1024.
Definition fmul : f64 -> f64 -> f64 := SFmul 53 1024.
Definition fdiv : f64 -> f64 -> f64 := SFdiv 53 1024.
(** The C++ [a < b]; false when an operand is not a number. *)
Definition flt : f64 -> f64 -> bool := SFltb.
Definition fle : f64 -> f64 -> bool := SFleb.
(** [static_cast<double>] of an integer, and the dyadic constant [m * 2^e]. *)
Definition f64_of (z : Z) : f64 := binary_normalize 53 1024 z 0 false.
Definition f64_dyadic (m e : Z) : f64 := binary_normalize 53 1024 m e false.
Definition f0 : f64 := S754_zero false.

(** [std::min(a, b)] and [std::max(a, b)]. *)
Definition fmin (a b : f64) : f64 := if flt b a then b else a.
Definition fmax (a b : f64) : f64 := if flt a b then b else a.

Definition is_num (x : f64) : Prop := x <> S754_nan.

(** ** The order *)

(** Class (minus infinity to plus infinity), signed exponent, signed mantissa. *)
Definition key (x : f64) : Z * Z * Z :=
  match x with
  | S754_infinity true => (-2, 0, 0)
  | S754_finite true m e => (-1, - e, - Zpos m)
  | S754_zero _ => (0, 0, 0)
  | S754_finite false m e => (1, e, Zpos m)
  | S754_infinity false => (2, 0, 0)
  | S754_nan => (3, 0, 0)
  end.

Definition key_lt (x y : Z * Z * Z) : Prop :=
  x.1.1 < y.1.1 \/ (x.1.1 = y.1.1 /\ (x.1.2 < y.1.2 \/ (x.1.2 = y.1.2 /\ x.2 < y.2))).

Lemma compare_cont_Eq m n : PosDef.Pos.compare_cont Eq m n = Pos.compare m n.
Proof. done. Qed.

Lemma SFcompare_key x y :
  is_num x -> is_num y ->
  match SFcompare x y with
  | Some Lt => key_lt (key x) (key y)
  | Some Gt => key_lt (key y) (key x)
  | Some Eq => key x = key y
  | None => False
  end.
Proof.
  unfold key_lt.
  destruct x as [sx|sx| |sx mx ex], y as [sy|sy| |sy my ey]; intros Hx Hy; try done;
    try destruct sx; try destruct sy; cbn [SFcompare key fst snd]; rewrite ?compare_cont_Eq; try lia; try done.
  - destruct (Z.compare_spec ex ey) as [->|?|?]; simpl; [|lia..].
    destruct (Pos.compare_spec mx my) as [->|?|?]; simpl; [done|lia|lia].
  - destruct (Z.compare_spec ex ey) as [->|?|?]; simpl; [|lia..].
    destruct (Pos.compare_spec mx my) as [->|?|?]; simpl; [done|lia|lia].
Qed.

Lemma flt_key x y : is_num x -> is_num y -> flt x y = true <-> key_lt (key x) (key y).
Proof.
  intros Hx Hy. pose proof (SFcompare_key x y Hx Hy) as Hk. unfold flt, SFltb, key_lt in *.
  destruct (SFcompare x y) as [[]|]; [rewrite Hk| | |done]; split; intros; try done; lia.
Qed.

Lemma fle_key x y : is_num x -> is_num y -> fle x y = true <-> ~ key_lt (key y) (key x).
Proof.
  intros Hx Hy. pose proof (SFcompare_key x y Hx Hy) as Hk. unfold fle, SFleb, key_lt in *.
  destruct (SFcompare x y) as [[]|]; [rewrite Hk| | |done]; split; intros; try done; try lia.
Qed.

Lemma flt_num x y : flt x y = true -> is_num x /\ is_num y.
Proof. destruct x, y; done. Qed.
Lemma fle_num x y : fle x y = true -> is_num x /\ is_num y.
Proof. destruct x, y; done. Qed.

Lemma fle_refl x : is_num x -> fle x x = true.
Proof. intros. apply fle_key; [done..|]. unfold key_lt. lia. Qed.

Lemma fle_trans x y z : fle x y = true -> fle y z = true -> fle x z = true.
Proof.
  intros Hxy Hyz. destruct (fle_num _ _ Hxy), (fle_num _ _ Hyz).
  apply fle_key in Hxy, Hyz; try done. apply fle_key; [done..|]. unfold key_lt in *. lia.
Qed.

Lemma flt_trans x y z : flt x y = true -> flt y z = true -> flt x z = true.
Proof.
  intros Hxy Hyz. destruct (flt_num _ _ Hxy), (flt_num _ _ Hyz).
  apply flt_key in Hxy, Hyz; try done. apply flt_key; [done..|]. unfold key_lt in *. lia.
Qed.

Lemma flt_irrefl x : flt x x = false.
Proof.
  destruct (flt x x) eqn:E; [|done]. destruct (flt_num _ _ E). apply flt_key in E; [|done..].
  unfold key_lt in E. lia.
Qed.

(** On numbers, not [<] is [>=]. *)
Lemma flt_false x y : is_num x -> is_num y -> flt x y = false -> fle y x = true.
Proof.
  intros Hx Hy E. apply fle_key; [done..|]. intros Hk.
  apply (flt_key x y) in Hk; [|done..]. congruence.
Qed.

Lemma flt_fle x y : flt x y = true -> fle x y = true.
Proof.
  intros E. destruct (flt_num _ _ E). apply flt_key in E; [|done..]. apply fle_key; [done..|].
  unfold key_lt in *. lia.
Qed.

Lemma fmin_spec a b : is_num a -> is_num b -> 
  fle (fmin a b) a = true /\ fle (fmin a b) b = true /\ (fmin a b = a \/ fmin a b = b).
Proof.
  intros. unfold fmin. destruct (flt b a) eqn:E; split_and!; auto using fle_refl, flt_fle, flt_false.
Qed.

Lemma fmax_spec a b : is_num a -> is_num b -> 
  fle a (fmax a b) = true /\ fle b (fmax a b) = true /\ (fmax a b = a \/ fmax a b = b).
Proof.
  intros. unfold fmax. destruct (flt a b) eqn:E; split_and!; auto using fle_refl, flt_fle, flt_false.
Qed.
