(* ===== verification/FloatRound.v ===== *)
(** * Rounding to nearest is monotone

    The value of a finite double as an integer (scaled by [2^1100]), and the one
    fact the specifications need about [+], [/] and the conversion of integers:
    the result is the rounding of the exact one, and rounding never crosses a
    double ([rounds]).  [<] on doubles is then the order of the values. *)

From S2P Require Import Prelude.
From S2P Require Import Float.
From Stdlib Require Import SpecFloat.
#[local] Open Scope Z_scope.

(** ** Digits *)

Lemma digits2_bounds p : 2 ^ (Zpos (digits2_pos p) - 1) <= Zpos p < 2 ^ Zpos (digits2_pos p).
Proof.
  induction p as [p IH|p IH|]; cbn [digits2_pos]; [..|done].
  all: rewrite Pos2Z.inj_succ; replace (Z.succ (Zpos (digits2_pos p)) - 1) with
    (Z.succ (Zpos (digits2_pos p) - 1)) by lia; rewrite !Z.pow_succ_r by lia; lia.
Qed.

(** A positive double with a full mantissa. *)
Definition normal (m : positive) : Prop := Zpos (digits2_pos m) = 53.

Lemma normal_bounds m : normal m -> 2 ^ 52 <= Zpos m < 2 ^ 53.
Proof. intros Hm. pose proof (digits2_bounds m) as Hb. by rewrite Hm in Hb. Qed.

Lemma fexp_normal e : -1074 <= e -> fexp 53 1024 (53 + e) = e.
Proof. unfold fexp, emin. lia. Qed.

Lemma iter_xO m k : Zpos (Pos.iter xO m k) = Zpos m * 2 ^ Zpos k.
Proof.
  revert m. induction k as [|k IH] using Pos.peano_ind; intros m; [simpl; lia|].
  rewrite Pos.iter_succ, Pos2Z.inj_succ, Z.pow_succ_r by lia.
  change (Zpos (Pos.iter xO m k)~0) with (2 * Zpos (Pos.iter xO m k)). rewrite IH. lia.
Qed.

Lemma digits2_iter_xO m k : digits2_pos (Pos.iter xO m k) = (digits2_pos m + k)%positive.
Proof.
  induction k as [|k IH] using Pos.peano_ind; [simpl; lia|].
  rewrite Pos.iter_succ. cbn [digits2_pos]. rewrite IH. lia.
Qed.

Lemma shl_align_fst m e ez : ez <= e -> Zpos (shl_align m e ez).1 = Zpos m * 2 ^ (e - ez).
Proof.
  intros He. unfold shl_align. destruct (ez - e) as [|d|d] eqn:Ed; [|lia|].
  - replace (e - ez) with 0 by lia. simpl. lia.
  - cbn [fst]. rewrite iter_xO. f_equal. f_equal. lia.
Qed.

(** ** Shifting with sticky bits *)

(** The mantissa, plus one when digits were dropped. *)
Definition up (r : shr_record) : Z := shr_m r + (if shr_r r || shr_s r then 1 else 0).

Lemma pow_double j : 0 <= j -> 2 ^ (j + 1) = 2 * 2 ^ j.
Proof. intros. rewrite Z.pow_add_r by lia. lia. Qed.

Lemma shr_1_spec r :
  0 <= shr_m r -> shr_m (shr_1 r) = shr_m r / 2 /\ 2 * shr_m (shr_1 r) <= shr_m r /\ 2 * up (shr_1 r) <= up r + 1.
Proof.
  intros Hm. rewrite <-Z.div2_div. unfold up. destruct r as [[|[p|p|]|p] [] []]; cbn in *; lia.
Qed.

Lemma iter_shr_1 p : forall r,
  0 <= shr_m r ->
  shr_m (iter_pos shr_1 p r) = shr_m r / 2 ^ Zpos p /\
  (forall k, up r <= k * 2 ^ Zpos p -> up (iter_pos shr_1 p r) <= k).
Proof.
  assert (Hdiv : forall a b c, 0 <= b -> 0 <= c -> a / 2 ^ b / 2 ^ c = a / 2 ^ (b + c)).
  { intros a b c Hb Hc. rewrite Zdiv_Zdiv, Z.pow_add_r by lia. done. }
  induction p as [p IH|p IH|]; intros r Hm; cbn [iter_pos].
  - destruct (shr_1_spec r Hm) as (E1 & _ & Hu).
    destruct (IH (shr_1 r)) as [E2 H2]; [rewrite E1; apply Z.div_pos; lia|].
    destruct (IH (iter_pos shr_1 p (shr_1 r))) as [E3 H3].
    { rewrite E2, E1. apply Z.div_pos; [apply Z.div_pos; lia|lia]. }
    split.
    + rewrite E3, E2, E1. change 2 with (2 ^ 1) at 1. rewrite !Hdiv by lia. f_equal. f_equal. lia.
    + intros k Hup. apply H3, H2.
      assert (Ep : 2 ^ Zpos p~1 = 2 * (2 ^ Zpos p * 2 ^ Zpos p)).
      { rewrite <-Z.pow_add_r, <-pow_double by lia. f_equal. lia. }
      lia.
  - destruct (IH r Hm) as [E2 H2].
    destruct (IH (iter_pos shr_1 p r)) as [E3 H3]; [rewrite E2; apply Z.div_pos; lia|].
    split.
    + rewrite E3, E2, Hdiv by lia. f_equal. f_equal. lia.
    + intros k Hup. apply H3, H2. rewrite <-Z.mul_assoc, <-Z.pow_add_r by lia.
      by replace (Zpos p + Zpos p) with (Zpos p~0) by lia.
  - destruct (shr_1_spec r Hm) as (E1 & _ & Hu). split; [done|].
    intros k Hup. change (2 ^ 1) with 2 in Hup. lia.
Qed.

Lemma up_record m l : up (shr_record_of_loc m l) = m + match l with loc_Exact => 0 | _ => 1 end.
Proof. unfold up. by destruct l as [|[]]. Qed.

Lemma shr_m_record m l : shr_m (shr_record_of_loc m l) = m.
Proof. by destruct l as [|[]]. Qed.

Lemma round_le_up m r : m = shr_m r -> 0 <= m -> m <= round_nearest_even m (loc_of_shr_record r) <= up r.
Proof.
  intros -> Hm. unfold up. destruct r as [m [] []]; cbn in *; try lia. case_match; lia.
Qed.

Lemma digits_le m j : 0 < m -> m <= 2 ^ j -> 0 <= j -> Zdigits2 m <= j + 1.
Proof.
  intros Hm Hle Hj. destruct m as [|p|p]; [lia| |lia]. cbn [Zdigits2]. pose proof (digits2_bounds p) as [Hlo _].
  destruct (Z.le_gt_cases (Zpos (digits2_pos p)) (j + 1)) as [|Hgt]; [done|exfalso].
  assert (2 ^ (j + 1) <= 2 ^ (Zpos (digits2_pos p) - 1)) by (apply Z.pow_le_mono_r; lia).
  rewrite pow_double in * by lia. lia.
Qed.

Lemma digits_ge m j : 2 ^ j <= m -> 0 <= j -> j + 1 <= Zdigits2 m.
Proof.
  intros Hle Hj. assert (0 < 2 ^ j) by (apply Z.pow_pos_nonneg; lia).
  destruct m as [|p|p]; [lia| |lia]. cbn [Zdigits2]. pose proof (digits2_bounds p) as [_ Hhi].
  destruct (Z.le_gt_cases (j + 1) (Zpos (digits2_pos p))) as [|Hgt]; [done|exfalso].
  assert (2 ^ Zpos (digits2_pos p) <= 2 ^ j) by (apply Z.pow_le_mono_r; lia). lia.
Qed.

(** ** Values *)

(** Mantissa and exponent of a normal double. *)
Definition canon (m e : Z) : Prop := 2 ^ 52 <= m < 2 ^ 53 /\ -1074 <= e <= 971.

(** [m * 2^e], scaled. *)
Definition mag (m e : Z) : Z := m * 2 ^ (e + 1100).

Lemma mag_shift m e d : 0 <= d -> 0 <= e + 1100 -> mag m (e + d) = mag (m * 2 ^ d) e.
Proof.
  intros Hd He. unfold mag. replace (e + d + 1100) with (d + (e + 1100)) by lia.
  rewrite Z.pow_add_r by lia. lia.
Qed.

Lemma mag_mono m m' e : 0 <= e + 1100 -> mag m e <= mag m' e <-> m <= m'.
Proof.
  intros He. unfold mag. assert (0 < 2 ^ (e + 1100)) by (apply Z.pow_pos_nonneg; lia). split; nia.
Qed.

(** A larger exponent outweighs every normal mantissa. *)
Lemma mag_exponent m e m' e' : -1074 <= e < e' -> m < 2 ^ 53 -> 2 ^ 52 <= m' -> mag m e < mag m' e'.
Proof.
  intros He Hm Hm'. replace e' with (e + (e' - e)) by lia. rewrite mag_shift by lia.
  assert (Hp : 2 <= 2 ^ (e' - e)) by (change 2 with (2 ^ 1) at 1; apply Z.pow_le_mono_r; lia).
  assert (m < m' * 2 ^ (e' - e)) by nia. unfold mag.
  assert (0 < 2 ^ (e + 1100)) by (apply Z.pow_pos_nonneg; lia). nia.
Qed.

Definition inexact (l : location) : Z := match l with loc_Exact => 0 | _ => 1 end.

(** Aligning a mantissa of at least 53 digits to the format: 53 digits are left,
    and no multiple of the new unit is crossed. *)
Lemma align_spec m e l :
  0 < m -> 53 <= Zdigits2 m -> -1074 <= e ->
  exists r e', shr_fexp 53 1024 m e l = (r, e') /\ e' = Zdigits2 m + e - 53 /\
    2 ^ 52 <= shr_m r < 2 ^ 53 /\ up r <= shr_m r + 1 /\
    (forall k, m + inexact l <= k * 2 ^ (e' - e) -> up r <= k) /\
    (forall k, k * 2 ^ (e' - e) <= m -> k <= shr_m r) /\
    shr_m r * 2 ^ (e' - e) <= m.
Proof.
  intros Hm Hd He. unfold shr_fexp. replace (fexp 53 1024 (Zdigits2 m + e) - e) with (Zdigits2 m - 53)
    by (unfold fexp, emin; lia).
  assert (Hup : up (shr_record_of_loc m l) = m + inexact l) by apply up_record.
  assert (Hr0 : shr_m (shr_record_of_loc m l) = m) by apply shr_m_record.
  assert (Hb : 2 ^ (Zdigits2 m - 1) <= m < 2 ^ Zdigits2 m) by (destruct m; [lia|apply digits2_bounds|lia]).
  set (r0 := shr_record_of_loc m l) in *. clearbody r0.
  assert (Hu1 : forall r, up r <= shr_m r + 1) by (intros r; unfold up; destruct (_ || _); lia).
  destruct (Zdigits2 m - 53) as [|p|p] eqn:Ep; [| |lia]; cbn [shr].
  - replace (Zdigits2 m) with 53 in * by lia. exists r0, e. rewrite Hr0. replace (e - e) with 0 by lia.
    change (2 ^ 0) with 1. specialize (Hu1 r0). split_and!; try done; lia.
  - destruct (iter_shr_1 p r0) as [E1 H1]; [lia|]. rewrite Hr0 in E1.
    replace (Zdigits2 m) with (53 + Zpos p) in * by lia.
    exists (iter_pos shr_1 p r0), (e + Zpos p). replace (e + Zpos p - e) with (Zpos p) by lia.
    assert (0 < 2 ^ Zpos p) by (apply Z.pow_pos_nonneg; lia).
    replace (53 + Zpos p - 1) with (52 + Zpos p) in Hb by lia. rewrite !Z.pow_add_r in Hb by lia.
    rewrite E1. split_and!; [done|lia|apply Z.div_le_lower_bound; lia|apply Z.div_lt_upper_bound; lia| | | |].
    + rewrite <-E1. apply Hu1.
    + intros k Hk. apply H1. lia.
    + intros k Hk. apply Z.div_le_lower_bound; lia.
    + rewrite Z.mul_comm. by apply Z.mul_div_le.
Qed.

(** Rounding a positive value yields a normal double and crosses none. *)
Lemma round_aux_mag s m e l :
  0 < m -> 53 <= Zdigits2 m -> -1074 <= e -> Zdigits2 m + e <= 1000 ->
  exists mr er, binary_round_aux 53 1024 s m e l = S754_finite s mr er /\ canon (Zpos mr) er /\
    (forall my ey, canon my ey -> mag (m + inexact l) e <= mag my ey -> mag (Zpos mr) er <= mag my ey) /\
    (forall my ey, canon my ey -> mag my ey <= mag m e -> mag my ey <= mag (Zpos mr) er).
Proof.
  intros Hm Hd He Hmax. unfold binary_round_aux.
  destruct (align_spec m e l Hm Hd He) as (r & e' & -> & He' & Hr & Hup1 & Hup & Hlow & Hval).
  set (n := round_nearest_even (shr_m r) (loc_of_shr_record r)).
  assert (Hn : shr_m r <= n <= up r) by (apply (round_le_up (shr_m r) r eq_refl); lia). clearbody n.
  assert (Hfin : exists mr er, (let '(mrs'', e'') := shr_fexp 53 1024 n e' loc_Exact in
      match shr_m mrs'' with
      | Z0 => S754_zero s
      | Zpos m => if e'' <=? 1024 - 53 then S754_finite s m e'' else S754_infinity s
      | _ => S754_nan
      end) = S754_finite s mr er /\ canon (Zpos mr) er /\ mag (Zpos mr) er = mag n e').
  { assert (Hdn : Zdigits2 n = if n =? 2 ^ 53 then 54 else 53).
    { destruct (Z.eqb_spec n (2 ^ 53)) as [->|Hne]; [done|]. destruct n as [|p|p]; [lia| |lia]. cbn [Zdigits2].
      pose proof (digits2_bounds p) as [Hlo Hhi].
      destruct (Z.lt_trichotomy (Zpos (digits2_pos p)) 53) as [Hlt|[?|Hgt]]; [exfalso|done|exfalso].
      - assert (2 ^ Zpos (digits2_pos p) <= 2 ^ 52) by (apply Z.pow_le_mono_r; lia). lia.
      - assert (2 ^ 53 <= 2 ^ (Zpos (digits2_pos p) - 1)) by (apply Z.pow_le_mono_r; lia). lia. }
    destruct (align_spec n e' loc_Exact) as (r2 & e2 & -> & He2 & Hr2 & _ & _ & Hlow2 & Hval2);
      [lia|rewrite Hdn; by case_match|lia|].
    assert (Hexact : shr_m r2 * 2 ^ (e2 - e') = n).
    { rewrite Hdn in He2. destruct (Z.eqb_spec n (2 ^ 53)) as [->|Hne].
      - specialize (Hlow2 (2 ^ 52)). replace (e2 - e') with 1 in * by lia. change (2 ^ 1) with 2 in *. lia.
      - specialize (Hlow2 n). replace (e2 - e') with 0 in * by lia. change (2 ^ 0) with 1 in *. lia. }
    assert (Hee : e' <= e2) by (rewrite Hdn in He2; case_match; lia).
    destruct (shr_m r2) as [|mr|mr] eqn:Emr; [lia| |lia]. exists mr, e2.
    assert (e2 <= 971) by (rewrite Hdn in He2; case_match; lia).
    rewrite (proj2 (Z.leb_le _ _)) by lia. split_and!; [done|unfold canon; lia|].
    replace e2 with (e' + (e2 - e')) by lia. rewrite mag_shift by lia. by rewrite Hexact. }
  destruct Hfin as (mr & er & -> & Hc & Hv). exists mr, er. rewrite Hv. split_and!; [done|done|..].
  - intros my ey [Hy1 Hy2] Hle. destruct (Z.le_gt_cases e' ey) as [Hge|Hgt].
    + replace ey with (e' + (ey - e')) by lia. rewrite mag_shift, mag_mono by lia. etrans; [apply Hn|].
      apply Hup. revert Hle. replace ey with (e + ((ey - e') + (e' - e))) by lia.
      rewrite mag_shift, mag_mono, Z.pow_add_r by lia. replace (e + (ey - e' + (e' - e)) - e') with (ey - e') by lia. lia.
    + exfalso. pose proof (mag_exponent my ey (shr_m r) e' ltac:(lia) ltac:(lia) ltac:(lia)) as Hlt.
      replace e' with (e + (e' - e)) in Hlt by lia. rewrite mag_shift in Hlt by lia.
      assert (mag (shr_m r * 2 ^ (e' - e)) e <= mag (m + inexact l) e)
        by (apply mag_mono; [lia|]; destruct l; cbn [inexact]; lia). lia.
  - intros my ey [Hy1 Hy2] Hle. destruct (Z.le_gt_cases e' ey) as [Hge|Hgt].
    + replace ey with (e' + (ey - e')) by lia. rewrite mag_shift, mag_mono by lia. etrans; [|apply Hn].
      apply Hlow. revert Hle. replace ey with (e + ((ey - e') + (e' - e))) by lia.
      rewrite mag_shift, mag_mono, Z.pow_add_r by lia. replace (e + (ey - e' + (e' - e)) - e') with (ey - e') by lia. lia.
    + apply Z.lt_le_incl, mag_exponent; lia.
Qed.

(** ** Rounding of signed values *)

(** The value of a finite double, scaled by [2^1100]. *)
Definition fval (x : f64) : Z :=
  match x with S754_finite s m e => (if s then -1 else 1) * mag (Zpos m) e | _ => 0 end.
Definition fin (x : f64) : Prop :=
  match x with S754_zero _ => True | S754_finite _ m e => canon (Zpos m) e | _ => False end.

Lemma mag_pos m e : 0 < m -> 0 <= e + 1100 -> 0 < mag m e.
Proof. intros. unfold mag. assert (0 < 2 ^ (e + 1100)) by (apply Z.pow_pos_nonneg; lia). nia. Qed.

Lemma canon_pos m e : canon m e -> 0 < mag m e.
Proof. intros [? ?]. apply mag_pos; lia. Qed.

Lemma canon_order m e m' e' :
  canon m e -> canon m' e' -> mag m e < mag m' e' <-> e < e' \/ (e = e' /\ m < m').
Proof.
  intros [Hm He] [Hm' He']. destruct (Z.lt_trichotomy e e') as [Hlt|[<-|Hgt]].
  - pose proof (mag_exponent m e m' e'). lia.
  - pose proof (mag_mono m' m e). lia.
  - pose proof (mag_exponent m' e' m e). lia.
Qed.

(** [<] compares the values. *)
Lemma flt_val x y : fin x -> fin y -> flt x y = (fval x <? fval y).
Proof.
  intros Hx Hy.
  enough (flt x y = true <-> fval x < fval y) as He.
  { destruct (Z.ltb_spec (fval x) (fval y)); [by apply He|]. apply not_true_iff_false. rewrite He. lia. }
  rewrite flt_key by (by destruct x, y). unfold key_lt.
  destruct x as [sx| | |sx mx ex], y as [sy| | |sy my ey]; try done; cbn [fin] in Hx, Hy;
    try pose proof (canon_pos _ _ Hx); try pose proof (canon_pos _ _ Hy);
    try destruct sx; try destruct sy; cbn [key fval fst snd]; try lia.
  - pose proof (canon_order _ _ _ _ Hy Hx). lia.
  - pose proof (canon_order _ _ _ _ Hx Hy). lia.
Qed.

(** [x] is the rounding of [a / b] (scaled): finite, and on the same side of
    every double as [a / b]. *)
Definition rounds (x : f64) (a b : Z) : Prop :=
  fin x /\ forall y, fin y -> (a <= fval y * b -> fval x <= fval y) /\ (fval y * b <= a -> fval y <= fval x).

Lemma rounds_self x : fin x -> rounds x (fval x) 1.
Proof. intros Hx. split; [done|]. intros y _. lia. Qed.

Lemma rounds_signed s m e a b :
  canon (Zpos m) e -> 0 < a -> 0 < b ->
  (forall my ey, canon my ey -> a <= mag my ey * b -> mag (Zpos m) e <= mag my ey) ->
  (forall my ey, canon my ey -> mag my ey * b <= a -> mag my ey <= mag (Zpos m) e) ->
  rounds (S754_finite s m e) (if s then - a else a) b.
Proof.
  intros Hc Ha Hb Hu Hl. split; [done|]. pose proof (canon_pos _ _ Hc).
  intros [sy| | |sy my ey] Hy; try done; cbn [fin] in Hy; cbn [fval].
  - destruct s; split; nia.
  - pose proof (canon_pos _ _ Hy). specialize (Hu _ _ Hy). specialize (Hl _ _ Hy).
    destruct s, sy; split; intros; nia.
Qed.

Lemma round_rounds s p e :
  -1000 <= e -> Zpos (digits2_pos p) + e <= 1000 ->
  rounds (binary_round 53 1024 s p e) (if s then - mag (Zpos p) e else mag (Zpos p) e) 1.
Proof.
  intros He Hd. unfold binary_round, shl_align.
  assert (Hf : fexp 53 1024 (Zpos (digits2_pos p) + e) = Zpos (digits2_pos p) + e - 53) by (unfold fexp, emin; lia).
  rewrite Hf. pose proof (mag_pos (Zpos p) e ltac:(lia) ltac:(lia)) as Hpos.
  assert (Hround : forall m f, mag (Zpos m) f = mag (Zpos p) e -> 53 <= Zpos (digits2_pos m) -> -1074 <= f ->
    Zpos (digits2_pos m) + f <= 1000 ->
    rounds (binary_round_aux 53 1024 s (Zpos m) f loc_Exact) (if s then - mag (Zpos p) e else mag (Zpos p) e) 1).
  { intros m f Hv Hdm Hf' Hmax.
    destruct (round_aux_mag s (Zpos m) f loc_Exact) as (mr & er & -> & Hc & Hu & Hl); [done..|].
    apply rounds_signed; [done|done|lia|..].
    - intros my ey Hy. cbn [inexact] in Hu. specialize (Hu my ey Hy). rewrite Z.add_0_r, Hv in Hu. lia.
    - intros my ey Hy. specialize (Hl my ey Hy). rewrite Hv in Hl. lia. }
  destruct (Zpos (digits2_pos p) + e - 53 - e) as [|d|d] eqn:Ed; [apply Hround; try done; lia|apply Hround; try done; lia|].
  apply Hround.
  - rewrite iter_xO, <-mag_shift by lia. f_equal. lia.
  - rewrite digits2_iter_xO. lia.
  - lia.
  - rewrite digits2_iter_xO. lia.
Qed.

Lemma normalize_rounds n e :
  -1000 <= e -> Zdigits2 n + e <= 1000 -> rounds (binary_normalize 53 1024 n e false) (mag n e) 1.
Proof.
  intros He Hd. destruct n as [|p|p]; cbn [binary_normalize].
  - apply (rounds_self (S754_zero false)). done.
  - by apply (round_rounds false).
  - replace (mag (Zneg p) e) with (- mag (Zpos p) e) by (unfold mag; lia). by apply (round_rounds true).
Qed.

(** Every dyadic number with at most 53 bits is a double. *)
Lemma representable n e :
  Z.abs n < 2 ^ 53 -> -1000 <= e <= 900 -> exists y, fin y /\ fval y = mag n e.
Proof.
  intros Hn He. enough (Hp : forall p, Zpos p < 2 ^ 53 -> exists m f, canon (Zpos m) f /\ mag (Zpos m) f = mag (Zpos p) e).
  { destruct n as [|p|p]; [by exists (S754_zero false)|..]; (destruct (Hp p) as (m & f & Hc & Hv); [lia|]).
    - exists (S754_finite false m f). split; [done|]. cbn [fval]. lia.
    - exists (S754_finite true m f). split; [done|]. cbn [fval]. unfold mag in *. lia. }
  intros p Hp. destruct (digits2_bounds p) as [Hlo Hhi].
  assert (Hd : Zpos (digits2_pos p) <= 53).
  { pose proof (digits_le (Zpos p) 53 ltac:(lia) ltac:(lia) ltac:(lia)) as Hd. cbn [Zdigits2] in Hd.
    destruct (Z.eq_dec (Zpos (digits2_pos p)) 54) as [E|]; [|lia]. rewrite E in Hlo. change (54 - 1) with 53 in Hlo. lia. }
  destruct (53 - Zpos (digits2_pos p)) as [|k|k] eqn:Ek; [| |lia].
  - replace (Zpos (digits2_pos p)) with 53 in * by lia. exists p, e. split; [unfold canon; lia|done].
  - exists (Pos.iter xO p k), (e - Zpos k). rewrite iter_xO. split.
    + pose proof (digits2_bounds (Pos.iter xO p k)) as Hb. rewrite digits2_iter_xO, iter_xO in Hb.
      replace (Zpos (digits2_pos p + k)) with 53 in Hb by lia. unfold canon. change (53 - 1) with 52 in Hb. lia.
    + rewrite <-mag_shift by lia. f_equal. lia.
Qed.

Lemma rounds_exact x n e : Z.abs n < 2 ^ 53 -> -1000 <= e <= 900 -> rounds x (mag n e) 1 -> fval x = mag n e.
Proof.
  intros Hn He [Hx Hr]. destruct (representable n e Hn He) as (y & Hy & E).
  destruct (Hr y Hy) as [H1 H2]. rewrite E in *. lia.
Qed.

(** ** Conversion, addition and division *)

(** Doubles far from the ends of the range. *)
Definition mid (x : f64) : Prop :=
  match x with S754_zero _ => True | S754_finite _ m e => canon (Zpos m) e /\ -400 <= e <= 400 | _ => False end.

Lemma mid_fin x : mid x -> fin x.
Proof. destruct x; naive_solver. Qed.

Lemma mid_bounds x : fin x -> fval x = 0 \/ 2 ^ 1000 <= Z.abs (fval x) <= 2 ^ 1200 -> mid x.
Proof.
  intros Hx Hb. destruct x as [s| | |s m e]; try done. cbn [fin mid] in *. split; [done|].
  pose proof (canon_pos _ _ Hx). assert (Hv : Z.abs (fval (S754_finite s m e)) = mag (Zpos m) e)
    by (cbn [fval]; destruct s; lia).
  destruct Hb as [Hb|Hb]; [cbn [fval] in Hb; destruct s; lia|]. rewrite Hv in Hb. clear Hv.
  destruct Hx as [Hm He]. unfold mag in Hb. split; apply Z.nlt_ge; intros Hlt; exfalso.
  - assert (2 ^ (e + 1100) <= 2 ^ 700) by (apply Z.pow_le_mono_r; lia).
    assert (Zpos m * 2 ^ (e + 1100) <= 2 ^ 53 * 2 ^ 700) by (apply Z.mul_le_mono_nonneg; lia).
    rewrite <-Z.pow_add_r in * by lia. assert (2 ^ (53 + 700) < 2 ^ 1000) by (apply Z.pow_lt_mono_r; lia). lia.
  - assert (2 ^ 1500 <= 2 ^ (e + 1100)) by (apply Z.pow_le_mono_r; lia).
    assert (1 * 2 ^ 1500 <= Zpos m * 2 ^ (e + 1100)) by (apply Z.mul_le_mono_nonneg; lia).
    assert (2 ^ 1200 < 2 ^ 1500) by (apply Z.pow_lt_mono_r; lia). lia.
Qed.

Lemma f64_of_exact n : Z.abs n < 2 ^ 53 -> fin (f64_of n) /\ fval (f64_of n) = mag n 0 /\ mid (f64_of n).
Proof.
  intros Hn. assert (Hd : Zdigits2 n <= 54).
  { destruct n as [|p|p]; [done|apply (digits_le _ 53); lia|]. apply (digits_le (Zpos p) 53); lia. }
  pose proof (normalize_rounds n 0 ltac:(lia) ltac:(lia)) as Hr. fold (f64_of n) in Hr.
  pose proof (rounds_exact _ n 0 Hn ltac:(lia) Hr) as Hv. destruct Hr as [Hf _]. split_and!; [done|done|].
  apply mid_bounds; [done|]. rewrite Hv. destruct (Z.eq_dec n 0) as [->|Hne]; [by left|right].
  unfold mag. rewrite Z.abs_mul, (Z.abs_eq (2 ^ _)) by (apply Z.pow_nonneg; lia). change (0 + 1100) with (1000 + 100).
  replace (2 ^ 1200) with (2 ^ 100 * 2 ^ (1000 + 100)) by (rewrite <-Z.pow_add_r by lia; f_equal).
  rewrite Z.pow_add_r by lia. assert (0 < 2 ^ 1000) by (apply Z.pow_pos_nonneg; lia).
  assert (1 <= 2 ^ 100 /\ 2 ^ 53 <= 2 ^ 100) by (vm_compute; split; discriminate).
  generalize dependent (2 ^ 1000). generalize dependent (2 ^ 100). intros c Hc k Hk. split; [|nia].
  assert (k * 1 <= k * c) by (apply Z.mul_le_mono_nonneg_l; lia).
  assert (1 * (k * c) <= Z.abs n * (k * c)) by (apply Z.mul_le_mono_nonneg_r; lia). lia.
Qed.

(** A summand at the smaller exponent. *)
Lemma aligned s m e ez :
  canon (Zpos m) e -> -400 <= ez <= e -> e <= 400 ->
  mag (cond_Zopp s (Zpos (shl_align m e ez).1)) ez = (if s then -1 else 1) * mag (Zpos m) e /\
  Z.abs (cond_Zopp s (Zpos (shl_align m e ez).1)) <= 2 ^ (453 - ez).
Proof.
  intros [Hm _] Hez He. rewrite shl_align_fst by lia. split.
  - replace (mag (Zpos m) e) with (mag (Zpos m * 2 ^ (e - ez)) ez) by (rewrite <-mag_shift by lia; f_equal; lia).
    unfold mag, cond_Zopp. destruct s; lia.
  - assert (Hb : Zpos m * 2 ^ (e - ez) <= 2 ^ 53 * 2 ^ (e - ez)) by (apply Z.mul_le_mono_nonneg_r; [apply Z.pow_nonneg|]; lia).
    rewrite <-Z.pow_add_r in Hb by lia.
    assert (2 ^ (53 + (e - ez)) <= 2 ^ (453 - ez)) by (apply Z.pow_le_mono_r; lia).
    assert (0 <= Zpos m * 2 ^ (e - ez)) by (apply Z.mul_nonneg_nonneg; [|apply Z.pow_nonneg]; lia).
    destruct s; cbn [cond_Zopp]; lia.
Qed.

Lemma fadd_rounds x y : mid x -> mid y -> rounds (fadd x y) (fval x + fval y) 1.
Proof.
  intros Hx Hy. destruct x as [sx| | |sx mx ex], y as [sy| | |sy my ey]; try done.
  - replace (fadd (S754_zero sx) (S754_zero sy)) with (S754_zero (sx && sy)) by (by destruct sx, sy).
    by apply (rounds_self (S754_zero (sx && sy))).
  - change (fval (S754_zero sx)) with 0. rewrite Z.add_0_l.
    by apply (rounds_self (S754_finite sy my ey)), mid_fin.
  - change (fval (S754_zero sy)) with 0. rewrite Z.add_0_r.
    by apply (rounds_self (S754_finite sx mx ex)), mid_fin.
  - destruct Hx as [Hx Hex], Hy as [Hy Hey]. unfold fadd. cbn [SFadd fval]. set (ez := Z.min ex ey).
    destruct (aligned sx mx ex ez Hx ltac:(lia) ltac:(lia)) as [E1 H1].
    destruct (aligned sy my ey ez Hy ltac:(lia) ltac:(lia)) as [E2 H2].
    rewrite <-E1, <-E2. set (a := cond_Zopp sx _) in *. set (b := cond_Zopp sy _) in *.
    replace (mag a ez + mag b ez) with (mag (a + b) ez) by (unfold mag; lia).
    apply normalize_rounds; [lia|].
    assert (Hab : Z.abs (a + b) <= 2 ^ (454 - ez)).
    { replace (454 - ez) with (453 - ez + 1) by lia. rewrite pow_double by lia. lia. }
    assert (Hd : Zdigits2 (a + b) <= 454 - ez + 1); [|lia].
    destruct (a + b) as [|p|p]; [cbn; lia|apply digits_le; lia|].
    apply (digits_le (Zpos p)); lia.
Qed.

Lemma inexact_location d r : inexact (new_location d r) = if r =? 0 then 0 else 1.
Proof. unfold new_location, new_location_even, new_location_odd. destruct (Z.even d); by destruct (r =? 0). Qed.

(** The integer quotient of the division has enough digits, and no multiple of
    its unit lies between it and the exact quotient. *)
Lemma div_core m1 e1 m2 e2 :
  canon (Zpos m1) e1 -> canon (Zpos m2) e2 -> -400 <= e1 <= 400 -> -400 <= e2 <= 400 ->
  exists q r, SFdiv_core_binary 53 1024 (Zpos m1) e1 (Zpos m2) e2 = (q, e1 - e2 - 53, new_location (Zpos m2) r) /\
    Zpos m1 * 2 ^ 53 = q * Zpos m2 + r /\ 0 <= r < Zpos m2 /\ 2 ^ 52 <= q <= 2 ^ 54.
Proof.
  intros [Hm1 _] [Hm2 _] He1 He2. unfold SFdiv_core_binary.
  assert (Hd : forall m, 2 ^ 52 <= Zpos m < 2 ^ 53 -> Zdigits2 (Zpos m) = 53).
  { intros m Hm. pose proof (digits_le (Zpos m) 53). pose proof (digits_ge (Zpos m) 52).
    cbn [Zdigits2] in *. destruct (digits2_bounds m) as [Hlo _].
    destruct (Z.eq_dec (Zpos (digits2_pos m)) 54) as [E|]; [|lia]. rewrite E in Hlo. change (54 - 1) with 53 in Hlo. lia. }
  rewrite !Hd by done.
  replace (Z.min _ _) with (e1 - e2 - 53) by (unfold fexp, emin; lia).
  replace (e1 - e2 - (e1 - e2 - 53)) with 53 by lia. rewrite Z.shiftl_mul_pow2 by lia.
  pose proof (Z_div_mod (Zpos m1 * 2 ^ 53) (Zpos m2) ltac:(lia)) as Hdm.
  destruct (Z.div_eucl _ _) as [q r]. destruct Hdm as [Hq Hr]. exists q, r.
  split_and!; [done|lia|lia|lia| |]; apply Z.nlt_ge; intros Hlt; nia.
Qed.

Lemma fdiv_rounds x y : mid x -> mid y -> 0 < fval y -> rounds (fdiv x y) (fval x * 2 ^ 1100) (fval y).
Proof.
  intros Hx Hy Hpos. destruct y as [sy| | |[] m2 e2]; try done.
  { destruct Hy as [Hy _]. apply canon_pos in Hy. cbn [fval] in Hpos. lia. }
  destruct Hy as [Hy He2]. cbn [fval] in *. rewrite Z.mul_1_l in *.
  destruct x as [sx| | |sx m1 e1]; try done.
  { change (fdiv (S754_zero sx) (S754_finite false m2 e2)) with (S754_zero (xorb sx false)).
    split; [done|]. intros z _. cbn [fval]. split; nia. }
  destruct Hx as [Hx He1]. unfold fdiv. cbn [SFdiv fval]. rewrite xorb_false_r.
  destruct (div_core m1 e1 m2 e2 Hx Hy He1 He2) as (q & r & -> & Hq & Hr & Hq1).
  pose proof (digits_ge q 52 ltac:(lia) ltac:(lia)). pose proof (digits_le q 54 ltac:(lia) ltac:(lia) ltac:(lia)).
  destruct (round_aux_mag sx q (e1 - e2 - 53) (new_location (Zpos m2) r)) as (mr & er & -> & Hc & Hu & Hl); [lia..|].
  rewrite inexact_location in Hu.
  set (ez := e1 - e2 - 53) in *.
  assert (HA : mag (Zpos m1) e1 * 2 ^ 1100 = Zpos m1 * 2 ^ 53 * 2 ^ (ez + 1100 + (e2 + 1100))).
  { unfold mag, ez. rewrite <-!Z.mul_assoc, <-!Z.pow_add_r by lia. f_equal. f_equal. lia. }
  assert (HB : forall k, mag k ez * mag (Zpos m2) e2 = k * Zpos m2 * 2 ^ (ez + 1100 + (e2 + 1100))).
  { intros k. unfold mag. rewrite (Z.pow_add_r _ (ez + 1100) (e2 + 1100)) by lia. lia. }
  set (P := 2 ^ (ez + 1100 + (e2 + 1100))) in *. assert (0 < P) by (apply Z.pow_pos_nonneg; lia). clearbody P.
  pose proof (canon_pos _ _ Hx). pose proof (canon_pos _ _ Hy).
  assert (Hbig : 0 < 2 ^ 1100) by (apply Z.pow_pos_nonneg; lia).
  replace ((if sx then -1 else 1) * mag (Zpos m1) e1 * 2 ^ 1100) with
    (if sx then - (mag (Zpos m1) e1 * 2 ^ 1100) else mag (Zpos m1) e1 * 2 ^ 1100)
    by (destruct sx; [rewrite <-Z.mul_opp_l; f_equal; apply Z.opp_eq_mul_m1|by rewrite Z.mul_1_l]).
  assert (Hle : mag q ez * mag (Zpos m2) e2 <= mag (Zpos m1) e1 * 2 ^ 1100) by (rewrite HA, HB; nia).
  apply rounds_signed; [done|apply Z.mul_pos_pos; lia|done|..].
  - intros my ey Hcy Ha. apply Hu; [done|]. destruct (Z.le_gt_cases ez ey).
    + replace ey with (ez + (ey - ez)) in * by lia. rewrite mag_shift in * by lia. apply mag_mono; [lia|].
      rewrite HA, HB in Ha. apply Z.mul_le_mono_pos_r in Ha; [|done].
      destruct (Z.eqb_spec r 0); apply Z.nlt_ge; intros Hlt; nia.
    + exfalso. destruct Hcy. pose proof (mag_exponent my ey q ez ltac:(lia) ltac:(lia) ltac:(lia)). nia.
  - intros my ey Hcy Ha. apply Hl; [done|]. destruct (Z.le_gt_cases ez ey).
    + replace ey with (ez + (ey - ez)) in * by lia. rewrite mag_shift in * by lia. apply mag_mono; [lia|].
      rewrite HA, HB in Ha. apply Z.mul_le_mono_pos_r in Ha; [|done]. apply Z.nlt_ge; intros Hlt; nia.
    + destruct Hcy. apply Z.lt_le_incl, mag_exponent; lia.
Qed.
