(* ===== verification/Flow.v ===== *)
(** * Flows (include/flow.hpp, src/flow_table.cpp)

    The canonical flow key, the hash, the per-direction and per-flow state, the
    TCP state machine, the round-trip statistics and the derived values of a
    flow.  The table that owns the flows is in [FlowTable]. *)

From S2P Require Import Prelude.
From S2P Require Import Machine.
From S2P Require Import Protocol.
From S2P Require Import Float.
From S2P Require Import ByteString.
From S2P Require Import Reassembly.
From S2P Require Import Dissect.
#[local] Open Scope Z_scope.

(** ** Keys *)

Record FlowKey := mkFlowKey {
  key_a : IpAddress; key_b : IpAddress; port_a : Z; port_b : Z; key_proto : Z;
}.
#[export] Instance FlowKey_eq_dec : EqDecision FlowKey.
Proof. solve_decision. Defined.

#[export] Program Instance IpAddress_countable : Countable IpAddress :=
  inj_countable' (fun a => (a.(is_v6), a.(ip_bytes))) (fun x => mkIpAddress x.1 x.2) _.
Next Obligation. by intros []. Qed.
#[export] Program Instance FlowKey_countable : Countable FlowKey :=
  inj_countable' (fun k => (k.(key_a), k.(key_b), k.(port_a), k.(port_b), k.(key_proto)))
    (fun x => mkFlowKey x.1.1.1.1 x.1.1.1.2 x.1.1.2 x.1.2 x.2) _.
Next Obligation. by intros []. Qed.

(** FNV-1a over the significant bytes of the key. *)
Definition hash_mix (h : Z) (byte : Z) : Z := u64 (Z.lxor h byte * 1099511628211).
Definition FlowKeyHash (k : FlowKey) : Z :=
  let n := if k.(key_a).(is_v6) then 16%nat else 4%nat in
  fold_left hash_mix
    (map bval (firstn n k.(key_a).(ip_bytes)) ++ map bval (firstn n k.(key_b).(ip_bytes)) ++
     [u8 (Z.land k.(port_a) 0xFF); u8 (Z.shiftr k.(port_a) 8);
      u8 (Z.land k.(port_b) 0xFF); u8 (Z.shiftr k.(port_b) 8); k.(key_proto)])
    1469598103934665603.

(** [make_flow_key(p, forward)]: the key and the value of [forward]. *)
Definition make_flow_key (p : DecodedPacket) : FlowKey * bool :=
  let sp := if has_ports p then p.(sport) else 0 in
  let dp := if has_ports p then p.(dport) else 0 in
  let src_is_a := ip_ltb p.(src_ip) p.(dst_ip) || (ip_eqb p.(src_ip) p.(dst_ip) && (sp <=? dp)) in
  if src_is_a then (mkFlowKey p.(src_ip) p.(dst_ip) sp dp p.(ip_proto), true)
  else (mkFlowKey p.(dst_ip) p.(src_ip) dp sp p.(ip_proto), false).

(** ** TCP states *)

Module TcpState.
Inductive t := None | SynSent | SynReceived | Established | FinWait | Closing | Closed | Reset.
#[global] Instance t_eq_dec : EqDecision t. Proof. solve_decision. Defined.
End TcpState.

Definition TcpState_to_string (s : TcpState.t) : string :=
  match s with
  | TcpState.SynSent => "SYN_SENT" | TcpState.SynReceived => "SYN_RECV"
  | TcpState.Established => "ESTABLISHED" | TcpState.FinWait => "FIN_WAIT"
  | TcpState.Closing => "CLOSING" | TcpState.Closed => "CLOSED"
  | TcpState.Reset => "RESET" | TcpState.None => "-"
  end.

Module FlowSort.
Inductive t := Bytes | Packets | Retransmits | Recent | Rtt.
#[global] Instance t_eq_dec : EqDecision t. Proof. solve_decision. Defined.
End FlowSort.

Definition FlowSort_to_string (s : FlowSort.t) : string :=
  match s with
  | FlowSort.Bytes => "bytes" | FlowSort.Packets => "packets"
  | FlowSort.Retransmits => "retransmits" | FlowSort.Recent => "recent" | FlowSort.Rtt => "rtt"
  end.

(** ** Round-trip statistics *)

Record RttStats := mkRtt { samples : Z; min_ms : f64; max_ms : f64; last_ms : f64; srtt_ms : f64 }.
#[export] Instance RttStats_eta : Eta RttStats := fun r =>
  mkRtt r.(samples) r.(min_ms) r.(max_ms) r.(last_ms) r.(srtt_ms).
Definition rtt_default : RttStats := mkRtt 0 f0 f0 f0 f0.
Definition rtt_valid (r : RttStats) : bool := 0 <? r.(samples).

Definition rtt_add (r : RttStats) (ms : f64) : RttStats :=
  if flt ms f0 || flt (f64_of 60000) ms then r
  else
    let r := if r.(samples) =? 0 then
               r <| min_ms := ms |> <| max_ms := ms |> <| last_ms := ms |> <| srtt_ms := ms |>
             else
               r <| min_ms ::= fun m => fmin m ms |> <| max_ms ::= fun m => fmax m ms |>
                 <| last_ms := ms |>
                 <| srtt_ms ::= fun s => fadd (fmul (f64_dyadic 7 (-3)) s) (fmul (f64_dyadic 1 (-3)) ms) |> in
    r <| samples ::= fun n => u64 (n + 1) |>.

Definition timeval_diff (later earlier : timeval) : f64 :=
  fadd (f64_of (later.(tv_sec) - earlier.(tv_sec)))
       (fdiv (f64_of (later.(tv_usec) - earlier.(tv_usec))) (f64_of 1000000)).

(** ** Per-direction and per-flow state *)

Record DirectionStats := mkDir {
  d_packets : Z; d_bytes : Z; d_payload_bytes : Z; d_retransmits : Z; d_out_of_order : Z;
  d_syn : Z; d_fin : Z; d_rst : Z; d_pure_acks : Z; d_last_window : Z; d_last_ttl : Z;
  d_seq_valid : bool; d_next_seq : Z; d_recent_segments : list Z; d_holes : list (Z * Z);
  d_stream : option StreamReassembler;
  d_awaiting_ack : list (Z * timeval); d_rtt : RttStats;
}.
#[export] Instance DirectionStats_eta : Eta DirectionStats := fun d =>
  mkDir d.(d_packets) d.(d_bytes) d.(d_payload_bytes) d.(d_retransmits) d.(d_out_of_order)
    d.(d_syn) d.(d_fin) d.(d_rst) d.(d_pure_acks) d.(d_last_window) d.(d_last_ttl)
    d.(d_seq_valid) d.(d_next_seq) d.(d_recent_segments) d.(d_holes) d.(d_stream)
    d.(d_awaiting_ack) d.(d_rtt).
Definition dir_default : DirectionStats :=
  mkDir 0 0 0 0 0 0 0 0 0 0 0 false 0 [] [] None [] rtt_default.

Record Flow := mkFlow {
  f_id : Z; f_key : FlowKey; f_l4 : L4Proto.t; f_state : TcpState.t;
  f_fwd : DirectionStats; f_rev : DirectionStats; f_first_seen : timeval; f_last_seen : timeval;
  f_handshake_complete : bool; f_app : AppInfo; f_handshake_rtt_ms : f64;
  f_syn_ts : timeval; f_syn_seen : bool;
}.
#[export] Instance Flow_eta : Eta Flow := fun f =>
  mkFlow f.(f_id) f.(f_key) f.(f_l4) f.(f_state) f.(f_fwd) f.(f_rev) f.(f_first_seen) f.(f_last_seen)
    f.(f_handshake_complete) f.(f_app) f.(f_handshake_rtt_ms) f.(f_syn_ts) f.(f_syn_seen).

Definition flow_default (k : FlowKey) : Flow :=
  mkFlow 0 k L4Proto.Unknown TcpState.None dir_default dir_default timeval_zero timeval_zero
    false app_default (f64_of (-1)) timeval_zero false.

Definition f_packets (f : Flow) : Z := u64 (f.(f_fwd).(d_packets) + f.(f_rev).(d_packets)).
Definition f_bytes (f : Flow) : Z := u64 (f.(f_fwd).(d_bytes) + f.(f_rev).(d_bytes)).
Definition f_retransmits (f : Flow) : Z := u64 (f.(f_fwd).(d_retransmits) + f.(f_rev).(d_retransmits)).
Definition f_out_of_order (f : Flow) : Z := u64 (f.(f_fwd).(d_out_of_order) + f.(f_rev).(d_out_of_order)).

Definition duration_sec (f : Flow) : f64 := timeval_diff f.(f_last_seen) f.(f_first_seen).

Definition retransmit_rate (f : Flow) : f64 :=
  let data_segs := u64 (f.(f_fwd).(d_packets) + f.(f_rev).(d_packets)) in
  if data_segs =? 0 then f0
  else fdiv (fmul (f64_of 100) (f64_of (f_retransmits f))) (f64_of data_segs).

Definition best_rtt_ms (f : Flow) : f64 :=
  if fle f0 f.(f_handshake_rtt_ms) then f.(f_handshake_rtt_ms)
  else
    let a := f.(f_fwd).(d_rtt) in let b := f.(f_rev).(d_rtt) in
    if rtt_valid a && rtt_valid b then fmin a.(srtt_ms) b.(srtt_ms)
    else if rtt_valid a then a.(srtt_ms)
    else if rtt_valid b then b.(srtt_ms)
    else f64_of (-1).

Definition app_summary (f : Flow) : list byte :=
  if negb (identified f.(f_app)) then []
  else lit (AppProtocol_to_string f.(f_app).(proto)) ++
       (if bool_decide (f.(f_app).(summary) = []) then [] else lit " " ++ f.(f_app).(summary)).

(** [label()]; [str] is [IpAddress::str], the text form of [inet_ntop]. *)
Definition label (str : IpAddress -> list byte) (f : Flow) : list byte :=
  let k := f.(f_key) in
  let has_port := negb (k.(port_a) =? 0) || negb (k.(port_b) =? 0) in
  str k.(key_a) ++ (if has_port then lit ":" ++ to_decimal k.(port_a) else []) ++ lit " <-> " ++
  str k.(key_b) ++ (if has_port then lit ":" ++ to_decimal k.(port_b) else []).

(** The direction a packet belongs to: [forward ? flow.fwd : flow.rev]. *)
Definition get_dir (f : Flow) (forward : bool) : DirectionStats :=
  if forward then f.(f_fwd) else f.(f_rev).
Definition set_dir (f : Flow) (forward : bool) (d : DirectionStats) : Flow :=
  if forward then f <| f_fwd := d |> else f <| f_rev := d |>.

(** ** The TCP state machine *)

Definition advance_tcp_state (flow : Flow) (flags : Z) (forward : bool) : Flow :=
  if has_flag flags TH_RST then flow <| f_state := TcpState.Reset |> else
  let syn := has_flag flags TH_SYN in
  let ack := has_flag flags TH_ACK in
  let fin := has_flag flags TH_FIN in
  match flow.(f_state) with
  | TcpState.None =>
      if syn && negb ack then flow <| f_state := TcpState.SynSent |>
      else if syn && ack then flow <| f_state := TcpState.SynReceived |>
      else flow <| f_state := TcpState.Established |>
  | TcpState.SynSent => if syn && ack then flow <| f_state := TcpState.SynReceived |> else flow
  | TcpState.SynReceived =>
      if ack && negb syn
      then flow <| f_state := TcpState.Established |> <| f_handshake_complete := true |> else flow
  | TcpState.Established => if fin then flow <| f_state := TcpState.FinWait |> else flow
  | TcpState.FinWait =>
      if fin then
        let other_side_finned := 0 <? (get_dir flow (negb forward)).(d_fin) in
        flow <| f_state := if other_side_finned then TcpState.Closing else TcpState.FinWait |>
      else flow
  | TcpState.Closing => if ack && negb fin then flow <| f_state := TcpState.Closed |> else flow
  | TcpState.Closed | TcpState.Reset =>
      if syn && negb ack
      then flow <| f_state := TcpState.SynSent |> <| f_handshake_complete := false |> else flow
  end.
