(* ===== verification/FlowTable.v ===== *)
(** * The flow table (src/flow_table.cpp)

    [update] feeds one decoded packet: it finds or creates the flow, classifies
    the TCP segment (retransmission, out of order), advances the TCP state,
    takes round-trip samples and runs reassembly and dissection; [expire], [top]
    and the other queries follow.  The state is a store passed explicitly.

    Two interfaces keep the model honest about what the source does not define:
    [Dissector] is what the table calls of [dissect.cpp] ([Dissect] implements
    it), and an [iteration] ([Containers]) is the unspecified order in which an
    [unordered_map] enumerates its entries at one call. *)

From S2P Require Import Prelude.
From S2P Require Import Machine.
From S2P Require Import Containers.
From S2P Require Import Protocol.
From S2P Require Import Serial.
From S2P Require Import Float.
From S2P Require Import Reassembly.
From S2P Require Import Dissect.
From S2P Require Import Flow.
#[local] Open Scope Z_scope.

(** ** Interfaces *)

(** What the table calls of the dissectors. *)
Class Dissector := {
  dis_tcp : list byte -> Z -> Z -> mem (option AppInfo);
  dis_udp : option (list byte) -> Z -> Z -> Z -> mem (option AppInfo);
}.

#[export] Instance netscope_dissector : Dissector := {|
  dis_tcp := dissect_tcp_stream;
  dis_udp := dissect_udp_payload;
|}.

(** ** Constants *)

Definition kRecentSegmentWindow : Z := 64.
Definition kClosedFlowGraceSec : f64 := f64_of 5.
Definition kMaxAwaitingAck : Z := 256.
Definition kMaxTrackedHoles : Z := 16.

Definition ranges_overlap (a_lo a_hi b_lo b_hi : Z) : bool := seq_lt a_lo b_hi && seq_lt b_lo a_hi.

Definition segment_fingerprint (seq len : Z) : Z := Z.lor (Z.shiftl seq 32) len.

(** [q.push_back(x); if (q.size() > cap) q.pop_front();] *)
Definition push_capped {A} (cap : Z) (q : list A) (x : A) : list A :=
  let q := q ++ [x] in if cap <? zlen q then tl q else q.

(** ** State *)

Record FlowTable := mkTable {
  flows_ : gmap FlowKey Flow;
  max_flows_ : Z;
  dissect_enabled_ : bool;
  next_id_ : Z;
  total_retransmits_ : Z;
  total_out_of_order_ : Z;
  total_data_segments_ : Z;
  total_reassembled_bytes_ : Z;
  total_rtt_samples_ : Z;
  app_counts_ : gmap Z Z;
}.
#[export] Instance FlowTable_eta : Eta FlowTable := fun t =>
  mkTable t.(flows_) t.(max_flows_) t.(dissect_enabled_) t.(next_id_) t.(total_retransmits_)
    t.(total_out_of_order_) t.(total_data_segments_) t.(total_reassembled_bytes_)
    t.(total_rtt_samples_) t.(app_counts_).

Definition new_table (max_flows : Z) : FlowTable := mkTable ∅ max_flows true 0 0 0 0 0 0 ∅.
Definition set_dissection_enabled (t : FlowTable) (on : bool) : FlowTable := t <| dissect_enabled_ := on |>.
Definition table_size (t : FlowTable) : Z := Z.of_nat (size t.(flows_)).

(** ** Sequence tracking *)

(** [fills_known_hole()]: the first hole the segment overlaps is shortened or
    removed; [None] when there is none. *)
Fixpoint fills_known_hole (seq seg_end : Z) (holes : list (Z * Z)) : option (list (Z * Z)) :=
  match holes with
  | [] => None
  | (lo, hi) :: rest =>
      if ranges_overlap seq seg_end lo hi then
        if seq_le hi seg_end && seq_le seq lo then Some rest
        else if seq_le seq lo then Some ((seg_end, hi) :: rest)
        else Some ((lo, seq) :: rest)
      else option_map (cons (lo, hi)) (fills_known_hole seq seg_end rest)
  end.

(** [track_sequence(dir, p, seglen)]: the verdict "retransmission", the table
    (its totals) and the direction. *)
Definition track_sequence (t : FlowTable) (dir : DirectionStats) (p : DecodedPacket) (seglen : Z)
    : bool * FlowTable * DirectionStats :=
  if seglen =? 0 then
    let consumed := if has_flag p.(tcp_flags) TH_FIN then 1
                    else if has_flag p.(tcp_flags) TH_SYN then 1 else 0 in
    let next := u32 (p.(seqno) + consumed) in
    if negb dir.(d_seq_valid) then (false, t, dir <| d_seq_valid := true |> <| d_next_seq := next |>)
    else if seq_gt next dir.(d_next_seq) then (false, t, dir <| d_next_seq := next |>)
    else (false, t, dir)
  else
    let t := t <| total_data_segments_ ::= incr |> in
    let fp := segment_fingerprint p.(seqno) seglen in
    let duplicate := bool_decide (fp ∈ dir.(d_recent_segments)) in
    let seg_end := u32 (p.(seqno) + seglen) in
    let '(retransmit, t, dir) :=
      if negb dir.(d_seq_valid) then
        (false, t, dir <| d_seq_valid := true |> <| d_next_seq := seg_end |>)
      else if duplicate then
        (true, t <| total_retransmits_ ::= incr |>, dir <| d_retransmits ::= incr |>)
      else if seq_le seg_end dir.(d_next_seq) then
        match fills_known_hole p.(seqno) seg_end dir.(d_holes) with
        | Some holes =>
            (false, t <| total_out_of_order_ ::= incr |>,
             dir <| d_holes := holes |> <| d_out_of_order ::= incr |>)
        | None => (true, t <| total_retransmits_ ::= incr |>, dir <| d_retransmits ::= incr |>)
        end
      else if seq_gt p.(seqno) dir.(d_next_seq) then
        (false, t <| total_out_of_order_ ::= incr |>,
         dir <| d_holes ::= fun h => push_capped kMaxTrackedHoles h (dir.(d_next_seq), p.(seqno)) |>
             <| d_out_of_order ::= incr |> <| d_next_seq := seg_end |>)
      else (false, t, dir <| d_next_seq := seg_end |>) in
    (retransmit, t,
     dir <| d_recent_segments ::= fun q => push_capped kRecentSegmentWindow q fp |>).

(** ** Round-trip samples *)

(** The loop that retires acknowledged segments; [sampled] is per call. *)
Fixpoint retire_acked (awaiting : list (Z * timeval)) (ack : Z) (now : timeval) (sampled : bool)
    (rtt : RttStats) (total : Z) : list (Z * timeval) * RttStats * Z :=
  match awaiting with
  | [] => ([], rtt, total)
  | (end_seq, sent) :: rest =>
      if seq_le end_seq ack then
        if sampled then retire_acked rest ack now true rtt total
        else
          let ms := fmul (timeval_diff now sent) (f64_of 1000) in
          retire_acked rest ack now true (rtt_add rtt ms) (incr total)
      else (awaiting, rtt, total)
  end.

Definition track_rtt (t : FlowTable) (flow : Flow) (p : DecodedPacket) (forward retransmit : bool)
    : FlowTable * Flow :=
  let syn := has_flag p.(tcp_flags) TH_SYN in
  let ack := has_flag p.(tcp_flags) TH_ACK in
  let '(t, flow) :=
    if syn && negb ack then (t, flow <| f_syn_ts := p.(ts) |> <| f_syn_seen := true |>)
    else if syn && ack && flow.(f_syn_seen) && flt flow.(f_handshake_rtt_ms) f0 then
      (t <| total_rtt_samples_ ::= incr |>,
       flow <| f_handshake_rtt_ms := fmul (timeval_diff p.(ts) flow.(f_syn_ts)) (f64_of 1000) |>)
    else (t, flow) in
  let flow :=
    if (0 <? p.(payload_len)) && negb retransmit then
      let sender := get_dir flow forward in
      set_dir flow forward
        (sender <| d_awaiting_ack ::= fun q =>
           push_capped kMaxAwaitingAck q (u32 (p.(seqno) + p.(payload_len)), p.(ts)) |>)
    else flow in
  if ack then
    let peer := get_dir flow (negb forward) in
    let '(q, rtt, total) :=
      retire_acked peer.(d_awaiting_ack) p.(ackno) p.(ts) false peer.(d_rtt) t.(total_rtt_samples_) in
    (t <| total_rtt_samples_ := total |>,
     set_dir flow (negb forward) (peer <| d_awaiting_ack := q |> <| d_rtt := rtt |>))
  else (t, flow).

(** ** Reassembly and dissection *)

(** The payload bytes behind [p.payload]; [m] is the captured frame. *)
Definition payload_bytes (m : list byte) (p : DecodedPacket) : mem (option (list byte)) :=
  match p.(payload) with
  | None => mret None
  | Some q => bs ← rd_bytes m q p.(payload_len); mret (Some bs)
  end.

(** [++app_counts_[proto]]. *)
Definition count_app (t : FlowTable) (a : AppInfo) : FlowTable :=
  t <| app_counts_ ::= fun m => <[AppProtocol.to_int a.(proto) := incr (default 0 (m !! AppProtocol.to_int a.(proto)))]> m |>.

(** [flow.app = info; if (first) ++app_counts_[info.proto];] *)
Definition adopt_app (t : FlowTable) (flow : Flow) (info : AppInfo) : FlowTable * Flow :=
  (if negb (identified flow.(f_app)) then count_app t info else t, flow <| f_app := info |>).

Section table.
Context `{Dissector}.
Variable m : list byte.

Definition reassemble_and_dissect (t : FlowTable) (flow : Flow) (forward : bool) (p : DecodedPacket)
    : mem (FlowTable * Flow) :=
  if negb t.(dissect_enabled_) || flow.(f_app).(conclusive) then mret (t, flow)
  else if decide (p.(l4) = L4Proto.UDP) then
    data ← payload_bytes m p;
    r ← dis_udp data p.(payload_len) p.(sport) p.(dport);
    mret (match r with Some info => adopt_app t flow info | None => (t, flow) end)
  else if decide (p.(l4) <> L4Proto.TCP) then mret (t, flow)
  else
    let syn := has_flag p.(tcp_flags) TH_SYN in
    if (p.(payload_len) =? 0) && negb syn then mret (t, flow)
    else
      data ← payload_bytes m p;
      let dir := get_dir flow forward in
      let stream := default default_reassembler dir.(d_stream) in
      let '(added, stream) := push stream p.(seqno) data syn in
      let t := t <| total_reassembled_bytes_ ::= fun n => u64 (n + added) |> in
      '(t, flow) ←
        (if 0 <? added then
           r ← dis_tcp stream.(prefix_) p.(sport) p.(dport);
           mret (match r with
                 | Some info =>
                     if negb (identified flow.(f_app)) || (info.(conclusive) && negb flow.(f_app).(conclusive))
                     then adopt_app t flow info else (t, flow)
                 | None => (t, flow)
                 end)
         else mret (t, flow));
      let released := flow.(f_app).(conclusive) || saturated stream in
      mret (t, set_dir flow forward (dir <| d_stream := if released then None else Some stream |>)).

(** The least recently active flow: the scan of the iteration order. *)
Definition oldest_flow (entries : list (FlowKey * Flow)) : option (FlowKey * Flow) :=
  match entries with
  | [] => None
  | first :: _ =>
      Some (fold_left (fun oldest i =>
              if flt (timeval_diff i.2.(f_last_seen) oldest.2.(f_last_seen)) f0 then i else oldest)
            entries first)
  end.

(** The entry for [key]: found, or created after making room.  Erasing from
    an empty full table ([max_flows_ = 0]) is undefined behaviour. *)
Definition find_or_create (it : iteration FlowKey Flow) (t : FlowTable) (key : FlowKey) (p : DecodedPacket)
    : mem (FlowTable * Flow) :=
  match t.(flows_) !! key with
  | Some flow => mret (t, flow)
  | None =>
      t ← (if t.(max_flows_) <=? table_size t then
             match oldest_flow (iterate it t.(flows_)) with
             | None => OOB
             | Some victim => mret (t <| flows_ ::= delete victim.1 |>)
             end
           else mret t);
      let id := incr t.(next_id_) in
      mret (t <| next_id_ := id |>,
            flow_default key <| f_id := id |> <| f_l4 := p.(l4) |> <| f_first_seen := p.(ts) |>)
  end.

(** The per-packet counters of [update]. *)
Definition count_packet (dir : DirectionStats) (p : DecodedPacket) : DirectionStats :=
  let dir := dir <| d_packets ::= incr |> <| d_bytes ::= fun n => u64 (n + p.(wirelen)) |>
                 <| d_payload_bytes ::= fun n => u64 (n + p.(payload_len)) |>
                 <| d_last_ttl := p.(ttl) |> in
  if decide (p.(l4) = L4Proto.TCP) then
    let f := p.(tcp_flags) in
    let dir := dir <| d_last_window := p.(window) |> in
    let dir := if has_flag f TH_SYN then dir <| d_syn ::= incr |> else dir in
    let dir := if has_flag f TH_FIN then dir <| d_fin ::= incr |> else dir in
    let dir := if has_flag f TH_RST then dir <| d_rst ::= incr |> else dir in
    if (p.(payload_len) =? 0) && has_flag f TH_ACK &&
       negb (has_flag f (Z.lor TH_SYN (Z.lor TH_FIN TH_RST)))
    then dir <| d_pure_acks ::= incr |> else dir
  else dir.

(** The TCP part of [update]: classification, state machine, RTT. *)
Definition track_tcp (t : FlowTable) (flow : Flow) (forward : bool) (p : DecodedPacket) : FlowTable * Flow :=
  if decide (p.(l4) = L4Proto.TCP) then
    let '(retransmit, t, dir) := track_sequence t (get_dir flow forward) p p.(payload_len) in
    let flow := advance_tcp_state (set_dir flow forward dir) p.(tcp_flags) forward in
    track_rtt t flow p forward retransmit
  else (t, flow).

(** [update(p)]: the flow the packet was counted in ([None] is [nullptr]) and
    the new table. *)
Definition update (it : iteration FlowKey Flow) (t : FlowTable) (p : DecodedPacket) : mem (option Flow * FlowTable) :=
  if decide (p.(l3) <> L3Proto.IPv4 /\ p.(l3) <> L3Proto.IPv6) then mret (None, t)
  else match p.(error) with
  | Some _ => mret (None, t)
  | None =>
      let '(key, forward) := make_flow_key p in
      '(t, flow) ← find_or_create it t key p;
      let flow := flow <| f_last_seen := p.(ts) |> in
      let flow := set_dir flow forward (count_packet (get_dir flow forward) p) in
      let '(t, flow) := track_tcp t flow forward p in
      '(t, flow) ← reassemble_and_dissect t flow forward p;
      mret (Some flow, t <| flows_ ::= <[key := flow]> |>)
  end.
End table.

(** ** Expiry and queries *)

Definition terminal (f : Flow) : bool :=
  bool_decide (f.(f_state) = TcpState.Closed) || bool_decide (f.(f_state) = TcpState.Reset).

Definition is_idle (now : timeval) (idle_sec : f64) (f : Flow) : bool :=
  let idle := timeval_diff now f.(f_last_seen) in
  flt idle_sec idle || (terminal f && flt kClosedFlowGraceSec idle).

(** [expire(now, idle_sec)]: the number of flows removed and the table. *)
Definition expire (it : iteration FlowKey Flow) (t : FlowTable) (now : timeval) (idle_sec : f64) : Z * FlowTable :=
  let '(removed, fl) :=
    fold_left (fun acc kf => if is_idle now idle_sec kf.2 then (acc.1 + 1, delete kf.1 acc.2) else acc)
      (iterate it t.(flows_)) (0, t.(flows_)) in
  (removed, t <| flows_ := fl |>).

Definition active_tcp (it : iteration FlowKey Flow) (t : FlowTable) : Z :=
  fold_left (fun n kf =>
      if bool_decide (kf.2.(f_l4) = L4Proto.TCP) && bool_decide (kf.2.(f_state) = TcpState.Established)
      then incr n else n)
    (iterate it t.(flows_)) 0.

(** The comparator of [top]. *)
Definition flow_cmp (sort : FlowSort.t) (x y : Flow) : bool :=
  match sort with
  | FlowSort.Packets => f_packets y <? f_packets x
  | FlowSort.Retransmits =>
      if negb (f_retransmits x =? f_retransmits y) then f_retransmits y <? f_retransmits x
      else f_bytes y <? f_bytes x
  | FlowSort.Recent => flt f0 (timeval_diff x.(f_last_seen) y.(f_last_seen))
  | FlowSort.Rtt =>
      let a := best_rtt_ms x in let b := best_rtt_ms y in
      if flt a f0 then false else if flt b f0 then true else flt b a
  | FlowSort.Bytes => f_bytes y <? f_bytes x
  end.

(** [top]: the first [n] flows in the chosen order. *)
Definition top (sorter : (Flow -> Flow -> bool) -> list Flow -> list Flow) (it : iteration FlowKey Flow)
    (t : FlowTable) (n : Z) (sort : FlowSort.t) : list Flow :=
  keep_best sorter (flow_cmp sort) n (map snd (iterate it t.(flows_))).

(** [app_protocols()]: the protocols counted (as integers), most frequent first. *)
Definition app_protocols (sorter : (Z * Z -> Z * Z -> bool) -> list (Z * Z) -> list (Z * Z))
    (it : iteration Z Z) (t : FlowTable) : list (Z * Z) :=
  sorter (fun a b => b.2 <? a.2) (iterate it t.(app_counts_)).

Definition mean_rtt_ms (it : iteration FlowKey Flow) (t : FlowTable) : f64 :=
  let '(total, n) :=
    fold_left (fun acc kf =>
        let rtt := best_rtt_ms kf.2 in
        if fle f0 rtt then (fadd acc.1 rtt, incr acc.2) else acc)
      (iterate it t.(flows_)) (f0, 0) in
  if n =? 0 then f64_of (-1) else fdiv total (f64_of n).

(** [clear()]. *)
Definition clear (t : FlowTable) : FlowTable := t <| flows_ := ∅ |> <| app_counts_ := ∅ |>.
