(* ===== verification/FlowSpec.v ===== *)
(** * Keys, the TCP state machine and round-trip statistics

    Theorems about the parts of a flow: the canonical key is the same for both
    directions and separates conversations; the observational TCP state machine
    against the segments it has seen; the classification of segments against
    positions in the byte stream; bounds on the per-direction bookkeeping. *)

From S2P Require Import Prelude.
From S2P Require Import Machine.
From S2P Require Import Protocol.
From S2P Require Import Serial.
From S2P Require Import Float.
From S2P Require Import FloatRound.
From S2P Require Import Reassembly.
From S2P Require Import Dissect.
From S2P Require Import Flow.
From S2P Require Import FlowTable.
#[local] Open Scope Z_scope.

(** ** Keys *)

(** The packet of the opposite direction. *)
Definition reply (p : DecodedPacket) : DecodedPacket :=
  p <| src_ip := p.(dst_ip) |> <| dst_ip := p.(src_ip) |> <| sport := p.(dport) |> <| dport := p.(sport) |>.

(** An endpoint of a conversation; the port is 0 for protocols without ports. *)
Definition src_end (p : DecodedPacket) : IpAddress * Z := (p.(src_ip), if has_ports p then p.(sport) else 0).
Definition dst_end (p : DecodedPacket) : IpAddress * Z := (p.(dst_ip), if has_ports p then p.(dport) else 0).

Definition end_le (x y : IpAddress * Z) : bool :=
  ip_ltb x.1 y.1 || (ip_eqb x.1 y.1 && (x.2 <=? y.2)).

Lemma make_flow_key_ends p :
  make_flow_key p =
    if end_le (src_end p) (dst_end p)
    then (mkFlowKey (src_end p).1 (dst_end p).1 (src_end p).2 (dst_end p).2 p.(ip_proto), true)
    else (mkFlowKey (dst_end p).1 (src_end p).1 (dst_end p).2 (src_end p).2 p.(ip_proto), false).
Proof. done. Qed.

Lemma end_le_total x y : ip_wf x.1 -> ip_wf y.1 -> end_le x y = false -> end_le y x = true.
Proof.
  unfold end_le. intros Hx Hy E. apply orb_false_iff in E as [E1 E2].
  destruct (ip_ltb y.1 x.1) eqn:E3; [done|]. simpl.
  assert (x.1 = y.1) as Heq by (by apply ip_ltb_total).
  rewrite Heq in *. assert (Hr : ip_eqb y.1 y.1 = true) by (by apply ip_eqb_spec).
  rewrite Hr in *. simpl in *. breflect. lia.
Qed.

Lemma end_le_antisym x y : ip_wf x.1 -> ip_wf y.1 -> end_le x y = true -> end_le y x = true -> x = y.
Proof.
  unfold end_le. destruct x as [a i], y as [b j]. simpl. intros Hx Hy H1 H2.
  apply orb_true_iff in H1 as [H1|H1], H2 as [H2|H2]; breflect.
  - apply ip_ltb_asym in H1. congruence.
  - apply ip_eqb_spec in H as ->. by rewrite ip_ltb_irrefl in H1.
  - apply ip_eqb_spec in H as ->. by rewrite ip_ltb_irrefl in H2.
  - apply ip_eqb_spec in H as ->. f_equal. lia.
Qed.

(** C16: Both directions of a conversation land in the same table entry: a packet
    and its reply have the same key, and unless the two endpoints are identical
    exactly one of them is "forward". *)
Theorem make_flow_key_symmetric p :
  ip_wf p.(src_ip) -> ip_wf p.(dst_ip) ->
  (make_flow_key (reply p)).1 = (make_flow_key p).1 /\
  (src_end p <> dst_end p -> (make_flow_key (reply p)).2 = negb (make_flow_key p).2).
Proof.
  intros Hs Hd. rewrite !make_flow_key_ends.
  change (src_end (reply p)) with (dst_end p). change (dst_end (reply p)) with (src_end p).
  change (ip_proto (reply p)) with (ip_proto p).
  destruct (end_le (src_end p) (dst_end p)) eqn:E1, (end_le (dst_end p) (src_end p)) eqn:E2; cbn [fst snd negb].
  - assert (src_end p = dst_end p) as Heq by (by apply end_le_antisym). rewrite Heq. split; [done|by intros []].
  - done.
  - done.
  - apply end_le_total in E1; [congruence|done..].
Qed.

Definition sample_packet : DecodedPacket :=
  packet_default <| l3 := L3Proto.IPv4 |> <| l4 := L4Proto.TCP |> <| ip_proto := IPPROTO_TCP_ |>
    <| src_ip := mkIpAddress false (replicate 16 Byte.x09) |>
    <| dst_ip := mkIpAddress false (replicate 16 Byte.x07) |> <| sport := 51000 |> <| dport := 443 |>.

Lemma make_flow_key_symmetric_witness :
  (make_flow_key (reply sample_packet)).1 = (make_flow_key sample_packet).1 /\
  (make_flow_key (reply sample_packet)).2 = true.
Proof.
  destruct (make_flow_key_symmetric sample_packet ltac:(reflexivity) ltac:(reflexivity)) as [H1 H2].
  split; [exact H1|]. rewrite H2 by discriminate. reflexivity.
Defined.

(** C17: The key separates conversations: two packets with the same key carry the
    same protocol between the same two endpoints, in the same or in opposite
    directions, as their "forward" flags say. *)
Theorem make_flow_key_separates p q :
  (make_flow_key p).1 = (make_flow_key q).1 ->
  p.(ip_proto) = q.(ip_proto) /\
  (if eqb (make_flow_key p).2 (make_flow_key q).2
   then src_end p = src_end q /\ dst_end p = dst_end q
   else src_end p = dst_end q /\ dst_end p = src_end q).
Proof.
  rewrite !make_flow_key_ends.
  destruct (end_le (src_end p) (dst_end p)), (end_le (src_end q) (dst_end q)); simpl;
    intros [= H1 H2 H3 H4 H5]; unfold src_end, dst_end in *; simpl in *; split_and!; congruence.
Qed.

Lemma make_flow_key_separates_witness :
  sample_packet.(ip_proto) = (reply sample_packet).(ip_proto) /\
  src_end sample_packet = dst_end (reply sample_packet).
Proof.
  destruct (make_flow_key_separates sample_packet (reply sample_packet) ltac:(reflexivity)) as [H1 [H2 H3]].
  split; [exact H1|exact H2].
Defined.

(** ** Time differences *)

(** The microseconds between two time stamps, and stamps within 34 years of each
    other whose microseconds are in range. *)
Definition gap_us (later earlier : timeval) : Z :=
  (later.(tv_sec) - earlier.(tv_sec)) * 1000000 + (later.(tv_usec) - earlier.(tv_usec)).
Definition comparable (x y : timeval) : Prop :=
  Z.abs (x.(tv_sec) - y.(tv_sec)) < 2 ^ 30 /\ 0 <= x.(tv_usec) < 1000000 /\ 0 <= y.(tv_usec) < 1000000.

(** The fraction of a second: away from the next integer, whatever the rounding. *)
Lemma usec_fraction u :
  Z.abs u < 1000000 ->
  let q := fdiv (f64_of u) (f64_of 1000000) in
  mid q /\
  if u =? 0 then fval q = 0
  else mag 1 (-20) <= Z.abs (fval q) <= mag (2 ^ 20 - 1) (-20) /\ (0 < fval q <-> 0 < u).
Proof.
  intros Hu q. destruct (f64_of_exact u ltac:(lia)) as (_ & Eu & Mu).
  destruct (f64_of_exact 1000000 ltac:(lia)) as (_ & Em & Mm).
  destruct (fdiv_rounds (f64_of u) (f64_of 1000000) Mu Mm) as [Hq Hr];
    [rewrite Em; apply mag_pos; lia|]. fold q in Hq, Hr. rewrite Eu, Em in Hr.
  destruct (representable 1 (-20)) as (l & Hl & El); [done|lia|].
  destruct (representable (-1) (-20)) as (l' & Hl' & El'); [done|lia|].
  destruct (representable (2 ^ 20 - 1) (-20)) as (h & Hh & Eh); [done|lia|].
  destruct (representable (- (2 ^ 20 - 1)) (-20)) as (h' & Hh' & Eh'); [done|lia|].
  pose proof (Hr _ Hl) as Rl. pose proof (Hr _ Hl') as Rl'. pose proof (Hr _ Hh) as Rh.
  pose proof (Hr _ Hh') as Rh'. pose proof (Hr f0 I) as Rz.
  rewrite El, El', Eh, Eh' in *. change (fval f0) with 0 in Rz. clear Hr Eu Em.
  assert (Hs : forall k, mag k 0 = k * 2 ^ 20 * mag 1 (-20) /\ mag k (-20) = k * mag 1 (-20)).
  { intros k. unfold mag. change (0 + 1100) with (20 + (-20 + 1100)). rewrite Z.pow_add_r by lia. lia. }
  assert (Hb : 2 ^ 1100 = 2 ^ 20 * mag 1 (-20)) by (unfold mag; rewrite Z.mul_1_l, <-Z.pow_add_r by lia; done).
  assert (H0 : 0 < mag 1 (-20)) by (apply mag_pos; lia).
  assert (Hlim : 2 ^ 1000 <= mag 1 (-20) /\ mag (2 ^ 20 - 1) (-20) <= 2 ^ 1200) by (vm_compute; split; discriminate).
  rewrite Hb in *. rewrite (proj1 (Hs u)), (proj1 (Hs 1000000)) in *.
  rewrite !(proj2 (Hs (-1))), !(proj2 (Hs (2 ^ 20 - 1))), !(proj2 (Hs (- (2 ^ 20 - 1)))) in *.
  clear Hs Hb. generalize dependent (mag 1 (-20)). intros w. intros.
  assert (Hv : if u =? 0 then fval q = 0
               else w <= Z.abs (fval q) <= (2 ^ 20 - 1) * w /\ (0 < fval q <-> 0 < u)).
  { change (2 ^ 20) with 1048576 in *. destruct (Z.eqb_spec u 0) as [->|Hne]; [nia|].
    destruct (Z.lt_total u 0) as [Hneg|[?|Hpos]]; [|lia|].
    - assert (fval q <= -1 * w) by nia. assert (- (1048576 - 1) * w <= fval q) by nia. lia.
    - assert (1 * w <= fval q) by nia. assert (fval q <= (1048576 - 1) * w) by nia. lia. }
  split; [|done]. apply mid_bounds; [done|]. destruct (u =? 0); [by left|right; lia].
Qed.

(** Comparing a difference with whole seconds is comparing microseconds, although
    the difference is rounded twice. *)
Lemma timeval_diff_lt later earlier n :
  comparable later earlier -> 0 <= n < 2 ^ 30 ->
  flt (f64_of n) (timeval_diff later earlier) = (n * 1000000 <? gap_us later earlier).
Proof.
  intros (Hd & Hu1 & Hu2) Hn. unfold timeval_diff, gap_us.
  set (d := tv_sec later - tv_sec earlier) in *. set (u := tv_usec later - tv_usec earlier).
  assert (Hu : Z.abs u < 1000000) by (unfold u; lia). clearbody d u.
  destruct (f64_of_exact d ltac:(lia)) as (_ & Ed & Md). destruct (f64_of_exact n ltac:(lia)) as (Fn & En & _).
  destruct (usec_fraction u Hu) as [Mq Hq]. set (q := fdiv _ _) in *.
  destruct (fadd_rounds _ _ Md Mq) as [Ft Ht]. rewrite flt_val by done.
  pose proof (Ht _ Fn) as Rn. destruct (representable (n * 2 ^ 20 + 1) (-20)) as (y & Fy & Ey); [lia|lia|].
  pose proof (Ht _ Fy) as Ry. rewrite En, Ed, Ey in *. clear Ht En Ed Ey.
  assert (Hs : forall k, mag k 0 = k * 2 ^ 20 * mag 1 (-20) /\ mag k (-20) = k * mag 1 (-20)).
  { intros k. unfold mag. change (0 + 1100) with (20 + (-20 + 1100)). rewrite Z.pow_add_r by lia. lia. }
  assert (H0 : 0 < mag 1 (-20)) by (apply mag_pos; lia).
  rewrite !(proj1 (Hs _)), ?(proj2 (Hs (n * 2 ^ 20 + 1))), ?(proj2 (Hs (2 ^ 20 - 1))) in *.
  clear Hs. generalize dependent (mag 1 (-20)). intros w. intros.
  change (2 ^ 20) with 1048576 in *. generalize dependent (fval q). intros v. intros.
  destruct (Z.ltb_spec (n * 1000000) (d * 1000000 + u)) as [Hlt|Hge].
  - apply Z.ltb_lt. destruct Ry as [_ Ry]. enough ((n * 1048576 + 1) * w <= d * 1048576 * w + v) by nia.
    destruct (Z.eqb_spec u 0); [nia|]. destruct (Z.le_gt_cases d n); [|nia].
    assert (d = n) as -> by nia. nia.
  - apply Z.ltb_ge. destruct Rn as [Rn _]. apply Rn. destruct (Z.eqb_spec u 0); [nia|].
    destruct (Z.lt_ge_cases d n); [nia|]. assert (d = n) as -> by nia. nia.
Qed.

(** ** Round-trip statistics *)

Definition rtt_limit : f64 := f64_of 60000.

(** The extremes bracket every sample taken, all within the plausible range. *)
Definition rtt_ok (r : RttStats) : Prop :=
  0 <= r.(samples) /\
  (0 < r.(samples) ->
   fle f0 r.(min_ms) = true /\ fle r.(min_ms) r.(last_ms) = true /\
   fle r.(last_ms) r.(max_ms) = true /\ fle r.(max_ms) rtt_limit = true).

Lemma rtt_add_ok r ms : rtt_ok r -> is_num ms -> r.(samples) < 2 ^ 64 - 1 -> rtt_ok (rtt_add r ms).
Proof.
  intros [Hs Hr] Hn Hlim. unfold rtt_add. destruct (_ || _) eqn:E; [done|]. breflect.
  assert (Hlo : fle f0 ms = true) by (by apply flt_false).
  assert (Hhi : fle ms rtt_limit = true) by (by apply flt_false).
  assert (Hu : u64 (samples r + 1) = samples r + 1) by (apply u64_id; unfold in_u64; lia).
  destruct (samples r =? 0) eqn:E0; breflect; unfold rtt_ok; simpl; rewrite Hu; (split; [lia|intros _]).
  - split_and!; auto using fle_refl.
  - destruct (Hr ltac:(lia)) as (H1 & H2 & H3 & H4).
    destruct (fle_num _ _ H1) as [_ Hmin]. destruct (fle_num _ _ H4) as [Hmax _].
    destruct (fmin_spec (min_ms r) ms) as (Ha & Hb & Hc); [done..|].
    destruct (fmax_spec (max_ms r) ms) as (Hd & He & Hf); [done..|].
    split_and!; [|done|done|].
    + by destruct Hc as [-> | ->].
    + by destruct Hf as [-> | ->].
Qed.

(** C28: [RttStats::add] keeps a sound summary of the samples: implausible values
    (negative, or above a minute) leave it unchanged; any other value becomes
    the last sample, and after every call [0 <= min <= last <= max <= 60000] ms
    in IEEE double arithmetic. *)
Theorem rtt_add_sound r ms :
  rtt_ok r -> is_num ms -> r.(samples) < 2 ^ 64 - 1 ->
  rtt_ok (rtt_add r ms) /\
  (if flt ms f0 || flt rtt_limit ms then rtt_add r ms = r
   else (rtt_add r ms).(last_ms) = ms /\ (rtt_add r ms).(samples) = r.(samples) + 1 /\
        (0 < r.(samples) -> fle (rtt_add r ms).(min_ms) r.(min_ms) = true /\
                            fle r.(max_ms) (rtt_add r ms).(max_ms) = true)).
Proof.
  intros Hr Hn Hlim. split; [by apply rtt_add_ok|]. unfold rtt_add, rtt_limit. destruct Hr as [Hs Hr].
  destruct (_ || _) eqn:E; [done|].
  assert (Hu : u64 (samples r + 1) = samples r + 1) by (apply u64_id; unfold in_u64; lia).
  destruct (samples r =? 0) eqn:E0; breflect; simpl; (split_and!; [done|done|]); intros Hp; [lia|].
  destruct (Hr Hp) as (H1 & H2 & H3 & H4).
  destruct (fle_num _ _ H1) as [_ Hmin]. destruct (fle_num _ _ H4) as [Hmax _].
  split; [by apply fmin_spec|by apply fmax_spec].
Qed.

Lemma rtt_add_sound_witness :
  rtt_ok (rtt_add (rtt_add rtt_default (f64_of 12)) (f64_of 7)) /\
  fle (rtt_add (rtt_add rtt_default (f64_of 12)) (f64_of 7)).(min_ms) (f64_of 12) = true.
Proof.
  assert (Hr : rtt_ok (rtt_add rtt_default (f64_of 12))) by (vm_compute; intuition congruence).
  destruct (rtt_add_sound (rtt_add rtt_default (f64_of 12)) (f64_of 7) Hr ltac:(vm_compute; discriminate)
    ltac:(reflexivity)) as [H1 (_ & _ & H3)].
  split; [exact H1|exact (proj1 (H3 eq_refl))].
Defined.

(** ** The TCP state machine *)

(** One TCP segment as the machine sees it: its flags and its direction. *)
Definition seg : Type := (Z * bool).
Definition is_syn (s : seg) : bool := has_flag s.1 TH_SYN.
Definition is_ack (s : seg) : bool := has_flag s.1 TH_ACK.
Definition is_fin (s : seg) : bool := has_flag s.1 TH_FIN.
Definition is_rst (s : seg) : bool := has_flag s.1 TH_RST.

(** What [update] does to the state: it counts the FIN of the segment in its
    direction, then advances the machine. *)
Definition note_fin (flags : Z) (d : DirectionStats) : DirectionStats :=
  if has_flag flags TH_FIN then d <| d_fin ::= incr |> else d.

Definition tcp_seg (f : Flow) (s : seg) : Flow :=
  advance_tcp_state (set_dir f s.2 (note_fin s.1 (get_dir f s.2))) s.1 s.2.

(** The part of a flow the machine reads and writes. *)
Definition tcp_view (f : Flow) : TcpState.t * bool * Z * Z :=
  (f.(f_state), f.(f_handshake_complete), f.(f_fwd).(d_fin), f.(f_rev).(d_fin)).

(** FINs seen from one side. *)
Definition fins (forward : bool) (segs : list seg) : list seg :=
  filter (fun s => is_fin s = true /\ s.2 = forward) segs.

Lemma fins_snoc fwd segs s :
  fins fwd (segs ++ [s]) = fins fwd segs ++ (if is_fin s && eqb s.2 fwd then [s] else []).
Proof.
  unfold fins. rewrite filter_app. f_equal. rewrite filter_cons, filter_nil.
  destruct (decide _) as [[-> ->]|Hn]; [by rewrite eqb_reflx|].
  destruct (is_fin s) eqn:E1, s.2 eqn:E2, fwd; simpl; try done; exfalso; apply Hn; done.
Qed.

Definition no_rst (s : seg) : Prop := is_rst s = false.

(** A SYN/ACK and, no RST in between, a later segment with ACK and without SYN.
    The machine asks no more of that segment: it may carry data or a FIN, and
    come from either side. *)
Definition handshake_seen (segs : list seg) : Prop :=
  exists l1 sa l2 a l3, segs = l1 ++ sa :: l2 ++ a :: l3 /\
    is_syn sa = true /\ is_ack sa = true /\ is_ack a = true /\ is_syn a = false /\
    Forall no_rst (sa :: l2 ++ [a]).

Record tcp_evidence (segs : list seg) (f : Flow) : Prop := {
  ev_fwd : f.(f_fwd).(d_fin) = zlen (fins true segs);
  ev_rev : f.(f_rev).(d_fin) = zlen (fins false segs);
  ev_synack : f.(f_state) = TcpState.SynReceived ->
              exists l1 sa l2, segs = l1 ++ sa :: l2 /\ is_syn sa = true /\ is_ack sa = true /\
                Forall no_rst (sa :: l2);
  ev_handshake : f.(f_handshake_complete) = true -> handshake_seen segs;
  ev_closing : f.(f_state) = TcpState.Closing \/ f.(f_state) = TcpState.Closed ->
               0 < f.(f_fwd).(d_fin) /\ 0 < f.(f_rev).(d_fin);
  ev_finwait : f.(f_state) = TcpState.FinWait -> 0 < f.(f_fwd).(d_fin) \/ 0 < f.(f_rev).(d_fin);
  ev_reset : f.(f_state) = TcpState.Reset -> exists s, s ∈ segs /\ is_rst s = true;
}.

Lemma zlen_filter_le {A} (P : A -> Prop) `{!forall x, Decision (P x)} l : zlen (filter P l) <= zlen l.
Proof. unfold zlen. pose proof (length_filter P l). lia. Qed.

Lemma no_rst_one s : is_rst s = false -> Forall no_rst [s].
Proof. intros Hs. by constructor. Qed.
Lemma no_rst_snoc l s : Forall no_rst l -> is_rst s = false -> Forall no_rst (l ++ [s]).
Proof. intros Hl Hs. apply Forall_app. split; [done|by apply no_rst_one]. Qed.

Lemma handshake_seen_app segs s : handshake_seen segs -> handshake_seen (segs ++ [s]).
Proof.
  intros (l1 & sa & l2 & a & l3 & -> & ?). exists l1, sa, l2, a, (l3 ++ [s]).
  split; [|done]. by rewrite <-app_assoc, <-app_comm_cons, <-app_assoc.
Qed.

(** The machine leaves the directions alone, and its state only depends on the
    flags, the state and the FINs of the other side. *)
Lemma advance_dirs f flags fwd :
  (advance_tcp_state f flags fwd).(f_fwd) = f.(f_fwd) /\ (advance_tcp_state f flags fwd).(f_rev) = f.(f_rev).
Proof. unfold advance_tcp_state. destruct (f_state f); repeat case_test; done. Qed.

Lemma note_fin_counts f s (b : bool) :
  (get_dir f b).(d_fin) < 2 ^ 64 - 1 -> 0 <= (get_dir f b).(d_fin) ->
  (get_dir (tcp_seg f s) b).(d_fin) = (get_dir f b).(d_fin) + (if is_fin s && eqb s.2 b then 1 else 0).
Proof.
  intros Hlt Hge. unfold tcp_seg. set (g := set_dir f s.2 _).
  assert (Hg : get_dir (advance_tcp_state g s.1 s.2) b = get_dir g b)
    by (destruct (advance_dirs g s.1 s.2); destruct b; done).
  rewrite Hg. unfold g, note_fin. fold (is_fin s).
  destruct s as [flags fwd], (is_fin (flags, fwd)), fwd, b; simpl in *; unfold incr;
    rewrite ?u64_id by (unfold in_u64; lia); lia.
Qed.

(** The next state as a function of the state, the flags of the segment and
    whether the other side has sent a FIN. *)
Definition next_state (st : TcpState.t) (s : seg) (other_fin : bool) : TcpState.t :=
  if is_rst s then TcpState.Reset else
  match st with
  | TcpState.None =>
      if is_syn s then if is_ack s then TcpState.SynReceived else TcpState.SynSent
      else TcpState.Established
  | TcpState.SynSent => if is_syn s && is_ack s then TcpState.SynReceived else st
  | TcpState.SynReceived => if is_ack s && negb (is_syn s) then TcpState.Established else st
  | TcpState.Established => if is_fin s then TcpState.FinWait else st
  | TcpState.FinWait => if is_fin s then if other_fin then TcpState.Closing else st else st
  | TcpState.Closing => if is_ack s && negb (is_fin s) then TcpState.Closed else st
  | TcpState.Closed | TcpState.Reset => if is_syn s && negb (is_ack s) then TcpState.SynSent else st
  end.

Lemma advance_next g s :
  f_state (advance_tcp_state g s.1 s.2) = next_state (f_state g) s (0 <? (get_dir g (negb s.2)).(d_fin)) /\
  f_handshake_complete (advance_tcp_state g s.1 s.2) =
    if negb (is_rst s) && bool_decide (f_state g = TcpState.SynReceived) && (is_ack s && negb (is_syn s)) then true
    else if negb (is_rst s) && (bool_decide (f_state g = TcpState.Closed) || bool_decide (f_state g = TcpState.Reset)) &&
            (is_syn s && negb (is_ack s)) then false
    else f_handshake_complete g.
Proof.
  unfold advance_tcp_state, next_state. fold (is_rst s) (is_syn s) (is_ack s) (is_fin s).
  destruct (is_rst s), (f_state g) eqn:Es, (is_syn s), (is_ack s), (is_fin s); simpl; rewrite ?Es;
    try done; by destruct (0 <? _).
Qed.

Lemma advance_state f s :
  f_state (tcp_seg f s) = next_state (f_state f) s (0 <? (get_dir f (negb s.2)).(d_fin)) /\
  f_handshake_complete (tcp_seg f s) =
    if negb (is_rst s) && bool_decide (f_state f = TcpState.SynReceived) && (is_ack s && negb (is_syn s)) then true
    else if negb (is_rst s) && (bool_decide (f_state f = TcpState.Closed) || bool_decide (f_state f = TcpState.Reset)) &&
            (is_syn s && negb (is_ack s)) then false
    else f_handshake_complete f.
Proof.
  unfold tcp_seg. set (g := set_dir f s.2 _).
  assert (Hg : f_state g = f_state f /\ f_handshake_complete g = f_handshake_complete f /\
               get_dir g (negb s.2) = get_dir f (negb s.2)) by (unfold g; by destruct s as [? []]).
  destruct Hg as (H1 & H2 & H3). rewrite <-H1, <-H2, <-H3. apply advance_next.
Qed.

Lemma tcp_evidence_step segs f s :
  zlen segs < 2 ^ 64 - 1 -> tcp_evidence segs f -> tcp_evidence (segs ++ [s]) (tcp_seg f s).
Proof.
  intros Hlen []. pose proof (zlen_filter_le (fun s => is_fin s = true /\ s.2 = true) segs).
  pose proof (zlen_filter_le (fun s => is_fin s = true /\ s.2 = false) segs).
  pose proof (zlen_nonneg (fins true segs)). pose proof (zlen_nonneg (fins false segs)).
  fold (fins true segs) in *. fold (fins false segs) in *.
  pose proof (note_fin_counts f s true) as Ht. pose proof (note_fin_counts f s false) as Hf.
  cbn [get_dir] in Ht, Hf. rewrite ev_fwd0, ev_rev0 in *.
  specialize (Ht ltac:(lia) ltac:(lia)). specialize (Hf ltac:(lia) ltac:(lia)).
  assert (Hown : is_fin s = true -> 0 < (f_fwd (tcp_seg f s)).(d_fin) \/ 0 < (f_rev (tcp_seg f s)).(d_fin)).
  { intros E. rewrite Ht, Hf, E. destruct s as [? []]; simpl; lia. }
  assert (Hboth : is_fin s = true -> 0 < (get_dir f (negb s.2)).(d_fin) ->
    0 < (f_fwd (tcp_seg f s)).(d_fin) /\ 0 < (f_rev (tcp_seg f s)).(d_fin)).
  { intros E. rewrite Ht, Hf, E. destruct s as [? []]; simpl; lia. }
  assert (Hkeep : (f_fwd f).(d_fin) <= (f_fwd (tcp_seg f s)).(d_fin) /\
                  (f_rev f).(d_fin) <= (f_rev (tcp_seg f s)).(d_fin)).
  { rewrite Ht, Hf, ev_fwd0, ev_rev0. destruct (_ && _), (_ && _); lia. }
  rewrite ev_fwd0, ev_rev0 in *.
  pose proof (advance_state f s) as (Hst & Hhs).
  constructor.
  - rewrite Ht, fins_snoc, zlen_app. by destruct (is_fin s && eqb s.2 true).
  - rewrite Hf, fins_snoc, zlen_app. by destruct (is_fin s && eqb s.2 false).
  - intros E. rewrite Hst in E. unfold next_state in E.
    destruct (is_rst s) eqn:E0, (f_state f) eqn:Es, (is_syn s) eqn:E1, (is_ack s) eqn:E2, (is_fin s); simpl in E;
      try done; try (destruct (0 <? _); done); try (exists segs, s, []; by split_and!; auto using no_rst_one);
      destruct (ev_synack0 eq_refl) as (l1 & sa & l2 & -> & Hs1 & Hs2 & Hs3); exists l1, sa, (l2 ++ [s]);
      (split; [by rewrite <-app_assoc|split_and!; try done]); rewrite app_comm_cons;
      by apply no_rst_snoc.
  - intros E. rewrite Hhs in E.
    match type of E with (if ?c then _ else if ?c' then _ else _) = _ =>
      destruct c eqn:E1; [|destruct c'; [done|]] end.
    + apply andb_true_iff in E1 as [E1 Ea]. apply andb_true_iff in E1 as [Er Es].
      apply bool_decide_eq_true in Es. destruct (ev_synack0 Es) as (l1 & sa & l2 & -> & Hsa1 & Hsa2 & Hsa3).
      apply andb_true_iff in Ea as [Ea Esy]. apply negb_true_iff in Esy.
      apply negb_true_iff in Er. exists l1, sa, l2, s, []. split_and!; try done; [by rewrite <-app_assoc|].
      rewrite app_comm_cons. by apply no_rst_snoc.
    + by apply handshake_seen_app, ev_handshake0.
  - intros E. rewrite Hst in E. unfold next_state in E.
    destruct (is_rst s), (f_state f) eqn:Es, (is_syn s) eqn:E1, (is_ack s) eqn:E2, (is_fin s) eqn:E3; simpl in E;
      try (by destruct E); try (destruct (ev_closing0 ltac:(auto)); lia);
      destruct (0 <? _) eqn:E4; breflect; try (by destruct E); by apply Hboth.
  - intros E. rewrite Hst in E. unfold next_state in E.
    destruct (is_rst s), (f_state f) eqn:Es, (is_syn s) eqn:E1, (is_ack s) eqn:E2, (is_fin s) eqn:E3; simpl in E;
      try done; try (by apply Hown); destruct (ev_finwait0 eq_refl); lia.
  - intros E. rewrite Hst in E. unfold next_state in E. destruct (is_rst s) eqn:E0.
    { exists s. split; [|done]. apply elem_of_app. right. by left. }
    destruct (f_state f) eqn:Es, (is_syn s) eqn:E1, (is_ack s) eqn:E2, (is_fin s) eqn:E3; simpl in E;
      try done; try (destruct (0 <? _); done);
      destruct (ev_reset0 eq_refl) as (x & Hx & ?); exists x; (split; [|done]); apply elem_of_app; by left.
Qed.

Definition tcp_run (k : FlowKey) (segs : list seg) : Flow := fold_left tcp_seg segs (flow_default k).

Lemma tcp_run_snoc k segs s : tcp_run k (segs ++ [s]) = tcp_seg (tcp_run k segs) s.
Proof. unfold tcp_run. by rewrite fold_left_app. Qed.

Lemma tcp_run_evidence k segs : zlen segs < 2 ^ 64 -> tcp_evidence segs (tcp_run k segs).
Proof.
  induction segs as [|s segs IH] using rev_ind; intros Hl.
  - constructor; simpl; try done; intros [?|?]; done.
  - rewrite tcp_run_snoc. rewrite zlen_app in Hl. change (zlen [s]) with 1 in Hl.
    apply tcp_evidence_step; [lia|apply IH; lia].
Qed.

Lemma fins_in fwd segs : 0 < zlen (fins fwd segs) -> exists s, s ∈ segs /\ is_fin s = true /\ s.2 = fwd.
Proof.
  intros Hp. destruct (fins fwd segs) as [|s l] eqn:E; [vm_compute in Hp; done|].
  assert (Hs : s ∈ fins fwd segs) by (rewrite E; by left).
  unfold fins in Hs. apply list_elem_of_filter in Hs as [[? ?] ?]. by exists s.
Qed.

(** C20: The TCP states are evidence-based: for every sequence of segments seen on
    a new flow, a completed handshake means that a SYN/ACK was seen and after it,
    with no RST in between, a segment with ACK and without SYN (whether a pure
    ACK, data or a FIN); CLOSING and CLOSED mean that each side has sent a FIN;
    FIN_WAIT that some side has; RESET that an RST was seen. *)
Theorem tcp_states_sound k segs :
  zlen segs < 2 ^ 64 ->
  let f := tcp_run k segs in
  (f.(f_handshake_complete) = true -> handshake_seen segs) /\
  (f.(f_state) = TcpState.Closing \/ f.(f_state) = TcpState.Closed ->
     forall side, exists s, s ∈ segs /\ is_fin s = true /\ s.2 = side) /\
  (f.(f_state) = TcpState.FinWait -> exists s, s ∈ segs /\ is_fin s = true) /\
  (f.(f_state) = TcpState.Reset -> exists s, s ∈ segs /\ is_rst s = true).
Proof.
  intros Hl f. destruct (tcp_run_evidence k segs Hl). fold f in ev_fwd0, ev_rev0, ev_handshake0, ev_closing0, ev_finwait0, ev_reset0.
  rewrite ev_fwd0, ev_rev0 in *. split_and!; [done| | |done].
  - intros Hs side. destruct (ev_closing0 Hs). apply fins_in. by destruct side.
  - intros Hs. destruct (ev_finwait0 Hs) as [Hp|Hp]; apply fins_in in Hp as (s & ? & ? & _); by exists s.
Qed.

Definition some_key : FlowKey := mkFlowKey ip_default ip_default 443 51000 6.

Definition SYN : Z := TH_SYN.
Definition SYNACK : Z := Z.lor TH_SYN TH_ACK.
Definition ACK : Z := TH_ACK.
Definition FINACK : Z := Z.lor TH_FIN TH_ACK.

Lemma tcp_states_sound_witness :
  handshake_seen [(SYN, false); (SYNACK, true); (ACK, false)].
Proof.
  apply (tcp_states_sound some_key [(SYN, false); (SYNACK, true); (ACK, false)]); reflexivity.
Defined.

(** A segment without SYN, FIN and RST. *)
Definition plain (s : seg) : Prop := is_rst s = false /\ is_syn s = false /\ is_fin s = false.

Definition state_of (f : Flow) : TcpState.t * bool := (f.(f_state), f.(f_handshake_complete)).

Lemma tcp_seg_state f s :
  state_of (tcp_seg f s) =
    (next_state (f_state f) s (0 <? (get_dir f (negb s.2)).(d_fin)),
     if negb (is_rst s) && bool_decide (f_state f = TcpState.SynReceived) && (is_ack s && negb (is_syn s)) then true
     else if negb (is_rst s) && (bool_decide (f_state f = TcpState.Closed) || bool_decide (f_state f = TcpState.Reset)) &&
             (is_syn s && negb (is_ack s)) then false
     else f_handshake_complete f).
Proof. unfold state_of. by destruct (advance_state f s) as [-> ->]. Qed.

Lemma plain_run k segs data st :
  st = TcpState.Established \/ st = TcpState.FinWait -> Forall plain data ->
  state_of (tcp_run k segs) = (st, true) -> state_of (tcp_run k (segs ++ data)) = (st, true).
Proof.
  intros Hst Hd. revert segs. induction Hd as [|s data (H1 & H2 & H3) _ IH]; intros segs Hs.
  { by rewrite app_nil_r. }
  replace (segs ++ s :: data) with ((segs ++ [s]) ++ data) by (by rewrite <-app_assoc).
  apply IH. rewrite tcp_run_snoc, tcp_seg_state. injection Hs as -> ->. unfold next_state. rewrite H1, H2, H3.
  by destruct Hst as [-> | ->].
Qed.

(** The three-way handshake, state by state. *)
Lemma handshake_states k syn synack ack :
  is_syn syn = true -> is_ack syn = false -> is_rst syn = false ->
  is_syn synack = true -> is_ack synack = true -> is_rst synack = false ->
  is_ack ack = true -> plain ack ->
  state_of (tcp_run k [syn]) = (TcpState.SynSent, false) /\
  state_of (tcp_run k [syn; synack]) = (TcpState.SynReceived, false) /\
  state_of (tcp_run k [syn; synack; ack]) = (TcpState.Established, true).
Proof.
  intros Hs1 Hs2 Hs3 Ha1 Ha2 Ha3 Hk1 (Hk2 & Hk3 & _).
  assert (H1 : state_of (tcp_run k [syn]) = (TcpState.SynSent, false)).
  { change [syn] with ([] ++ [syn]). rewrite tcp_run_snoc, tcp_seg_state. unfold next_state.
    by rewrite Hs1, Hs2, Hs3. }
  assert (H2 : state_of (tcp_run k [syn; synack]) = (TcpState.SynReceived, false)).
  { change [syn; synack] with ([syn] ++ [synack]). rewrite tcp_run_snoc, tcp_seg_state.
    injection H1 as -> ->. unfold next_state. by rewrite Ha1, Ha2, Ha3. }
  split_and!; [done|done|]. change [syn; synack; ack] with ([syn; synack] ++ [ack]).
  rewrite tcp_run_snoc, tcp_seg_state. injection H2 as -> ->. unfold next_state. by rewrite Hk1, Hk2, Hk3.
Qed.

Lemma fin_counted k segs s segs' :
  is_fin s = true -> zlen (segs ++ s :: segs') < 2 ^ 64 ->
  0 < (get_dir (tcp_run k (segs ++ s :: segs')) s.2).(d_fin).
Proof.
  intros Hs Hlen. destruct (tcp_run_evidence k (segs ++ s :: segs') Hlen) as [Hc1 Hc2 _ _ _ _ _].
  assert (Hf : 0 < zlen (fins s.2 (segs ++ s :: segs'))).
  { unfold fins. rewrite filter_app, filter_cons_True, zlen_app, zlen_cons by done.
    match goal with |- 0 < zlen ?a + (1 + zlen ?b) => pose proof (zlen_nonneg a); pose proof (zlen_nonneg b) end.
    lia. }
  destruct s as [fl []]; simpl in *; lia.
Qed.

(** C21: A complete connection walks through every state: the SYN leads to
    SYN_SENT, the SYN/ACK to SYN_RECV, the ACK to ESTABLISHED with the handshake
    recorded, and any amount of data keeps it there; a FIN from either side opens
    FIN_WAIT, which data does not leave; the FIN of the other side leads to
    CLOSING and the last ACK to CLOSED. *)
Theorem tcp_lifecycle k syn synack ack data fin1 data' fin2 last :
  is_syn syn = true -> is_ack syn = false -> is_rst syn = false ->
  is_syn synack = true -> is_ack synack = true -> is_rst synack = false ->
  is_ack ack = true -> plain ack -> Forall plain data -> Forall plain data' ->
  is_fin fin1 = true -> is_rst fin1 = false -> is_fin fin2 = true -> is_rst fin2 = false ->
  fin2.2 = negb fin1.2 -> is_ack last = true -> plain last ->
  let segs := [syn; synack; ack] ++ data in
  zlen (segs ++ fin1 :: data' ++ [fin2; last]) < 2 ^ 64 ->
  state_of (tcp_run k []) = (TcpState.None, false) /\
  state_of (tcp_run k [syn]) = (TcpState.SynSent, false) /\
  state_of (tcp_run k [syn; synack]) = (TcpState.SynReceived, false) /\
  state_of (tcp_run k [syn; synack; ack]) = (TcpState.Established, true) /\
  state_of (tcp_run k segs) = (TcpState.Established, true) /\
  state_of (tcp_run k (segs ++ [fin1])) = (TcpState.FinWait, true) /\
  state_of (tcp_run k (segs ++ fin1 :: data')) = (TcpState.FinWait, true) /\
  state_of (tcp_run k ((segs ++ fin1 :: data') ++ [fin2])) = (TcpState.Closing, true) /\
  state_of (tcp_run k (((segs ++ fin1 :: data') ++ [fin2]) ++ [last])) = (TcpState.Closed, true).
Proof.
  intros Hs1 Hs2 Hs3 Ha1 Ha2 Ha3 Hk1 Hk2 Hd Hd' Hf1 Hf2 Hg1 Hg2 Hdir Hl1 (Hl2 & _ & Hl3) segs Hlen.
  destruct (handshake_states k syn synack ack) as (H1 & H2 & H3); [done..|].
  assert (He : state_of (tcp_run k segs) = (TcpState.Established, true)) by (by apply plain_run; [left| |]).
  clearbody segs.
  assert (Hf : state_of (tcp_run k (segs ++ [fin1])) = (TcpState.FinWait, true)).
  { rewrite tcp_run_snoc, tcp_seg_state. injection He as -> ->. unfold next_state. by rewrite Hf1, Hf2. }
  assert (Hw : state_of (tcp_run k (segs ++ fin1 :: data')) = (TcpState.FinWait, true)).
  { replace (segs ++ fin1 :: data') with ((segs ++ [fin1]) ++ data') by (by rewrite <-app_assoc).
    by apply plain_run; [right| |]. }
  assert (Hfin : 0 < (get_dir (tcp_run k (segs ++ fin1 :: data')) (negb fin2.2)).(d_fin)).
  { rewrite Hdir, negb_involutive. apply fin_counted; [done|].
    revert Hlen. rewrite !zlen_app, !zlen_cons, zlen_app. pose proof (zlen_nonneg [fin2; last]). lia. }
  assert (Hc : state_of (tcp_run k ((segs ++ fin1 :: data') ++ [fin2])) = (TcpState.Closing, true)).
  { rewrite tcp_run_snoc, tcp_seg_state. injection Hw as -> ->. unfold next_state.
    by rewrite (proj2 (Z.ltb_lt _ _) Hfin), Hg1, Hg2. }
  split_and!; try done. rewrite tcp_run_snoc, tcp_seg_state. injection Hc as -> ->. unfold next_state.
  by rewrite Hl1, Hl2, Hl3.
Qed.

Lemma tcp_lifecycle_witness :
  state_of (tcp_run some_key [(SYN, false); (SYNACK, true); (ACK, false); (ACK, true); (FINACK, true);
                              (ACK, false); (FINACK, false)]) = (TcpState.Closing, true).
Proof.
  apply (tcp_lifecycle some_key (SYN, false) (SYNACK, true) (ACK, false) [(ACK, true)] (FINACK, true)
           [(ACK, false)] (FINACK, false) (ACK, true)); by repeat constructor.
Defined.

(** When a closed tuple is reused, the FIN counters of the old connection
    still count: on the new connection one side's FIN, sent twice, is taken for
    FINs of both sides, and the next ACK closes a connection whose other half is
    still open. *)
Lemma tcp_reuse_confuses_fins :
  let old := [(SYN, false); (SYNACK, true); (ACK, false); (FINACK, false); (FINACK, true); (ACK, false)] in
  let new := [(SYN, false); (SYNACK, true); (ACK, false); (FINACK, false); (FINACK, false); (ACK, true)] in
  state_of (tcp_run some_key old) = (TcpState.Closed, true) /\
  state_of (tcp_run some_key new) = (TcpState.FinWait, true) /\
  state_of (tcp_run some_key (old ++ new)) = (TcpState.Closed, true).
Proof. vm_compute. done. Qed.
