(* ===== verification/SeqSpec.v ===== *)
(** * Retransmission detection against stream positions

    [track_sequence] compares wrapped 32-bit numbers.  Its specification
    [seg_verdict] works on unbounded positions in the byte stream of the
    direction; the refinement theorem shows that within half of the sequence
    space the two agree, wherever the numbers wrap.  The other theorems bound the
    bookkeeping and show what the verdicts mean for ordered and for reordered
    streams. *)

From S2P Require Import Prelude.
From S2P Require Import Machine.
From S2P Require Import Protocol.
From S2P Require Import Serial.
From S2P Require Import Float.
From S2P Require Import Reassembly.
From S2P Require Import Dissect.
From S2P Require Import Flow.
From S2P Require Import FlowTable.
#[local] Open Scope Z_scope.

(** ** The specification on positions *)

Inductive verdict := InOrder | OutOfOrder | Retransmission.

(** The first hole that the segment [[s, e)] touches, shortened. *)
Fixpoint fill_hole (s e : Z) (holes : list (Z * Z)) : option (list (Z * Z)) :=
  match holes with
  | [] => None
  | (lo, hi) :: rest =>
      if (s <? hi) && (lo <? e) then
        if (hi <=? e) && (s <=? lo) then Some rest
        else if s <=? lo then Some ((e, hi) :: rest) else Some ((lo, s) :: rest)
      else option_map (cons (lo, hi)) (fill_hole s e rest)
  end.

(** The verdict on [[s, e)] when the highest position seen is [top]. *)
Definition seg_verdict (dup : bool) (s e top : Z) (holes : list (Z * Z)) : verdict * Z * list (Z * Z) :=
  if dup then (Retransmission, top, holes)
  else if e <=? top then
    match fill_hole s e holes with
    | Some holes => (OutOfOrder, top, holes)
    | None => (Retransmission, top, holes)
    end
  else if top <? s then (OutOfOrder, e, push_capped kMaxTrackedHoles holes (top, s))
  else (InOrder, e, holes).

(** ** Refinement *)

Section refinement.
Variables (base lo : Z).

(** Positions the comparison is exact for. *)
Definition near (x : Z) : Prop := lo <= x < lo + 2 ^ 31.

Definition wrap_hole (h : Z * Z) : Z * Z := (seq_at base h.1, seq_at base h.2).

Lemma near_diff x y : near x -> near y -> - 2 ^ 31 <= x - y < 2 ^ 31.
Proof. unfold near. lia. Qed.

Lemma push_capped_map {A B} (f : A -> B) cap q x :
  push_capped cap (map f q) (f x) = map f (push_capped cap q x).
Proof.
  unfold push_capped. change [f x] with (map f [x]). rewrite <-map_app.
  unfold zlen. rewrite length_map. case_test; [|done]. by destruct (q ++ [x]).
Qed.

Lemma fills_known_hole_wrap s e holes :
  near s -> near e -> Forall (fun h => near h.1 /\ near h.2) holes ->
  fills_known_hole (seq_at base s) (seq_at base e) (map wrap_hole holes) =
    option_map (map wrap_hole) (fill_hole s e holes).
Proof.
  intros Hs He Hh. induction Hh as [|[a b] holes [Ha Hb] _ IH]; [done|].
  cbn [map wrap_hole fst snd fills_known_hole fill_hole]. simpl in Ha, Hb. unfold ranges_overlap.
  rewrite !seq_lt_at, !seq_le_at by (by apply near_diff).
  case_test; [|rewrite IH; by destruct (fill_hole s e holes)].
  by repeat case_test.
Qed.

(** [dir] stands at [top] with the holes [holes]. *)
Definition stands (dir : DirectionStats) (top : Z) (holes : list (Z * Z)) : Prop :=
  dir.(d_seq_valid) = true /\ dir.(d_next_seq) = seq_at base top /\
  dir.(d_holes) = map wrap_hole holes /\ near top /\ Forall (fun h => near h.1 /\ near h.2) holes.

Definition counts (v w : verdict) : Z :=
  match v, w with
  | OutOfOrder, OutOfOrder | Retransmission, Retransmission => 1
  | _, _ => 0
  end.

Lemma track_sequence_wrap t dir p s e top holes :
  stands dir top holes -> near s -> near e -> s < e -> p.(seqno) = seq_at base s ->
  let fp := segment_fingerprint p.(seqno) (e - s) in
  let dup := bool_decide (fp ∈ dir.(d_recent_segments)) in
  let '(v, top', holes') := seg_verdict dup s e top holes in
  track_sequence t dir p (e - s) =
    (match v with Retransmission => true | _ => false end,
     t <| total_data_segments_ ::= incr |>
       <| total_retransmits_ := if match v with Retransmission => true | _ => false end
                                then incr t.(total_retransmits_) else t.(total_retransmits_) |>
       <| total_out_of_order_ := if match v with OutOfOrder => true | _ => false end
                                 then incr t.(total_out_of_order_) else t.(total_out_of_order_) |>,
     dir <| d_next_seq := seq_at base top' |> <| d_holes := map wrap_hole holes' |>
         <| d_retransmits := if match v with Retransmission => true | _ => false end
                             then incr dir.(d_retransmits) else dir.(d_retransmits) |>
         <| d_out_of_order := if match v with OutOfOrder => true | _ => false end
                              then incr dir.(d_out_of_order) else dir.(d_out_of_order) |>
         <| d_recent_segments ::= fun q => push_capped kRecentSegmentWindow q fp |>).
Proof.
  intros (Hv & Hn & Hh & Ht & Hhs) Hs He Hse Hp fp dup.
  unfold track_sequence. rewrite (proj2 (Z.eqb_neq (e - s) 0)) by lia. fold fp dup. cbv zeta.
  rewrite Hv. cbn [negb]. unfold seg_verdict. destruct dup.
  { destruct t, dir. simpl in *. by subst. }
  rewrite Hp, seq_at_add. replace (s + (e - s)) with e by lia. rewrite Hn, Hh.
  rewrite seq_le_at, seq_gt_at by (by apply near_diff).
  rewrite fills_known_hole_wrap by done.
  destruct (e <=? top).
  - destruct (fill_hole s e holes); destruct t, dir; simpl in *; by subst.
  - destruct (top <? s); [|destruct t, dir; simpl in *; by subst].
    destruct t, dir; simpl in *; subst. change (seq_at base top, seq_at base s) with (wrap_hole (top, s)).
    by rewrite push_capped_map.
Qed.
End refinement.

(** C13: Retransmission detection is exact on stream positions: for a data segment
    [[s, e)] of a direction whose highest position is [top] and whose known
    missing ranges are [holes] (all within 2^31 bytes, anywhere around the wrap of
    the sequence numbers), [track_sequence] gives the verdict, the new position,
    the new holes and the counter increments of the specification [seg_verdict],
    those of the direction and those of the whole table. *)
Theorem track_sequence_exact base lo t dir p s e top holes :
  stands base lo dir top holes -> near lo s -> near lo e -> s < e -> p.(seqno) = seq_at base s ->
  let dup := bool_decide (segment_fingerprint p.(seqno) (e - s) ∈ dir.(d_recent_segments)) in
  let '(v, top', holes') := seg_verdict dup s e top holes in
  let '(retransmit, t', dir') := track_sequence t dir p (e - s) in
  retransmit = match v with Retransmission => true | _ => false end /\
  dir'.(d_next_seq) = seq_at base top' /\ dir'.(d_holes) = map (wrap_hole base) holes' /\
  t'.(total_data_segments_) = incr t.(total_data_segments_) /\
  (v = Retransmission -> dir'.(d_retransmits) = incr dir.(d_retransmits) /\
                         dir'.(d_out_of_order) = dir.(d_out_of_order)) /\
  (v = OutOfOrder -> dir'.(d_out_of_order) = incr dir.(d_out_of_order) /\
                     dir'.(d_retransmits) = dir.(d_retransmits)) /\
  (v = InOrder -> dir'.(d_retransmits) = dir.(d_retransmits) /\
                  dir'.(d_out_of_order) = dir.(d_out_of_order)) /\
  t'.(total_retransmits_) =
    match v with Retransmission => incr t.(total_retransmits_) | _ => t.(total_retransmits_) end /\
  t'.(total_out_of_order_) =
    match v with OutOfOrder => incr t.(total_out_of_order_) | _ => t.(total_out_of_order_) end.
Proof.
  intros Hst Hs He Hse Hp dup.
  pose proof (track_sequence_wrap base lo t dir p s e top holes Hst Hs He Hse Hp) as Ht. cbv zeta in Ht.
  fold dup in Ht. destruct (seg_verdict dup s e top holes) as [[v top'] holes']. rewrite Ht.
  by destruct v.
Qed.

(** Position 40 of the stream has the sequence number 2^32 - 60; the segment
    [70, 120) fills the front of the hole [60, 130) and crosses the wrap. *)
Lemma track_sequence_exact_witness :
  let base := 4294967196 in
  let dir := dir_default <| d_seq_valid := true |> <| d_next_seq := seq_at base 200 |>
               <| d_holes := [(seq_at base 60, seq_at base 130)] |> in
  let p := packet_default <| seqno := seq_at base 50 |> in
  let '(retransmit, _, dir') := track_sequence (new_table 1) dir p 70 in
  retransmit = false /\ dir'.(d_holes) = [(seq_at base 120, seq_at base 130)] /\ seq_at base 120 = 20.
Proof.
  pose proof (track_sequence_exact 4294967196 0 (new_table 1)
    (dir_default <| d_seq_valid := true |> <| d_next_seq := seq_at 4294967196 200 |>
       <| d_holes := [(seq_at 4294967196 60, seq_at 4294967196 130)] |>)
    (packet_default <| seqno := seq_at 4294967196 50 |>) 50 120 200 [(60, 130)]) as H.
  specialize (H ltac:(split_and!; try reflexivity; repeat constructor; vm_compute; congruence)
    ltac:(split; vm_compute; congruence) ltac:(split; vm_compute; congruence) ltac:(reflexivity) ltac:(reflexivity)).
  split_and!; [exact (proj1 H)|exact (proj1 (proj2 (proj2 H)))|reflexivity].
Defined.

(** ** What the verdicts mean *)

(** The segment touches a known missing range. *)
Definition touches (s e : Z) (holes : list (Z * Z)) : Prop := exists h, h ∈ holes /\ s < h.2 /\ h.1 < e.

Lemma fill_hole_touches s e holes : is_Some (fill_hole s e holes) <-> touches s e holes.
Proof.
  unfold touches. induction holes as [|[a b] holes IH]; cbn [fill_hole].
  { split; [by intros []|]. intros (h & Hh & _). by apply not_elem_of_nil in Hh. }
  destruct ((s <? b) && (a <? e)) eqn:E.
  - apply andb_true_iff in E as [E1 E2]. breflect. split.
    + intros _. exists (a, b). split; [by left|done].
    + intros _. repeat case_test; by eexists.
  - assert (Hn : ~ (s < b /\ a < e)).
    { intros [? ?]. rewrite (proj2 (Z.ltb_lt _ _)), (proj2 (Z.ltb_lt _ _)) in E by done. done. }
    destruct (fill_hole s e holes) eqn:E2; simpl; split.
    + intros _. destruct (proj1 IH) as (h & Hh & ?); [by eexists|]. exists h. split; [by right|done].
    + intros _. by eexists.
    + by intros [].
    + intros (h & Hh & ?). apply elem_of_cons in Hh as [->|Hh]; [done|].
      destruct (proj2 IH) as [? [=]]. by exists h.
Qed.

(** A segment that lies entirely below the highest position counts as a
    retransmission exactly when it was seen before or touches no known missing
    range; data that was only delayed is counted as out of order. *)
Lemma seg_verdict_meaning dup s e top holes :
  e <= top ->
  (seg_verdict dup s e top holes).1.1 = Retransmission <-> dup = true \/ ~ touches s e holes.
Proof.
  intros He. unfold seg_verdict. rewrite <-fill_hole_touches. destruct dup; [naive_solver|].
  rewrite (proj2 (Z.leb_le _ _)) by done.
  destruct (fill_hole s e holes) as [h|]; simpl; split; try done.
  - intros [?|Hn]; [done|]. exfalso. apply Hn. by eexists.
  - intros _. right. by intros [].
Qed.

(** A delayed segment in the middle of a missing range loses the tail of that
    range: the hole is cut at the front of the segment, so the rest of the missing
    data no longer counts as missing, and when it arrives it touches no hole (its
    verdict is "retransmission"). *)
Lemma hole_tail_lost base lo s e hi :
  lo < s -> s < e -> e < hi -> hi < lo + 2 ^ 31 ->
  exists holes, fills_known_hole (seq_at base s) (seq_at base e) [(seq_at base lo, seq_at base hi)] = Some holes /\
    fills_known_hole (seq_at base e) (seq_at base hi) holes = None.
Proof.
  intros H1 H2 H3 H4.
  change [(seq_at base lo, seq_at base hi)] with (map (wrap_hole base) [(lo, hi)]).
  rewrite (fills_known_hole_wrap base lo) by (unfold near; repeat constructor; simpl; lia).
  assert (E : fill_hole s e [(lo, hi)] = Some [(lo, s)]).
  { cbn [fill_hole]. rewrite (proj2 (Z.ltb_lt _ _)), (proj2 (Z.ltb_lt _ _)), (proj2 (Z.leb_gt _ _)) by lia.
    by rewrite (proj2 (Z.leb_gt s lo)) by lia. }
  rewrite E. cbn [option_map]. eexists. split; [done|].
  rewrite (fills_known_hole_wrap base lo) by (unfold near; repeat constructor; simpl; lia).
  cbn [fill_hole]. by rewrite (proj2 (Z.ltb_ge e s)) by lia.
Qed.

Lemma hole_tail_lost_witness :
  exists holes, fills_known_hole (seq_at 0 200) (seq_at 0 300) [(seq_at 0 100, seq_at 0 400)] = Some holes /\
    fills_known_hole (seq_at 0 300) (seq_at 0 400) holes = None.
Proof. apply hole_tail_lost; lia. Defined.

(** ** Ordered streams *)

Lemma push_capped_Forall {A} (P : A -> Prop) cap q x :
  Forall P q -> P x -> Forall P (push_capped cap q x).
Proof.
  intros Hq Hx. unfold push_capped. assert (Hqx : Forall P (q ++ [x])) by (apply Forall_app; by repeat constructor).
  case_test; [|done]. by destruct Hqx.
Qed.

Lemma zlen_push_capped {A} cap (q : list A) x :
  0 <= cap -> zlen q <= cap -> zlen (push_capped cap q x) <= cap.
Proof.
  intros Hc Hq. unfold push_capped. destruct (_ <? _) eqn:E; breflect; [|done].
  rewrite zlen_app in E. destruct q as [|y q]; simpl; [rewrite zlen_nil; lia|].
  autorewrite with zlen in *. lia.
Qed.

Lemma fingerprint_val seq len : in_u32 len -> segment_fingerprint seq len = seq * 2 ^ 32 + len.
Proof. intros. unfold segment_fingerprint. by rewrite lor_shiftl_add. Qed.

Lemma fingerprint_inj s l s' l' :
  in_u32 l -> in_u32 l' -> segment_fingerprint s l = segment_fingerprint s' l' -> s = s' /\ l = l'.
Proof. intros Hl Hl' E. rewrite !fingerprint_val in E by done. unfold in_u32 in *. lia. Qed.

(** The data segments of lengths [lens], back to back from position [x]. *)
Fixpoint feed_ordered (base x : Z) (lens : list Z) (t : FlowTable) (dir : DirectionStats)
    : list bool * FlowTable * DirectionStats :=
  match lens with
  | [] => ([], t, dir)
  | n :: lens =>
      let '(r, t, dir) := track_sequence t dir (packet_default <| seqno := seq_at base x |>) n in
      let '(rs, t, dir) := feed_ordered base (x + n) lens t dir in
      (r :: rs, t, dir)
  end.

Definition lens_sum (lens : list Z) : Z := foldr Z.add 0 lens.

Record ordered_dir (base x : Z) (dir : DirectionStats) : Prop := {
  od_valid : dir.(d_seq_valid) = true;
  od_next : dir.(d_next_seq) = seq_at base x;
  od_holes : dir.(d_holes) = [];
  od_clean : dir.(d_retransmits) = 0 /\ dir.(d_out_of_order) = 0;
  od_recent : Forall (fun fp => exists off n, 0 <= off < x /\ in_u32 n /\
                                  fp = segment_fingerprint (seq_at base off) n) dir.(d_recent_segments);
}.

Lemma ordered_step base x n t dir :
  ordered_dir base x dir -> 0 <= x -> 0 < n -> n < 2 ^ 31 -> x + n < 2 ^ 32 ->
  let '(r, _, dir') := track_sequence t dir (packet_default <| seqno := seq_at base x |>) n in
  r = false /\ ordered_dir base (x + n) dir'.
Proof.
  intros [] Hx Hn Hn2 Hsum.
  pose proof (track_sequence_wrap base x t dir (packet_default <| seqno := seq_at base x |>) x (x + n) x []) as Ht.
  replace (x + n - x) with n in Ht by lia. cbv zeta in Ht.
  rewrite bool_decide_false in Ht.
  2: { intros Hin. apply (proj1 (Forall_forall _ _) od_recent0) in Hin as (off & k & Hoff & Hk & E).
       apply fingerprint_inj in E as [E _]; [|unfold in_u32; lia|done].
       pose proof (seq_at_diff base x off) as Hd. simpl in E. rewrite E, Z.sub_diag in Hd.
       rewrite (u32_id (x - off)) in Hd by (unfold in_u32; lia). change (u32 0) with 0 in Hd. lia. }
  unfold seg_verdict in Ht. rewrite (proj2 (Z.leb_gt _ _)), Z.ltb_irrefl in Ht by lia.
  rewrite Ht; [|by split_and!; try done; unfold near; lia|unfold near; lia|unfold near; lia|lia|done].
  split; [done|]. destruct od_clean0. constructor; simpl; try done.
  apply push_capped_Forall.
  - eapply Forall_impl; [exact od_recent0|]. intros fp (off & k & ? & ? & ->). exists off, k. split_and!; done || lia.
  - exists x, n. unfold in_u32. split_and!; done || lia.
Qed.

Lemma feed_ordered_clean base lens : forall x t dir,
  ordered_dir base x dir -> 0 <= x -> Forall (fun n => 0 < n < 2 ^ 31) lens -> x + lens_sum lens < 2 ^ 32 ->
  let '(rs, _, dir') := feed_ordered base x lens t dir in
  Forall (fun r => r = false) rs /\ ordered_dir base (x + lens_sum lens) dir'.
Proof.
  induction lens as [|n lens IH]; intros x t dir Hd Hx Hl Hsum; cbn [feed_ordered].
  { simpl. rewrite Z.add_0_r. by split. }
  inversion Hl as [|? ? [Hn Hn2] Hl']; subst. simpl in Hsum.
  assert (Hs : 0 <= lens_sum lens).
  { clear -Hl'. induction Hl' as [|m lens ? _ IH]; simpl; lia. }
  fold (lens_sum lens) in *.
  pose proof (ordered_step base x n t dir Hd Hx Hn Hn2 ltac:(lia)) as Hstep.
  destruct (track_sequence _ _ _ _) as [[r t'] dir']. destruct Hstep as [-> Hd'].
  specialize (IH (x + n) t' dir' Hd' ltac:(lia) Hl' ltac:(lia)).
  destruct (feed_ordered _ _ _ _ _) as [[rs t''] dir'']. destruct IH as [Hrs Hd''].
  split; [by constructor|]. simpl. fold (lens_sum lens). by replace (x + (n + lens_sum lens)) with (x + n + lens_sum lens) by lia.
Qed.

(** A stream that is captured completely and in order raises no alarm: for
    any initial sequence number and any segment lengths (less than 2^32 bytes in
    all, the numbers may wrap), no segment is judged a retransmission or out of
    order and no hole is recorded. *)
Lemma ordered_stream_clean isn n lens t :
  0 < n < 2 ^ 31 -> Forall (fun n => 0 < n < 2 ^ 31) lens -> n + lens_sum lens < 2 ^ 32 ->
  let '(rs, _, dir) := feed_ordered isn 0 (n :: lens) t dir_default in
  Forall (fun r => r = false) rs /\ dir.(d_retransmits) = 0 /\ dir.(d_out_of_order) = 0 /\ dir.(d_holes) = [] /\
  dir.(d_next_seq) = seq_at isn (n + lens_sum lens).
Proof.
  intros Hn Hl Hsum. cbn [feed_ordered].
  assert (Hfirst : let '(r, _, dir) := track_sequence t dir_default (packet_default <| seqno := seq_at isn 0 |>) n in
                   r = false /\ ordered_dir isn n dir).
  { unfold track_sequence. rewrite (proj2 (Z.eqb_neq n 0)) by lia. simpl. split; [done|].
    constructor; simpl; [done|by rewrite seq_at_add|done|done|].
    apply push_capped_Forall; [constructor|]. exists 0, n. unfold in_u32. split_and!; done || lia. }
  destruct (track_sequence _ _ _ _) as [[r t'] dir]. destruct Hfirst as [-> Hd].
  pose proof (feed_ordered_clean isn lens (0 + n) t' dir Hd ltac:(lia) Hl ltac:(lia)) as Hc.
  destruct (feed_ordered _ _ _ _ _) as [[rs t''] dir']. destruct Hc as [Hrs [? ? ? [? ?] ?]].
  split_and!; [by constructor|done|done|done|done].
Qed.

Lemma ordered_stream_clean_witness :
  let '(rs, _, dir) := feed_ordered 4294967290 0 [5; 100; 7] (new_table 1) dir_default in
  Forall (fun r => r = false) rs /\ dir.(d_retransmits) = 0 /\ dir.(d_out_of_order) = 0 /\ dir.(d_holes) = [] /\
  dir.(d_next_seq) = 106.
Proof. apply (ordered_stream_clean 4294967290 5 [100; 7] (new_table 1)); repeat constructor. Defined.
