(* ===== verification/TableSpec.v ===== *)
(** * The flow table: invariants, frame conditions and queries

    [update] is proved against the [Dissector] interface: whatever dissectors
    satisfy [DissectorLaws] (netscope's do, by [DissectSafe]), every packet keeps
    the table well-formed and bounded, touches one flow only, and counts it
    exactly once. *)

From S2P Require Import Prelude.
From S2P Require Import Machine.
From S2P Require Import Containers.
From S2P Require Import Protocol.
From S2P Require Import Parser.
From S2P Require Import ParserSafe.
From S2P Require Import Serial.
From S2P Require Import Float.
From S2P Require Import Reassembly.
From S2P Require Import Dissect.
From S2P Require Import DissectSafe.
From S2P Require Import Flow.
From S2P Require Import FlowTable.
From S2P Require Import FlowSpec.
From S2P Require Import SeqSpec.
From Stdlib Require Import Sorting.Sorted.
#[local] Open Scope Z_scope.

(** ** The promise of the dissectors to the table *)

Class DissectorLaws (D : Dissector) := {
  dis_tcp_ok : forall prefix sp dp, wpo (dis_tcp prefix sp dp) info_ok;
  dis_udp_ok : forall data sp dp, wpo (dis_udp (Some data) (zlen data) sp dp) info_ok;
  dis_udp_null : forall len sp dp, wpo (dis_udp None len sp dp) info_ok;
}.

#[export] Instance netscope_dissector_laws : DissectorLaws netscope_dissector.
Proof.
  constructor.
  - apply wpo_dissect_tcp_stream.
  - intros. apply wpo_dissect_udp_payload. pose proof (zlen_nonneg data). lia.
  - done.
Qed.

(** ** Well-formedness *)

(** The bookkeeping of a direction stays within its limits. *)
Record dir_ok (d : DirectionStats) : Prop := {
  dk_recent : zlen d.(d_recent_segments) <= kRecentSegmentWindow;
  dk_holes : zlen d.(d_holes) <= kMaxTrackedHoles;
  dk_awaiting : zlen d.(d_awaiting_ack) <= kMaxAwaitingAck;
  dk_stream : match d.(d_stream) with
              | Some r => bounded r /\ same_limits default_reassembler r
              | None => True
              end;
}.

Record flow_ok (next_id : Z) (k : FlowKey) (f : Flow) : Prop := {
  fk_key : f.(f_key) = k;
  fk_id : 1 <= f.(f_id) <= next_id;
  fk_fwd : dir_ok f.(f_fwd);
  fk_rev : dir_ok f.(f_rev);
  fk_app : identified f.(f_app) = true -> info_ok f.(f_app);
}.

Record table_ok (t : FlowTable) : Prop := {
  tk_size : table_size t <= t.(max_flows_);
  tk_flows : forall k f, t.(flows_) !! k = Some f -> flow_ok t.(next_id_) k f;
  tk_ids : forall k k' f f', t.(flows_) !! k = Some f -> t.(flows_) !! k' = Some f' ->
                             f.(f_id) = f'.(f_id) -> k = k';
  tk_next : 0 <= t.(next_id_);
}.

(** The table's fields that the per-packet functions do not touch. *)
Definition same_store (t t' : FlowTable) : Prop :=
  t'.(flows_) = t.(flows_) /\ t'.(max_flows_) = t.(max_flows_) /\ t'.(next_id_) = t.(next_id_) /\
  t'.(dissect_enabled_) = t.(dissect_enabled_).

(** The counters and identity [update] sets before tracking. *)
Definition dir_counts (d : DirectionStats) :=
  (d.(d_packets), d.(d_bytes), d.(d_payload_bytes), d.(d_syn), d.(d_fin), d.(d_rst), d.(d_pure_acks),
   d.(d_last_window), d.(d_last_ttl)).
Definition flow_identity (f : Flow) :=
  (f.(f_id), f.(f_key), f.(f_l4), f.(f_first_seen), f.(f_last_seen)).

Record keeps (f f' : Flow) : Prop := {
  kp_identity : flow_identity f' = flow_identity f;
  kp_fwd : dir_counts f'.(f_fwd) = dir_counts f.(f_fwd);
  kp_rev : dir_counts f'.(f_rev) = dir_counts f.(f_rev);
}.

Lemma keeps_refl f : keeps f f. Proof. done. Qed.
Lemma keeps_trans f g h : keeps f g -> keeps g h -> keeps f h.
Proof. intros [] []. constructor; congruence. Qed.

Definition dirs_ok (f : Flow) : Prop := dir_ok f.(f_fwd) /\ dir_ok f.(f_rev).

Lemma dirs_ok_get f b : dirs_ok f -> dir_ok (get_dir f b).
Proof. intros []. by destruct b. Qed.
Lemma dirs_ok_set f b d : dirs_ok f -> dir_ok d -> dirs_ok (set_dir f b d).
Proof. intros [] ?. by destruct b. Qed.
Lemma keeps_set f b d : dir_counts d = dir_counts (get_dir f b) -> keeps f (set_dir f b d).
Proof. intros E. by destruct b. Qed.

(** What a packet does to the direction it does not travel in: at most the queue
    of unacknowledged segments and the round-trip statistics change, and only an
    ACK changes those. *)
Definition peer_kept (p : DecodedPacket) (d d' : DirectionStats) : Prop :=
  d' <| d_awaiting_ack := d.(d_awaiting_ack) |> <| d_rtt := d.(d_rtt) |> = d /\
  (p.(l4) <> L4Proto.TCP \/ has_flag p.(tcp_flags) TH_ACK = false -> d' = d).

Lemma peer_kept_refl p d : peer_kept p d d. Proof. by destruct d. Qed.

Create HintDb table.
#[export] Hint Resolve dirs_ok_get dirs_ok_set keeps_refl : table.

(** ** The tracking functions *)

Lemma track_sequence_ok t dir p len :
  let '(_, t', dir') := track_sequence t dir p len in
  same_store t t' /\ t'.(app_counts_) = t.(app_counts_) /\ dir_counts dir' = dir_counts dir /\
  (dir_ok dir -> dir_ok dir').
Proof.
  unfold track_sequence. destruct (len =? 0).
  { repeat case_test; (split_and!; try done); intros []; by constructor. }
  cbv zeta.
  assert (Hfill : forall s e holes h, fills_known_hole s e holes = Some h -> zlen h <= zlen holes).
  { intros s e. induction holes as [|[a b] holes IH]; intros h; cbn [fills_known_hole]; [done|].
    rewrite zlen_cons. repeat case_test; try (intros [= <-]; rewrite ?zlen_cons; lia).
    destruct (fills_known_hole s e holes) as [h'|]; [|done]. intros [= <-].
    rewrite zlen_cons. specialize (IH h' eq_refl). lia. }
  assert (Hrec : forall d fp, dir_ok d -> dir_ok (d <| d_recent_segments ::= fun q => push_capped kRecentSegmentWindow q fp |>))
    by (intros d fp []; constructor; simpl; try done; by apply zlen_push_capped; [vm_compute|]).
  repeat case_test; try (split_and!; try done; intros Hd; apply Hrec; by destruct Hd).
  - destruct (fills_known_hole _ _ _) as [h|] eqn:E;
      (split_and!; try done; intros Hd; apply Hrec; destruct Hd; constructor; simpl; try done).
    apply Hfill in E. lia.
  - split_and!; try done. intros Hd. apply Hrec. destruct Hd. constructor; simpl; try done.
    by apply zlen_push_capped; [vm_compute|].
Qed.

Lemma retire_acked_ok q ack now sampled rtt total :
  zlen (retire_acked q ack now sampled rtt total).1.1 <= zlen q.
Proof.
  revert sampled rtt total. induction q as [|[e s] q IH]; intros; cbn [retire_acked]; [done|].
  rewrite zlen_cons. repeat case_test; try (etrans; [apply IH|lia]). simpl. by rewrite zlen_cons.
Qed.

Lemma track_rtt_ok t f p forward retransmit :
  let '(t', f') := track_rtt t f p forward retransmit in
  same_store t t' /\ t'.(app_counts_) = t.(app_counts_) /\ keeps f f' /\ (dirs_ok f -> dirs_ok f') /\
  f'.(f_app) = f.(f_app) /\ f'.(f_state) = f.(f_state) /\
  f'.(f_handshake_complete) = f.(f_handshake_complete).
Proof.
  unfold track_rtt. cbv zeta.
  set (x := if _ && _ then (t, _) else _).
  assert (Hx : same_store t x.1 /\ x.1.(app_counts_) = t.(app_counts_) /\ keeps f x.2 /\ (dirs_ok f -> dirs_ok x.2) /\
    x.2.(f_app) = f.(f_app) /\ x.2.(f_state) = f.(f_state) /\ x.2.(f_handshake_complete) = f.(f_handshake_complete))
    by (unfold x; by repeat case_test).
  destruct x as [t1 f1]. simpl in Hx. destruct Hx as (Hs1 & Hc1 & Hk1 & Hd1 & Ha1 & Hst1 & Hh1).
  set (f2 := if _ && _ then set_dir f1 forward _ else f1).
  assert (Hf2 : keeps f1 f2 /\ (dirs_ok f1 -> dirs_ok f2) /\ f2.(f_app) = f1.(f_app) /\
                f2.(f_state) = f1.(f_state) /\ f2.(f_handshake_complete) = f1.(f_handshake_complete)).
  { unfold f2. case_test; [|by split_and!]. split_and!; try (by destruct forward).
    intros Hd. apply dirs_ok_set; [done|]. destruct (dirs_ok_get _ forward Hd). constructor; simpl; try done.
    by apply zlen_push_capped; [vm_compute|]. }
  destruct Hf2 as (Hk2 & Hd2 & Ha2 & Hst2 & Hh2). clearbody f2.
  destruct (has_flag _ TH_ACK).
  2: { split_and!; try done; [by eapply keeps_trans|auto|congruence..]. }
  set (peer := get_dir f2 (negb forward)).
  pose proof (retire_acked_ok peer.(d_awaiting_ack) p.(ackno) p.(ts) false peer.(d_rtt) t1.(total_rtt_samples_)) as Hr.
  destruct (retire_acked _ _ _ _ _ _) as [[q rtt] total]. simpl in Hr.
  split_and!; try done.
  - eapply keeps_trans; [done|]. eapply keeps_trans; [done|]. by apply keeps_set.
  - intros Hd. apply dirs_ok_set; [auto|].
    assert (Hpeer : dir_ok peer) by (apply dirs_ok_get; auto). destruct Hpeer. constructor; simpl; try done. lia.
  - destruct forward; simpl; congruence.
  - destruct forward; simpl; congruence.
  - destruct forward; simpl; congruence.
Qed.

Lemma track_rtt_peer t f p forward retransmit :
  p.(l4) = L4Proto.TCP ->
  peer_kept p (get_dir f (negb forward)) (get_dir (track_rtt t f p forward retransmit).2 (negb forward)).
Proof.
  intros Htcp. unfold track_rtt. cbv zeta.
  set (x := if _ && _ then (t, _) else _).
  assert (Hx : x.2.(f_fwd) = f.(f_fwd) /\ x.2.(f_rev) = f.(f_rev)) by (unfold x; by repeat case_test).
  destruct x as [t1 f1]. cbn [fst snd] in Hx. destruct Hx as [Hf Hr].
  set (f2 := if _ && _ then set_dir f1 forward _ else f1).
  assert (Hpeer : get_dir f2 (negb forward) = get_dir f (negb forward))
    by (unfold f2; destruct (_ && _), forward; simpl; congruence).
  clearbody f2. rewrite <-Hpeer. unfold peer_kept.
  destruct (has_flag _ TH_ACK); [|by destruct (peer_kept_refl p (get_dir f2 (negb forward)))].
  destruct (retire_acked _ _ _ _ _ _) as [[q rtt] total]. split; [|by intros [?|?]].
  by destruct f2 as [? ? ? ? [] []], forward.
Qed.

Lemma advance_keeps f flags fwd :
  keeps f (advance_tcp_state f flags fwd) /\ (advance_tcp_state f flags fwd).(f_app) = f.(f_app).
Proof. unfold advance_tcp_state. destruct (f_state f); repeat case_test; by split. Qed.

Lemma track_tcp_ok t f forward p :
  let '(t', f') := track_tcp t f forward p in
  same_store t t' /\ t'.(app_counts_) = t.(app_counts_) /\ keeps f f' /\ (dirs_ok f -> dirs_ok f') /\
  f'.(f_app) = f.(f_app).
Proof.
  unfold track_tcp. case_decide; [|by split_and!].
  pose proof (track_sequence_ok t (get_dir f forward) p (payload_len p)) as Hs.
  destruct (track_sequence _ _ _ _) as [[r t1] dir]. destruct Hs as (Hs1 & Hc1 & Hdc & Hdo).
  set (g := set_dir f forward dir). destruct (advance_keeps g (tcp_flags p) forward) as [Hk Ha].
  destruct (advance_dirs g (tcp_flags p) forward) as [Hd1 Hd2].
  set (h := advance_tcp_state g _ _) in *.
  pose proof (track_rtt_ok t1 h p forward r) as Hr.
  destruct (track_rtt _ _ _ _ _) as [t2 f2]. destruct Hr as (Hs2 & Hc2 & Hk2 & Hd3 & Ha2 & _ & _).
  assert (Hkg : keeps f g) by (by apply keeps_set).
  split_and!.
  - unfold same_store in *. naive_solver congruence.
  - congruence.
  - eauto using keeps_trans.
  - intros Hd. apply Hd3. unfold dirs_ok. rewrite Hd1, Hd2. apply dirs_ok_set; auto with table.
  - rewrite Ha2, Ha. by destruct forward.
Qed.

Lemma track_tcp_peer t f forward p :
  peer_kept p (get_dir f (negb forward)) (get_dir (track_tcp t f forward p).2 (negb forward)).
Proof.
  unfold track_tcp. case_decide as Htcp; [|apply peer_kept_refl].
  destruct (track_sequence _ _ _ _) as [[r t1] dir]. cbv zeta.
  pose proof (track_rtt_peer t1 (advance_tcp_state (set_dir f forward dir) (tcp_flags p) forward) p forward r Htcp) as Hp.
  assert (Hg : get_dir (advance_tcp_state (set_dir f forward dir) (tcp_flags p) forward) (negb forward) =
               get_dir f (negb forward)).
  { destruct (advance_dirs (set_dir f forward dir) (tcp_flags p) forward) as [H1 H2].
    unfold get_dir. by destruct forward; cbn [negb]; rewrite ?H1, ?H2. }
  by rewrite Hg in Hp.
Qed.

(** ** Reassembly and dissection *)

(** How a packet may change what is known about the application: not at all,
    from nothing to an identification (counted once), or from a tentative
    reading to another one. *)
Inductive app_step (t : FlowTable) (f : Flow) (t' : FlowTable) (f' : Flow) : Prop :=
| app_same : f'.(f_app) = f.(f_app) -> t'.(app_counts_) = t.(app_counts_) -> app_step t f t' f'
| app_found :
    identified f.(f_app) = false -> info_ok f'.(f_app) ->
    t'.(app_counts_) = (count_app t f'.(f_app)).(app_counts_) -> app_step t f t' f'
| app_refined :
    identified f.(f_app) = true -> f.(f_app).(conclusive) = false -> info_ok f'.(f_app) ->
    t'.(app_counts_) = t.(app_counts_) -> app_step t f t' f'.

Lemma info_ok_identified a : info_ok a -> identified a = true.
Proof. intros (Hp & _). unfold identified. by rewrite bool_decide_false. Qed.

Lemma adopt_app_ok t f info :
  info_ok info -> f.(f_app).(conclusive) = false ->
  let '(t', f') := adopt_app t f info in
  same_store t t' /\ keeps f f' /\ f'.(f_fwd) = f.(f_fwd) /\ f'.(f_rev) = f.(f_rev) /\ f'.(f_state) = f.(f_state) /\
  f'.(f_handshake_complete) = f.(f_handshake_complete) /\ app_step t f t' f'.
Proof.
  intros Hi Hc. unfold adopt_app. destruct (identified (f_app f)) eqn:E; simpl; split_and!; try done.
  - by apply app_refined.
  - by apply app_found.
Qed.

Section update.
Context (D : Dissector) (DL : DissectorLaws D).
Variable m : list byte.

Lemma payload_bytes_ok p (Q : option (list byte) -> Prop) :
  payload_ok (zlen m) p ->
  (forall data, match data with Some d => zlen d = p.(payload_len) | None => p.(payload_len) = 0 end -> Q data) ->
  wpm (payload_bytes m p) Q.
Proof.
  unfold payload_ok, payload_bytes. destruct (payload p) as [q|]; intros Hp HQ; [|by apply wpm_ret, HQ].
  apply wpm_bind, wpm_rd_bytes; [lia..|]. intros bs Hbs. by apply wpm_ret, HQ.
Qed.

Definition dissect_post (t : FlowTable) (f : Flow) (forward : bool) (x : FlowTable * Flow) : Prop :=
  same_store t x.1 /\ keeps f x.2 /\ (dirs_ok f -> dirs_ok x.2) /\ x.2.(f_state) = f.(f_state) /\
  x.2.(f_handshake_complete) = f.(f_handshake_complete) /\
  get_dir x.2 (negb forward) = get_dir f (negb forward) /\ app_step t f x.1 x.2.

Lemma dissect_post_refl t f forward : dissect_post t f forward (t, f).
Proof. unfold dissect_post. split_and!; try done. by apply app_same. Qed.

Lemma default_reassembler_ok : bounded default_reassembler /\ same_limits default_reassembler default_reassembler.
Proof.
  split; [|done]. constructor; try (by vm_compute). constructor.
Qed.

(** The stream of a direction after one more segment. *)
Lemma stream_push_ok d seq data syn (Q : Prop) :
  dir_ok d -> match data with Some x => zlen x < 2 ^ 32 | None => True end ->
  let r := (push (default default_reassembler d.(d_stream)) seq data syn).2 in
  bounded r /\ same_limits default_reassembler r.
Proof.
  intros Hd Hdata r. unfold r. set (s := default _ _).
  assert (Hs : bounded s /\ same_limits default_reassembler s).
  { unfold s. destruct Hd. destruct (d_stream d); [done|apply default_reassembler_ok]. }
  destruct Hs as [Hb Hl].
  destruct (Reassembly.push_bounded s seq data syn) as (Hb' & Hl' & _).
  - unfold limits_ok. destruct Hl as [-> ->]. by vm_compute.
  - done.
  - intros x ->. lia.
  - split; [done|]. destruct Hl, Hl'. split; congruence.
Qed.

Lemma reassemble_and_dissect_ok t f forward p :
  payload_ok (zlen m) p -> p.(payload_len) < 2 ^ 32 ->
  wpm (reassemble_and_dissect m t f forward p) (dissect_post t f forward).
Proof.
  intros Hp Hlen. unfold reassemble_and_dissect.
  destruct (_ || _) eqn:E0; [apply wpm_ret, dissect_post_refl|]. breflect. rename H0 into Hconc.
  case_decide as Hudp.
  { apply wpm_bind, payload_bytes_ok; [done|]. intros data Hdata. apply wpm_bind.
    assert (Hd : wpo (dis_udp data p.(payload_len) p.(sport) p.(dport)) info_ok)
      by (destruct data; [rewrite <-Hdata; apply dis_udp_ok|apply dis_udp_null]).
    eapply wpm_mono; [exact Hd|]. intros [info|] Hi; apply wpm_ret; [|apply dissect_post_refl].
    pose proof (adopt_app_ok t f info Hi Hconc) as Ha. destruct (adopt_app t f info) as [t' f'].
    destruct Ha as (? & ? & Hf & Hr & ? & ? & ?). unfold dissect_post, dirs_ok, get_dir. simpl. by rewrite Hf, Hr. }
  case_decide; [apply wpm_ret, dissect_post_refl|].
  case_test; [apply wpm_ret, dissect_post_refl|].
  apply wpm_bind, payload_bytes_ok; [done|]. intros data Hdata. cbv zeta.
  set (dir := get_dir f forward).
  pose proof (stream_push_ok dir p.(seqno) data (has_flag p.(tcp_flags) TH_SYN) True) as Hstream.
  destruct (push _ _ _ _) as [added stream]. simpl in Hstream.
  set (t1 := t <| total_reassembled_bytes_ ::= _ |>).
  assert (Hst1 : dissect_post t f forward (t1, f)) by (split_and!; try done; by apply app_same).
  assert (Hcnt : t1.(app_counts_) = t.(app_counts_)) by done. clearbody t1.
  apply wpm_bind. apply wpm_mono with (Q := fun x => dissect_post t f forward x /\ x.2.(f_fwd) = f.(f_fwd) /\ x.2.(f_rev) = f.(f_rev)).
  - case_test; [|by apply wpm_ret].
    apply wpm_bind. eapply wpm_mono; [apply dis_tcp_ok|]. intros [info|] Hi; apply wpm_ret; [|done].
    case_test; [|done].
    pose proof (adopt_app_ok t1 f info Hi Hconc) as Ha. destruct (adopt_app t1 f info) as [t' f'].
    destruct Ha as (Hss & Hk & Hf & Hr & Hs & Hh & Ha). destruct Hst1 as (Hss1 & _). simpl.
    split_and!; [|done|done]. unfold dissect_post, dirs_ok, get_dir. simpl. rewrite Hf, Hr.
    split_and!; try done; [unfold same_store in *; naive_solver congruence|].
    destruct Ha as [? E|? ? E|? ? ? E].
    + apply app_same; congruence.
    + apply app_found; try done. rewrite E. unfold count_app. simpl. by rewrite Hcnt.
    + apply app_refined; try done. congruence.
  - intros [t2 f2] ((Hss & Hk & Hdo & Hs & Hh & Hg' & Ha) & Hf & Hr). simpl in *. apply wpm_ret.
    set (st := if _ || _ then None else Some stream).
    assert (Hdir : dir_ok dir -> dir_ok (dir <| d_stream := st |>)).
    { intros Hd. assert (Hd' := Hd). destruct Hd'. constructor; simpl; try done.
      unfold st. case_test; [done|]. apply Hstream; [done|]. destruct data; [lia|done]. }
    assert (Hg : get_dir f2 forward = dir) by (unfold dir; destruct forward; simpl; congruence).
    unfold dissect_post. cbn [fst snd]. split_and!; try done.
    + eapply keeps_trans; [exact Hk|]. apply keeps_set. by rewrite Hg.
    + intros Hd. apply dirs_ok_set; [auto|]. apply Hdir. unfold dir. auto with table.
    + by destruct forward.
    + by destruct forward.
    + rewrite <-Hg'. by destruct forward.
    + inversion Ha; [apply app_same|apply app_found|apply app_refined]; try done; by destruct forward.
Qed.

(** ** One packet *)

Lemma oldest_flow_in entries kf : oldest_flow entries = Some kf -> kf ∈ entries.
Proof.
  destruct entries as [|first rest]; cbn [oldest_flow]; [done|]. intros [= <-].
  assert (Hg : forall l o, o ∈ first :: rest -> (forall x, x ∈ l -> x ∈ first :: rest) ->
    fold_left (fun oldest i => if flt (timeval_diff i.2.(f_last_seen) oldest.2.(f_last_seen)) f0 then i else oldest) l o
      ∈ first :: rest).
  { induction l as [|x l IH]; intros o Ho Hl; [done|]. simpl. apply IH.
    - case_test; [apply Hl; by left|done].
    - intros y Hy. apply Hl. by right. }
  apply (Hg (first :: rest)); [by left|done].
Qed.

(** The flow table as [update] finds it for [key]: as it was, or with one flow
    evicted to make room for a new one. *)
Inductive made_room (t : FlowTable) (key : FlowKey) : gmap FlowKey Flow -> Flow -> Z -> Prop :=
| room_found f : t.(flows_) !! key = Some f -> made_room t key t.(flows_) f t.(next_id_)
| room_fresh f :
    t.(flows_) !! key = None -> table_size t < t.(max_flows_) -> f.(f_id) = incr t.(next_id_) ->
    made_room t key t.(flows_) f (incr t.(next_id_))
| room_evicted victim f :
    t.(flows_) !! key = None -> t.(max_flows_) <= table_size t -> is_Some (t.(flows_) !! victim) ->
    f.(f_id) = incr t.(next_id_) ->
    made_room t key (delete victim t.(flows_)) f (incr t.(next_id_)).

Definition fresh_flow (t : FlowTable) (key : FlowKey) (p : DecodedPacket) : Flow :=
  flow_default key <| f_id := incr t.(next_id_) |> <| f_l4 := p.(l4) |> <| f_first_seen := p.(ts) |>.

Definition starting_flow (t : FlowTable) (key : FlowKey) (p : DecodedPacket) : Flow :=
  default (fresh_flow t key p) (t.(flows_) !! key).

Lemma find_or_create_ok it t key p :
  1 <= t.(max_flows_) ->
  wpm (find_or_create it t key p) (fun x =>
    x.2 = starting_flow t key p /\ made_room t key x.1.(flows_) x.2 x.1.(next_id_) /\
    x.1.(max_flows_) = t.(max_flows_) /\ x.1.(dissect_enabled_) = t.(dissect_enabled_) /\
    x.1.(app_counts_) = t.(app_counts_)).
Proof.
  intros Hmax. unfold find_or_create, starting_flow. destruct (flows_ t !! key) as [f|] eqn:E.
  { apply wpm_ret. split_and!; try done. by apply room_found. }
  apply wpm_bind. destruct (max_flows_ t <=? table_size t) eqn:E2; breflect.
  - destruct (oldest_flow _) as [victim|] eqn:Ev.
    + apply wpm_ret. apply wpm_ret. split_and!; try done. apply (room_evicted t key victim.1 (fresh_flow t key p)); try done.
      apply oldest_flow_in in Ev. rewrite iterate_perm in Ev. destruct victim as [k f].
      apply elem_of_map_to_list in Ev. by exists f.
    + unfold oldest_flow in Ev. destruct (iterate it (flows_ t)) as [|x l] eqn:El; [|done].
      pose proof (iterate_perm it (flows_ t)) as Hp. rewrite El in Hp. apply Permutation_nil_l in Hp.
      symmetry in Hp; apply map_to_list_empty_iff in Hp. unfold table_size in E2. rewrite Hp, map_size_empty in E2. simpl in E2. lia.
  - apply wpm_ret. apply wpm_ret. split_and!; try done.
    exact (room_fresh t key (fresh_flow t key p) E E2 eq_refl).
Qed.

(** The flow after its packet counters, before tracking. *)
Definition counted (f : Flow) (forward : bool) (p : DecodedPacket) : Flow :=
  let f := f <| f_last_seen := p.(ts) |> in
  set_dir f forward (count_packet (get_dir f forward) p).

(** Everything one accepted packet does. *)
Record updated (t : FlowTable) (p : DecodedPacket) (f' : Flow) (t' : FlowTable) : Prop := {
  up_room : exists base, made_room t (make_flow_key p).1 base (starting_flow t (make_flow_key p).1 p) t'.(next_id_) /\
              t'.(flows_) = <[(make_flow_key p).1 := f']> base;
  up_keeps : keeps (counted (starting_flow t (make_flow_key p).1 p) (make_flow_key p).2 p) f';
  up_dirs : dirs_ok (starting_flow t (make_flow_key p).1 p) -> dirs_ok f';
  up_max : t'.(max_flows_) = t.(max_flows_);
  up_app : app_step t (starting_flow t (make_flow_key p).1 p) t' f';
  up_state : p.(l4) = L4Proto.TCP ->
             state_of f' = state_of (tcp_seg (starting_flow t (make_flow_key p).1 p) (p.(tcp_flags), (make_flow_key p).2));
  up_other_state : p.(l4) <> L4Proto.TCP -> state_of f' = state_of (starting_flow t (make_flow_key p).1 p);
  up_peer : peer_kept p (get_dir (starting_flow t (make_flow_key p).1 p) (negb (make_flow_key p).2))
                        (get_dir f' (negb (make_flow_key p).2));
}.

(** The packets the table counts. *)
Definition accepted (p : DecodedPacket) : Prop :=
  (p.(l3) = L3Proto.IPv4 \/ p.(l3) = L3Proto.IPv6) /\ p.(error) = None.

Lemma count_packet_ok d p : dir_ok d -> dir_ok (count_packet d p).
Proof. intros []. unfold count_packet. case_decide; [|by constructor]. cbv zeta. repeat case_test; by constructor. Qed.

Lemma track_tcp_state t f forward p :
  p.(l4) = L4Proto.TCP ->
  let '(_, f') := track_tcp t (counted f forward p) forward p in
  state_of f' = state_of (tcp_seg f (p.(tcp_flags), forward)).
Proof.
  intros Htcp. unfold track_tcp. rewrite decide_True by done.
  set (c := counted f forward p).
  pose proof (track_sequence_ok t (get_dir c forward) p (payload_len p)) as Hs.
  destruct (track_sequence _ _ _ _) as [[r t1] dir]. destruct Hs as (_ & _ & Hdc & _).
  pose proof (track_rtt_ok t1 (advance_tcp_state (set_dir c forward dir) (tcp_flags p) forward) p forward r) as Hr.
  destruct (track_rtt _ _ _ _ _) as [t2 f2]. destruct Hr as (_ & _ & _ & _ & _ & Hst & Hhs).
  unfold state_of. rewrite Hst, Hhs.
  destruct (advance_next (set_dir c forward dir) (tcp_flags p, forward)) as [H1 H2].
  destruct (advance_state f (tcp_flags p, forward)) as [H3 H4]. cbn [fst snd] in H1, H2.
  rewrite H1, H2, H3, H4.
  assert (Hc : f_state (set_dir c forward dir) = f_state f /\
               f_handshake_complete (set_dir c forward dir) = f_handshake_complete f /\
               get_dir (set_dir c forward dir) (negb forward) = get_dir f (negb forward))
    by (unfold c, counted; by destruct forward).
  destruct Hc as (-> & -> & ->). done.
Qed.

Lemma update_ok it t p :
  1 <= t.(max_flows_) -> payload_ok (zlen m) p -> p.(payload_len) < 2 ^ 32 -> accepted p ->
  wpm (update m it t p) (fun x => exists f', x.1 = Some f' /\ updated t p f' x.2).
Proof.
  intros Hmax Hp Hlen [Hl3 Herr]. unfold update. rewrite decide_False by naive_solver. rewrite Herr.
  destruct (make_flow_key p) as [key forward] eqn:Ek.
  apply wpm_bind. eapply wpm_mono; [by apply (find_or_create_ok it t key p)|].
  intros [t1 f0] (Hf0 & Hroom & Hm1 & Hd1 & Hc1). simpl in *. subst f0. set (f0 := starting_flow t key p) in *.
  change (set_dir (f0 <| f_last_seen := ts p |>) forward
    (count_packet (get_dir (f0 <| f_last_seen := ts p |>) forward) p)) with (counted f0 forward p).
  pose proof (track_tcp_ok t1 (counted f0 forward p) forward p) as Ht.
  pose proof (track_tcp_state t1 f0 forward p) as Hts.
  pose proof (track_tcp_peer t1 (counted f0 forward p) forward p) as Hpeer.
  assert (Hnt : p.(l4) <> L4Proto.TCP -> track_tcp t1 (counted f0 forward p) forward p = (t1, counted f0 forward p))
    by (intros; unfold track_tcp; by rewrite decide_False).
  destruct (track_tcp _ _ _ _) as [t2 f2]. destruct Ht as (Hs2 & Hc2 & Hk2 & Hdo2 & Ha2).
  apply wpm_bind. eapply wpm_mono; [by apply reassemble_and_dissect_ok|].
  intros [t3 f3] (Hs3 & Hk3 & Hdo3 & Hst3 & Hh3 & Hg3 & Ha3). simpl in *. apply wpm_ret. exists f3. split; [done|].
  destruct Hs2 as (Hfl2 & Hmx2 & Hn2 & _), Hs3 as (Hfl3 & Hmx3 & Hn3 & _).
  assert (Hca : (counted f0 forward p).(f_app) = f0.(f_app)) by (unfold counted; by destruct forward).
  constructor; rewrite ?Ek; cbn [fst snd]; fold f0.
  - exists t1.(flows_). simpl. rewrite Hn3, Hn2, Hfl3, Hfl2. done.
  - by eapply keeps_trans.
  - intros Hd. apply Hdo3, Hdo2. apply dirs_ok_set; [by destruct f0, Hd|].
    apply count_packet_ok. change (get_dir (f0 <| f_last_seen := ts p |>) forward) with (get_dir f0 forward).
    auto with table.
  - simpl. congruence.
  - destruct Ha3 as [? E|? ? E|? ? ? E].
    + apply app_same; simpl; congruence.
    + apply app_found; simpl; [congruence|done|]. rewrite E. unfold count_app. simpl. by rewrite Hc2, Hc1.
    + apply app_refined; simpl; congruence || done.
  - intros Htcp. rewrite <-(Hts Htcp). unfold state_of. congruence.
  - intros Hn. injection (Hnt Hn) as -> ->. unfold state_of. rewrite Hst3, Hh3.
    unfold counted. by destruct forward.
  - rewrite Hg3. by replace (get_dir f0 (negb forward)) with (get_dir (counted f0 forward p) (negb forward))
      by (unfold counted; by destruct forward).
Qed.
End update.

(** ** The table invariant *)

Lemma room_size t key base f id f' :
  table_ok t -> 1 <= t.(max_flows_) -> made_room t key base f id ->
  Z.of_nat (size (<[key := f']> base)) <= t.(max_flows_).
Proof.
  intros [Hs _ _ _] Hm Hr. unfold table_size in *. destruct Hr as [f Hk|f Hk Hlt _|victim f Hk Hge [g Hv] _].
  - rewrite map_size_insert_Some by eauto. done.
  - rewrite map_size_insert_None by done. unfold table_size in Hlt. lia.
  - assert (Hn : delete victim (flows_ t) !! key = None) by (rewrite lookup_delete_None; by right).
    rewrite map_size_insert_None by done. rewrite map_size_delete_Some by eauto.
    assert (size (flows_ t) <> 0%nat) by (intros E; apply map_size_empty_iff in E; rewrite E in Hv; done). lia.
Qed.

(** What survives of the table when a packet comes in. *)
Lemma room_lookup t key base f id k g :
  made_room t key base f id -> base !! k = Some g -> t.(flows_) !! k = Some g.
Proof. intros [] Hk; try done. by apply lookup_delete_Some in Hk as [_ ?]. Qed.

Lemma room_id t key base f id :
  made_room t key base f id -> next_id_ t < 2 ^ 64 - 1 -> 0 <= next_id_ t ->
  next_id_ t <= id <= next_id_ t + 1 /\
  (t.(flows_) !! key = Some f \/ (t.(flows_) !! key = None /\ f.(f_id) = next_id_ t + 1 /\ id = next_id_ t + 1)).
Proof.
  intros Hr Hlt H0. assert (Hi : incr (next_id_ t) = next_id_ t + 1) by (apply u64_id; unfold in_u64; lia).
  destruct Hr; rewrite ?Hi in *; split; try lia; auto.
Qed.

Lemma dir_default_ok : dir_ok dir_default.
Proof. by constructor; vm_compute. Qed.

Lemma starting_dirs_ok t key p : table_ok t -> dirs_ok (starting_flow t key p).
Proof.
  intros Ht. unfold starting_flow. destruct (flows_ t !! key) as [f|] eqn:E; simpl.
  - destruct (tk_flows _ Ht _ _ E). by split.
  - split; apply dir_default_ok.
Qed.

Lemma starting_app_ok t key p : table_ok t ->
  identified (starting_flow t key p).(f_app) = true -> info_ok (starting_flow t key p).(f_app).
Proof.
  intros Ht. unfold starting_flow. destruct (flows_ t !! key) as [f|] eqn:E; simpl; [|done].
  by destruct (tk_flows _ Ht _ _ E).
Qed.

Lemma app_step_ok t f t' f' :
  app_step t f t' f' -> (identified f.(f_app) = true -> info_ok f.(f_app)) ->
  identified f'.(f_app) = true -> info_ok f'.(f_app).
Proof. intros [E|? ? E|? ? ? E]; [by rewrite E|done|done]. Qed.

Lemma updated_ok t p f' t' :
  table_ok t -> 1 <= t.(max_flows_) -> next_id_ t < 2 ^ 64 - 1 -> updated t p f' t' -> table_ok t'.
Proof.
  intros Ht Hm Hid [(base & Hroom & Hfl) Hk Hd Hmx Ha _ _ _].
  destruct (room_id _ _ _ _ _ Hroom Hid (tk_next _ Ht)) as [Hnext Hstart].
  set (f0 := starting_flow _ _ _) in *. set (key := (make_flow_key p).1) in *.
  assert (Hf' : f'.(f_id) = f0.(f_id) /\ f'.(f_key) = f0.(f_key)).
  { destruct Hk as [E _ _]. unfold flow_identity, counted in E. destruct ((make_flow_key p).2); simpl in E;
      by injection E. }
  assert (Hf0 : f0.(f_key) = key /\ 1 <= f0.(f_id) <= t'.(next_id_)).
  { destruct Hstart as [E|(E & Hi & Hn)].
    - destruct (tk_flows _ Ht _ _ E). split; [done|lia].
    - split; [unfold f0, starting_flow; by rewrite E|]. pose proof (tk_next _ Ht). lia. }
  constructor.
  - rewrite Hmx. unfold table_size. rewrite Hfl. by eapply room_size.
  - rewrite Hfl. intros k g Hg. apply lookup_insert_Some in Hg as [[<- <-]|[Hne Hg]].
    + destruct (Hd (starting_dirs_ok t key p Ht)). destruct Hf', Hf0.
      constructor; [congruence|lia|done|done|]. eapply app_step_ok; [exact Ha|]. by apply starting_app_ok.
    + apply (room_lookup _ _ _ _ _ _ _ Hroom) in Hg. destruct (tk_flows _ Ht _ _ Hg).
      constructor; try done. lia.
  - assert (Hold : forall k g, base !! k = Some g -> k <> key -> g.(f_id) <> f'.(f_id)).
    { intros k g Hg Hne E. apply (room_lookup _ _ _ _ _ _ _ Hroom) in Hg. rewrite (proj1 Hf') in E.
      destruct Hstart as [E0|(_ & Hi & _)].
      - apply Hne. by eapply (tk_ids _ Ht).
      - destruct (tk_flows _ Ht _ _ Hg). lia. }
    rewrite Hfl. intros k k' g g' Hg Hg' E.
    apply lookup_insert_Some in Hg as [[<- <-]|[Hne Hg]], Hg' as [[<- <-]|[Hne' Hg']]; try done.
    + exfalso. by apply (Hold k' g').
    + exfalso. by apply (Hold k g).
    + eapply (tk_ids _ Ht); [| |done]; by eapply room_lookup.
  - pose proof (tk_next _ Ht). lia.
Qed.

(** [expire] keeps the flows that are not idle. *)
Lemma expire_fold now idle_sec l : forall acc : Z * gmap FlowKey Flow,
  NoDup l.*1 -> (forall k f, (k, f) ∈ l -> acc.2 !! k = Some f) ->
  let r := fold_left (fun (acc : Z * gmap FlowKey Flow) (kf : FlowKey * Flow) => if is_idle now idle_sec kf.2 then (acc.1 + 1, delete kf.1 acc.2) else acc) l acc in
  r.1 = acc.1 + zlen (filter (fun kf => is_idle now idle_sec kf.2 = true) l) /\
  (forall k, r.2 !! k = if decide (Exists (fun kf => kf.1 = k /\ is_idle now idle_sec kf.2 = true) l) then None else acc.2 !! k).
Proof.
  induction l as [|[k f] l IH]; intros [n fl] Hnd Hin; cbn [fold_left].
  { split; [unfold zlen; simpl; lia|]. intros k. case_decide as E; [by apply Exists_nil in E|done]. }
  inversion Hnd as [|? ? Hnotin Hnd']; subst. cbn [fst snd].
  set (acc' := if is_idle now idle_sec f then _ else _).
  assert (Hin' : forall k' f', (k', f') ∈ l -> acc'.2 !! k' = Some f').
  { intros k' f' Hk'. assert (k' <> k) by (intros ->; apply Hnotin; apply list_elem_of_fmap; by exists (k, f')).
    unfold acc'. case_test; simpl; rewrite ?lookup_delete_ne by done; apply (Hin k' f'); by right. }
  destruct (IH acc' Hnd' Hin') as [H1 H2]. split.
  - rewrite H1, filter_cons. unfold acc'. simpl. destruct (is_idle now idle_sec f) eqn:E.
    + rewrite decide_True by done. rewrite zlen_cons. simpl. lia.
    + by rewrite decide_False.
  - intros k'. rewrite H2. destruct (decide (Exists _ l)) as [He|He].
    + by rewrite decide_True by (by right).
    + unfold acc'. simpl. destruct (is_idle now idle_sec f) eqn:E; simpl.
      * destruct (decide (k = k')) as [->|Hne].
        -- rewrite lookup_delete_eq. by rewrite decide_True by (left; done).
        -- rewrite lookup_delete_ne by done. rewrite decide_False; [done|]. intros [[? ?]|?]%Exists_cons; done.
      * rewrite decide_False; [done|]. intros [[? ?]|?]%Exists_cons; simpl in *; congruence || done.
Qed.

Lemma expire_lookup it t now idle_sec k :
  (expire it t now idle_sec).2.(flows_) !! k =
    match t.(flows_) !! k with
    | Some f => if is_idle now idle_sec f then None else Some f
    | None => None
    end.
Proof.
  unfold expire. destruct (fold_left _ _ _) as [n fl] eqn:E. simpl.
  pose proof (expire_fold now idle_sec (iterate it t.(flows_)) (0, t.(flows_))) as Hf. cbv zeta in Hf.
  rewrite E in Hf. destruct Hf as [_ Hl].
  - rewrite iterate_perm. apply NoDup_fst_map_to_list.
  - intros k' f'. rewrite iterate_perm. apply elem_of_map_to_list.
  - simpl in Hl. rewrite Hl.
    assert (Hiff : Exists (fun kf => kf.1 = k /\ is_idle now idle_sec kf.2 = true) (iterate it t.(flows_)) <->
                   exists f, t.(flows_) !! k = Some f /\ is_idle now idle_sec f = true).
    { rewrite Exists_exists. split.
      - intros ([k' f'] & Hin & <- & ?). rewrite iterate_perm in Hin. apply elem_of_map_to_list in Hin. by exists f'.
      - intros (f' & Hin & ?). exists (k, f'). split; [|done]. rewrite iterate_perm. by apply elem_of_map_to_list. }
    destruct (decide _) as [He|He]; rewrite Hiff in He.
    + destruct He as (f' & -> & ->). done.
    + destruct (flows_ t !! k) as [f'|] eqn:Ek; [|done]. destruct (is_idle now idle_sec f') eqn:Ei; [|done].
      exfalso. apply He. by exists f'.
Qed.

(** ** Theorems *)

(** One call on the table. *)
Inductive table_step (D : Dissector) : FlowTable -> FlowTable -> Prop :=
| step_update it m p r t t' :
    payload_ok (zlen m) p -> p.(payload_len) < 2 ^ 32 -> next_id_ t < 2 ^ 64 - 1 ->
    update m it t p = Val (r, t') -> table_step D t t'
| step_expire it now idle_sec t : table_step D t (expire it t now idle_sec).2
| step_clear t : table_step D t (clear t)
| step_dissection on t : table_step D t (set_dissection_enabled t on).

Lemma update_rejected `{D : Dissector} m it t p : ~ accepted p -> update m it t p = Val (None, t).
Proof.
  intros Hn. unfold update. case_decide; [done|]. destruct (error p) eqn:E; [done|].
  exfalso. apply Hn. split; [|done]. destruct (decide (l3 p = L3Proto.IPv4)); [by left|].
  destruct (decide (l3 p = L3Proto.IPv6)); [by right|]. naive_solver.
Qed.

#[export] Instance accepted_dec p : Decision (accepted p).
Proof. unfold accepted. apply _. Defined.

Lemma update_total (D : Dissector) (DL : DissectorLaws D) m it t p :
  1 <= t.(max_flows_) -> payload_ok (zlen m) p -> p.(payload_len) < 2 ^ 32 ->
  exists r t', update m it t p = Val (r, t') /\
    if decide (accepted p) then exists f', r = Some f' /\ updated t p f' t' else r = None /\ t' = t.
Proof.
  intros Hm Hp Hl. case_decide as Ha; [|by rewrite update_rejected; eauto].
  destruct (proj1 (wpm_val _ _) (update_ok D DL m it t p Hm Hp Hl Ha)) as ([r t'] & E & f' & Hr & Hu).
  simpl in Hr, Hu. eauto 6.
Qed.

Lemma empty_table_ok t : t.(flows_) = ∅ -> 0 <= t.(max_flows_) -> 0 <= t.(next_id_) -> table_ok t.
Proof.
  intros E Hm Hn. constructor; unfold table_size; rewrite ?E.
  - by rewrite map_size_empty.
  - intros k f Hk. by rewrite lookup_empty in Hk.
  - intros k k' f f' Hk. by rewrite lookup_empty in Hk.
  - done.
Qed.

(** The entry that made room, if any. *)
Lemma room_gone t key base f id :
  made_room t key base f id ->
  exists gone : option FlowKey,
    (forall k, base !! k = if decide (gone = Some k) then None else t.(flows_) !! k) /\
    (is_Some gone -> t.(flows_) !! key = None /\ t.(max_flows_) <= table_size t).
Proof.
  intros [g Hg|g Hg Hlt Hi|victim g Hg Hge Hv Hi]; [exists None|exists None|exists (Some victim)];
    (split; [intros k|by intros []]); try done.
  case_decide as Hk; [injection Hk as ->; apply lookup_delete_eq|].
  apply lookup_delete_ne. congruence.
Qed.

Lemma table_step_ok (D : Dissector) (DL : DissectorLaws D) t t' :
  table_step D t t' -> table_ok t -> 1 <= t.(max_flows_) -> table_ok t' /\ t'.(max_flows_) = t.(max_flows_).
Proof.
  intros Hstep Ht Hm. destruct Hstep as [it m p r t t' Hp Hl Hid Hu|it now idle_sec t|t|on t].
  - destruct (update_total D DL m it t p Hm Hp Hl) as (r' & t'' & E & Hpost). rewrite E in Hu.
    injection Hu as -> ->. case_decide.
    + destruct Hpost as (f' & _ & Hupd). split; [by eapply updated_ok|by destruct Hupd].
    + by destruct Hpost as [_ ->].
  - assert (Hl : forall k f, (expire it t now idle_sec).2.(flows_) !! k = Some f -> t.(flows_) !! k = Some f).
    { intros k f. rewrite expire_lookup. destruct (flows_ t !! k) as [g|]; [|done]. by case_test. }
    assert (Hrest : (expire it t now idle_sec).2.(max_flows_) = t.(max_flows_) /\
                    (expire it t now idle_sec).2.(next_id_) = t.(next_id_))
      by (unfold expire; by destruct (fold_left _ _ _)).
    destruct Hrest as [Hm' Hn']. split; [|done]. destruct Ht. constructor; rewrite ?Hm', ?Hn'.
    + unfold table_size in *. assert (Hs : (size (flows_ (expire it t now idle_sec).2) <= size (flows_ t))%nat).
      { apply map_subseteq_size. apply map_subseteq_spec. exact Hl. } lia.
    + intros k f Hk. apply tk_flows0. by apply Hl.
    + intros k k' f f' Hk Hk'. apply tk_ids0; by apply Hl.
    + done.
  - split; [|done]. apply empty_table_ok; [done|simpl; lia|by destruct Ht].
  - split; [|done]. by destruct Ht.
Qed.

(** C8: The flow table stays well-formed and bounded under every sequence of
    calls: whatever packets, expiries, clears and switches arrive, in any order
    and with any hash-map iteration order, there are never more than [max_flows]
    flows, each is stored under its own key with a unique id, and each direction
    remembers at most 64 segments, 16 holes, 256 unacknowledged segments and one
    bounded reassembly buffer. *)
Theorem table_invariant (D : Dissector) (DL : DissectorLaws D) max_flows t :
  1 <= max_flows -> rtc (table_step D) (new_table max_flows) t -> table_ok t.
Proof.
  intros Hm Hr. enough (table_ok t /\ t.(max_flows_) = max_flows) as [? _] by done.
  remember (new_table max_flows) as t0 eqn:E0.
  assert (H0 : table_ok t0 /\ t0.(max_flows_) = max_flows).
  { subst t0. split; [|done]. apply empty_table_ok; [done|simpl; lia|done]. }
  clear E0. induction Hr as [|t0 t1 t2 Hs _ IH]; [done|]. apply IH.
  destruct H0 as [Hok Hmax]. destruct (table_step_ok D DL t0 t1 Hs Hok ltac:(lia)). split; [done|congruence].
Qed.

(** A packet on a table for one flow, and an expiry. *)
Lemma table_invariant_witness :
  match update [] any_order (new_table 1) sample_packet with
  | Val (_, t) => table_ok (expire any_order t timeval_zero f0).2
  | OOB => False
  end.
Proof.
  assert (Hv : match update [] any_order (new_table 1) sample_packet with Val _ => true | OOB => false end = true)
    by (vm_compute; reflexivity).
  destruct (update [] any_order (new_table 1) sample_packet) as [[r t]|] eqn:E; [|discriminate Hv].
  apply (table_invariant netscope_dissector netscope_dissector_laws 1); [lia|].
  apply (rtc_l _ _ t).
  - by apply (step_update netscope_dissector any_order [] sample_packet r).
  - apply rtc_once, step_expire.
Defined.

Lemma count_packet_counts d d' p :
  dir_counts d' = dir_counts (count_packet d p) ->
  d'.(d_packets) = incr d.(d_packets) /\ d'.(d_bytes) = u64 (d.(d_bytes) + p.(wirelen)) /\
  d'.(d_payload_bytes) = u64 (d.(d_payload_bytes) + p.(payload_len)).
Proof.
  unfold dir_counts. intros [= -> -> -> _ _ _ _ _ _]. unfold count_packet. case_decide; [|done].
  cbv zeta. repeat case_test; done.
Qed.

(** C7: [update] never runs into undefined behaviour, and it counts an accepted
    packet exactly once: the flow it returns is stored under the packet's key, its
    direction has one packet, [wirelen] bytes and [payload_len] payload bytes more;
    its other direction keeps everything but the queue of unacknowledged segments
    and the round-trip statistics, which only an ACK may change, and every other
    flow is unchanged; at most one other flow disappears, and only when a new flow
    meets a full table.  A packet without flow identity changes nothing. *)
Theorem update_counts_once (D : Dissector) (DL : DissectorLaws D) m it t p :
  table_ok t -> 1 <= t.(max_flows_) -> payload_ok (zlen m) p -> p.(payload_len) < 2 ^ 32 ->
  exists r t', update m it t p = Val (r, t') /\
    if decide (accepted p) then
      exists f' gone, r = Some f' /\
        let '(key, forward) := make_flow_key p in
        t'.(flows_) !! key = Some f' /\
        (forall k, k <> key -> t'.(flows_) !! k = if decide (gone = Some k) then None else t.(flows_) !! k) /\
        (is_Some gone -> t.(flows_) !! key = None /\ t.(max_flows_) <= table_size t) /\
        let f := default (fresh_flow t key p) (t.(flows_) !! key) in
        (get_dir f' forward).(d_packets) = incr (get_dir f forward).(d_packets) /\
        (get_dir f' forward).(d_bytes) = u64 ((get_dir f forward).(d_bytes) + p.(wirelen)) /\
        (get_dir f' forward).(d_payload_bytes) = u64 ((get_dir f forward).(d_payload_bytes) + p.(payload_len)) /\
        peer_kept p (get_dir f (negb forward)) (get_dir f' (negb forward)) /\
        f'.(f_last_seen) = p.(ts) /\ f'.(f_id) = f.(f_id) /\ f'.(f_key) = f.(f_key)
    else r = None /\ t' = t.
Proof.
  intros Ht Hm Hp Hl. destruct (update_total D DL m it t p Hm Hp Hl) as (r & t' & E & Hpost).
  exists r, t'. split; [done|]. case_decide as Ha; [|done].
  destruct Hpost as (f' & -> & [(base & Hroom & Hfl) [Hi Hf Hr] _ _ _ _ _ Hpeer]).
  destruct (make_flow_key p) as [key forward] eqn:Ek. cbn [fst snd] in *.
  set (f := starting_flow t key p) in *. change (default (fresh_flow t key p) (flows_ t !! key)) with f.
  destruct (room_gone _ _ _ _ _ Hroom) as (gone & Hgone & Hsome).
  exists f', gone. split; [done|]. rewrite Hfl.
  assert (Hd : dir_counts (get_dir f' forward) = dir_counts (count_packet (get_dir f forward) p))
    by (unfold counted in Hf, Hr; by destruct forward).
  apply count_packet_counts in Hd as (Hd1 & Hd2 & Hd3). split_and!; try done.
  - apply lookup_insert_eq.
  - intros k Hk. rewrite lookup_insert_ne by done. apply Hgone.
  - unfold flow_identity, counted in Hi. by destruct forward; injection Hi.
  - unfold flow_identity, counted in Hi. by destruct forward; injection Hi.
  - unfold flow_identity, counted in Hi. by destruct forward; injection Hi.
Qed.

Definition sample_table : FlowTable :=
  mkTable {[ some_key := flow_default some_key <| f_id := 1 |> ]} 1 true 1 0 0 0 0 0 ∅.

Lemma sample_table_ok : table_ok sample_table.
Proof.
  constructor.
  - by vm_compute.
  - intros k f Hk. cbn [sample_table flows_] in Hk. apply lookup_singleton_Some in Hk as [<- <-].
    constructor; [done|simpl; lia|apply dir_default_ok|apply dir_default_ok|done].
  - intros k k' f f' Hk Hk' _. cbn [sample_table flows_] in Hk, Hk'. apply lookup_singleton_Some in Hk as [<- _], Hk' as [<- _]. done.
  - by vm_compute.
Qed.

(** The sample packet meets a full table: the one flow in it makes room. *)
Lemma update_counts_once_witness :
  exists r t', update [] any_order sample_table sample_packet = Val (r, t') /\
    exists f' gone, r = Some f' /\ t'.(flows_) !! (make_flow_key sample_packet).1 = Some f' /\
      (is_Some gone -> sample_table.(max_flows_) <= table_size sample_table) /\
      (forall k, k <> (make_flow_key sample_packet).1 ->
         t'.(flows_) !! k = if decide (gone = Some k) then None else sample_table.(flows_) !! k).
Proof.
  destruct (update_counts_once netscope_dissector netscope_dissector_laws [] any_order sample_table sample_packet
    sample_table_ok ltac:(simpl; lia) ltac:(reflexivity) ltac:(reflexivity)) as (r & t' & E & H).
  exists r, t'. split; [exact E|].
  rewrite decide_True in H by (split; [by left|done]).
  destruct H as (f' & gone & Hr & Hk & Ho & Hg & _). exists f', gone.
  split_and!; [exact Hr|exact Hk| |exact Ho]. intros Hs. apply (Hg Hs).
Defined.

(** C26: [update] drives the TCP state machine: the state and the handshake flag of
    the flow after a TCP packet are those of the machine [tcp_seg] (whose traces
    the theorems about TCP states describe) after the packet's flags in the
    packet's direction; a packet of another protocol leaves them alone. *)
Theorem update_refines_tcp (D : Dissector) (DL : DissectorLaws D) m it t p f' t' :
  1 <= t.(max_flows_) -> payload_ok (zlen m) p -> p.(payload_len) < 2 ^ 32 -> accepted p ->
  update m it t p = Val (Some f', t') ->
  let '(key, forward) := make_flow_key p in
  let f := default (fresh_flow t key p) (t.(flows_) !! key) in
  state_of f' = if decide (p.(l4) = L4Proto.TCP) then state_of (tcp_seg f (p.(tcp_flags), forward)) else state_of f.
Proof.
  intros Hm Hp Hl Ha Hu. destruct (update_total D DL m it t p Hm Hp Hl) as (r & t'' & E & Hpost).
  rewrite decide_True in Hpost by done. destruct Hpost as (f'' & -> & [_ _ _ _ _ Hs Ho _]).
  rewrite E in Hu. injection Hu as -> ->. destruct (make_flow_key p) as [key forward]. cbn [fst snd] in *.
  case_decide; [by apply Hs|by apply Ho].
Qed.

Definition syn_packet : DecodedPacket := sample_packet <| tcp_flags := SYN |>.
Definition after_sample : mem (option Flow * FlowTable) := update [] any_order (new_table 4) syn_packet.

Lemma update_refines_tcp_witness :
  match after_sample with
  | Val (Some f', _) => state_of f' = (TcpState.SynSent, false)
  | _ => False
  end.
Proof.
  assert (Hs : match after_sample with Val (Some _, _) => true | _ => false end = true) by (vm_compute; reflexivity).
  destruct after_sample as [[[f'|] t']|] eqn:E; unfold after_sample in E; [|discriminate Hs..].
  pose proof (update_refines_tcp netscope_dissector netscope_dissector_laws [] any_order (new_table 4)
    syn_packet f' t' ltac:(simpl; lia) ltac:(reflexivity) ltac:(reflexivity)
    (conj (or_introl eq_refl) eq_refl) E) as H.
  clear E. vm_compute in H. exact H.
Defined.

(** C35: What is known about a flow's application only gets better: a conclusive
    identification never changes, an identified flow never becomes unidentified,
    and the per-protocol counter goes up exactly when a flow is identified for
    the first time, by one, for its protocol. *)
Theorem update_application (D : Dissector) (DL : DissectorLaws D) m it t p f' t' :
  1 <= t.(max_flows_) -> payload_ok (zlen m) p -> p.(payload_len) < 2 ^ 32 -> accepted p ->
  update m it t p = Val (Some f', t') ->
  let f := default (fresh_flow t (make_flow_key p).1 p) (t.(flows_) !! (make_flow_key p).1) in
  (f.(f_app).(conclusive) = true -> identified f.(f_app) = true -> f'.(f_app) = f.(f_app)) /\
  (identified f.(f_app) = true -> identified f'.(f_app) = true) /\
  t'.(app_counts_) =
    if negb (identified f.(f_app)) && identified f'.(f_app)
    then let k := AppProtocol.to_int f'.(f_app).(proto) in
         <[k := incr (default 0 (t.(app_counts_) !! k))]> t.(app_counts_)
    else t.(app_counts_).
Proof.
  intros Hm Hp Hl Ha Hu. destruct (update_total D DL m it t p Hm Hp Hl) as (r & t'' & E & Hpost).
  rewrite decide_True in Hpost by done. destruct Hpost as (f'' & -> & [_ _ _ _ Happ _ _ _]).
  rewrite E in Hu. injection Hu as -> ->.
  change (default (fresh_flow t (make_flow_key p).1 p) (flows_ t !! (make_flow_key p).1)) with (starting_flow t (make_flow_key p).1 p).
  set (f := starting_flow _ _ _) in *. cbv zeta.
  destruct Happ as [Ef Ec|Hn Hi Ec|Hn Hc Hi Ec].
  - rewrite Ef, Ec. split_and!; [done|done|]. by destruct (identified _).
  - apply info_ok_identified in Hi. rewrite Hi, Hn. split_and!; [done|done|]. done.
  - apply info_ok_identified in Hi. rewrite Hi, Hn, Hc. by split_and!.
Qed.

(** A DNS query on a new flow. *)
Definition dns_query : list byte :=
  [Byte.x12; Byte.x34; Byte.x01; Byte.x00; Byte.x00; Byte.x01; Byte.x00; Byte.x00; Byte.x00; Byte.x00; Byte.x00; Byte.x00;
   Byte.x03] ++ lit "dns" ++ [Byte.x04] ++ lit "test" ++ [Byte.x00; Byte.x00; Byte.x01; Byte.x00; Byte.x01].
Definition dns_packet : DecodedPacket :=
  sample_packet <| l4 := L4Proto.UDP |> <| ip_proto := 17 |> <| dport := 53 |>
    <| payload := Some 0 |> <| payload_len := zlen dns_query |>.
Definition after_dns : mem (option Flow * FlowTable) := update dns_query any_order (new_table 4) dns_packet.

Lemma update_application_witness :
  match after_dns with
  | Val (Some f', t') => t'.(app_counts_) = {[ 3 := 1 ]}
  | _ => False
  end.
Proof.
  assert (Hs : match after_dns with
               | Val (Some f, _) => f.(f_app) = mkAppInfo AppProtocol.DNS (lit "query A dns.test") true
               | _ => False end) by (vm_compute; reflexivity).
  destruct after_dns as [[[f'|] t']|] eqn:E; unfold after_dns in E; [|destruct Hs..].
  destruct (update_application netscope_dissector netscope_dissector_laws dns_query any_order (new_table 4)
    dns_packet f' t' ltac:(simpl; lia) ltac:(vm_compute; split_and!; congruence) ltac:(reflexivity)
    (conj (or_introl eq_refl) eq_refl) E) as (_ & _ & H).
  rewrite H, Hs. reflexivity.
Defined.

Lemma length_filter_bool {A} (g : A -> bool) l :
  length l = (length (filter (fun x => g x = true) l) + length (filter (fun x => g x = false) l))%nat.
Proof.
  induction l as [|x l IH]; [done|]. rewrite !filter_cons. destruct (g x) eqn:E.
  - rewrite decide_True, decide_False by congruence. simpl. lia.
  - rewrite decide_False, decide_True by congruence. simpl. lia.
Qed.

Lemma map_size_filter_false (g : FlowKey * Flow -> bool) (fl : gmap FlowKey Flow) :
  size (filter (fun kf => g kf = false) fl) = length (filter (fun kf => g kf = false) (map_to_list fl)).
Proof.
  rewrite map_filter_alt, <-length_map_to_list, map_to_list_to_map; [done|].
  eapply sublist_NoDup; [apply (NoDup_fst_map_to_list fl)|]. apply fmap_sublist, sublist_filter.
Qed.

(** A flow that has been quiet for more than [idle_sec] seconds, or that is over
    (CLOSED or RESET) and has been quiet for more than five. *)
Definition expired (now : timeval) (idle_sec : f64) (f : Flow) : Prop :=
  let quiet := timeval_diff now f.(f_last_seen) in
  flt idle_sec quiet = true \/
  ((f.(f_state) = TcpState.Closed \/ f.(f_state) = TcpState.Reset) /\ flt (f64_of 5) quiet = true).

Lemma is_idle_expired now idle_sec f : is_idle now idle_sec f = true <-> expired now idle_sec f.
Proof.
  unfold is_idle, expired, terminal. change kClosedFlowGraceSec with (f64_of 5).
  by rewrite orb_true_iff, andb_true_iff, orb_true_iff, !bool_decide_eq_true.
Qed.

(** The same in whole microseconds. *)
Lemma expired_us now n f :
  comparable now f.(f_last_seen) -> 0 <= n < 2 ^ 30 ->
  expired now (f64_of n) f <->
    n * 1000000 < gap_us now f.(f_last_seen) \/
    ((f.(f_state) = TcpState.Closed \/ f.(f_state) = TcpState.Reset) /\ 5000000 < gap_us now f.(f_last_seen)).
Proof.
  intros Hc Hn. unfold expired. cbv zeta. rewrite !timeval_diff_lt by (done || lia).
  change (5 * 1000000) with 5000000. by rewrite !Z.ltb_lt.
Qed.

Lemma expire_count it t now idle_sec :
  (expire it t now idle_sec).1 = table_size t - table_size (expire it t now idle_sec).2.
Proof.
  pose proof (expire_lookup it t now idle_sec) as Hl.
  destruct (expire it t now idle_sec) as [removed t'] eqn:E. simpl in Hl |- *.
  assert (Hfl : t'.(flows_) = filter (fun kf => is_idle now idle_sec kf.2 = false) t.(flows_)).
  { apply map_eq. intros k. rewrite Hl, map_lookup_filter. destruct (flows_ t !! k) as [f|]; simpl; [|done].
    by destruct (is_idle now idle_sec f). }
  assert (Hr : removed = zlen (filter (fun kf => is_idle now idle_sec kf.2 = true) (iterate it t.(flows_)))).
  { unfold expire in E. pose proof (expire_fold now idle_sec (iterate it t.(flows_)) (0, t.(flows_))) as Hf.
    cbv zeta in Hf. destruct Hf as [Hf _].
    - rewrite iterate_perm. apply NoDup_fst_map_to_list.
    - intros k' f'. rewrite iterate_perm. apply elem_of_map_to_list.
    - destruct (fold_left _ _ _) as [n fl]. injection E as <- _. simpl in Hf. lia. }
  rewrite Hr. unfold table_size. rewrite Hfl, map_size_filter_false, iterate_perm.
  rewrite <-length_map_to_list. pose proof (length_filter_bool (fun kf => is_idle now idle_sec kf.2) (map_to_list t.(flows_))).
  unfold zlen. lia.
Qed.

(** C36: [expire] removes exactly the flows that are due, whatever the iteration
    order: a flow stays, unchanged, if and only if it has not been quiet for more
    than [idle_sec] seconds and, when it is CLOSED or RESET, not for more than
    five; the number returned is the number of flows that went, and nothing else
    in the table changes.  For a limit of [n] whole seconds the double arithmetic
    is exact to the microsecond: a flow goes if and only if more than [n] million
    (five million for a flow that is over) microseconds have passed. *)
Theorem expire_exact it t now idle_sec :
  let '(removed, t') := expire it t now idle_sec in
  (forall k f, t'.(flows_) !! k = Some f <-> t.(flows_) !! k = Some f /\ ~ expired now idle_sec f) /\
  removed = table_size t - table_size t' /\ t' = t <| flows_ := t'.(flows_) |> /\
  (forall k f n, t.(flows_) !! k = Some f -> idle_sec = f64_of n -> 0 <= n < 2 ^ 30 ->
     comparable now f.(f_last_seen) ->
     t'.(flows_) !! k = None <->
       n * 1000000 < gap_us now f.(f_last_seen) \/
       ((f.(f_state) = TcpState.Closed \/ f.(f_state) = TcpState.Reset) /\
        5000000 < gap_us now f.(f_last_seen))).
Proof.
  pose proof (expire_lookup it t now idle_sec) as Hl. pose proof (expire_count it t now idle_sec) as Hc.
  assert (Hrest : (expire it t now idle_sec).2 = t <| flows_ := (expire it t now idle_sec).2.(flows_) |>)
    by (unfold expire; by destruct (fold_left _ _ _)).
  destruct (expire it t now idle_sec) as [removed t']. cbn [fst snd] in *. split_and!; [|done|done|].
  - intros k f. rewrite Hl, <-is_idle_expired. destruct (flows_ t !! k) as [g|]; [|naive_solver].
    destruct (is_idle now idle_sec g) eqn:E; naive_solver congruence.
  - intros k f n Hk -> Hn Hcmp. rewrite Hl, Hk, <-expired_us, <-is_idle_expired by done.
    by destruct (is_idle _ _ _).
Qed.

(** A reset connection, quiet for six seconds, and one quiet for four. *)
Definition two_flows : FlowTable :=
  let gone := mkTimeval 94 500000 in
  new_table 4 <| flows_ := <[ some_key := flow_default some_key <| f_state := TcpState.Reset |> <| f_last_seen := gone |> ]>
    {[ (make_flow_key sample_packet).1 := flow_default (make_flow_key sample_packet).1 <| f_last_seen := gone |> ]} |>.

Lemma expire_exact_witness :
  (expire any_order two_flows (mkTimeval 100 0) (f64_of 60)).2.(flows_) !! some_key = None.
Proof.
  pose proof (expire_exact any_order two_flows (mkTimeval 100 0) (f64_of 60)) as H.
  destruct (expire any_order two_flows (mkTimeval 100 0) (f64_of 60)) as [removed t'].
  destruct H as (_ & _ & _ & H). apply (H some_key _ 60 (lookup_insert_eq _ _ _)).
  - reflexivity.
  - by split.
  - by vm_compute.
  - right. split; [by right|by vm_compute].
Defined.

(** ** [top] *)

Definition counter_sort (s : FlowSort.t) : Prop :=
  s = FlowSort.Bytes \/ s = FlowSort.Packets \/ s = FlowSort.Retransmits.

Lemma flow_cmp_strict_weak s : counter_sort s -> strict_weak (flow_cmp s).
Proof.
  intros [-> | [-> | ->]]; constructor; cbn [flow_cmp]; intros *; try lia.
  - destruct (f_retransmits x =? f_retransmits y) eqn:E, (f_retransmits y =? f_retransmits x) eqn:E2; simpl; lia.
  - destruct (f_retransmits x =? f_retransmits y) eqn:E1, (f_retransmits y =? f_retransmits z) eqn:E2,
      (f_retransmits x =? f_retransmits z) eqn:E3; simpl; lia.
Qed.

(** What a counter order ranks by, and "at least as high": the flow's total bytes,
    its packets, or its retransmissions with the bytes to break ties. *)
Definition rank_key (s : FlowSort.t) (f : Flow) : Z * Z :=
  match s with
  | FlowSort.Packets => (f_packets f, 0)
  | FlowSort.Retransmits => (f_retransmits f, f_bytes f)
  | _ => (f_bytes f, 0)
  end.
Definition ranks_above (s : FlowSort.t) (x y : Flow) : Prop :=
  (rank_key s y).1 < (rank_key s x).1 \/
  ((rank_key s x).1 = (rank_key s y).1 /\ (rank_key s y).2 <= (rank_key s x).2).

Lemma flow_cmp_ranks s x y : counter_sort s -> flow_cmp s y x = false -> ranks_above s x y.
Proof.
  unfold ranks_above. intros [-> | [-> | ->]]; cbn [flow_cmp rank_key fst snd]; [lia|lia|].
  destruct (Z.eqb_spec (f_retransmits y) (f_retransmits x)); cbn [negb]; lia.
Qed.

(** C37: [top n] is a top-n list: for the counter orders it returns [min n size]
    flows of the table, in decreasing order of total bytes, of packets, or of
    retransmissions (and then bytes), and every flow it returns ranks at least as
    high as every flow it leaves out; with any iteration order and any sorting
    algorithm the standard allows. *)
Theorem top_is_best sorter it t n s :
  std_sort sorter -> counter_sort s -> 0 <= n ->
  let best := FlowTable.top sorter it t n s in
  exists rest,
    best ++ rest ≡ₚ (map_to_list t.(flows_)).*2 /\ zlen best = Z.min n (table_size t) /\
    StronglySorted (ranks_above s) best /\
    (forall x y, x ∈ best -> y ∈ rest -> ranks_above s x y).
Proof.
  intros Hsort Hs Hn best.
  destruct (keep_best_spec sorter (flow_cmp s) n (map snd (iterate it (flows_ t))) Hsort
              (flow_cmp_strict_weak s Hs) Hn) as (rest & Hp & Hl & Ho & Hr).
  fold (FlowTable.top sorter it t n s) in Hp, Hl, Ho, Hr. fold best in Hp, Hl, Ho, Hr.
  change (map snd) with (fmap (M := list) (@snd FlowKey Flow)) in *. rewrite iterate_perm in Hp, Hl.
  exists rest. split_and!; [done| | |].
  - rewrite Hl. unfold zlen, table_size. by rewrite length_fmap, length_map_to_list.
  - eapply StronglySorted_weaken; [|exact Ho]. intros x y. by apply flow_cmp_ranks.
  - intros x y Hx Hy. by apply flow_cmp_ranks, Hr.
Qed.

Definition busy_table : FlowTable :=
  let f k n := flow_default k <| f_fwd := dir_default <| d_bytes := n |> |> in
  new_table 4 <| flows_ := <[ some_key := f some_key 10 ]>
    {[ (make_flow_key sample_packet).1 := f (make_flow_key sample_packet).1 900 ]} |>.

Lemma top_is_best_witness :
  exists rest : list Flow, let best := FlowTable.top merge_sorter any_order busy_table 1 FlowSort.Bytes in
    zlen best = 1 /\ forall x y, x ∈ best -> y ∈ rest -> ranks_above FlowSort.Bytes x y.
Proof.
  destruct (top_is_best merge_sorter any_order busy_table 1 FlowSort.Bytes merge_sorter_std
    (or_introl eq_refl) ltac:(lia)) as (rest & _ & Hl & _ & Hr).
  exists rest. split; [rewrite Hl; by vm_compute|exact Hr].
Defined.

(** ** Karn's rule *)



