(* ===== verification/Stats.v ===== *)
(** * Capture statistics (include/stats.hpp, src/stats.cpp)

    The counters of the whole capture, the ring of one-second throughput buckets
    and the per-port and per-talker byte counts.  [ip_str] is what
    [IpAddress::str] gets from the C library's [inet_ntop]. *)

From S2P Require Import Prelude.
From S2P Require Import Machine.
From S2P Require Import Containers.
From S2P Require Import Protocol.
From S2P Require Import Float.
From S2P Require Import Flow.
#[local] Open Scope Z_scope.

Definition kThroughputWindow : Z := 90.

Record ThroughputBucket := mkBucket { bk_bytes : Z; bk_packets : Z }.
#[export] Instance ThroughputBucket_eta : Eta ThroughputBucket := fun b => mkBucket b.(bk_bytes) b.(bk_packets).
Definition bucket_zero : ThroughputBucket := mkBucket 0 0.

Record ProtocolCount := mkCount { pc_name : string; pc_packets : Z; pc_bytes : Z }.

(** [x += n] of a 64-bit counter. *)
Definition add64 (n : Z) (x : Z) : Z := u64 (x + n).

(** [if (b) ++x;] *)
Definition incr_if (b : bool) (x : Z) : Z := if b then incr x else x.

(** [m[k] += n]: the entry is created at zero. *)
Definition map_add {K} `{Countable K} (k : K) (n : Z) (m : gmap K Z) : gmap K Z :=
  <[k := add64 n (default 0 (m !! k))]> m.

Module Statistics.
Record t := mk {
  packets_ : Z; bytes_ : Z;
  kernel_received_ : Z; kernel_dropped_ : Z; if_dropped_ : Z;
  decode_errors_ : Z; truncated_ : Z; bad_checksums_ : Z; fragments_ : Z;
  tcp_packets_ : Z; tcp_bytes_ : Z;
  udp_packets_ : Z; udp_bytes_ : Z;
  icmp_packets_ : Z; icmp_bytes_ : Z;
  arp_packets_ : Z; arp_bytes_ : Z;
  other_packets_ : Z; other_bytes_ : Z;
  ipv4_packets_ : Z; ipv6_packets_ : Z;
  tcp_syn_ : Z; tcp_fin_ : Z; tcp_rst_ : Z;
  ring_ : list ThroughputBucket;
  ring_sec_ : list Z;
  newest_sec_ : Z;
  port_bytes_ : gmap Z Z;
  talker_bytes_ : gmap (list byte) Z;
  start_ : timeval;
  last_ : timeval;
  started_ : bool;
}.

#[export] Instance Statistics_eta : Eta t := fun s =>
  mk s.(packets_) s.(bytes_) s.(kernel_received_) s.(kernel_dropped_) s.(if_dropped_)
    s.(decode_errors_) s.(truncated_) s.(bad_checksums_) s.(fragments_)
    s.(tcp_packets_) s.(tcp_bytes_) s.(udp_packets_) s.(udp_bytes_)
    s.(icmp_packets_) s.(icmp_bytes_) s.(arp_packets_) s.(arp_bytes_)
    s.(other_packets_) s.(other_bytes_) s.(ipv4_packets_) s.(ipv6_packets_)
    s.(tcp_syn_) s.(tcp_fin_) s.(tcp_rst_) s.(ring_) s.(ring_sec_) s.(newest_sec_)
    s.(port_bytes_) s.(talker_bytes_) s.(start_) s.(last_) s.(started_).

(** [Statistics()] *)
Definition init : t :=
  mk 0 0 0 0 0 0 0 0 0 0 0 0 0 0 0 0 0 0 0 0 0 0 0 0
     (replicate (Z.to_nat kThroughputWindow) bucket_zero)
     (replicate (Z.to_nat kThroughputWindow) 0)
     0 ∅ ∅ timeval_zero timeval_zero false.

Definition reset (s : t) : t := init.

(** [static_cast<size_t>(sec) % kThroughputWindow] *)
Definition bucket_index (sec : Z) : nat := Z.to_nat (u64 sec mod kThroughputWindow).

(** [bucket_for(sec)]: the index of the bucket returned by reference. *)
Definition bucket_for (s : t) (sec : Z) : nat * t :=
  let idx := bucket_index sec in
  let s := if negb (bool_decide (s.(ring_sec_) !! idx = Some sec)) then
             s <| ring_sec_ ::= <[idx := sec]> |> <| ring_ ::= <[idx := bucket_zero]> |>
           else s in
  let s := if s.(newest_sec_) <? sec then s <| newest_sec_ := sec |> else s in
  (idx, s).

(** [b.bytes += wirelen; b.packets += 1;] *)
Definition bucket_add (wirelen : Z) (b : ThroughputBucket) : ThroughputBucket :=
  b <| bk_bytes ::= add64 wirelen |> <| bk_packets ::= add64 1 |>.

(** [if (!started_) ...; last_ = p.ts; ++packets_; bytes_ += p.wirelen;] *)
Definition count_totals (s : t) (p : DecodedPacket) : t :=
  let s := if negb s.(started_) then s <| start_ := p.(ts) |> <| started_ := true |> else s in
  s <| last_ := p.(ts) |> <| packets_ ::= incr |> <| bytes_ ::= add64 p.(wirelen) |>.

(** The prologue of [add]: clock, totals and throughput, for every packet. *)
Definition count_capture (s : t) (p : DecodedPacket) : t :=
  let s := count_totals s p in
  let '(b, s) := bucket_for s p.(ts).(tv_sec) in
  s <| ring_ ::= alter (bucket_add p.(wirelen)) b |>
    <| Statistics.truncated_ ::= incr_if p.(truncated) |>
    <| bad_checksums_ ::= incr_if p.(bad_ip_checksum) |>
    <| fragments_ ::= incr_if p.(fragmented) |>.

(** The switch over the transport protocol. *)
Definition count_l4 (s : t) (p : DecodedPacket) : t :=
  match p.(l4) with
  | L4Proto.TCP =>
      s <| tcp_packets_ ::= incr |> <| tcp_bytes_ ::= add64 p.(wirelen) |>
        <| tcp_syn_ ::= incr_if (has_flag p.(tcp_flags) TH_SYN) |>
        <| tcp_fin_ ::= incr_if (has_flag p.(tcp_flags) TH_FIN) |>
        <| tcp_rst_ ::= incr_if (has_flag p.(tcp_flags) TH_RST) |>
  | L4Proto.UDP => s <| udp_packets_ ::= incr |> <| udp_bytes_ ::= add64 p.(wirelen) |>
  | L4Proto.ICMP | L4Proto.ICMPv6 =>
      s <| icmp_packets_ ::= incr |> <| icmp_bytes_ ::= add64 p.(wirelen) |>
  | _ => s <| other_packets_ ::= incr |> <| other_bytes_ ::= add64 p.(wirelen) |>
  end.

Section add.
Variable ip_str : IpAddress -> list byte.

(** The attribution of bytes to a service port and to the sender. *)
Definition attribute (s : t) (p : DecodedPacket) : t :=
  let s := if has_ports p then
             s <| port_bytes_ ::= map_add (Z.min p.(sport) p.(dport)) p.(wirelen) |>
           else s in
  if bool_decide (p.(l3) = L3Proto.IPv4) || bool_decide (p.(l3) = L3Proto.IPv6) then
    s <| talker_bytes_ ::= map_add (ip_str p.(src_ip)) p.(wirelen) |>
  else s.

Definition add (s : t) (p : DecodedPacket) : t :=
  let s := count_capture s p in
  match p.(error) with
  | Some _ => s <| decode_errors_ ::= incr |>
  | None =>
      let s := s <| ipv4_packets_ ::= incr_if (bool_decide (p.(l3) = L3Proto.IPv4)) |>
                 <| ipv6_packets_ ::= incr_if (bool_decide (p.(l3) = L3Proto.IPv6)) |> in
      if decide (p.(l3) = L3Proto.ARP) then
        s <| arp_packets_ ::= incr |> <| arp_bytes_ ::= add64 p.(wirelen) |>
      else attribute (count_l4 s p) p
  end.
End add.

Definition set_kernel_stats (s : t) (received dropped if_dropped : Z) : t :=
  s <| kernel_received_ := received |> <| kernel_dropped_ := dropped |> <| if_dropped_ := if_dropped |>.

(** ** Queries *)

Definition elapsed_sec (s : t) : f64 :=
  if negb s.(started_) then f0
  else let d := timeval_diff s.(last_) s.(start_) in if flt f0 d then d else f0.

(** The literal 0.001. *)
Definition one_milli : f64 := f64_dyadic 4611686018427388 (-62).

Definition avg_bps (s : t) : f64 :=
  let secs := elapsed_sec s in
  if fle secs one_milli then f0 else fdiv (fmul (f64_of s.(bytes_)) (f64_of 8)) secs.

Definition avg_pps (s : t) : f64 :=
  let secs := elapsed_sec s in
  if fle secs one_milli then f0 else fdiv (f64_of s.(packets_)) secs.

(** The bucket a query finds for a second, if the ring still has it. *)
Definition bucket_at (s : t) (sec : Z) : option ThroughputBucket :=
  let idx := bucket_index sec in
  if bool_decide (s.(ring_sec_) !! idx = Some sec) then s.(ring_) !! idx else None.

(** The loop of [recent_bps] and [recent_pps]: [i] from 1 to [seconds]. *)
Definition recent_total (field : ThroughputBucket -> Z) (s : t) (seconds : Z) : Z :=
  fold_left (fun total i =>
      match bucket_at s (s.(newest_sec_) - i) with
      | Some b => add64 (field b) total
      | None => total
      end) (seqZ 1 seconds) 0.

Definition recent_bps (s : t) (seconds : Z) : f64 :=
  if (seconds =? 0) || (s.(newest_sec_) =? 0) then f0
  else let seconds := Z.min seconds kThroughputWindow in
       fdiv (fmul (f64_of (recent_total bk_bytes s seconds)) (f64_of 8)) (f64_of seconds).

Definition recent_pps (s : t) (seconds : Z) : f64 :=
  if (seconds =? 0) || (s.(newest_sec_) =? 0) then f0
  else let seconds := Z.min seconds kThroughputWindow in
       fdiv (f64_of (recent_total bk_packets s seconds)) (f64_of seconds).

Definition throughput_history (s : t) : list ThroughputBucket :=
  if s.(newest_sec_) =? 0 then []
  else map (fun i => default bucket_zero (bucket_at s (s.(newest_sec_) - (kThroughputWindow - 1 - i))))
           (seqZ 0 kThroughputWindow).

Definition peak_bucket_bytes (s : t) : Z :=
  fold_left (fun peak i =>
      match s.(ring_sec_) !! i, s.(ring_) !! i with
      | Some sec, Some b => if negb (sec =? 0) then Z.max peak b.(bk_bytes) else peak
      | _, _ => peak
      end) (seq 0 (Z.to_nat kThroughputWindow)) 0.

Definition protocol_distribution
    (sorter : (ProtocolCount -> ProtocolCount -> bool) -> list ProtocolCount -> list ProtocolCount)
    (s : t) : list ProtocolCount :=
  sorter (fun a b => b.(pc_packets) <? a.(pc_packets))
    [mkCount "TCP" s.(tcp_packets_) s.(tcp_bytes_); mkCount "UDP" s.(udp_packets_) s.(udp_bytes_);
     mkCount "ICMP" s.(icmp_packets_) s.(icmp_bytes_); mkCount "ARP" s.(arp_packets_) s.(arp_bytes_);
     mkCount "OTHER" s.(other_packets_) s.(other_bytes_)].

Definition top_ports (sorter : (Z * Z -> Z * Z -> bool) -> list (Z * Z) -> list (Z * Z))
    (it : iteration Z Z) (s : t) (n : Z) : list (Z * Z) :=
  keep_best sorter (fun a b => b.2 <? a.2) n (iterate it s.(port_bytes_)).

Definition top_talkers
    (sorter : (list byte * Z -> list byte * Z -> bool) -> list (list byte * Z) -> list (list byte * Z))
    (it : iteration (list byte) Z) (s : t) (n : Z) : list (list byte * Z) :=
  keep_best sorter (fun a b => b.2 <? a.2) n (iterate it s.(talker_bytes_)).
End Statistics.
