(* ===== verification/StatsSpec.v ===== *)
(** * The statistics are exact

    Every counter equals the count (or the byte sum), modulo 2^64, of the packets
    it is named after, whatever the packets; and while no packet arrives later
    than the ring's window allows, the throughput queries report the true
    per-second sums. *)

From S2P Require Import Prelude.
From S2P Require Import Machine.
From S2P Require Import Protocol.
From S2P Require Import Float.
From S2P Require Import Stats.
#[local] Open Scope Z_scope.

Import Statistics.

(** ** 64-bit accumulation *)

Lemma u64_add_l a b : u64 (u64 a + b) = u64 (a + b).
Proof. unfold u64. by rewrite Zplus_mod_idemp_l. Qed.

Lemma u64_add_r a b : u64 (a + u64 b) = u64 (a + b).
Proof. unfold u64. by rewrite Zplus_mod_idemp_r. Qed.

(** A sum of wrapped counters wraps like the sum of the counts. *)
Lemma u64_zsum {A} (f : A -> Z) l : u64 (zsum (fun x => u64 (f x)) l) = u64 (zsum f l).
Proof.
  induction l as [|x l IH]; [done|]. unfold zsum in *. cbn [foldr].
  by rewrite u64_add_l, <-u64_add_r, IH, u64_add_r.
Qed.

Lemma add64_u64 n x : add64 n (u64 x) = u64 (x + n).
Proof. apply u64_add_l. Qed.

Lemma incr_add64 x : incr x = add64 1 x. Proof. done. Qed.

(** ** What the counters are named after *)

(** Every packet belongs to exactly one category. *)
Inductive category := CError | CArp | CTcp | CUdp | CIcmp | COther.
#[export] Instance category_eq_dec : EqDecision category.
Proof. solve_decision. Defined.

Definition category_of (p : DecodedPacket) : category :=
  match p.(error) with
  | Some _ => CError
  | None =>
      if decide (p.(l3) = L3Proto.ARP) then CArp
      else match p.(l4) with
           | L4Proto.TCP => CTcp
           | L4Proto.UDP => CUdp
           | L4Proto.ICMP | L4Proto.ICMPv6 => CIcmp
           | _ => COther
           end
  end.

Definition in_cat (c : category) (p : DecodedPacket) : bool := bool_decide (category_of p = c).

Definition cat_packets (c : category) (s : t) : Z :=
  match c with
  | CError => s.(decode_errors_) | CArp => s.(arp_packets_) | CTcp => s.(tcp_packets_)
  | CUdp => s.(udp_packets_) | CIcmp => s.(icmp_packets_) | COther => s.(other_packets_)
  end.

(** The bytes of undecodable packets are not kept apart. *)
Definition cat_bytes (c : category) (s : t) : option Z :=
  match c with
  | CError => None | CArp => Some s.(arp_bytes_) | CTcp => Some s.(tcp_bytes_)
  | CUdp => Some s.(udp_bytes_) | CIcmp => Some s.(icmp_bytes_) | COther => Some s.(other_bytes_)
  end.

Definition decoded (p : DecodedPacket) : bool := match p.(error) with Some _ => false | None => true end.
Definition is_l3 (x : L3Proto.t) (p : DecodedPacket) : bool := decoded p && bool_decide (p.(l3) = x).

(** The service port of a decoded TCP or UDP packet: the lower of the two. *)
Definition service_of (p : DecodedPacket) : option Z :=
  if decoded p && negb (is_l3 L3Proto.ARP p) && has_ports p then Some (Z.min p.(sport) p.(dport)) else None.

Section exact.
Context (ip_str : IpAddress -> list byte).

Definition talker_of (p : DecodedPacket) : option (list byte) :=
  if is_l3 L3Proto.IPv4 p || is_l3 L3Proto.IPv6 p then Some (ip_str p.(src_ip)) else None.

(** The number, and the bytes, of the packets that satisfy a test. *)
Definition tally (test : DecodedPacket -> bool) (ps : list DecodedPacket) : Z :=
  zsum (fun p => if test p then 1 else 0) ps.
Definition volume (test : DecodedPacket -> bool) (ps : list DecodedPacket) : Z :=
  zsum (fun p => if test p then p.(wirelen) else 0) ps.

Definition run (ps : list DecodedPacket) : t := fold_left (add ip_str) ps init.

Lemma run_snoc ps p : run (ps ++ [p]) = add ip_str (run ps) p.
Proof. unfold run. by rewrite fold_left_app. Qed.

(** *** [add] field by field *)

(** A counter that [add] advances by the weight of the packet. *)
Definition counts (field : t -> Z) (weight : DecodedPacket -> Z) : Prop :=
  field init = 0 /\
  forall s p, in_u64 (field s) -> field (add ip_str s p) = add64 (weight p) (field s).

Lemma counts_run field weight ps :
  counts field weight -> field (run ps) = u64 (zsum weight ps).
Proof.
  intros [H0 Hadd]. induction ps as [|p ps IH] using rev_ind; [exact H0|].
  rewrite run_snoc, Hadd, IH, zsum_snoc by (rewrite IH; auto with word). apply add64_u64.
Qed.

Lemma add64_0 x : in_u64 x -> add64 0 x = x.
Proof. intros. unfold add64. rewrite Z.add_0_r. by apply u64_id. Qed.

Lemma incr_if_add64 b x : in_u64 x -> incr_if b x = add64 (if b then 1 else 0) x.
Proof. intros. destruct b; [done|]. by rewrite add64_0. Qed.

(** The fields that only the decoded part of [add] writes. *)
Definition decoded_fields (s : t) :=
  (decode_errors_ s, (arp_packets_ s, arp_bytes_ s), (tcp_packets_ s, tcp_bytes_ s),
   (udp_packets_ s, udp_bytes_ s), (icmp_packets_ s, icmp_bytes_ s), (other_packets_ s, other_bytes_ s),
   (ipv4_packets_ s, ipv6_packets_ s), (tcp_syn_ s, tcp_fin_ s, tcp_rst_ s), port_bytes_ s, talker_bytes_ s).

(** The fields that only [count_capture] writes. *)
Definition capture_fields (s : t) :=
  (packets_ s, bytes_ s, (truncated_ s, bad_checksums_ s, fragments_ s),
   (start_ s, last_ s, started_ s), (ring_ s, ring_sec_ s, newest_sec_ s)).

Definition totals (s : t) :=
  (packets_ s, bytes_ s, (truncated_ s, bad_checksums_ s, fragments_ s)).

Lemma count_totals_fields s p :
  let s' := count_totals s p in
  decoded_fields s' = decoded_fields s /\ (ring_ s', ring_sec_ s', newest_sec_ s') = (ring_ s, ring_sec_ s, newest_sec_ s) /\
  totals s' = (incr (packets_ s), add64 p.(wirelen) (bytes_ s), (truncated_ s, bad_checksums_ s, fragments_ s)).
Proof. unfold count_totals. by destruct (started_ s). Qed.

Lemma bucket_for_fields s sec :
  let s' := (bucket_for s sec).2 in
  decoded_fields s' = decoded_fields s /\ totals s' = totals s.
Proof.
  unfold bucket_for. cbn [snd]. set (s1 := if negb _ then _ else s).
  assert (H : decoded_fields s1 = decoded_fields s /\ totals s1 = totals s)
    by (unfold s1; by destruct (negb _)).
  clearbody s1. destruct H as [<- <-]. by destruct (_ <? _).
Qed.

Lemma count_capture_fields s p :
  let s' := count_capture s p in
  decoded_fields s' = decoded_fields s /\
  totals s' = (incr (packets_ s), add64 p.(wirelen) (bytes_ s),
               (incr_if p.(truncated) (truncated_ s), incr_if p.(bad_ip_checksum) (bad_checksums_ s),
                incr_if p.(fragmented) (fragments_ s))).
Proof.
  unfold count_capture. destruct (count_totals_fields s p) as (H1 & _ & H2).
  destruct (bucket_for_fields (count_totals s p) (tv_sec (ts p))) as [H3 H4].
  destruct (bucket_for _ _) as [b s']. simpl in H3, H4. rewrite <-H1, <-H3. split; [done|].
  rewrite H2 in H4. unfold totals in H4. injection H4 as E1 E2 E3 E4 E5.
  unfold totals. cbn. by rewrite E1, E2, E3, E4, E5.
Qed.

Definition tally_capture (s : t) (p : DecodedPacket) : t :=
  match p.(error) with
  | Some _ => s <| decode_errors_ ::= incr |>
  | None =>
      let s := s <| ipv4_packets_ ::= incr_if (bool_decide (p.(l3) = L3Proto.IPv4)) |>
                 <| ipv6_packets_ ::= incr_if (bool_decide (p.(l3) = L3Proto.IPv6)) |> in
      if decide (p.(l3) = L3Proto.ARP) then
        s <| arp_packets_ ::= incr |> <| arp_bytes_ ::= add64 p.(wirelen) |>
      else attribute ip_str (count_l4 s p) p
  end.

Lemma add_split s p : add ip_str s p = tally_capture (count_capture s p) p.
Proof. done. Qed.

Lemma tally_capture_fields s p : capture_fields (tally_capture s p) = capture_fields s.
Proof.
  unfold tally_capture, attribute, count_l4. cbv zeta.
  destruct (error p), (l3 p), (l4 p), (has_ports p); reflexivity.
Qed.

Ltac from_capture :=
  split; [done|]; intros s p Hs; rewrite add_split, <-?incr_if_add64 by done;
  pose proof (tally_capture_fields (count_capture s p) p) as E;
  pose proof (proj2 (count_capture_fields s p)) as F; revert E F;
  generalize (count_capture s p); intros c; generalize (tally_capture c p); intros c' E F; clear Hs;
  injection E; injection F; clear E F; intros; etrans; eassumption.

Ltac from_decoded :=
  split; [done|]; intros s p Hs; cbn [cat_packets cat_bytes from_option id] in *; rewrite add_split; rewrite <-?incr_if_add64 by done;
  pose proof (proj1 (count_capture_fields s p)) as E; revert E Hs; generalize (count_capture s p); intros c E Hs;
  injection E; intros; clear E;
  match goal with H : ?f c = ?f s |- _ = _ (?f s) => rewrite <-H in *; clear -Hs end;
  unfold tally_capture, attribute, count_l4, in_cat, is_l3, category_of, decoded; cbv zeta;
  destruct (error p), (l3 p), (l4 p), (has_ports p); reflexivity || (symmetry; by apply add64_0).

Lemma counts_packets : counts packets_ (fun _ => 1).
Proof. from_capture. Qed.

Lemma counts_category c : counts (cat_packets c) (fun p => if in_cat c p then 1 else 0).
Proof. destruct c; from_decoded. Qed.

Lemma counts_category_bytes c :
  c <> CError -> counts (fun s => default 0 (cat_bytes c s)) (fun p => if in_cat c p then p.(wirelen) else 0).
Proof. intros Hc. destruct c; [done|..]; from_decoded. Qed.

Lemma default_map_add {K} `{Countable K} (k k' : K) n m :
  default 0 (map_add k' n m !! k) = if bool_decide (k' = k) then add64 n (default 0 (m !! k)) else default 0 (m !! k).
Proof. unfold map_add. case_bool_decide; subst; [by rewrite lookup_insert_eq|by rewrite lookup_insert_ne]. Qed.

(** A per-key byte count that [add] keeps through [map_add]. *)
Lemma counts_map {K} `{Countable K} (field : t -> gmap K Z) (key : DecodedPacket -> option K) k :
  field init = ∅ -> (forall s p, field (count_capture s p) = field s) ->
  (forall c p, field (tally_capture c p) =
               match key p with Some k' => map_add k' p.(wirelen) (field c) | None => field c end) ->
  counts (fun s => default 0 (field s !! k)) (fun p => if bool_decide (key p = Some k) then p.(wirelen) else 0).
Proof.
  intros H0 Hc Ht. split; [by rewrite H0|]. intros s p Hs. rewrite add_split, Ht, Hc.
  destruct (key p) as [k'|]; [|symmetry; by apply add64_0].
  rewrite default_map_add. repeat case_bool_decide; try congruence.
  all: symmetry; by apply add64_0.
Qed.

Lemma count_l4_maps s p : port_bytes_ (count_l4 s p) = port_bytes_ s /\ talker_bytes_ (count_l4 s p) = talker_bytes_ s.
Proof. unfold count_l4. by destruct (l4 p). Qed.

Lemma attribute_ports c p : port_bytes_ (attribute ip_str c p) =
  if has_ports p then map_add (Z.min p.(sport) p.(dport)) p.(wirelen) (port_bytes_ c) else port_bytes_ c.
Proof. unfold attribute. destruct (has_ports p); by destruct (_ || _). Qed.

Lemma attribute_talkers c p : talker_bytes_ (attribute ip_str c p) =
  if bool_decide (p.(l3) = L3Proto.IPv4) || bool_decide (p.(l3) = L3Proto.IPv6)
  then map_add (ip_str p.(src_ip)) p.(wirelen) (talker_bytes_ c) else talker_bytes_ c.
Proof. unfold attribute. destruct (has_ports p); by destruct (_ || _). Qed.

Lemma counts_ports k :
  counts (fun s => default 0 (port_bytes_ s !! k))
    (fun p => if bool_decide (service_of p = Some k) then p.(wirelen) else 0).
Proof.
  apply counts_map; [done| |].
  - intros s p. pose proof (proj1 (count_capture_fields s p)) as E. revert E.
    generalize (count_capture s p). intros c E. by injection E.
  - intros c p. unfold tally_capture, service_of, is_l3, decoded. cbv zeta.
    destruct (error p); [done|]. cbn [andb]. destruct (decide _) as [->|Harp]; [done|].
    rewrite attribute_ports, (proj1 (count_l4_maps _ p)), (bool_decide_eq_false_2 (l3 p = L3Proto.ARP)) by done.
    by destruct (has_ports p).
Qed.

Lemma capture_talkers s p : talker_bytes_ (count_capture s p) = talker_bytes_ s.
Proof.
  pose proof (proj1 (count_capture_fields s p)) as E. revert E.
  generalize (count_capture s p). intros c E. by injection E.
Qed.

Lemma tally_talkers c p :
  talker_bytes_ (tally_capture c p) =
  match talker_of p with
  | Some k => map_add k p.(wirelen) (talker_bytes_ c)
  | None => talker_bytes_ c
  end.
Proof.
  unfold tally_capture, talker_of, is_l3, decoded. cbv zeta.
  destruct (error p); [done|]. cbn [andb]. destruct (decide _) as [->|Harp]; [done|].
  rewrite attribute_talkers, (proj2 (count_l4_maps _ p)). by destruct (_ || _).
Qed.

Lemma counts_talkers k :
  counts (fun s => default 0 (talker_bytes_ s !! k))
    (fun p => if bool_decide (talker_of p = Some k) then p.(wirelen) else 0).
Proof. apply counts_map; [done|apply capture_talkers|apply tally_talkers]. Qed.

(** The categories partition the packets. *)
Lemma categories_partition ps :
  zsum (fun c => tally (in_cat c) ps) [CError; CArp; CTcp; CUdp; CIcmp; COther] = zlen ps.
Proof.
  induction ps as [|p ps IH]; [done|]. rewrite zlen_cons, <-IH. unfold tally, zsum, in_cat. simpl.
  destruct (category_of p); simpl; lia.
Qed.

(** C29: The capture counters are exact. After any sequence of packets, the total
    and every category (undecodable, ARP, TCP, UDP, ICMP, other) hold the number
    of packets of that category modulo 2^64, and all but the undecodable, for
    which the program keeps no byte count, their bytes; the six categories add up
    to the total.  The TCP flag tallies, the frame anomalies, and the bytes
    attributed to each service port and each sender are the true numbers modulo
    2^64 too. *)
Theorem statistics_exact ps :
  let s := run ps in
  packets_ s = u64 (zlen ps) /\ bytes_ s = u64 (zsum wirelen ps) /\
  (forall c, cat_packets c s = u64 (tally (in_cat c) ps)) /\
  (forall c b, cat_bytes c s = Some b -> b = u64 (volume (in_cat c) ps)) /\
  packets_ s = u64 (zsum (fun c => cat_packets c s) [CError; CArp; CTcp; CUdp; CIcmp; COther]) /\
  tcp_syn_ s = u64 (tally (fun p => in_cat CTcp p && has_flag p.(tcp_flags) TH_SYN) ps) /\
  tcp_fin_ s = u64 (tally (fun p => in_cat CTcp p && has_flag p.(tcp_flags) TH_FIN) ps) /\
  tcp_rst_ s = u64 (tally (fun p => in_cat CTcp p && has_flag p.(tcp_flags) TH_RST) ps) /\
  Statistics.truncated_ s = u64 (tally truncated ps) /\
  bad_checksums_ s = u64 (tally bad_ip_checksum ps) /\ fragments_ s = u64 (tally fragmented ps) /\
  ipv4_packets_ s = u64 (tally (is_l3 L3Proto.IPv4) ps) /\
  ipv6_packets_ s = u64 (tally (is_l3 L3Proto.IPv6) ps) /\
  (forall k, default 0 (port_bytes_ s !! k) = u64 (volume (fun p => bool_decide (service_of p = Some k)) ps)) /\
  (forall k, default 0 (talker_bytes_ s !! k) = u64 (volume (fun p => bool_decide (talker_of p = Some k)) ps)).
Proof.
  intros st. assert (Hlen : zlen ps = zsum (fun _ => 1) ps) 
    by (clear st; induction ps as [|p ps IH]; [done|rewrite zlen_cons, IH; done]).
  assert (Hp : packets_ st = u64 (zlen ps)) by (rewrite Hlen; apply counts_run, counts_packets).
  assert (Hc : forall c, cat_packets c st = u64 (tally (in_cat c) ps))
    by (intros c; apply (counts_run (cat_packets c)), counts_category).
  assert (Hb : bytes_ st = u64 (zsum wirelen ps)) by (apply counts_run; from_capture).
  repeat (split; [try done; try (apply counts_run; solve [from_capture|from_decoded])|]).
  - intros c b Hb'. assert (Hn : c <> CError) by (by intros ->).
    pose proof (counts_run _ _ ps (counts_category_bytes c Hn)) as Hr. cbv beta in Hr.
    fold st in Hr. by rewrite Hb' in Hr.
  - rewrite Hp, <-categories_partition, <-u64_zsum. unfold zsum. cbn [foldr]. by rewrite !Hc.
  - intros k. apply (counts_run (fun s => default 0 (port_bytes_ s !! k))), counts_ports.
  - intros k. apply (counts_run (fun s => default 0 (talker_bytes_ s !! k))), counts_talkers.
Qed.
End exact.

(** ** Throughput *)

(** The seconds of the packets, and the true contents of the bucket of one. *)
Definition second (p : DecodedPacket) : Z := p.(ts).(tv_sec).

Definition true_bucket (ps : list DecodedPacket) (sec : Z) : ThroughputBucket :=
  mkBucket (u64 (volume (fun p => second p =? sec) ps)) (u64 (tally (fun p => second p =? sec) ps)).

Definition newest (ps : list DecodedPacket) : Z := fold_left (fun n p => Z.max n (second p)) ps 0.

(** No packet is older than the window behind the newest one before it; seconds
    are positive 64-bit values. *)
Fixpoint in_window (n : Z) (ps : list DecodedPacket) : bool :=
  match ps with
  | [] => true
  | p :: ps => (0 <? second p) && (second p <? 2 ^ 63) && (n - kThroughputWindow <? second p) &&
               in_window (Z.max n (second p)) ps
  end.

Lemma in_window_snoc n ps p :
  in_window n (ps ++ [p]) = true ->
  in_window n ps = true /\ 0 < second p < 2 ^ 63 /\
  fold_left (fun n p => Z.max n (second p)) ps n - kThroughputWindow < second p.
Proof.
  revert n. induction ps as [|q ps IH]; intros n; simpl app; cbn [in_window fold_left].
  - rewrite andb_true_r. intros. breflect. split_and!; done.
  - intros [Hq Hps]%andb_true_iff. rewrite Hq. cbn [andb].
    by destruct (IH (Z.max n (second q)) Hps) as (IH1 & IH2 & IH3).
Qed.

Lemma newest_snoc ps p : newest (ps ++ [p]) = Z.max (newest ps) (second p).
Proof. unfold newest. by rewrite fold_left_app. Qed.

Lemma bucket_add_eq n b k : bucket_add n (mkBucket b k) = mkBucket (add64 n b) (add64 1 k).
Proof. done. Qed.

Lemma true_bucket_snoc ps p sec :
  true_bucket (ps ++ [p]) sec =
  if second p =? sec then bucket_add p.(wirelen) (true_bucket ps sec) else true_bucket ps sec.
Proof.
  unfold true_bucket, volume, tally. rewrite !zsum_snoc.
  destruct (second p =? sec); [by rewrite bucket_add_eq, !add64_u64|by rewrite !Z.add_0_r].
Qed.

Lemma true_bucket_none ps sec :
  (forall p, p ∈ ps -> second p <> sec) -> true_bucket ps sec = bucket_zero.
Proof.
  intros Hn. unfold true_bucket, volume, tally.
  rewrite !zsum_0; [done|..]; intros p Hp; by rewrite (proj2 (Z.eqb_neq _ _) (Hn p Hp)).
Qed.

(** What the ring holds. *)
Record ring_ok (ps : list DecodedPacket) (s : t) : Prop := {
  ro_ring : length (ring_ s) = Z.to_nat kThroughputWindow;
  ro_secs : length (ring_sec_ s) = Z.to_nat kThroughputWindow;
  ro_range : forall i y, ring_sec_ s !! i = Some y -> 0 <= y <= newest ps;
  ro_newest : newest_sec_ s = newest ps;
  ro_bounds : 0 <= newest ps < 2 ^ 63;
  ro_packets : forall p, p ∈ ps -> 0 < second p <= newest ps;
  ro_window : forall x, newest ps - kThroughputWindow < x <= newest ps ->
                        default bucket_zero (bucket_at s x) = true_bucket ps x;
}.

Lemma bucket_index_lt x : (bucket_index x < Z.to_nat kThroughputWindow)%nat.
Proof.
  unfold bucket_index. pose proof (Z.mod_pos_bound (u64 x) kThroughputWindow eq_refl).
  unfold kThroughputWindow in *. lia.
Qed.

(** Within one window, seconds do not collide. *)
Lemma bucket_index_inj x y :
  0 <= x < 2 ^ 63 -> 0 <= y < 2 ^ 63 -> Z.abs (x - y) < kThroughputWindow ->
  bucket_index x = bucket_index y -> x = y.
Proof.
  unfold bucket_index, kThroughputWindow. intros Hx Hy Hd E.
  rewrite !u64_id in E by (unfold in_u64; lia).
  pose proof (Z.mod_pos_bound x 90 eq_refl). pose proof (Z.mod_pos_bound y 90 eq_refl).
  apply (f_equal Z.of_nat) in E. rewrite !Z2Nat.id in E by lia.
  pose proof (Z.div_mod x 90 ltac:(lia)). pose proof (Z.div_mod y 90 ltac:(lia)). nia.
Qed.

Definition ring_fields (s : t) := (ring_ s, ring_sec_ s, newest_sec_ s).

(** [add] writes the ring through [bucket_for] and the bucket it returns. *)
Lemma add_ring ip_str s p :
  let b := bucket_index (second p) in
  let fresh := negb (bool_decide (ring_sec_ s !! b = Some (second p))) in
  ring_fields (add ip_str s p) =
    (alter (bucket_add p.(wirelen)) b (if fresh then <[b := bucket_zero]> (ring_ s) else ring_ s),
     if fresh then <[b := second p]> (ring_sec_ s) else ring_sec_ s,
     Z.max (newest_sec_ s) (second p)).
Proof.
  cbv zeta. rewrite add_split.
  pose proof (tally_capture_fields ip_str (count_capture s p) p) as E. unfold capture_fields in E.
  assert (F : ring_fields (tally_capture ip_str (count_capture s p) p) = ring_fields (count_capture s p)).
  { revert E. generalize (count_capture s p). intros c. generalize (tally_capture ip_str c p). intros c' E.
    unfold ring_fields. by injection E; intros -> -> ->. }
  rewrite F. clear E F. unfold count_capture.
  destruct (count_totals_fields s p) as (_ & Hr & _). revert Hr. generalize (count_totals s p). intros c Hr.
  injection Hr as E1 E2 E3. unfold bucket_for, second. rewrite E2.
  set (b := bucket_index (tv_sec (ts p))). 
  destruct (negb (bool_decide (ring_sec_ s !! b = Some (tv_sec (ts p))))); cbv zeta;
    (case_test; breflect; cbn in *; unfold ring_fields; cbn; rewrite E1, E2, ?E3; repeat f_equal; lia).
Qed.

(** The bucket a query finds after one more packet. *)
Lemma bucket_at_add ip_str ps s p x :
  ring_ok ps s -> 0 < second p < 2 ^ 63 -> newest ps - kThroughputWindow < second p ->
  Z.max (newest ps) (second p) - kThroughputWindow < x <= Z.max (newest ps) (second p) ->
  default bucket_zero (bucket_at (add ip_str s p) x) = true_bucket (ps ++ [p]) x.
Proof.
  intros [] Hp Hw Hx. pose proof (add_ring ip_str s p) as E. cbv zeta in E.
  injection E as E1 E2 _. rewrite true_bucket_snoc. unfold bucket_at. rewrite E1, E2. clear E1 E2.
  set (b := bucket_index (second p)) in *.
  pose proof (bucket_index_lt (second p)) as Hb. fold b in Hb.
  destruct (lookup_lt_is_Some_2 (ring_ s) b) as [old Hold]; [congruence|].
  destruct (lookup_lt_is_Some_2 (ring_sec_ s) b) as [y Hy]; [congruence|].
  pose proof (ro_range0 b y Hy) as Hyr.
  destruct (second p =? x) eqn:Exp; breflect.
  - subst x. fold b. destruct (decide (y = second p)) as [->|Hne].
    + rewrite (bool_decide_eq_true_2 (ring_sec_ s !! b = _)) by done. cbn [negb].
      rewrite (bool_decide_eq_true_2 _ Hy), list_lookup_alter_eq, Hold. simpl. f_equal.
      specialize (ro_window0 (second p) ltac:(lia)). unfold bucket_at in ro_window0. fold b in ro_window0.
      by rewrite (bool_decide_eq_true_2 _ Hy), Hold in ro_window0.
    + assert (Hz : true_bucket ps (second p) = bucket_zero).
      { destruct (Z.le_gt_cases (second p) (newest ps)).
        - rewrite <-ro_window0 by lia. unfold bucket_at. fold b.
          rewrite (bool_decide_eq_false_2 (ring_sec_ s !! b = _)) by congruence. done.
        - apply true_bucket_none. intros q Hq. specialize (ro_packets0 q Hq). lia. }
      rewrite Hz, (bool_decide_eq_false_2 (ring_sec_ s !! b = _)) by congruence. cbn [negb].
      rewrite list_lookup_insert_eq, bool_decide_eq_true_2 by (done || congruence).
      by rewrite list_lookup_alter_eq, list_lookup_insert_eq by congruence.
  - destruct (Z.lt_ge_cases x 0) as [Hneg|Hpos].
    { rewrite true_bucket_none by (intros q Hq; specialize (ro_packets0 q Hq); lia).
      rewrite bool_decide_eq_false_2; [done|]. intros Hin.
      destruct (negb _); [|specialize (ro_range0 _ _ Hin); lia].
      apply list_lookup_insert_Some in Hin as [(_ & ? & _)|[_ Hin]]; [lia|specialize (ro_range0 _ _ Hin); lia]. }
    assert (Hib : b <> bucket_index x).
    { intros Hbx. apply bucket_index_inj in Hbx; unfold kThroughputWindow in *; lia. }
    assert (Hs : (if negb (bool_decide (ring_sec_ s !! b = Some (second p)))
                  then <[b := second p]> (ring_sec_ s) else ring_sec_ s) !! bucket_index x =
                 ring_sec_ s !! bucket_index x) by (destruct (negb _); [by apply list_lookup_insert_ne|done]).
    rewrite Hs, list_lookup_alter_ne by done.
    assert (Hr : (if negb (bool_decide (ring_sec_ s !! b = Some (second p)))
                  then <[b := bucket_zero]> (ring_ s) else ring_ s) !! bucket_index x =
                 ring_ s !! bucket_index x) by (destruct (negb _); [by apply list_lookup_insert_ne|done]).
    rewrite Hr. fold (bucket_at s x). destruct (Z.le_gt_cases x (newest ps)); [apply ro_window0; lia|].
    rewrite true_bucket_none by (intros q Hq; specialize (ro_packets0 q Hq); lia).
    unfold bucket_at. rewrite bool_decide_eq_false_2; [done|]. intros Hin. specialize (ro_range0 _ _ Hin). lia.
Qed.

Lemma ring_ok_add ip_str ps s p :
  ring_ok ps s -> 0 < second p < 2 ^ 63 -> newest ps - kThroughputWindow < second p ->
  ring_ok (ps ++ [p]) (add ip_str s p).
Proof.
  intros Hok Hp Hw. pose proof (bucket_at_add ip_str ps s p) as Hat.
  pose proof (add_ring ip_str s p) as E. cbv zeta in E. injection E as E1 E2 E3.
  specialize (fun x => Hat x Hok Hp Hw). destruct Hok. constructor; rewrite ?newest_snoc.
  - rewrite E1, length_alter. by case_test; rewrite ?length_insert.
  - rewrite E2. by case_test; rewrite ?length_insert.
  - rewrite E2. intros i y. case_test.
    + intros [(_ & <- & _)|[_ Hi]]%list_lookup_insert_Some; [lia|]. specialize (ro_range0 _ _ Hi). lia.
    + intros Hi. specialize (ro_range0 _ _ Hi). lia.
  - by rewrite E3, ro_newest0.
  - lia.
  - intros q [Hq| ->%list_elem_of_singleton]%elem_of_app; [specialize (ro_packets0 q Hq)|]; lia.
  - exact Hat.
Qed.

Lemma bucket_at_init x : default bucket_zero (bucket_at init x) = bucket_zero.
Proof.
  unfold bucket_at. case_bool_decide; [|done]. cbn [ring_ init].
  rewrite lookup_replicate_2; [done|apply bucket_index_lt].
Qed.

Lemma ring_ok_init : ring_ok [] init.
Proof.
  constructor; try done.
  - intros i y. cbn [ring_sec_ init]. intros [-> _]%lookup_replicate. done.
  - intros p Hp. by apply not_elem_of_nil in Hp.
  - intros x _. by rewrite bucket_at_init.
Qed.

Lemma ring_ok_run ip_str ps : in_window 0 ps = true -> ring_ok ps (run ip_str ps).
Proof.
  induction ps as [|p ps IH] using rev_ind; intros Hw; [apply ring_ok_init|].
  apply in_window_snoc in Hw as (H1 & H2 & H3). rewrite run_snoc. by apply ring_ok_add; [apply IH| |].
Qed.

(** The loop of the recent rates is a sum over the seconds it visits. *)
Lemma recent_total_sum field s n :
  field bucket_zero = 0 ->
  recent_total field s n =
  u64 (zsum (fun i => field (default bucket_zero (bucket_at s (newest_sec_ s - i)))) (seqZ 1 n)).
Proof.
  intros H0. unfold recent_total. induction (seqZ 1 n) as [|i l IH] using rev_ind; [done|].
  rewrite fold_left_app, zsum_snoc. cbn [fold_left]. rewrite IH.
  destruct (bucket_at s _) as [b|]; cbn [from_option id]; [apply add64_u64|by rewrite H0, Z.add_0_r].
Qed.

(** Summing a per-second tally over consecutive seconds. *)
Lemma zsum_seconds (w : DecodedPacket -> Z) ps top n :
  0 <= n ->
  zsum (fun i => zsum (fun p => if second p =? top - i then w p else 0) ps) (seqZ 1 n) =
  zsum (fun p => if (top - n <=? second p) && (second p <? top) then w p else 0) ps.
Proof.
  intros Hn. induction ps as [|p ps IH].
  { unfold zsum at 2 3. simpl. apply zsum_0. done. }
  assert (Hsplit : forall (f g : Z -> Z) l, zsum (fun i => f i + g i) l = zsum f l + zsum g l)
    by (intros f g l; unfold zsum; induction l; simpl; lia).
  change (zsum (fun i => (if second p =? top - i then w p else 0) +
                          zsum (fun p => if second p =? top - i then w p else 0) ps) (seqZ 1 n) =
          (if (top - n <=? second p) && (second p <? top) then w p else 0) +
          zsum (fun p => if (top - n <=? second p) && (second p <? top) then w p else 0) ps).
  rewrite Hsplit, IH. f_equal. clear -Hn.
  rewrite <-(Z2Nat.id n) by lia. clear Hn. induction (Z.to_nat n) as [|k IHk].
  { rewrite seqZ_nil by done. unfold zsum. simpl. case_test; breflect; lia. }
  rewrite seqZ_S, zsum_snoc, IHk, Nat2Z.inj_succ. clear IHk.
  destruct (Z.leb_spec (top - Z.of_nat k) (second p)), (Z.leb_spec (top - Z.succ (Z.of_nat k)) (second p)),
    (Z.ltb_spec (second p) top), (Z.eqb_spec (second p) (top - (1 + Z.of_nat k))); cbn [andb]; lia.
Qed.

(** C30: While no packet is older than the 90-second window behind the newest one,
    the throughput queries are exact: the history is the per-second packet and
    byte sums of the last 90 seconds, and a recent rate over fewer than 90
    seconds is the true sum over the completed seconds before the newest,
    divided by their number. *)
Theorem throughput_exact ip_str ps :
  in_window 0 ps = true -> ps <> [] ->
  let s := run ip_str ps in
  throughput_history s =
    map (fun i => true_bucket ps (newest ps - (kThroughputWindow - 1 - i))) (seqZ 0 kThroughputWindow) /\
  (forall n, 0 < n < kThroughputWindow ->
     let completed p := (newest ps - n <=? second p) && (second p <? newest ps) in
     recent_bps s n = fdiv (fmul (f64_of (u64 (volume completed ps))) (f64_of 8)) (f64_of n) /\
     recent_pps s n = fdiv (f64_of (u64 (tally completed ps))) (f64_of n)).
Proof.
  intros Hw Hne s. destruct (ring_ok_run ip_str ps Hw) as [_ _ _ Hn Hb Hp Hx]. fold s in Hn, Hx.
  assert (Hpos : 0 < newest ps) by (destruct ps as [|p ps]; [done|]; specialize (Hp p ltac:(by left)); lia).
  assert (Hnz : (newest_sec_ s =? 0) = false) by (apply Z.eqb_neq; lia).
  assert (Hsum : forall field n, 0 <= n < kThroughputWindow -> field bucket_zero = 0 ->
            recent_total field s n = u64 (zsum (fun i => field (true_bucket ps (newest ps - i))) (seqZ 1 n))).
  { intros field n Hr H0. rewrite recent_total_sum, Hn by done. f_equal.
    apply zsum_ext. intros i [??]%elem_of_seqZ. by rewrite Hx by lia. }
  split.
  - unfold throughput_history. rewrite Hnz, Hn. apply map_ext_in. intros i Hi.
    apply list_elem_of_In, elem_of_seqZ in Hi. apply Hx. unfold kThroughputWindow in *. lia.
  - intros n Hr completed. unfold recent_bps, recent_pps.
    rewrite Hnz, (proj2 (Z.eqb_neq n 0)), Z.min_l by lia. cbn [orb].
    rewrite !Hsum by (done || lia). unfold true_bucket. cbn [bk_bytes bk_packets].
    rewrite !u64_zsum. unfold volume at 1, tally at 1.
    by rewrite (zsum_seconds wirelen), (zsum_seconds (fun _ => 1)) by lia.
Qed.

Definition at_second (sec len : Z) : DecodedPacket :=
  packet_default <| ts := mkTimeval sec 0 |> <| wirelen := len |>.

(** Three seconds of traffic, one packet a second late. *)
Definition sample_capture : list DecodedPacket :=
  [at_second 1000 60; at_second 1001 100; at_second 1000 40; at_second 1003 7].

Lemma throughput_exact_witness :
  in_window 0 sample_capture = true /\
  recent_bps (run (fun _ => []) sample_capture) 3 = fdiv (fmul (f64_of 200) (f64_of 8)) (f64_of 3).
Proof.
  split; [reflexivity|].
  exact (proj1 (proj2 (throughput_exact (fun _ => []) sample_capture eq_refl ltac:(done)) 3 (conj eq_refl eq_refl))).
Defined.

(** A packet more than the window late takes over the bucket of a newer second:
    what that second had counted is gone. *)
Lemma late_packet_evicts_bucket :
  let s := run (fun _ => []) [at_second 1000 60; at_second 910 40] in
  bucket_at s 1000 = None /\ newest_sec_ s = 1000.
Proof. split; vm_compute; reflexivity. Qed.
