(* ===== verification/PcapWriter.v ===== *)
(** * The capture file (include/pcap_writer.hpp, src/pcap_writer.cpp)

    The writer of [.pcap] files over a C stream.  A stream is the bytes it has
    taken so far; [accept i] is how many bytes the [i]-th [fwrite] on it can
    take (the disk decides), so short writes are part of the model, and
    [flushed] is how many bytes [fflush] has pushed out. *)

From S2P Require Import Prelude.
From S2P Require Import Machine.
From S2P Require Import Protocol.
#[local] Open Scope Z_scope.

Definition kPcapMagic : Z := 0xA1B2C3D4.
Definition kVersionMajor : Z := 2.
Definition kVersionMinor : Z := 4.
Definition kFlushEvery : Z := 64.

(** ** The C stream *)

Record FILE := mkFile { content : list byte; writes : Z; flushed : Z }.
#[export] Instance FILE_eta : Eta FILE := fun f => mkFile f.(content) f.(writes) f.(flushed).
Definition new_file : FILE := mkFile [] 0 0.

Definition fflush (f : FILE) : FILE := f <| flushed := zlen f.(content) |>.

Section stream.
Variable accept : Z -> Z.

(** [fwrite(bytes, 1, n, f)]: the number of bytes taken. *)
Definition fwrite (bytes : list byte) (f : FILE) : Z * FILE :=
  let n := Z.min (zlen bytes) (Z.max 0 (accept f.(writes))) in
  (n, f <| content ::= fun c => c ++ firstn (Z.to_nat n) bytes |> <| writes ::= Z.add 1 |>).
End stream.

(** ** The writer *)

Module PcapWriter.
Record t := mk { file_ : option FILE; path_ : list byte; snaplen_ : Z; packets_ : Z; bytes_ : Z }.
#[export] Instance PcapWriter_eta : Eta t := fun w =>
  mk w.(file_) w.(path_) w.(snaplen_) w.(packets_) w.(bytes_).

Definition init : t := mk None [] 262144 0 0.

Inductive open_error := CannotOpen | CannotWriteHeader.

(** [close()]: the writer and the stream it closed. *)
Definition close (w : t) : t * option FILE :=
  match w.(file_) with
  | Some f => (w <| file_ := None |>, Some (fflush f))
  | None => (w, None)
  end.

Section writer.
Context `{HostOrder}.
Variable accept : Z -> Z.

(** [write_raw<T>(f, value)] for a [T] of [n] bytes: true when it was
    written completely. *)
Definition write_raw (n : nat) (value : Z) (f : FILE) : bool * FILE :=
  let bytes := host_bytes n value in
  let '(k, f) := fwrite accept bytes f in
  (k =? zlen bytes, f).

(** A chain of [write_raw] calls joined by [&&]: the first failure ends it. *)
Fixpoint write_all (fields : list (nat * Z)) (f : FILE) : bool * FILE :=
  match fields with
  | [] => (true, f)
  | (n, v) :: fields =>
      let '(ok, f) := write_raw n v f in
      if ok then write_all fields f else (false, f)
  end.

(** [open(path, linktype, snaplen, err)]: [fopen_ok] says whether [fopen]
    returned a stream. *)
Definition open (w : t) (fopen_ok : bool) (path : list byte) (linktype snaplen : Z)
    : option open_error * t :=
  if negb fopen_ok then (Some CannotOpen, w <| file_ := None |>)
  else
    let snap := if 0 <? snaplen then u32 snaplen else 262144 in
    let w := w <| path_ := path |> <| snaplen_ := snap |> in
    let '(ok, f) :=
      write_all [(4%nat, kPcapMagic); (2%nat, kVersionMajor); (2%nat, kVersionMinor);
                 (4%nat, 0); (4%nat, 0); (4%nat, snap); (4%nat, u32 linktype)] new_file in
    let w := w <| file_ := Some f |> in
    if negb ok then (Some CannotWriteHeader, (close w).1) else (None, w).

(** [write(data, caplen, wirelen, ts)]: [data] is [None] for [nullptr], else
    the bytes readable behind it. *)
Definition write (w : t) (data : option (list byte)) (caplen wirelen : Z) (ts : timeval) : mem t :=
  match w.(file_), data with
  | Some f, Some bytes =>
      let caplen := if w.(snaplen_) <? caplen then w.(snaplen_) else caplen in
      let wirelen := if wirelen <? caplen then caplen else wirelen in
      let '(ok, f) :=
        write_all [(4%nat, u32 ts.(tv_sec)); (4%nat, u32 ts.(tv_usec)); (4%nat, caplen); (4%nat, wirelen)] f in
      if negb ok then mret (w <| file_ := Some f |>)
      else
        data ← rd_bytes bytes 0 caplen;
        let '(n, f) := fwrite accept data f in
        let w := w <| file_ := Some f |> in
        if negb (n =? caplen) then mret w
        else
          let w := w <| packets_ ::= incr |> <| bytes_ ::= fun b => u64 (b + caplen) |> in
          mret (if w.(packets_) mod kFlushEvery =? 0 then w <| file_ := Some (fflush f) |> else w)
  | _, _ => mret w
  end.
End writer.
End PcapWriter.
