(* ===== verification/PcapSpec.v ===== *)
(** * The capture file can be read back

    A reader of the classic pcap format, for either byte order, and the round
    trip: what the writer stored while the disk took every byte is exactly what
    the reader finds. *)

From S2P Require Import Prelude.
From S2P Require Import Machine.
From S2P Require Import Protocol.
From S2P Require Import PcapWriter.
#[local] Open Scope Z_scope.

Import PcapWriter.

(** ** The reader *)

Record file_header := mkFileHeader { ph_snaplen : Z; ph_linktype : Z }.
Record pcap_record := mkPcapRecord { pr_sec : Z; pr_usec : Z; pr_wirelen : Z; pr_data : list byte }.

Definition read_uint (o : byte_order) (n : nat) (bs : list byte) : option (Z * list byte) :=
  if (length bs <? n)%nat then None else Some (host_value (H := o) (take n bs), drop n bs).

(** One record: four 32-bit fields and the captured bytes. *)
Definition read_record (o : byte_order) (bs : list byte) : option (pcap_record * list byte) :=
  '(sec, bs) ← read_uint o 4 bs;
  '(usec, bs) ← read_uint o 4 bs;
  '(caplen, bs) ← read_uint o 4 bs;
  '(wirelen, bs) ← read_uint o 4 bs;
  if zlen bs <? caplen then None
  else Some (mkPcapRecord sec usec wirelen (take (Z.to_nat caplen) bs), drop (Z.to_nat caplen) bs).

Fixpoint read_records (fuel : nat) (o : byte_order) (bs : list byte) : option (list pcap_record) :=
  match bs, fuel with
  | [], _ => Some []
  | _, O => None
  | _, S fuel => '(r, bs) ← read_record o bs; rs ← read_records fuel o bs; Some (r :: rs)
  end.

(** The magic number tells the byte order of the file. *)
Definition file_order (bs : list byte) : option byte_order :=
  if host_value (H := LittleEndian) (take 4 bs) =? kPcapMagic then Some LittleEndian
  else if host_value (H := BigEndian) (take 4 bs) =? kPcapMagic then Some BigEndian
  else None.

Definition read_file (bs : list byte) : option (file_header * list pcap_record) :=
  o ← file_order bs;
  '(_, bs) ← read_uint o 4 bs;
  '(major, bs) ← read_uint o 2 bs;
  '(minor, bs) ← read_uint o 2 bs;
  '(_, bs) ← read_uint o 4 bs;
  '(_, bs) ← read_uint o 4 bs;
  '(snaplen, bs) ← read_uint o 4 bs;
  '(linktype, bs) ← read_uint o 4 bs;
  if (major =? 2) && (minor =? 4) then
    rs ← read_records (length bs) o bs; Some (mkFileHeader snaplen linktype, rs)
  else None.

(** ** The frames handed to the writer, and what it stores of them *)

Record frame := mkFrame { fr_data : list byte; fr_caplen : Z; fr_wirelen : Z; fr_ts : timeval }.

Definition readable (f : frame) : Prop :=
  0 <= f.(fr_caplen) <= zlen f.(fr_data) /\ in_u32 f.(fr_caplen) /\ in_u32 f.(fr_wirelen).

Definition stored (snaplen : Z) (f : frame) : pcap_record :=
  let n := Z.min f.(fr_caplen) snaplen in
  mkPcapRecord (u32 f.(fr_ts).(tv_sec)) (u32 f.(fr_ts).(tv_usec)) (Z.max f.(fr_wirelen) n)
    (take (Z.to_nat n) f.(fr_data)).

Section roundtrip.
Context `{H : HostOrder}.

Definition encode_fields (fields : list (nat * Z)) : list byte :=
  concat (map (fun x => host_bytes x.1 x.2) fields).

Definition encode_record (r : pcap_record) : list byte :=
  encode_fields [(4%nat, r.(pr_sec)); (4%nat, r.(pr_usec)); (4%nat, zlen r.(pr_data)); (4%nat, r.(pr_wirelen))] ++
  r.(pr_data).

Definition record_ok (r : pcap_record) : Prop :=
  in_u32 r.(pr_sec) /\ in_u32 r.(pr_usec) /\ in_u32 r.(pr_wirelen) /\ in_u32 (zlen r.(pr_data)).

Lemma read_uint_app n z k : 0 <= z < 256 ^ Z.of_nat n -> read_uint H n (host_bytes n z ++ k) = Some (z, k).
Proof.
  intros Hz. unfold read_uint. rewrite length_app, length_host_bytes.
  rewrite (proj2 (Nat.ltb_ge _ _)) by lia.
  rewrite take_app_length', drop_app_length' by (by rewrite length_host_bytes).
  by rewrite host_value_bytes, Z.mod_small.
Qed.

Lemma read_record_app r k : record_ok r -> read_record H (encode_record r ++ k) = Some (r, k).
Proof.
  intros (H1 & H2 & H3 & H4). unfold read_record, encode_record, encode_fields. simpl concat.
  rewrite app_nil_r, <-!app_assoc.
  do 4 (rewrite read_uint_app by done; cbn [mbind option_bind]).
  rewrite zlen_app, (proj2 (Z.ltb_ge _ _)) by (pose proof (zlen_nonneg k); lia).
  unfold zlen. rewrite Nat2Z.id, take_app_length, drop_app_length. by destruct r.
Qed.

Lemma read_records_concat fuel rs :
  Forall record_ok rs -> (length (concat (map encode_record rs)) <= fuel)%nat ->
  read_records fuel H (concat (map encode_record rs)) = Some rs.
Proof.
  intros Hrs. revert fuel. induction Hrs as [|r rs Hr _ IH]; intros fuel Hf; [by destruct fuel|].
  cbn [map concat] in *. rewrite length_app in Hf.
  assert (Hpos : (0 < length (encode_record r))%nat)
    by (unfold encode_record, encode_fields; simpl; rewrite !length_app, length_host_bytes; lia).
  destruct fuel as [|fuel]; [lia|].
  destruct (encode_record r ++ concat (map encode_record rs)) as [|b bs] eqn:E.
  { apply (f_equal length) in E. rewrite length_app in E. simpl in E. lia. }
  cbn [read_records]. rewrite <-E, read_record_app by done. cbn [mbind option_bind].
  by rewrite IH by lia.
Qed.

Definition header_fields (snaplen linktype : Z) : list (nat * Z) :=
  [(4%nat, kPcapMagic); (2%nat, kVersionMajor); (2%nat, kVersionMinor);
   (4%nat, 0); (4%nat, 0); (4%nat, snaplen); (4%nat, linktype)].

Lemma file_order_header k : file_order (host_bytes 4 kPcapMagic ++ k) = Some H.
Proof.
  unfold file_order. rewrite take_app_length' by (by rewrite length_host_bytes).
  unfold host_bytes, host_order. by destruct H.
Qed.

Lemma read_file_encoded snaplen linktype rs :
  in_u32 snaplen -> in_u32 linktype -> Forall record_ok rs ->
  read_file (encode_fields (header_fields snaplen linktype) ++ concat (map encode_record rs)) =
  Some (mkFileHeader snaplen linktype, rs).
Proof.
  intros Hs Hl Hrs. unfold read_file, encode_fields, header_fields. simpl concat.
  rewrite app_nil_r, <-!app_assoc, file_order_header. cbn [mbind option_bind].
  do 7 (rewrite read_uint_app by done; cbn [mbind option_bind]).
  by rewrite read_records_concat.
Qed.

(** ** The writer on any disk *)

Context (accept : Z -> Z).

(** A chain of writes that reports success wrote all its fields. *)
Lemma write_all_true fields f f' :
  write_all accept fields f = (true, f') -> content f' = content f ++ encode_fields fields.
Proof.
  revert f. induction fields as [|[n v] fields IH]; intros f E.
  { injection E as <-. by rewrite app_nil_r. }
  cbn [write_all] in E. unfold write_raw, fwrite in E.
  set (bytes := host_bytes n v) in *. destruct (Z.eqb_spec (Z.min (zlen bytes) (Z.max 0 (accept (writes f)))) (zlen bytes)) as [En|]; [|done].
  rewrite (IH _ E). cbn. rewrite En. unfold zlen. rewrite Nat2Z.id, firstn_all. by rewrite <-app_assoc.
Qed.

(** A successful [open] leaves the header of an empty capture file. *)
Lemma open_header w path linktype snaplen w' :
  open accept w true path linktype snaplen = (None, w') ->
  exists f, file_ w' = Some f /\ path_ w' = path /\ 0 <= snaplen_ w' /\
    read_file (content f) = Some (mkFileHeader (snaplen_ w') (u32 linktype), []).
Proof.
  unfold open. cbn [negb]. set (snap := if 0 <? snaplen then _ else _).
  assert (Hsnap : in_u32 snap) by (unfold snap; destruct (0 <? snaplen); [apply u32_in|done]).
  destruct (write_all _ _ _) as [[] f] eqn:Ew; cbn [negb]; [|done]. intros [= <-]. exists f.
  unfold in_u32 in Hsnap. split_and!; [done|done|cbn; lia|]. rewrite (write_all_true _ _ _ Ew). cbn.
  pose proof (read_file_encoded snap (u32 linktype) []) as Hr. cbn [map concat] in Hr. rewrite app_nil_r in Hr.
  apply Hr; [done|apply u32_in|done].
Qed.

(** ** The writer on a healthy disk *)

(** Every [fwrite] of this program (at most 2^32 - 1 bytes) is taken whole. *)
Definition healthy : Prop := forall i, 2 ^ 32 <= accept i.

Hypothesis disk : healthy.

Lemma fwrite_healthy bytes f :
  zlen bytes < 2 ^ 32 ->
  exists f', fwrite accept bytes f = (zlen bytes, f') /\ content f' = content f ++ bytes.
Proof.
  intros Hl. specialize (disk (writes f)). unfold fwrite. rewrite Z.min_l by lia. eexists. split; [done|].
  cbn. unfold zlen. by rewrite Nat2Z.id, firstn_all.
Qed.

Lemma write_all_healthy fields f :
  Forall (fun x => (x.1 <= 4)%nat) fields ->
  exists f', write_all accept fields f = (true, f') /\ content f' = content f ++ encode_fields fields.
Proof.
  intros Hn. revert f. induction Hn as [|[n v] fields Hn _ IH]; intros f.
  { exists f. split; [done|]. by rewrite app_nil_r. }
  cbn [write_all]. unfold write_raw. destruct (fwrite_healthy (host_bytes n v) f) as (f1 & -> & E1).
  { unfold zlen. rewrite length_host_bytes. simpl in Hn. lia. }
  rewrite Z.eqb_refl. destruct (IH f1) as (f2 & -> & E2). exists f2. split; [done|].
  rewrite E2, E1, <-app_assoc. done.
Qed.

Lemma write_healthy w f fr :
  file_ w = Some f -> readable fr -> 0 <= snaplen_ w ->
  exists w' f', write accept w (Some fr.(fr_data)) fr.(fr_caplen) fr.(fr_wirelen) fr.(fr_ts) = Val w' /\
    file_ w' = Some f' /\ content f' = content f ++ encode_record (stored (snaplen_ w) fr) /\
    snaplen_ w' = snaplen_ w /\ packets_ w' = incr (packets_ w).
Proof.
  intros Hf (Hc & Hc32 & Hw32) Hs. unfold write. rewrite Hf.
  replace (if snaplen_ w <? fr_caplen fr then snaplen_ w else fr_caplen fr) with (Z.min (fr_caplen fr) (snaplen_ w))
    by (destruct (Z.ltb_spec (snaplen_ w) (fr_caplen fr)); lia).
  set (n := Z.min (fr_caplen fr) (snaplen_ w)).
  replace (if fr_wirelen fr <? n then n else fr_wirelen fr) with (Z.max (fr_wirelen fr) n)
    by (destruct (Z.ltb_spec (fr_wirelen fr) n); lia).
  destruct (write_all_healthy [(4%nat, u32 (tv_sec (fr_ts fr))); (4%nat, u32 (tv_usec (fr_ts fr)));
    (4%nat, n); (4%nat, Z.max (fr_wirelen fr) n)] f) as (f1 & -> & E1); [by repeat constructor|].
  cbn [negb]. unfold rd_bytes. replace ((0 <=? 0) && (0 + n <=? zlen (fr_data fr))) with true
    by (symmetry; apply andb_true_iff; rewrite !Z.leb_le; lia).
  cbn [mbind mem_bind].
  assert (Hz : zlen (slice (fr_data fr) 0 n) = n) by (apply zlen_slice; lia).
  destruct (fwrite_healthy (slice (fr_data fr) 0 n) f1) as (f2 & -> & E2); [unfold in_u32 in *; lia|].
  rewrite Hz, Z.eqb_refl. cbn [negb].
  assert (E : content f2 = content f ++ encode_record (stored (snaplen_ w) fr)).
  { rewrite E2, E1, <-app_assoc. unfold encode_record, stored. cbn [pr_sec pr_usec pr_wirelen pr_data]. fold n.
    change (take (Z.to_nat n) (fr_data fr)) with (slice (fr_data fr) 0 n). by rewrite Hz. }
  destruct (_ =? 0); cbn; eexists _, _; (split; [done|split; [done|split_and!; done]]).
Qed.

(** The frames of a capture, written one after the other. *)
Fixpoint write_frames (w : t) (frames : list frame) : mem t :=
  match frames with
  | [] => mret w
  | fr :: frames =>
      w ← write accept w (Some fr.(fr_data)) fr.(fr_caplen) fr.(fr_wirelen) fr.(fr_ts); write_frames w frames
  end.

Lemma write_frames_healthy frames w f :
  file_ w = Some f -> Forall readable frames -> 0 <= snaplen_ w -> in_u64 (packets_ w) ->
  exists w' f', write_frames w frames = Val w' /\ file_ w' = Some f' /\
    content f' = content f ++ concat (map (fun fr => encode_record (stored (snaplen_ w) fr)) frames) /\
    packets_ w' = u64 (packets_ w + zlen frames).
Proof.
  intros Hf Hr. revert w f Hf. induction Hr as [|fr frames Hr _ IH]; intros w f Hf Hs Hp.
  { exists w, f. split_and!; [done|done|by rewrite app_nil_r|]. rewrite zlen_nil, Z.add_0_r. symmetry. by apply u64_id. }
  destruct (write_healthy w f fr Hf Hr Hs) as (w1 & f1 & E1 & Hf1 & Hc1 & Hs1 & Hp1).
  destruct (IH w1 f1 Hf1) as (w2 & f2 & E2 & Hf2 & Hc2 & Hp2); [congruence|rewrite Hp1; apply u64_in|].
  exists w2, f2. cbn [write_frames]. rewrite E1. cbn [mbind mem_bind]. split_and!; [done|done| |].
  - rewrite Hc2, Hc1, Hs1, <-app_assoc. done.
  - rewrite Hp2, Hp1, zlen_cons. unfold incr, u64. rewrite Zplus_mod_idemp_l. f_equal. lia.
Qed.
End roundtrip.

Lemma stored_ok snaplen fr : readable fr -> 0 <= snaplen -> record_ok (stored snaplen fr).
Proof.
  intros (Hc & Hc32 & Hw32) Hs. unfold record_ok, stored. cbn [pr_sec pr_usec pr_wirelen pr_data].
  rewrite zlen_take. unfold in_u32 in *. split_and!; try apply u32_in; lia.
Qed.

(** C31: Capture files round-trip. On a disk that takes every byte, opening a file,
    writing any readable frames and closing gives a file that a pcap reader (on
    a machine of either byte order) decodes to the snap length, the link type and
    exactly the stored frames: at most [snaplen] bytes of each, with a wire
    length that is never less than what is stored, and the timestamps modulo
    2^32. *)
Theorem pcap_roundtrip (H : HostOrder) accept path linktype snaplen frames :
  healthy accept -> Forall readable frames ->
  let snap := if 0 <? snaplen then u32 snaplen else 262144 in
  exists w w' f,
    open accept init true path linktype snaplen = (None, w) /\
    write_frames accept w frames = Val w' /\ packets_ w' = u64 (zlen frames) /\
    (close w').2 = Some f /\ flushed f = zlen (content f) /\
    read_file (content f) = Some (mkFileHeader snap (u32 linktype), map (stored snap) frames).
Proof.
  intros Hd Hr snap. unfold open. cbn [negb]. fold snap.
  assert (Hsnap : in_u32 snap) by (unfold snap; destruct (0 <? snaplen); [apply u32_in|done]).
  destruct (write_all_healthy accept Hd (header_fields snap (u32 linktype)) new_file) as (f0 & E0 & Hc0);
    [repeat constructor; simpl; lia|].
  unfold header_fields in E0. rewrite E0. cbn [negb]. clear E0.
  set (w := mk (Some f0) path snap 0 0). exists w.
  destruct (write_frames_healthy accept Hd frames w f0 eq_refl Hr) as (w' & f & E & Hf & Hc & Hp);
    [unfold in_u32 in Hsnap; cbn; lia|done|].
  exists w', (fflush f). split; [done|]. split; [exact E|]. unfold close. rewrite Hf.
  split_and!; [exact Hp|done|done|]. cbn [content fflush set_field].
  change (content (fflush f)) with (content f). rewrite Hc, Hc0. cbn [content new_file app].
  change (snaplen_ w) with snap. rewrite <-(map_map (stored snap) encode_record).
  apply read_file_encoded; [done|apply u32_in|]. apply Forall_map.
  eapply Forall_impl; [exact Hr|]. intros fr Hfr. apply stored_ok; [done|]. unfold in_u32 in Hsnap. lia.
Qed.

Definition two_frames : list frame :=
  [mkFrame (lit "abcdef") 4 60 (mkTimeval 7 8); mkFrame (lit "xyz") 3 2 (mkTimeval 9 10)].

Lemma pcap_roundtrip_witness :
  exists f, read_file (content f) =
    Some (mkFileHeader 65535 1, [mkPcapRecord 7 8 60 (lit "abcd"); mkPcapRecord 9 10 3 (lit "xyz")]).
Proof.
  destruct (pcap_roundtrip LittleEndian (fun _ => 2 ^ 32) [] 1 65535 two_frames) as (w & w' & f & _ & _ & _ & _ & _ & E).
  - intros i. reflexivity.
  - repeat constructor; vm_compute; intuition discriminate.
  - exists f. exact E.
Defined.

(** When the disk takes only part of a frame, the record keeps claiming all of
    it: the reader of the next frames is out of step. *)
Lemma short_write_corrupts :
  let accept := fun i => if i =? 11 then 2 else 2 ^ 32 in
  exists w w' f, open (H := LittleEndian) accept init true [] 1 65535 = (None, w) /\
    write_frames (H := LittleEndian) accept w two_frames = Val w' /\ (close w').2 = Some f /\
    packets_ w' = 1 /\ read_file (content f) = None.
Proof.
  cbv zeta. eexists _, _, _. split; [vm_compute; reflexivity|]. split; [vm_compute; reflexivity|].
  split; [vm_compute; reflexivity|]. split; vm_compute; reflexivity.
Qed.
