(* ===== verification/Analyzer.v ===== *)
(** * The analyser (include/analyzer.hpp) and its two threads (src/main.cpp)

    [consume] decodes a frame and feeds the statistics and the flow table; the
    other operations are the UI thread's.  One mutex guards the shared state, so
    each critical section is one step; decoding happens before the lock is taken
    and is a step of its own, between which and the commit the UI thread may run.
    The per-packet observer is the caller's: the model returns what it is given. *)

From S2P Require Import Prelude.
From S2P Require Import Machine.
From S2P Require Import Containers.
From S2P Require Import Protocol.
From S2P Require Import Parser.
From S2P Require Import Float.
From S2P Require Import Flow.
From S2P Require Import FlowTable.
From S2P Require Import Stats.
#[local] Open Scope Z_scope.

(** ** The shared state and its operations *)

Record Analyzer := mkAnalyzer {
  stats_ : Statistics.t;
  a_flows_ : FlowTable;
  last_ts_ : timeval;
  linktype_ : Z;
}.
#[export] Instance Analyzer_eta : Eta Analyzer := fun a =>
  mkAnalyzer a.(stats_) a.(a_flows_) a.(last_ts_) a.(linktype_).

(** The default capacity of the flow table. *)
Definition kMaxFlows : Z := 65536.

Definition new_analyzer (linktype : Z) : Analyzer :=
  mkAnalyzer Statistics.init (new_table kMaxFlows) timeval_zero linktype.

(** What the observer is called with. *)
Definition event : Type := DecodedPacket * option Flow.

(** A frame as the capture backend delivers it. *)
Record Frame := mkCaptured { c_data : option (list byte); c_caplen : Z; c_wirelen : Z; c_ts : timeval }.

Section analyzer.
Context `{HostOrder} `{Dissector}.
Variable ip_str : IpAddress -> list byte.

(** The unlocked half of [consume]. *)
Definition decode_frame (linktype : Z) (f : Frame) : mem (bool * DecodedPacket) :=
  decode_packet f.(c_data) f.(c_caplen) f.(c_wirelen) f.(c_ts) linktype.

(** The critical section of [consume]. *)
Definition commit (it : iteration FlowKey Flow) (a : Analyzer) (f : Frame) (ok : bool) (pkt : DecodedPacket)
    : mem (event * Analyzer) :=
  let a := a <| stats_ := Statistics.add ip_str a.(stats_) pkt |> in
  '(flow, t) ←
    (if ok then update (default [] f.(c_data)) it a.(a_flows_) pkt else mret (None, a.(a_flows_)));
  mret ((pkt, flow), a <| a_flows_ := t |> <| last_ts_ := f.(c_ts) |>).

Definition consume (it : iteration FlowKey Flow) (a : Analyzer) (f : Frame) : mem (event * Analyzer) :=
  '(ok, pkt) ← decode_frame a.(linktype_) f; commit it a f ok pkt.

Definition analyzer_set_dissection (a : Analyzer) (on : bool) : Analyzer :=
  a <| a_flows_ ::= fun t => set_dissection_enabled t on |>.

Definition update_capture_counters (a : Analyzer) (received dropped if_dropped : Z) : Analyzer :=
  a <| stats_ ::= fun s => Statistics.set_kernel_stats s received dropped if_dropped |>.

Definition expire_idle_flows (it : iteration FlowKey Flow) (a : Analyzer) (idle_sec : f64) : Z * Analyzer :=
  if a.(last_ts_).(tv_sec) =? 0 then (0, a)
  else let '(n, t) := expire it a.(a_flows_) a.(last_ts_) idle_sec in (n, a <| a_flows_ := t |>).

Definition analyzer_reset (a : Analyzer) : Analyzer :=
  a <| stats_ ::= Statistics.reset |> <| a_flows_ ::= clear |>.

(** ** Sequential calls *)

Inductive op :=
| Consume (it : iteration FlowKey Flow) (f : Frame)
| SetDissection (on : bool)
| UpdateCounters (received dropped if_dropped : Z)
| Expire (it : iteration FlowKey Flow) (idle_sec : f64)
| Reset.

Definition apply_op (a : Analyzer) (o : op) : mem Analyzer :=
  match o with
  | Consume it f => '(_, a) ← consume it a f; mret a
  | SetDissection on => mret (analyzer_set_dissection a on)
  | UpdateCounters r d i => mret (update_capture_counters a r d i)
  | Expire it idle => mret (expire_idle_flows it a idle).2
  | Reset => mret (analyzer_reset a)
  end.

Fixpoint run_ops (a : Analyzer) (ops : list op) : mem Analyzer :=
  match ops with
  | [] => mret a
  | o :: ops => a ← apply_op a o; run_ops a ops
  end.

(** ** Two threads *)

(** Where the capture thread is: between frames, or holding a decoded packet
    and waiting for the lock. *)
Inductive pc := Idle | Decoded (f : Frame) (ok : bool) (pkt : DecodedPacket).

Record config := mkConfig { shared : Analyzer; capture : pc }.

(** A step, labelled with the operation it completes. *)
Inductive thread_step : config -> option op -> config -> Prop :=
| t_decode a f ok pkt :
    decode_frame a.(linktype_) f = Val (ok, pkt) ->
    thread_step (mkConfig a Idle) None (mkConfig a (Decoded f ok pkt))
| t_commit it a f ok pkt ev a' :
    commit it a f ok pkt = Val (ev, a') ->
    thread_step (mkConfig a (Decoded f ok pkt)) (Some (Consume it f)) (mkConfig a' Idle)
| t_ui a c o a' :
    (forall it f, o <> Consume it f) -> apply_op a o = Val a' ->
    thread_step (mkConfig a c) (Some o) (mkConfig a' c).

(** An execution and the operations it completed, in order. *)
Inductive execution : config -> list op -> config -> Prop :=
| exec_nil c : execution c [] c
| exec_snoc c tr c' o c'' :
    execution c tr c' -> thread_step c' o c'' -> execution c (tr ++ option_list o) c''.
End analyzer.
