(* ===== verification/AnalyzerSpec.v ===== *)
(** * The pipeline as a whole

    The two threads behave like one: every interleaving of the capture thread and
    the UI thread gives the state that the completed operations give one after
    the other, no step runs into undefined behaviour, and the invariants of the
    parts hold throughout. *)

From S2P Require Import Prelude.
From S2P Require Import Machine.
From S2P Require Import Containers.
From S2P Require Import Protocol.
From S2P Require Import Parser.
From S2P Require Import ParserSafe.
From S2P Require Import Float.
From S2P Require Import Dissect.
From S2P Require Import Flow.
From S2P Require Import FlowTable.
From S2P Require Import TableSpec.
From S2P Require Import Stats.
From S2P Require Import StatsSpec.
From S2P Require Import Analyzer.
#[local] Open Scope Z_scope.

(** ** Assumptions on the callers *)

(** The capture backend hands over [caplen] readable bytes (or a null pointer). *)
Definition frame_ok (f : Frame) : Prop :=
  in_u32 f.(c_caplen) /\ match f.(c_data) with Some m => f.(c_caplen) <= zlen m | None => True end.

Definition op_ok (o : op) : Prop := match o with Consume _ f => frame_ok f | _ => True end.

(** Frames consumed since the last reset. *)
Definition seen (ops : list op) : Z :=
  fold_left (fun n o => match o with Consume _ _ => n + 1 | Reset => 0 | _ => n end) ops 0.

(** The invariant of the shared state after [n] operations. *)
Record analyzer_ok (n : Z) (a : Analyzer) : Prop := {
  ao_table : table_ok a.(a_flows_);
  ao_room : 1 <= a.(a_flows_).(max_flows_);
  ao_ids : a.(a_flows_).(next_id_) <= n;
  ao_packets : in_u64 (Statistics.packets_ a.(stats_));
}.

Section pipeline.
Context `{H : HostOrder} (D : Dissector) (DL : DissectorLaws D) (ip_str : IpAddress -> list byte).

Lemma decode_frame_total linktype f :
  frame_ok f ->
  exists ok pkt, decode_frame linktype f = Val (ok, pkt) /\
    (ok = true -> payload_ok (zlen (default [] f.(c_data))) pkt /\ pkt.(payload_len) < 2 ^ 32).
Proof.
  intros [Hc Hm]. unfold decode_frame. unfold in_u32 in Hc. destruct (c_data f) as [m|]; simpl in Hm; [|by eexists _, _].
  destruct (proj1 (wpm_val _ _) (decode_packet_post m (c_caplen f) (c_wirelen f) (c_ts f) linktype ltac:(lia)))
    as ([ok pkt] & E & [_ Hp _ _ _]).
  exists ok, pkt. split; [done|]. intros _. simpl in *. unfold payload_ok in *.
  destruct (payload pkt); lia.
Qed.

Lemma update_next_id m it t p r t' n :
  payload_ok (zlen m) p -> p.(payload_len) < 2 ^ 32 -> 1 <= t.(max_flows_) -> 0 <= t.(next_id_) <= n ->
  update m it t p = Val (r, t') -> t'.(next_id_) <= n + 1.
Proof.
  intros Hp Hl Hm Hn E. destruct (update_total D DL m it t p Hm Hp Hl) as (r' & t'' & E' & Hpost).
  rewrite E in E'. injection E' as <- <-. case_decide; [|destruct Hpost as [_ ->]; lia].
  destruct Hpost as (f' & _ & [(base & Hroom & _) _ _ _ _ _ _ _]).
  assert (incr (next_id_ t) <= next_id_ t + 1) by (apply Z.mod_le; lia).
  inversion Hroom; lia.
Qed.

Lemma add_packets s p : in_u64 (Statistics.packets_ s) ->
  Statistics.packets_ (Statistics.add ip_str s p) = u64 (Statistics.packets_ s + 1).
Proof. apply (counts_packets ip_str). Qed.

(** The critical section of [consume] on a decoded frame. *)
Lemma commit_total it n a f ok pkt :
  analyzer_ok n a -> n < 2 ^ 64 - 1 ->
  (ok = true -> payload_ok (zlen (default [] f.(c_data))) pkt /\ pkt.(payload_len) < 2 ^ 32) ->
  exists ev a', commit ip_str it a f ok pkt = Val (ev, a') /\ analyzer_ok (n + 1) a' /\
    a'.(linktype_) = a.(linktype_) /\
    Statistics.packets_ a'.(stats_) = u64 (Statistics.packets_ a.(stats_) + 1).
Proof.
  intros [Ht Hr Hi Hp] Hn Hok. unfold commit. destruct ok.
  - destruct (Hok eq_refl) as [Hpay Hlen]. cbn [a_flows_ set_field].
    destruct (update_total D DL (default [] (c_data f)) it (a_flows_ a) pkt Hr Hpay Hlen) as (r & t' & E & _).
    destruct (table_step_ok D DL (a_flows_ a) t') as [Ht' Hm']; [|done..|].
    { eapply step_update; [exact Hpay|done|lia|exact E]. }
    cbn. rewrite E. eexists _, _. split; [done|]. cbn. pose proof (tk_next _ Ht).
    split; [constructor|split; [done|]]; cbn; [done|lia| |..|by apply add_packets].
    + eapply (update_next_id (default [] (c_data f))); [exact Hpay|done|done| |exact E]. lia.
    + rewrite add_packets by done. auto with word.
  - eexists _, _. split; [done|]. split; [constructor|split; [done|]]; cbn; [done|done|lia| |by apply add_packets].
    rewrite add_packets by done. auto with word.
Qed.

(** The UI thread's operations. *)
Lemma ui_op_total n a o :
  analyzer_ok n a -> (forall it f, o <> Consume it f) ->
  exists a', apply_op ip_str a o = Val a' /\ analyzer_ok n a' /\ a'.(linktype_) = a.(linktype_) /\
    Statistics.packets_ a'.(stats_) = match o with Reset => 0 | _ => Statistics.packets_ a.(stats_) end.
Proof.
  intros [Ht Hr Hi Hp] Ho. destruct o as [it f|on|r d i|it idle|]; [by destruct (Ho it f)|..];
    eexists; (split; [reflexivity|]).
  - destruct (table_step_ok D DL _ _ (step_dissection D on (a_flows_ a)) Ht Hr) as [? ?].
    by split; [constructor|].
  - by split; [constructor|].
  - unfold expire_idle_flows. destruct (_ =? 0); [by split; [constructor|]|].
    destruct (table_step_ok D DL _ _ (step_expire D it (last_ts_ a) idle (a_flows_ a)) Ht Hr) as [Ht' Hm'].
    assert (Hid : next_id_ (expire it (a_flows_ a) (last_ts_ a) idle).2 = next_id_ (a_flows_ a))
      by (unfold expire; by destruct (fold_left _ _ _)).
    destruct (expire _ _ _ _) as [k t']. simpl in *.
    by split; [constructor; simpl; [done|lia|lia|done]|].
  - destruct (table_step_ok D DL _ _ (step_clear D (a_flows_ a)) Ht Hr) as [? ?].
    by split; [constructor|].
Qed.

Lemma run_ops_snoc a ops o : run_ops ip_str a (ops ++ [o]) = (run_ops ip_str a ops ≫= fun a => apply_op ip_str a o).
Proof.
  revert a. induction ops as [|o' ops IH]; intros a; cbn [app run_ops].
  - simpl. destruct (apply_op ip_str a o) as [a'|]; done.
  - destruct (apply_op ip_str a o') as [a'|]; [apply IH|done].
Qed.

(** An invariant of the statistics, indexed by the number of operations. *)
Lemma run_ops_stats (P : Z -> Statistics.t -> Prop) :
  (forall n, 0 <= n -> P n Statistics.init) ->
  (forall n s p, 0 <= n -> P n s -> P (n + 1) (Statistics.add ip_str s p)) ->
  (forall n s r d i, P n s -> P n (Statistics.set_kernel_stats s r d i)) ->
  (forall n s, P n s -> P (n + 1) s) ->
  forall ops a a' n, 0 <= n -> P n a.(stats_) -> run_ops ip_str a ops = Val a' -> P (n + zlen ops) a'.(stats_).
Proof.
  intros Hinit Hadd Hset Hmono ops. induction ops as [|o ops IH]; intros a a' n Hn Ha; cbn [run_ops].
  { intros [= <-]. by rewrite zlen_nil, Z.add_0_r. }
  destruct (apply_op ip_str a o) as [a1|] eqn:Eo; [|done]. cbn [mbind mem_bind]. intros Hr.
  rewrite zlen_cons, Z.add_assoc. apply (IH a1 a' (n + 1)); [lia| |exact Hr]. clear IH Hr.
  destruct o as [it f|on|r d i|it idle|]; cbn [apply_op] in Eo.
  - unfold consume in Eo. destruct (decode_frame _ f) as [[ok pkt]|]; [|done]. cbn [mbind mem_bind] in Eo.
    unfold commit in Eo. destruct ok.
    + destruct (update _ _ _ _) as [[fl t]|]; [|done]. injection Eo as <-. by apply Hadd.
    + injection Eo as <-. by apply Hadd.
  - injection Eo as <-. by apply Hmono.
  - injection Eo as <-. by apply Hmono, Hset.
  - injection Eo as <-. apply Hmono. unfold expire_idle_flows. destruct (_ =? 0); [done|]. by destruct (expire _ _ _ _).
  - injection Eo as <-. apply Hinit. lia.
Qed.

(** What every execution establishes. *)
Record exec_ok (linktype : Z) (tr : list op) (c : config) : Prop := {
  eo_run : run_ops ip_str (new_analyzer linktype) tr = Val c.(shared);
  eo_shared : analyzer_ok (zlen tr) c.(shared);
  eo_link : c.(shared).(linktype_) = linktype;
  eo_seen : Statistics.packets_ c.(shared).(stats_) = u64 (seen tr);
  eo_pc : match c.(capture) with
          | Idle => True
          | Decoded f ok pkt => decode_frame linktype f = Val (ok, pkt)
          end;
}.

Lemma execution_ok linktype tr c :
  execution ip_str (mkConfig (new_analyzer linktype) Idle) tr c -> Forall op_ok tr -> zlen tr < 2 ^ 64 - 1 ->
  exec_ok linktype tr c.
Proof.
  intros He. remember (mkConfig (new_analyzer linktype) Idle) as c0 eqn:E0.
  induction He as [c|c tr c1 o c2 He IH Hs]; intros Hok Hlen; subst c.
  { by constructor. }
  apply Forall_app in Hok as [Htr Ho]. rewrite zlen_app in Hlen.
  pose proof (zlen_nonneg (option_list o)).
  destruct (IH eq_refl Htr ltac:(lia)) as [Hrun Hsh Hl Hseen Hpc]. clear IH.
  destruct Hs as [a f ok pkt Hd|it a f ok pkt ev a' Hc|a pc0 o a' Hn Ha]; cbn [shared capture option_list option_rect] in *.
  - rewrite app_nil_r. constructor; try done. by rewrite <-Hl.
  - apply Forall_inv in Ho. simpl in Ho.
    destruct (decode_frame_total linktype f Ho) as (ok' & pkt' & E & Hpay).
    rewrite Hpc in E. injection E as <- <-.
    destruct (commit_total it (zlen tr) a f ok pkt Hsh) as (ev' & a'' & E & Hok' & Hl' & Hp'); [lia|done|].
    rewrite Hc in E. injection E as <- <-. constructor; cbn [shared capture].
    + rewrite run_ops_snoc, Hrun. cbn [mbind mem_bind apply_op]. unfold consume. rewrite Hl, Hpc.
      cbn [mbind mem_bind]. by rewrite Hc.
    + rewrite zlen_app. exact Hok'.
    + congruence.
    + rewrite Hp', Hseen. unfold seen. rewrite fold_left_app. apply u64_add_l.
    + done.
  - destruct (ui_op_total (zlen tr) a o Hsh Hn) as (a'' & E & Hok' & Hl' & Hp').
    rewrite Ha in E. injection E as <-. constructor; cbn [shared capture].
    + rewrite run_ops_snoc, Hrun. exact Ha.
    + rewrite zlen_app. destruct Hok'. constructor; try done. rewrite zlen_cons, zlen_nil. lia.
    + congruence.
    + rewrite Hp'. unfold seen. rewrite fold_left_app. destruct o; try done. by destruct (Hn it f).
    + done.
Qed.
End pipeline.

(** C2: The analyser's two threads are linearisable and safe. Whatever the
    interleaving of decoding, commits, expiries, resets, counter updates and
    switches: the shared state is what the completed operations give one after
    the other; the flow table satisfies its invariant; the packet counter is the
    number of frames committed since the last reset, so none is lost or counted
    twice; and the capture thread can always take its next step. *)
Theorem analyzer_linearizable (H : HostOrder) (D : Dissector) (DL : DissectorLaws D) ip_str linktype tr c :
  execution ip_str (mkConfig (new_analyzer linktype) Idle) tr c ->
  Forall op_ok tr -> zlen tr < 2 ^ 64 - 1 ->
  run_ops ip_str (new_analyzer linktype) tr = Val c.(shared) /\
  table_ok c.(shared).(a_flows_) /\
  Statistics.packets_ c.(shared).(stats_) = u64 (seen tr) /\
  match c.(capture) with
  | Idle => forall f, frame_ok f -> exists ok pkt,
      thread_step ip_str c None (mkConfig c.(shared) (Decoded f ok pkt))
  | Decoded f ok pkt => forall it, frame_ok f -> exists a',
      thread_step ip_str c (Some (Consume it f)) (mkConfig a' Idle)
  end.
Proof.
  intros He Hok Hlen. destruct (execution_ok D DL ip_str linktype tr c He Hok Hlen) as [Hr Hs Hl Hp Hpc].
  split_and!; [done|by destruct Hs|done|]. destruct c as [a [|f ok pkt]]; cbn [shared capture] in *.
  - intros f Hf. destruct (decode_frame_total (linktype_ a) f Hf) as (ok & pkt & E & _).
    exists ok, pkt. by constructor.
  - intros it Hf. destruct (decode_frame_total linktype f Hf) as (ok' & pkt' & E & Hpay).
    rewrite Hpc in E. injection E as <- <-.
    destruct (commit_total D DL ip_str it (zlen tr) a f ok pkt Hs Hlen Hpay) as (ev & a' & E & _).
    exists a'. econstructor. exact E.
Qed.

(** A reset that runs while the capture thread holds a decoded frame. *)
Definition null_frame : Frame := mkCaptured None 0 60 timeval_zero.

Lemma analyzer_linearizable_witness :
  exists c, execution (H := little_endian) (fun _ => []) (mkConfig (new_analyzer 1) Idle)
              [Reset; Consume any_order null_frame] c /\
            Statistics.packets_ c.(shared).(stats_) = 1.
Proof.
  set (pkt := packet_default <| wirelen := 60 |> <| error := Some "empty frame"%string |>).
  set (a1 := analyzer_reset (new_analyzer 1)).
  set (a2 := a1 <| stats_ := Statistics.add (fun _ => []) a1.(stats_) pkt |>).
  set (c := mkConfig (a2 <| a_flows_ := a2.(a_flows_) |> <| last_ts_ := null_frame.(c_ts) |>) Idle).
  assert (He : execution (H := little_endian) (fun _ => []) (mkConfig (new_analyzer 1) Idle)
                 [Reset; Consume any_order null_frame] c).
  { apply (exec_snoc _ _ [Reset] (mkConfig a1 (Decoded null_frame false pkt))
             (Some (Consume any_order null_frame))).
    - apply (exec_snoc _ _ [] (mkConfig (new_analyzer 1) (Decoded null_frame false pkt)) (Some Reset)).
      + apply (exec_snoc _ _ [] (mkConfig (new_analyzer 1) Idle) None); [constructor|by constructor].
      + by constructor.
    - apply (t_commit _ any_order a1 null_frame false pkt (pkt, None)). reflexivity. }
  exists c. split; [exact He|].
  apply (analyzer_linearizable little_endian netscope_dissector netscope_dissector_laws (fun _ => []) 1
           [Reset; Consume any_order null_frame] c He); [|reflexivity].
  repeat constructor; vm_compute; intuition discriminate.
Defined.

