(* ===== verification/Format.v ===== *)
(** * Text formatting (the printf conversions and src/stats.cpp)

    What [snprintf] and the stream operators write for integers and doubles, as
    byte lists: decimal integers, padded fields, and [%.kf], which prints the
    exact binary value correctly rounded (ties to even).  [snprintf] into a
    buffer of [n] bytes keeps the first [n - 1].  On top of them the [human_]
    helpers of stats.cpp.  A conversion of a double outside the target integer
    type is undefined behaviour ([OOB]). *)

From S2P Require Import Prelude.
From S2P Require Import Machine.
From S2P Require Import ByteString.
From S2P Require Import Float.
From Stdlib Require Import SpecFloat.
#[local] Open Scope Z_scope.

(** ** Integers and fields *)

(** [%llu] and [os << n] of a number of any size. *)
Definition dec (z : Z) : list byte := decimal (S (Z.to_nat (Z.log2 z))) z.
(** [%d] *)
Definition dec_signed (z : Z) : list byte := if z <? 0 then lit "-" ++ dec (- z) else dec z.

Definition spaces (n : nat) : list byte := replicate n " "%byte.
(** [%-ns], [%ns], and zeros in front of digits. *)
Definition pad_right (n : nat) (s : list byte) : list byte := s ++ spaces (n - length s).
Definition pad_left (n : nat) (s : list byte) : list byte := spaces (n - length s) ++ s.
Definition pad_zero (n : nat) (s : list byte) : list byte := replicate (n - length s) "0"%byte ++ s.

(** [%0nd]: the sign comes before the zeros. *)
Definition dec_zero (n : nat) (z : Z) : list byte :=
  if z <? 0 then lit "-" ++ pad_zero (n - 1) (dec (- z)) else pad_zero n (dec z).

(** The string in [buf] after [snprintf(buf, size, ...)]. *)
Definition snprintf (size : nat) (s : list byte) : list byte := take (size - 1) s.

(** ** Doubles *)

(** [n / d] rounded to the nearest integer, ties to even. *)
Definition round_half_even (n d : Z) : Z :=
  let q := n / d in
  let r := n mod d in
  if 2 * r <? d then q
  else if d <? 2 * r then q + 1
  else if Z.even q then q else q + 1.

(** [m * 2^e * 10^k] rounded to an integer. *)
Definition scaled (k : nat) (m e : Z) : Z :=
  if 0 <=? e then m * 2 ^ e * 10 ^ Z.of_nat k
  else round_half_even (m * 10 ^ Z.of_nat k) (2 ^ (- e)).

(** A number given in units of [10^-k]. *)
Definition fixed_digits (k : nat) (n : Z) : list byte :=
  dec (n / 10 ^ Z.of_nat k) ++
  (if Nat.eqb k 0 then [] else lit "." ++ pad_zero k (dec (n mod 10 ^ Z.of_nat k))).

Definition sign_str (s : bool) : list byte := if s then lit "-" else [].

(** [%.kf] *)
Definition fixed (k : nat) (x : f64) : list byte :=
  match x with
  | S754_nan => lit "nan"
  | S754_infinity s => sign_str s ++ lit "inf"
  | S754_zero s => sign_str s ++ fixed_digits k 0
  | S754_finite s m e => sign_str s ++ fixed_digits k (scaled k (Zpos m) e)
  end.

(** The value with its fraction dropped; [None] when it is not finite. *)
Definition trunc (x : f64) : option Z :=
  match x with
  | S754_zero _ => Some 0
  | S754_finite s m e => let n := Z.shiftl (Zpos m) e in Some (if s then - n else n)
  | _ => None
  end.

(** [static_cast<int>] and [static_cast<uint64_t>] of a double. *)
Definition to_int (x : f64) : mem Z :=
  match trunc x with
  | Some n => if (- 2 ^ 31 <=? n) && (n <? 2 ^ 31) then Val n else OOB
  | None => OOB
  end.
Definition to_u64 (x : f64) : mem Z :=
  match trunc x with
  | Some n => if (0 <=? n) && (n <? 2 ^ 64) then Val n else OOB
  | None => OOB
  end.

(** ** The helpers of stats.cpp *)

(** [while (x >= step && u < last) { x /= step; ++u; }] with [more] units above. *)
Fixpoint scale_unit (step : f64) (more u : nat) (x : f64) : nat * f64 :=
  match more with
  | O => (u, x)
  | S more => if fle step x then scale_unit step more (S u) (fdiv x step) else (u, x)
  end.

Definition byte_units : list string := ["B"; "KB"; "MB"; "GB"; "TB"]%string.
Definition bit_units : list string := ["bps"; "Kbps"; "Mbps"; "Gbps"]%string.
Definition unit_name (units : list string) (u : nat) : list byte := lit (nth u units ""%string).

Definition human_bytes (bytes : f64) : list byte :=
  let '(u, x) := scale_unit (f64_of 1024) 4 0 bytes in
  snprintf 32 (fixed (if Nat.eqb u 0 then 0 else 1) x ++ lit " " ++ unit_name byte_units u).

Definition human_rate_bits (bits_per_sec : f64) : list byte :=
  let '(u, x) := scale_unit (f64_of 1000) 3 0 bits_per_sec in
  snprintf 32 (fixed (if Nat.eqb u 0 then 0 else 2) x ++ lit " " ++ unit_name bit_units u).

Definition human_count (n : Z) : list byte :=
  snprintf 32
    (if n <? 1000 then dec n
     else if n <? 1000000 then fixed 1 (fdiv (f64_of n) (f64_of 1000)) ++ lit "K"
     else fixed 2 (fdiv (f64_of n) (f64_of 1000000)) ++ lit "M").

Definition human_duration (seconds : f64) : mem (list byte) :=
  total ← to_int seconds;
  let h := Z.quot total 3600 in
  let m := Z.quot (Z.rem total 3600) 60 in
  let s := Z.rem total 60 in
  mret (snprintf 32
    (if 0 <? h then
       dec_signed h ++ lit "h" ++ dec_zero 2 m ++ lit "m" ++ dec_zero 2 s ++ lit "s"
     else if 0 <? m then dec_signed m ++ lit "m" ++ dec_zero 2 s ++ lit "s"
     else dec_signed s ++ lit "s")).
