(* ===== verification/FormatSpec.v ===== *)
(** * What the formatted numbers say

    Scaling by 1024 is exact in binary64, so [human_bytes] rounds only once, in
    the last printed digit; durations are read back from what is printed. *)

From S2P Require Import Prelude.
From S2P Require Import Machine.
From S2P Require Import ByteString.
From S2P Require Import Float.
From S2P Require Import FloatRound.
From S2P Require Import Format.
From Stdlib Require Import SpecFloat.
#[local] Open Scope Z_scope.

(** ** Rounding *)

Lemma round_half_even_near n d : 0 < d -> 2 * Z.abs (round_half_even n d * d - n) <= d.
Proof.
  intros Hd. unfold round_half_even. pose proof (Z.div_mod n d ltac:(lia)) as Hn.
  pose proof (Z.mod_pos_bound n d Hd) as Hr.
  destruct (Z.ltb_spec (2 * (n mod d)) d); [nia|].
  destruct (Z.ltb_spec d (2 * (n mod d))); [nia|].
  destruct (Z.even _); nia.
Qed.

Lemma round_half_even_nonneg n d : 0 <= n -> 0 < d -> 0 <= round_half_even n d.
Proof.
  intros Hn Hd. unfold round_half_even. pose proof (Z.div_pos n d Hn Hd).
  repeat case_test; lia.
Qed.

Lemma scaled_nonneg k m e : 0 <= m -> 0 <= scaled k m e.
Proof.
  intros. unfold scaled. destruct (Z.leb_spec 0 e); [|apply round_half_even_nonneg; [|lia]]; nia.
Qed.

(** ** Normal numbers *)

Lemma round_exact m e :
  normal m -> -1074 <= e <= 971 -> binary_round_aux 53 1024 false (Zpos m) e loc_Exact = S754_finite false m e.
Proof.
  intros Hm He. unfold binary_round_aux, shr_fexp. cbn [Zdigits2]. rewrite Hm, fexp_normal by lia.
  replace (e - e) with 0 by lia. cbn [shr shr_record_of_loc shr_m loc_of_shr_record round_nearest_even Zdigits2].
  rewrite Hm, fexp_normal by lia. replace (e - e) with 0 by lia. cbn [shr shr_m].
  by replace (e <=? 1024 - 53) with true by lia.
Qed.

(** One binary digit more than the mantissa holds, and that digit is zero. *)
Lemma round_exact_double m e :
  normal m -> -1074 <= e <= 970 ->
  binary_round_aux 53 1024 false (Zpos m~0) e loc_Exact = S754_finite false m (e + 1).
Proof.
  intros Hm He. unfold binary_round_aux, shr_fexp. cbn [Zdigits2 digits2_pos].
  rewrite Pos2Z.inj_succ, Hm. replace (Z.succ 53 + e) with (53 + (e + 1)) by lia.
  rewrite fexp_normal by lia. replace (e + 1 - e) with 1 by lia.
  cbn [shr shr_record_of_loc iter_pos shr_1 orb shr_m loc_of_shr_record round_nearest_even Zdigits2].
  rewrite Hm, fexp_normal by lia. replace (e + 1 - (e + 1)) with 0 by lia. cbn [shr shr_m].
  by replace (e + 1 <=? 1024 - 53) with true by lia.
Qed.

(** Division by 1024 only changes the exponent. *)
Lemma fdiv_1024 m e :
  normal m -> -900 <= e <= 900 -> fdiv (S754_finite false m e) (f64_of 1024) = S754_finite false m (e - 10).
Proof.
  intros Hm He. change (f64_of 1024) with (S754_finite false 4503599627370496 (-42)).
  unfold fdiv. cbn [SFdiv xorb]. unfold SFdiv_core_binary. cbn [Zdigits2].
  rewrite Hm. change (Zpos (digits2_pos 4503599627370496)) with 53.
  replace (53 + e - (53 + -42)) with (53 + (e - 11)) by lia.
  rewrite fexp_normal by lia. replace (Z.min (e - 11) (e - -42)) with (e - 11) by lia.
  replace (e - -42 - (e - 11)) with 53 by lia.
  rewrite Z.shiftl_mul_pow2 by lia. change (2 ^ 53) with 9007199254740992.
  assert (Hq : Z.div_eucl (Zpos m * 9007199254740992) 4503599627370496 = (Zpos m~0, 0)).
  { rewrite (surjective_pairing (Z.div_eucl _ _)). f_equal.
    - change (Zpos m * 9007199254740992 / 4503599627370496 = Zpos m~0). 
      replace (Zpos m * 9007199254740992) with (Zpos m~0 * 4503599627370496) by lia.
      by apply Z.div_mul.
    - change ((Zpos m * 9007199254740992) mod 4503599627370496 = 0).
      replace (Zpos m * 9007199254740992) with (Zpos m~0 * 4503599627370496) by lia.
      by apply Z.mod_mul. }
  rewrite Hq. change (new_location 4503599627370496 0) with loc_Exact.
  rewrite round_exact_double by (done || lia). f_equal. lia.
Qed.

(** Integers below [2^53] are represented exactly. *)
Lemma f64_of_normal n :
  0 < n < 2 ^ 53 ->
  exists m e, f64_of n = S754_finite false m e /\ normal m /\ -52 <= e <= 0 /\ Zpos m = n * 2 ^ (- e).
Proof.
  intros Hn. destruct n as [|n|n]; [lia| |lia]. unfold f64_of, binary_normalize, binary_round.
  pose proof (digits2_bounds n) as [Hlo _].
  assert (Hd : Zpos (digits2_pos n) <= 53).
  { destruct (Z.le_gt_cases (Zpos (digits2_pos n)) 53) as [|Hgt]; [done|exfalso].
    pose proof (Z.pow_le_mono_r 2 53 (Zpos (digits2_pos n) - 1)). lia. }
  replace (fexp 53 1024 (Zpos (digits2_pos n) + 0)) with (Zpos (digits2_pos n) - 53) by (unfold fexp, emin; lia).
  remember (Zpos (digits2_pos n) - 53) as s eqn:Es. unfold shl_align. rewrite Z.sub_0_r.
  destruct s as [|k|k].
  - exists n, 0. rewrite round_exact by (unfold normal; lia). unfold normal. split_and!; [done|lia..|].
    change (2 ^ (- 0)) with 1. lia.
  - lia.
  - exists (Pos.iter xO n k), (Zneg k).
    assert (Hm : normal (Pos.iter xO n k)) by (unfold normal; rewrite digits2_iter_xO; lia).
    rewrite round_exact by (done || lia). split_and!; [done|done|lia|lia|]. by rewrite iter_xO.
Qed.

(** ** Units *)

(** Comparing a full mantissa with 1024 compares the exponent. *)
Lemma fle_1024 m e : normal m -> fle (f64_of 1024) (S754_finite false m e) = (-42 <=? e).
Proof.
  intros Hm. pose proof (normal_bounds m Hm) as Hb.
  assert (Hk : fle (f64_of 1024) (S754_finite false m e) = true <-> -42 <= e).
  { rewrite fle_key by done. change (key (f64_of 1024)) with (1, -42, 4503599627370496).
    unfold key_lt. simpl. change (2 ^ 52) with 4503599627370496 in Hb. lia. }
  destruct (fle _ _), (Z.leb_spec (-42) e); try done; exfalso; intuition lia.
Qed.

Lemma scale_1024 more u m e :
  normal m -> -52 <= e <= 100 ->
  exists k, (k <= more)%nat /\
    scale_unit (f64_of 1024) more u (S754_finite false m e) = ((u + k)%nat, S754_finite false m (e - 10 * Z.of_nat k)) /\
    (0 < Z.of_nat k -> -52 <= e - 10 * Z.of_nat k) /\
    ((k < more)%nat -> e - 10 * Z.of_nat k < -42).
Proof.
  intros Hm. revert u e. induction more as [|more IH]; intros u e He; cbn [scale_unit].
  { exists 0%nat. rewrite Nat.add_0_r, Z.sub_0_r. split_and!; [lia|done|lia..]. }
  rewrite fle_1024 by done. destruct (Z.leb_spec (-42) e).
  - rewrite fdiv_1024 by (done || lia).
    destruct (IH (S u) (e - 10) ltac:(lia)) as (k & Hk & -> & H1 & H2).
    exists (S k). replace (e - 10 * Z.of_nat (S k)) with (e - 10 - 10 * Z.of_nat k) by lia.
    replace (u + S k)%nat with (S u + k)%nat by lia. split_and!; [lia|done|lia..].
  - exists 0%nat. rewrite Nat.add_0_r, Z.sub_0_r. split_and!; [lia|done|lia..].
Qed.

Lemma pow_1024 u : 1024 ^ Z.of_nat u = 2 ^ (10 * Z.of_nat u).
Proof. change 1024 with (2 ^ 10). by rewrite <-Z.pow_mul_r by lia. Qed.

(** The decimal string of a small number. *)
Lemma zlen_dec n k : 0 <= n < 10 ^ Z.of_nat k -> (0 < k)%nat -> zlen (dec n) <= Z.of_nat k.
Proof. apply zlen_decimal. Qed.

Lemma zlen_fixed_digits_0 n k : 0 <= n < 10 ^ Z.of_nat k -> (0 < k)%nat -> zlen (fixed_digits 0 n) <= Z.of_nat k.
Proof. intros. unfold fixed_digits. simpl. rewrite app_nil_r, Z.div_1_r. by apply zlen_dec. Qed.

Lemma zlen_fixed_digits_1 n k :
  0 <= n < 10 * 10 ^ Z.of_nat k -> (0 < k)%nat -> zlen (fixed_digits 1 n) <= Z.of_nat k + 2.
Proof.
  intros. unfold fixed_digits. change (10 ^ Z.of_nat 1) with 10. simpl Nat.eqb. cbn iota.
  assert (Hq : 0 <= n / 10 < 10 ^ Z.of_nat k) by (split; [apply Z.div_pos|apply Z.div_lt_upper_bound]; lia).
  pose proof (zlen_dec (n / 10) k Hq ltac:(done)).
  pose proof (Z.mod_pos_bound n 10 ltac:(lia)) as Hr.
  pose proof (zlen_dec (n mod 10) 1 ltac:(simpl; lia) ltac:(lia)) as Hd.
  unfold pad_zero. rewrite !zlen_app. change (zlen (lit ".")) with 1.
  unfold zlen in *. rewrite length_replicate. lia.
Qed.

(** The digits printed for a byte count, and the unit chosen. *)
Lemma human_bytes_scaled n :
  0 < n < 2 ^ 53 ->
  exists u q,
    (u <= 4)%nat /\ (1024 ^ Z.of_nat u <= n \/ u = 0%nat) /\ ((u < 4)%nat -> n < 1024 ^ Z.of_nat (S u)) /\
    scale_unit (f64_of 1024) 4 0 (f64_of n) = (u, q) /\
    exists m e, q = S754_finite false m e /\ forall k,
      fixed k q = fixed_digits k (scaled k (Zpos m) e) /\ 0 <= scaled k (Zpos m) e /\
      2 * Z.abs (scaled k (Zpos m) e * 1024 ^ Z.of_nat u - n * 10 ^ Z.of_nat k) <= 1024 ^ Z.of_nat u.
Proof.
  intros Hn. destruct (f64_of_normal n Hn) as (m & e & -> & Hm & He & Hv).
  destruct (scale_1024 4 0 m e Hm ltac:(lia)) as (u & Hu & -> & Hlo & Hhi).
  pose proof (normal_bounds m Hm) as Hb. rewrite Hv in Hb.
  assert (Hpow : 0 < 2 ^ (- e)) by lia.
  exists u, (S754_finite false m (e - 10 * Z.of_nat u)). rewrite !pow_1024.
  assert (Hs : 2 ^ (- e + 10 * Z.of_nat u) = 2 ^ (- e) * 2 ^ (10 * Z.of_nat u)) by (apply Z.pow_add_r; lia).
  split_and!; [lia| | |done|].
  - destruct u as [|u]; [by right|left]. specialize (Hlo ltac:(lia)).
    assert (2 ^ (- e + 10 * Z.of_nat (S u)) <= 2 ^ 52) by (apply Z.pow_le_mono_r; lia). nia.
  - intros Hu4. specialize (Hhi Hu4).
    assert (2 ^ (53 + e) <= 2 ^ (10 * Z.of_nat (S u))) by (apply Z.pow_le_mono_r; lia).
    assert (2 ^ (53 + e) * 2 ^ (- e) = 2 ^ 53) by (rewrite <-Z.pow_add_r by lia; f_equal; lia). nia.
  - exists m, (e - 10 * Z.of_nat u). split; [done|]. intros k. split_and!; [done|by apply scaled_nonneg|].
    pose proof (Z.pow_pos_nonneg 2 (10 * Z.of_nat u) ltac:(lia) ltac:(lia)).
    pose proof (Z.pow_pos_nonneg 10 (Z.of_nat k) ltac:(lia) ltac:(lia)).
    unfold scaled. destruct (Z.leb_spec 0 (e - 10 * Z.of_nat u)).
    + assert (e = 0) as -> by lia. assert (u = 0%nat) as -> by lia. rewrite Hv. simpl. lia.
    + rewrite Hv. replace (- (e - 10 * Z.of_nat u)) with (- e + 10 * Z.of_nat u) by lia.
      pose proof (round_half_even_near (n * 2 ^ (- e) * 10 ^ Z.of_nat k) (2 ^ (- e + 10 * Z.of_nat u)) ltac:(lia)).
      rewrite Hs in *. nia.
Qed.

Lemma zlen_unit u : (u <= 4)%nat -> 0 <= zlen (unit_name byte_units u) <= 2.
Proof. intros. by do 5 (destruct u as [|u]; [done|]); lia. Qed.

Lemma snprintf_fits size s : zlen s < Z.of_nat size -> snprintf size s = s.
Proof. intros. unfold snprintf, zlen in *. apply take_ge. lia. Qed.

(** [human_bytes] rounds once. For every byte count below 2^53 it prints
    the largest unit not above the value (bytes to terabytes), the digits are the
    exact quotient correctly rounded to the printed precision (none for bytes, one
    decimal otherwise), and the text has at most nine characters, so it is never
    cut by the buffer or the dashboard's column. *)
Lemma human_bytes_exact n :
  0 <= n < 2 ^ 53 ->
  exists u q,
    let k := (if Nat.eqb u 0 then 0 else 1)%nat in
    human_bytes (f64_of n) = fixed_digits k q ++ lit " " ++ unit_name byte_units u /\
    (u <= 4)%nat /\ (u = 0%nat \/ 1024 ^ Z.of_nat u <= n) /\ ((u < 4)%nat -> n < 1024 ^ Z.of_nat (S u)) /\
    2 * Z.abs (q * 1024 ^ Z.of_nat u - n * 10 ^ Z.of_nat k) <= 1024 ^ Z.of_nat u /\
    zlen (human_bytes (f64_of n)) <= 9.
Proof.
  intros Hn. destruct (Z.eq_dec n 0) as [->|Hn0].
  { exists 0%nat, 0. vm_compute. intuition (try lia; discriminate). }
  destruct (human_bytes_scaled n ltac:(lia)) as (u & q & Hu & Hlo & Hhi & Hs & m & e & -> & Hk).
  set (k := (if Nat.eqb u 0 then 0 else 1)%nat). destruct (Hk k) as (Hf & Hq0 & Hq).
  set (d := scaled k (Zpos m) e) in *.
  assert (Hlen : zlen (fixed_digits k d ++ lit " " ++ unit_name byte_units u) <= 9).
  { pose proof (zlen_unit u Hu). rewrite !zlen_app. change (zlen (lit " ")) with 1. subst k.
    destruct u as [|u]; cbn [Nat.eqb] in *.
    - assert (zlen (fixed_digits 0 d) <= 4); [|lia]. apply (zlen_fixed_digits_0 d 4); [|lia].
      specialize (Hhi ltac:(lia)). simpl in Hhi, Hq |- *. lia.
    - assert (zlen (fixed_digits 1 d) <= 6); [|lia]. apply (zlen_fixed_digits_1 d 4); [|lia].
      pose proof (Z.pow_pos_nonneg 1024 (Z.of_nat (S u)) ltac:(lia) ltac:(lia)).
      change (10 ^ Z.of_nat 1) with 10 in Hq. change (10 * 10 ^ Z.of_nat 4) with 100000.
      destruct (Nat.eq_dec (S u) 4%nat) as [E|E].
      + rewrite E in *. change (1024 ^ Z.of_nat 4) with 1099511627776 in *. lia.
      + specialize (Hhi ltac:(lia)).
        rewrite (Nat2Z.inj_succ (S u)), Z.pow_succ_r in Hhi by lia. nia. }
  assert (E : human_bytes (f64_of n) = fixed_digits k d ++ lit " " ++ unit_name byte_units u).
  { unfold human_bytes. rewrite Hs. fold k. rewrite Hf. apply snprintf_fits. lia. }
  exists u, d. fold k. rewrite E. split_and!; [done|done|tauto|done|done|done].
Qed.

Lemma human_bytes_exact_witness :
  human_bytes (f64_of 123456789) = lit "117.7 MB" /\ zlen (human_bytes (f64_of 123456789)) <= 9.
Proof.
  split; [vm_compute; reflexivity|].
  destruct (human_bytes_exact 123456789 ltac:(lia)) as (u & q & H). apply H.
Defined.

(** ** Durations *)

(** The printed hours, minutes and seconds add up to the duration. *)
Lemma human_duration_spec x total :
  to_int x = Val total -> 0 <= total ->
  exists h m s,
    total = h * 3600 + m * 60 + s /\ 0 <= h /\ 0 <= m < 60 /\ 0 <= s < 60 /\
    human_duration x = Val (snprintf 32
      (if 0 <? h then dec h ++ lit "h" ++ pad_zero 2 (dec m) ++ lit "m" ++ pad_zero 2 (dec s) ++ lit "s"
       else if 0 <? m then dec m ++ lit "m" ++ pad_zero 2 (dec s) ++ lit "s"
       else dec s ++ lit "s")).
Proof.
  intros Hx Ht. exists (total / 3600), (total mod 3600 / 60), (total mod 60).
  pose proof (Z.div_mod total 3600 ltac:(lia)). pose proof (Z.mod_pos_bound total 3600 ltac:(lia)).
  pose proof (Z.div_mod (total mod 3600) 60 ltac:(lia)). pose proof (Z.mod_pos_bound (total mod 3600) 60 ltac:(lia)).
  assert (Hs : total mod 60 = total mod 3600 mod 60).
  { symmetry. rewrite Z.mod_mod_divide; [done|]. by exists 60. }
  assert (Hsigned : forall z, 0 <= z -> dec_signed z = dec z).
  { intros z Hz. unfold dec_signed. by rewrite (proj2 (Z.ltb_ge z 0)). }
  pose proof (Z.div_pos total 3600). pose proof (Z.div_pos (total mod 3600) 60).
  assert (total mod 3600 / 60 < 60) by (apply Z.div_lt_upper_bound; lia).
  pose proof (Z.mod_pos_bound (total mod 3600) 60 ltac:(lia)).
  split_and!; [lia..|]. unfold human_duration. rewrite Hx. simpl.
  rewrite !Z.quot_div_nonneg, !Z.rem_mod_nonneg by (rewrite ?Z.rem_mod_nonneg; lia).
  assert (Hz : forall n z, 0 <= z -> dec_zero n z = pad_zero n (dec z)).
  { intros n z Hz. unfold dec_zero. by rewrite (proj2 (Z.ltb_ge z 0)). }
  by rewrite !Hsigned, !Hz by lia.
Qed.

(** A session longer than [INT_MAX] seconds (two time stamps of a capture file
    more than 68 years apart) makes the conversion to [int] undefined. *)
Lemma human_duration_overflows : human_duration (f64_of (2 ^ 31)) = OOB.
Proof. reflexivity. Qed.
