(* ===== verification/FloatRange.v ===== *)
(** * Magnitudes of doubles

    Rounding to nearest never crosses a power of two, so the operations of
    [Float] stay within bounds that are powers of two: a quotient of counters, a
    percentage or a rate converts to an integer type without overflow. *)

From S2P Require Import Prelude.
From S2P Require Import Machine.
From S2P Require Import Float.
From S2P Require Import FloatRound.
From S2P Require Import Format.
From S2P Require Import FormatSpec.
From Stdlib Require Import SpecFloat.
#[local] Open Scope Z_scope.

(** ** Rounding *)

Lemma fexp_eq e : fexp 53 1024 e = Z.max (e - 53) (-1074). Proof. done. Qed.

(** Aligning to the format keeps an upper bound [2^k] and a lower bound [2^j]. *)
Lemma shr_fexp_range m e l k :
  0 <= m -> e <= k -> -1074 <= k -> m + match l with loc_Exact => 0 | _ => 1 end <= 2 ^ (k - e) ->
  let '(r, e') := shr_fexp 53 1024 m e l in
  e' <= k /\ 0 <= shr_m r /\ up r <= 2 ^ (k - e') /\
  (forall j, e <= j -> k <= j + 1 -> -1074 <= j -> 2 ^ (j - e) <= m -> e' <= j /\ 2 ^ (j - e') <= shr_m r).
Proof.
  intros Hm He Hk Hup. unfold shr_fexp. rewrite fexp_eq, <-(up_record m l) in *.
  set (r := shr_record_of_loc m l) in *.
  assert (Hr : shr_m r = m) by apply shr_m_record.
  destruct (Z.max (Zdigits2 m + e - 53) (-1074) - e) as [|p|p] eqn:Ep; cbn [shr]; [by rewrite Hr|..|by rewrite Hr].
  destruct (iter_shr_1 p r) as [E1 H1]; [by rewrite Hr|]. rewrite E1, Hr.
  assert (Hle : m <= up r) by (unfold up; rewrite Hr; destruct (_ || _); lia).
  assert (Hd : 0 < m -> Zdigits2 m + e <= k + 1).
  { intros. pose proof (digits_le m (k - e)). lia. }
  assert (He' : e + Zpos p <= Z.max (k - 52) (-1074)).
  { destruct (Z.eq_dec m 0) as [->|]; [cbn [Zdigits2] in Ep|]; lia. }
  split_and!; [lia|apply Z.div_pos; lia| |].
  - apply H1. rewrite <-Z.pow_add_r by lia. by replace (k - (e + Zpos p) + Zpos p) with (k - e) by lia.
  - intros j Hj Hkj Hj' Hlow. assert (e + Zpos p <= j) by lia. split; [done|].
    apply Z.div_le_lower_bound; [lia|]. rewrite <-Z.pow_add_r by lia.
    by replace (Zpos p + (j - (e + Zpos p))) with (j - e) by lia.
Qed.

(** A double between 0 and [2^k]; one that is positive and between [2^j] and
    [2^(j+1)]. *)
Definition within (k : Z) (x : f64) : Prop :=
  match x with
  | S754_zero _ => True
  | S754_finite false m e => e <= k /\ Zpos m <= 2 ^ (k - e)
  | _ => False
  end.
Definition at_least (j : Z) (x : f64) : Prop :=
  match x with S754_finite false m e => e <= j /\ 2 ^ (j - e) <= Zpos m | _ => False end.

Lemma round_range m e l k :
  0 <= m -> e <= k -> -1074 <= k <= 971 -> m + match l with loc_Exact => 0 | _ => 1 end <= 2 ^ (k - e) ->
  within k (binary_round_aux 53 1024 false m e l) /\
  (forall j, e <= j -> k <= j + 1 -> -1074 <= j -> 2 ^ (j - e) <= m ->
    at_least j (binary_round_aux 53 1024 false m e l)).
Proof.
  intros Hm He Hk Hup. unfold binary_round_aux.
  pose proof (shr_fexp_range m e l k Hm He ltac:(lia) Hup) as H1.
  destruct (shr_fexp 53 1024 m e l) as [r e']. destruct H1 as (He' & Hr & Hu & Hlow).
  set (m1 := round_nearest_even (shr_m r) (loc_of_shr_record r)).
  pose proof (round_le_up (shr_m r) r eq_refl Hr) as Hm1. fold m1 in Hm1.
  assert (Hm1' : m1 + 0 <= 2 ^ (k - e')) by lia.
  pose proof (shr_fexp_range m1 e' loc_Exact k ltac:(lia) He' ltac:(lia) Hm1') as H2.
  destruct (shr_fexp 53 1024 m1 e' loc_Exact) as [r2 e2]. destruct H2 as (He2 & Hr2 & Hu2 & Hlow2).
  assert (Hle2 : shr_m r2 <= 2 ^ (k - e2)) by (unfold up in Hu2; destruct (_ || _); lia).
  split.
  - destruct (shr_m r2) as [|p|p]; [done| |lia]. rewrite (proj2 (Z.leb_le _ _)) by lia. done.
  - intros j Hj Hkj Hj' Hl. destruct (Hlow j Hj Hkj Hj' Hl) as [He1 Hl1].
    destruct (Hlow2 j He1 Hkj Hj' ltac:(lia)) as [Hej Hl2].
    assert (0 < 2 ^ (j - e2)) by (apply Z.pow_pos_nonneg; lia).
    destruct (shr_m r2) as [|p|p]; [lia| |lia]. rewrite (proj2 (Z.leb_le _ _)) by lia. done.
Qed.

Lemma within_mono k k' x : k <= k' -> within k x -> within k' x.
Proof.
  intros Hk. destruct x as [s| | |[] m e]; try done. intros [He Hm]. split; [lia|].
  assert (2 ^ (k - e) <= 2 ^ (k' - e)) by (apply Z.pow_le_mono_r; lia). lia.
Qed.

(** ** Conversions and operations *)

Lemma normalize_range m e k :
  0 <= m -> e <= k -> -1074 <= k <= 971 -> m <= 2 ^ (k - e) ->
  within k (binary_normalize 53 1024 m e false) /\
  (forall j, e <= j -> k <= j + 1 -> -1074 <= j -> 2 ^ (j - e) <= m -> at_least j (binary_normalize 53 1024 m e false)).
Proof.
  intros Hm He Hk Hup. destruct m as [|p|p]; [|cbn [binary_normalize]|lia].
  { split; [done|]. intros j Hj _ _ Hl. assert (0 < 2 ^ (j - e)) by (apply Z.pow_pos_nonneg; lia). lia. }
  unfold binary_round, shl_align. set (e1 := fexp 53 1024 _).
  destruct (e1 - e) as [|d|d] eqn:Ed; [apply round_range; lia|apply round_range; lia|].
  assert (Hs : Zpos (Pos.iter xO p d) = Zpos p * 2 ^ (e - e1)) by (rewrite iter_xO; f_equal; f_equal; lia).
  assert (Hpow : forall i, e <= i -> 2 ^ (i - e1) = 2 ^ (i - e) * 2 ^ (e - e1)).
  { intros i Hi. rewrite <-Z.pow_add_r by lia. f_equal. lia. }
  assert (0 < 2 ^ (e - e1)) by (apply Z.pow_pos_nonneg; lia).
  rewrite Hs. destruct (round_range (Zpos p * 2 ^ (e - e1)) e1 loc_Exact k) as [H1 H2]; [lia..| |].
  - rewrite (Hpow k) by lia. rewrite Z.add_0_r. apply Z.mul_le_mono_nonneg_r; lia.
  - split; [done|]. intros j Hj Hkj Hj' Hl. apply H2; [lia..|]. rewrite (Hpow j) by lia.
    apply Z.mul_le_mono_nonneg_r; lia.
Qed.

Lemma f64_of_within n k : 0 <= n <= 2 ^ k -> 0 <= k <= 971 -> within k (f64_of n).
Proof. intros. apply normalize_range; rewrite ?Z.sub_0_r; lia. Qed.

Lemma f64_of_at_least n : 0 < n < 2 ^ 900 -> at_least (Z.log2 n) (f64_of n).
Proof.
  intros Hn. pose proof (Z.log2_spec n ltac:(lia)) as [Hlo Hhi]. pose proof (Z.log2_nonneg n).
  assert (Z.log2 n < 900) by (apply Z.log2_lt_pow2; lia).
  destruct (normalize_range n 0 (Z.log2 n + 1)) as [_ H2]; rewrite ?Z.sub_0_r; [lia..|].
  apply H2; rewrite ?Z.sub_0_r; lia.
Qed.

Lemma within_mul ka kb a b :
  within ka a -> within kb b -> -1074 <= ka + kb <= 971 -> within (ka + kb) (fmul a b).
Proof.
  intros Ha Hb Hk. destruct a as [s| | |[] m e], b as [s'| | |[] m' e']; try done.
  destruct Ha as [He Hm], Hb as [He' Hm']. unfold fmul. cbn [SFmul xorb].
  apply round_range; [lia..|]. rewrite Z.add_0_r, Pos2Z.inj_mul.
  replace (ka + kb - (e + e')) with ((ka - e) + (kb - e')) by lia. rewrite Z.pow_add_r by lia.
  apply Z.mul_le_mono_nonneg; lia.
Qed.

Lemma within_add k a b : within k a -> within k b -> -1074 <= k <= 970 -> within (k + 1) (fadd a b).
Proof.
  intros Ha Hb Hk.
  destruct a as [s| | |[] m e], b as [s'| | |[] m' e']; try done; try (by apply (within_mono k); [lia|]);
    try (by destruct s, s').
  destruct Ha as [He Hm], Hb as [He' Hm']. unfold fadd. cbn [SFadd cond_Zopp].
  set (ez := Z.min e e'). rewrite !shl_align_fst by lia.
  assert (Hscale : forall m e, ez <= e -> e <= k -> Zpos m <= 2 ^ (k - e) -> 0 <= Zpos m * 2 ^ (e - ez) <= 2 ^ (k - ez)).
  { intros n f Hf Hfk Hn. assert (0 < 2 ^ (f - ez)) by (apply Z.pow_pos_nonneg; lia).
    split; [apply Z.mul_nonneg_nonneg; lia|].
    replace (k - ez) with ((k - f) + (f - ez)) by lia. rewrite Z.pow_add_r by lia.
    apply Z.mul_le_mono_nonneg_r; lia. }
  pose proof (Hscale m e ltac:(lia) He Hm). pose proof (Hscale m' e' ltac:(lia) He' Hm').
  apply normalize_range; [lia..|]. replace (k + 1 - ez) with (k - ez + 1) by lia. rewrite pow_double by lia. lia.
Qed.

Lemma within_div ka jb a b :
  within ka a -> at_least jb b -> -1074 <= ka - jb <= 971 -> within (ka - jb) (fdiv a b).
Proof.
  intros Ha Hb Hk. destruct a as [s| | |[] m e], b as [s'| | |[] m' e']; try done.
  destruct Ha as [He Hm], Hb as [He' Hm']. unfold fdiv. cbn [SFdiv xorb]. unfold SFdiv_core_binary.
  set (ez := Z.min _ _).
  assert (Hd : Zdigits2 (Zpos m) <= ka - e + 1) by (apply digits_le; lia).
  assert (Hd' : jb - e' + 1 <= Zdigits2 (Zpos m')) by (apply digits_ge; lia).
  assert (Hez : ez <= e - e' /\ ez <= ka - jb) by (unfold ez; rewrite fexp_eq; lia).
  set (num := match e - e' - ez with Z0 => _ | Zpos _ => _ | Zneg _ => _ end).
  assert (Hnum : num = Zpos m * 2 ^ (e - e' - ez)).
  { unfold num. destruct (e - e' - ez) as [|p|p] eqn:Es; [simpl; lia|by apply Z.shiftl_mul_pow2|lia]. }
  assert (0 < 2 ^ (e - e' - ez)) by (apply Z.pow_pos_nonneg; lia).
  assert (Hle : num <= 2 ^ (ka - jb - ez) * 2 ^ (jb - e')).
  { rewrite Hnum, <-Z.pow_add_r by lia.
    replace (ka - jb - ez + (jb - e')) with ((ka - e) + (e - e' - ez)) by lia. rewrite Z.pow_add_r by lia.
    apply Z.mul_le_mono_nonneg_r; lia. }
  assert (0 < 2 ^ (ka - jb - ez)) by (apply Z.pow_pos_nonneg; lia).
  assert (Hle' : num <= 2 ^ (ka - jb - ez) * Zpos m').
  { etransitivity; [exact Hle|]. apply Z.mul_le_mono_nonneg_l; lia. }
  pose proof (Z_div_mod num (Zpos m') ltac:(lia)) as Hdm.
  destruct (Z.div_eucl num (Zpos m')) as [q r]. destruct Hdm as [Hq Hr].
  assert (Hq0 : 0 <= q) by nia.
  apply round_range; [done|lia|lia|].
  unfold new_location, new_location_even, new_location_odd.
  assert (Hgoal : q + (if r =? 0 then 0 else 1) <= 2 ^ (ka - jb - ez)).
  { clear - Hq Hr Hle'. generalize dependent (2 ^ (ka - jb - ez)). intros p Hp.
    destruct (Z.eqb_spec r 0); nia. }
  destruct (Z.even _); by destruct (r =? 0).
Qed.

Lemma within_trunc k x : within k x -> 0 <= k -> exists n, trunc x = Some n /\ 0 <= n <= 2 ^ k.
Proof.
  intros Hx Hk. assert (0 < 2 ^ k) by (apply Z.pow_pos_nonneg; lia).
  destruct x as [s| | |[] m e]; try done; [exists 0; split; [done|lia]|].
  destruct Hx as [He Hm]. exists (Z.shiftl (Zpos m) e). split; [done|].
  split; [by apply Z.shiftl_nonneg|]. destruct (Z.le_gt_cases 0 e).
  - rewrite Z.shiftl_mul_pow2 by lia. replace k with ((k - e) + e) by lia. rewrite Z.pow_add_r by lia.
    apply Z.mul_le_mono_nonneg_r; lia.
  - replace e with (- (- e)) by lia. rewrite Z.shiftl_opp_r, Z.shiftr_div_pow2 by lia.
    apply Z.div_le_upper_bound; [apply Z.pow_pos_nonneg; lia|]. rewrite <-Z.pow_add_r by lia.
    by replace (- e + k) with (k - e) by lia.
Qed.

Lemma within_u64 k x : within k x -> 0 <= k < 64 -> exists n, to_u64 x = Val n /\ 0 <= n <= 2 ^ k.
Proof.
  intros Hx Hk. destruct (within_trunc k x Hx) as (n & E & Hn); [lia|]. exists n. unfold to_u64. rewrite E.
  assert (2 ^ k < 2 ^ 64) by (apply Z.pow_lt_mono_r; lia).
  rewrite (proj2 (Z.leb_le _ _)), (proj2 (Z.ltb_lt _ _)) by lia. done.
Qed.

Lemma within_int k x : within k x -> 0 <= k < 31 -> exists n, to_int x = Val n /\ 0 <= n <= 2 ^ k.
Proof.
  intros Hx Hk. destruct (within_trunc k x Hx) as (n & E & Hn); [lia|]. exists n. unfold to_int. rewrite E.
  assert (2 ^ k < 2 ^ 31) by (apply Z.pow_lt_mono_r; lia).
  rewrite (proj2 (Z.leb_le _ _)), (proj2 (Z.ltb_lt _ _)) by lia. done.
Qed.

(** ** Ratios of counters *)

(** A share of a total is at most 2, whatever the rounding. *)
Lemma ratio_within a b : 0 <= a <= b -> 0 < b < 2 ^ 900 -> within 1 (fdiv (f64_of a) (f64_of b)).
Proof.
  intros Ha Hb. pose proof (Z.log2_spec b ltac:(lia)) as [Hlo Hhi]. pose proof (Z.log2_nonneg b).
  assert (Z.log2 b < 900) by (apply Z.log2_lt_pow2; lia).
  replace 1 with (Z.log2 b + 1 - Z.log2 b) by lia. apply within_div; [|by apply f64_of_at_least|lia].
  apply f64_of_within; lia.
Qed.
