(* ===== verification/Capture.v ===== *)
(** * Packet sources (include/capture.hpp, src/capture_raw.cpp, src/capture_pcap.cpp)

    The two capture backends as state machines over what the operating system
    and libpcap answer.  The answers are parameters: a record for the calls of
    [open], one event per turn of the read loop, and a function from the number
    of the call for the counters a backend reads again and again.  Both backends
    share the read loop, so [run] is written once against the class [Backend] of
    the operations it calls; [fetch] is the part of a turn before the frame is
    handed over.

    The system calls with an effect outside the process (sockets opened and
    closed, filters and memberships added) are recorded in [calls_]. *)

From S2P Require Import Prelude.
From S2P Require Import Machine.
From S2P Require Import Protocol.
From S2P Require Import ByteString.
From S2P Require Import Analyzer.
#[local] Open Scope Z_scope.

(** ** Configuration and results (capture.hpp) *)

Record CaptureConfig := mkCaptureConfig {
  interface : list byte;
  pcap_file : list byte;
  filter : list byte;
  snaplen : Z;
  promiscuous : bool;
  timeout_ms : Z;
}.
#[export] Instance CaptureConfig_eta : Eta CaptureConfig := fun c =>
  mkCaptureConfig c.(interface) c.(pcap_file) c.(filter) c.(snaplen) c.(promiscuous) c.(timeout_ms).
Definition config_default : CaptureConfig := mkCaptureConfig [] [] [] 262144 true 200.

Record CaptureCounters := mkCounters { received : Z; dropped : Z; if_dropped : Z }.
#[export] Instance CaptureCounters_eta : Eta CaptureCounters := fun c =>
  mkCounters c.(received) c.(dropped) c.(if_dropped).
Definition counters_zero : CaptureCounters := mkCounters 0 0 0.

Record InterfaceInfo := mkInterface {
  if_name : list byte; if_description : list byte; if_address : list byte;
  is_up : bool; is_loopback : bool;
}.

(** [std::string::empty()] *)
Definition str_empty (s : list byte) : bool := match s with [] => true | _ => false end.

(** [open]'s result: the error message when it returns false. *)
Definition opened (T : Type) : Type := option (list byte) * T.

(** ** The read loop, common to both backends *)

Inductive fetched (C : Type) :=
| Again (c : C)                       (* nothing to read yet *)
| Got (f : Frame) (c : C)             (* a frame for the sink *)
| EndOfInput (c : C)
| Failed (err : list byte) (c : C).
Arguments Again {C}. Arguments Got {C}. Arguments EndOfInput {C}. Arguments Failed {C}.

(** The virtual functions of [Capture], with [run] cut into the steps of its
    loop. *)
Class Backend (C E : Type) := {
  capture_open : CaptureConfig -> C -> opened C;
  capture_close : C -> C;
  is_open : C -> bool;
  fetch : C -> E -> fetched C;
  refresh_counters : C -> C;
  capture_counters : C -> CaptureCounters;
  capture_linktype : C -> Z;
  capture_name : C -> list byte;
  capture_offline : C -> bool;
}.

Definition not_open_error : list byte := lit "capture not open".

(** How far a call of [run] has got when the events it was given are used up. *)
Inductive progress := Running (delivered : Z) | Returned (err : option (list byte)).

Section run.
Context {C E S : Type} `{Backend C E}.
Variable sink : S -> Frame -> mem S.
Variable max_packets : Z.

(** [++delivered % 256 == 0] refreshes the counters. *)
Definition after_sink (delivered : Z) (c : C) : C :=
  if delivered mod 256 =? 0 then refresh_counters c else c.
Definition limit_reached (delivered : Z) : bool := negb (max_packets =? 0) && (max_packets <=? delivered).

(** One event per turn of the loop: [None] when the turn finds [running] false. *)
Fixpoint capture_loop (c : C) (delivered : Z) (s : S) (events : list (option E)) : mem (progress * C * S) :=
  match events with
  | [] => mret (Running delivered, c, s)
  | None :: _ => mret (Returned None, refresh_counters c, s)
  | Some e :: events =>
      match fetch c e with
      | Again c => capture_loop c delivered s events
      | EndOfInput c => mret (Returned None, refresh_counters c, s)
      | Failed err c => mret (Returned (Some err), c, s)
      | Got f c =>
          s ← sink s f;
          let delivered := incr delivered in
          let c := after_sink delivered c in
          if limit_reached delivered then mret (Returned None, refresh_counters c, s)
          else capture_loop c delivered s events
      end
  end.

Definition run (c : C) (s : S) (events : list (option E)) : mem (progress * C * S) :=
  if negb (is_open c) then mret (Returned (Some not_open_error), c, s)
  else capture_loop c 0 s events.
End run.

(** ** The AF_PACKET backend *)

Definition EPERM : Z := 1.
Definition EINTR : Z := 4.
Definition EAGAIN : Z := 11.
Definition kDltEthernet : Z := 1.
Definition kDltRaw : Z := 101.
(** [IFNAMSIZ], [ARPHRD_NONE] *)
Definition IFNAMSIZ : nat := 16.
Definition ARPHRD_NONE : Z := 0xFFFE.
Definition rcvbuf_size : Z := 4 * 1024 * 1024.

Inductive syscall :=
| SysSocket (fd : Z)
| SysAttach (fd : Z) (filter : list byte) (linktype snap : Z)
| SysBind (fd ifindex : Z)
| SysAddPromisc (fd ifindex : Z)
| SysDropPromisc (fd ifindex : Z)
| SysRcvbuf (fd size : Z)
| SysClose (fd : Z).
#[export] Instance syscall_eq_dec : EqDecision syscall.
Proof. solve_decision. Defined.

(** The answers to the calls of [open]: [None] stands for success, [Some e]
    for failure with [errno = e]. *)
Record raw_os := mkRawOs {
  os_socket : Z * Z;                              (* file descriptor, errno *)
  os_nametoindex : list byte -> Z;
  os_hwaddr : list byte -> Z + Z;                 (* errno or sa_family *)
  os_open_dead : Z -> Z -> bool;
  os_compile : list byte -> Z -> option (list byte);   (* pcap_geterr *)
  os_attach : option Z;
  os_bind : Z -> option Z;
  os_promisc : option Z;
}.

(** A turn of the loop. *)
Inductive raw_event :=
| PollFailed (errno : Z)
| PollTimeout
| RecvFailed (errno : Z)
| Received (data : list byte) (stamp : option timeval) (now : timeval).

Module RawSocketCapture.
Record t := mk {
  fd_ : Z; ifindex_ : Z; linktype_ : Z; timeout_ms_ : Z; snaplen_ : Z; promisc_on_ : bool;
  buffer_ : list byte;
  software_received_ : Z; kernel_seen_ : Z; kernel_dropped_ : Z;
  counters_ : CaptureCounters;
  stat_reads : Z;
  calls_ : list syscall;
}.
#[export] Instance t_eta : Eta t := fun c =>
  mk c.(fd_) c.(ifindex_) c.(linktype_) c.(timeout_ms_) c.(snaplen_) c.(promisc_on_) c.(buffer_)
    c.(software_received_) c.(kernel_seen_) c.(kernel_dropped_) c.(counters_) c.(stat_reads) c.(calls_).

Definition init : t := mk (-1) 0 kDltEthernet 200 65536 false [] 0 0 0 counters_zero 0 [].

Definition call (s : syscall) (c : t) : t := c <| calls_ ::= fun l => l ++ [s] |>.

Section backend.
Variable strerror : Z -> list byte.
(** What the [i]-th [PACKET_STATISTICS] read returns: packets and drops since
    the previous read, each an [unsigned int]. *)
Variable kstats : Z -> option (Z * Z).

Definition refresh_counters (c : t) : t :=
  if c.(fd_) <? 0 then c
  else
    let c := match kstats c.(stat_reads) with
             | Some (packets, drops) =>
                 c <| kernel_seen_ ::= fun n => u64 (n + packets) |>
                   <| kernel_dropped_ ::= fun n => u64 (n + drops) |>
             | None => c
             end in
    c <| stat_reads ::= Z.add 1 |>
      <| counters_ := mkCounters (if negb (c.(kernel_seen_) =? 0) then c.(kernel_seen_) else c.(software_received_))
                                 c.(kernel_dropped_) 0 |>.

Definition close (c : t) : t :=
  if 0 <=? c.(fd_) then
    let c := refresh_counters c in
    let c := if c.(promisc_on_) then
               call (SysDropPromisc c.(fd_) c.(ifindex_)) c <| promisc_on_ := false |>
             else c in
    call (SysClose c.(fd_)) c <| fd_ := -1 |>
  else c.

Variable os : raw_os.

Definition attach_filter (filter : list byte) (c : t) : opened t :=
  let snap := if negb (c.(snaplen_) =? 0) then i32 c.(snaplen_) else 65535 in
  if negb (os.(os_open_dead) c.(linktype_) snap) then (Some (lit "pcap_open_dead failed"), c)
  else match os.(os_compile) filter c.(linktype_) with
  | Some msg => (Some (lit "bad BPF filter: " ++ msg), c)
  | None =>
      match os.(os_attach) with
      | Some e => (Some (lit "SO_ATTACH_FILTER failed: " ++ strerror e), c)
      | None => (None, call (SysAttach c.(fd_) filter c.(linktype_) snap) c)
      end
  end.

Definition enable_promisc (c : t) : opened t :=
  match os.(os_promisc) with
  | Some e => (Some (lit "cannot enable promiscuous mode: " ++ strerror e), c)
  | None => (None, call (SysAddPromisc c.(fd_) c.(ifindex_)) c <| promisc_on_ := true |>)
  end.

(** [ARPHRD_ETHER] and [ARPHRD_LOOPBACK] have the same result as the default. *)
Definition detect_linktype (iface : list byte) (c : t) : opened t :=
  match os.(os_hwaddr) (take (IFNAMSIZ - 1) iface) with
  | inl e => (Some (lit "SIOCGIFHWADDR failed: " ++ strerror e), c)
  | inr family => (None, c <| linktype_ := if family =? ARPHRD_NONE then kDltRaw else kDltEthernet |>)
  end.

(** [if (!step(err)) { close(); return false; }] followed by [k]. *)
Definition or_close (r : opened t) (k : t -> opened t) : opened t :=
  match r with (Some e, c) => (Some e, close c) | (None, c) => k c end.

Definition bind_socket (c : t) : opened t :=
  match os.(os_bind) c.(ifindex_) with
  | Some e => (Some (lit "bind to interface failed: " ++ strerror e), c)
  | None => (None, call (SysBind c.(fd_) c.(ifindex_)) c)
  end.

Definition open (cfg : CaptureConfig) (c : t) : opened t :=
  if negb (str_empty cfg.(pcap_file)) then
    (Some (lit "the raw-socket backend cannot replay capture files; use --backend pcap"), c)
  else if str_empty cfg.(interface) then
    (Some (lit "the raw-socket backend needs an explicit interface"), c)
  else
    let '(fd, errno) := os.(os_socket) in
    let c := c <| fd_ := fd |> in
    if fd <? 0 then
      (Some (lit "socket(AF_PACKET) failed: " ++ strerror errno ++
             (if errno =? EPERM then lit " (needs root or CAP_NET_RAW)" else [])), c)
    else
      let c := call (SysSocket fd) c in
      let c := c <| ifindex_ := os.(os_nametoindex) cfg.(interface) |> in
      if c.(ifindex_) =? 0 then
        (Some (lit "unknown interface '" ++ cfg.(interface) ++ lit "'"), close c)
      else
        or_close (detect_linktype cfg.(interface) c) (fun c =>
        or_close (if negb (str_empty cfg.(filter)) then attach_filter cfg.(filter) c else (None, c)) (fun c =>
        or_close (bind_socket c) (fun c =>
        or_close (if cfg.(promiscuous) then enable_promisc c else (None, c)) (fun c =>
        let c := call (SysRcvbuf c.(fd_) rcvbuf_size) c in
        let c := c <| snaplen_ := if 0 <? cfg.(snaplen) then u32 cfg.(snaplen) else 65536 |> in
        let c := c <| buffer_ ::= fun b =>
                        resize (Z.to_nat (if c.(snaplen_) <? 65536 then 65536 else c.(snaplen_))) Byte.x00 b |> in
        (None, c <| timeout_ms_ := cfg.(timeout_ms) |>))))).

(** [poll], [recvfrom] into [buffer_] (which keeps its tail), [SIOCGSTAMP] with
    the clock as fallback. *)
Definition fetch (c : t) (e : raw_event) : fetched t :=
  match e with
  | PollFailed errno =>
      if errno =? EINTR then Again c else Failed (lit "poll failed: " ++ strerror errno) c
  | PollTimeout => Again c
  | RecvFailed errno =>
      if (errno =? EINTR) || (errno =? EAGAIN) then Again c
      else Failed (lit "recvfrom failed: " ++ strerror errno) c
  | Received data stamp now =>
      let n := Z.min (zlen data) (zlen c.(buffer_)) in
      let c := c <| buffer_ ::= fun b => firstn (Z.to_nat n) data ++ skipn (Z.to_nat n) b |> in
      let wirelen := u32 n in
      let caplen := if wirelen <? c.(snaplen_) then wirelen else c.(snaplen_) in
      Got (mkCaptured (Some c.(buffer_)) caplen wirelen (default now stamp))
          (c <| software_received_ ::= incr |>)
  end.

Definition counters (c : t) : CaptureCounters := c.(counters_).
Definition linktype (c : t) : Z := c.(linktype_).
Definition backend_name (c : t) : list byte := lit "AF_PACKET".
Definition is_offline (c : t) : bool := false.

#[export] Instance raw_backend : Backend t raw_event := {|
  capture_open := open;
  capture_close := close;
  is_open c := 0 <=? c.(fd_);
  Capture.fetch := fetch;
  Capture.refresh_counters := refresh_counters;
  capture_counters := counters;
  capture_linktype := linktype;
  capture_name := backend_name;
  capture_offline := is_offline;
|}.
End backend.
End RawSocketCapture.

(** What is compiled on platforms without AF_PACKET. *)
Module UnsupportedRawCapture.
Definition open (cfg : CaptureConfig) : option (list byte) :=
  Some (lit "the raw-socket backend needs Linux (AF_PACKET); this platform captures through libpcap -- use --backend pcap").
Definition run_error : list byte := lit "raw-socket backend unavailable on this platform".
Definition linktype : Z := 1.
Definition backend_name : list byte := lit "AF_PACKET (unavailable)".
End UnsupportedRawCapture.

(** ** The libpcap backend *)

Definition PCAP_ERROR_BREAK : Z := -2.
Definition PCAP_ERROR_PERM_DENIED : Z := -8.

(** The answers to the calls of [open]. *)
Record pcap_lib := mkPcapLib {
  lib_open_offline : list byte -> option (list byte);   (* errbuf *)
  lib_create : list byte -> option (list byte);
  lib_activate : CaptureConfig -> Z * list byte;        (* status and pcap_geterr *)
  lib_datalink : Z;
  lib_compile : list byte -> option (list byte);
  lib_setfilter : option (list byte);
}.

(** [pcap_next_ex]: the return value, with the packet for 1 and
    [pcap_geterr]'s text for an error. *)
Inductive pcap_event :=
| NextPacket (caplen len : Z) (ts : timeval) (data : list byte)
| NextOther (rc : Z) (err : list byte).

Module PcapCapture.
Record t := mk {
  handle_ : bool;                (* handle_ != nullptr *)
  linktype_ : Z; offline_ : bool; warning_ : list byte;
  counters_ : CaptureCounters;
  stat_reads : Z;
}.
#[export] Instance t_eta : Eta t := fun c =>
  mk c.(handle_) c.(linktype_) c.(offline_) c.(warning_) c.(counters_) c.(stat_reads).
Definition init : t := mk false 1 false [] counters_zero 0.

Section backend.
(** What the [i]-th [pcap_stats] returns: received, dropped, dropped by the
    interface. *)
Variable pstats : Z -> option (Z * Z * Z).

Definition refresh_counters (c : t) : t :=
  if negb c.(handle_) || c.(offline_) then c
  else
    let c := match pstats c.(stat_reads) with
             | Some (recv, drop, ifdrop) => c <| counters_ := mkCounters recv drop ifdrop |>
             | None => c
             end in
    c <| stat_reads ::= Z.add 1 |>.

Definition close (c : t) : t :=
  if c.(handle_) then refresh_counters c <| handle_ := false |> else c.

Variable lib : pcap_lib.

Definition activate_live (cfg : CaptureConfig) (c : t) : opened t :=
  match lib.(lib_create) cfg.(interface) with
  | Some msg => (Some (lit "pcap_create failed: " ++ msg), c <| handle_ := false |>)
  | None =>
      let c := c <| handle_ := true |> in
      let '(rc, msg) := lib.(lib_activate) cfg in
      if rc <? 0 then
        (Some (lit "cannot activate capture on '" ++ cfg.(interface) ++ lit "': " ++ msg ++
               (if rc =? PCAP_ERROR_PERM_DENIED
                then Byte.x0a :: lit "  (capturing needs root or CAP_NET_RAW -- see README)" else [])),
         c <| handle_ := false |>)
      else (None, if 0 <? rc then c <| warning_ := msg |> else c)
  end.

Definition open_offline (cfg : CaptureConfig) (c : t) : opened t :=
  let c := c <| offline_ := true |> in
  match lib.(lib_open_offline) cfg.(pcap_file) with
  | Some msg => (Some (lit "cannot open capture file: " ++ msg), c <| handle_ := false |>)
  | None => (None, c <| handle_ := true |>)
  end.

Definition install_filter (filter : list byte) (c : t) : opened t :=
  match lib.(lib_compile) filter with
  | Some msg => (Some (lit "bad BPF filter: " ++ msg), close c)
  | None =>
      match lib.(lib_setfilter) with
      | Some msg => (Some (lit "cannot install filter: " ++ msg), close c)
      | None => (None, c)
      end
  end.

Definition open (cfg : CaptureConfig) (c : t) : opened t :=
  match (if negb (str_empty cfg.(pcap_file)) then open_offline cfg c else activate_live cfg c) with
  | (Some e, c) => (Some e, c)
  | (None, c) =>
      let c := c <| linktype_ := lib.(lib_datalink) |> in
      if negb (str_empty cfg.(filter)) then install_filter cfg.(filter) c else (None, c)
  end.

Definition fetch (c : t) (e : pcap_event) : fetched t :=
  match e with
  | NextPacket caplen len ts data => Got (mkCaptured (Some data) caplen len ts) c
  | NextOther rc msg =>
      if rc =? 0 then Again c
      else if rc =? PCAP_ERROR_BREAK then EndOfInput c
      else Failed (lit "read error: " ++ msg) c
  end.

Definition counters (c : t) : CaptureCounters := c.(counters_).
Definition linktype (c : t) : Z := c.(linktype_).
Definition backend_name (c : t) : list byte := if c.(offline_) then lit "pcap-file" else lit "libpcap".
Definition is_offline (c : t) : bool := c.(offline_).

#[export] Instance pcap_backend : Backend t pcap_event := {|
  capture_open := open;
  capture_close := close;
  is_open := handle_;
  Capture.fetch := fetch;
  Capture.refresh_counters := refresh_counters;
  capture_counters := counters;
  capture_linktype := linktype;
  capture_name := backend_name;
  capture_offline := is_offline;
|}.
End backend.
End PcapCapture.

(** ** Either backend

    A pointer to one of two backends: every call goes to the one it holds.  The
    answers are tagged with the system they come from; a turn of the loop gets
    nothing from the other one's. *)

Section either.
Context {C1 E1 C2 E2 : Type} (B1 : Backend C1 E1) (B2 : Backend C2 E2).

Definition map_fetched {C C' : Type} (g : C -> C') (r : fetched C) : fetched C' :=
  match r with
  | Again c => Again (g c) | Got f c => Got f (g c)
  | EndOfInput c => EndOfInput (g c) | Failed err c => Failed err (g c)
  end.

Definition either_backend : Backend (C1 + C2) (E1 + E2) := {|
  capture_open cfg c := match c with
                        | inl c => let r := capture_open cfg c in (r.1, inl r.2)
                        | inr c => let r := capture_open cfg c in (r.1, inr r.2)
                        end;
  capture_close c := match c with inl c => inl (capture_close c) | inr c => inr (capture_close c) end;
  is_open c := match c with inl c => is_open c | inr c => is_open c end;
  fetch c e := match c, e with
               | inl c, inl e => map_fetched inl (fetch c e)
               | inr c, inr e => map_fetched inr (fetch c e)
               | _, _ => Again c
               end;
  refresh_counters c := match c with inl c => inl (refresh_counters c) | inr c => inr (refresh_counters c) end;
  capture_counters c := match c with inl c => capture_counters c | inr c => capture_counters c end;
  capture_linktype c := match c with inl c => capture_linktype c | inr c => capture_linktype c end;
  capture_name c := match c with inl c => capture_name c | inr c => capture_name c end;
  capture_offline c := match c with inl c => capture_offline c | inr c => capture_offline c end;
|}.
End either.

(** ** Interfaces and filters *)

Definition PCAP_IF_LOOPBACK : Z := 1.
Definition PCAP_IF_UP : Z := 2.
Definition AF_INET : Z := 2.

(** An entry of [pcap_findalldevs]: null pointers are [None], an address is its
    family and the bytes of [sin_addr]. *)
Record pcap_if := mkPcapIf {
  d_name : option (list byte); d_description : option (list byte); d_flags : Z;
  d_addresses : list (option (Z * list byte));
}.

Section interfaces.
Variable ntop : list byte -> list byte.

(** The loop over the addresses: the first IPv4 one. *)
Fixpoint first_ipv4 (l : list (option (Z * list byte))) : list byte :=
  match l with
  | [] => []
  | Some (family, sin_addr) :: l => if family =? AF_INET then ntop sin_addr else first_ipv4 l
  | None :: l => first_ipv4 l
  end.

Definition interface_info (d : pcap_if) : InterfaceInfo :=
  mkInterface (default [] d.(d_name)) (default [] d.(d_description)) (first_ipv4 d.(d_addresses))
    (negb (Z.land d.(d_flags) PCAP_IF_UP =? 0)) (negb (Z.land d.(d_flags) PCAP_IF_LOOPBACK =? 0)).

(** [list_interfaces(err)]: the devices [pcap_findalldevs] found, or its error. *)
Definition list_interfaces (found : list byte + list pcap_if) : list InterfaceInfo * list byte :=
  match found with inl errbuf => ([], errbuf) | inr devices => (map interface_info devices, []) end.

Definition kPseudoPrefixes : list (list byte) :=
  map lit ["any"; "nf"; "usbmon"; "bluetooth"; "dbus"; "nflog"; "nfqueue"; "pktap"; "awdl"; "llw"; "utun";
           "gif"; "stf"; "ap"; "vmnet"; "bridge"]%string.
(** [name.compare(0, n, prefix) == 0] for some prefix. *)
Definition is_pseudo (name : list byte) : bool := existsb (fun p => is_prefix p name) kPseudoPrefixes.

(** [inl] is the name returned from inside the loop, [inr] the fallback. *)
Fixpoint pick_loop (ifaces : list InterfaceInfo) (fallback : option InterfaceInfo)
    : list byte + option InterfaceInfo :=
  match ifaces with
  | [] => inr fallback
  | i :: ifaces =>
      if i.(is_loopback) || str_empty i.(if_name) || is_pseudo i.(if_name) then pick_loop ifaces fallback
      else if i.(is_up) && negb (str_empty i.(if_address)) then inl i.(if_name)
      else pick_loop ifaces (match fallback with None => Some i | Some _ => fallback end)
  end.

(** The name (empty for none) and the error message. *)
Definition pick_default_interface (found : list byte + list pcap_if) : list byte * list byte :=
  let '(ifaces, err) := list_interfaces found in
  match pick_loop ifaces None with
  | inl name => (name, err)
  | inr (Some i) => (i.(if_name), err)
  | inr None => ([], if str_empty err then lit "no capture interface found" else err)
  end.
End interfaces.

(** [validate_bpf_filter(filter, linktype, err)]: [None] when the filter is
    fine; [open_dead] and [compile] are libpcap's answers. *)
Definition validate_bpf_filter (open_dead : Z -> Z -> bool) (compile : list byte -> Z -> option (list byte))
    (filter : list byte) (linktype : Z) : option (list byte) :=
  if str_empty filter then None
  else if negb (open_dead linktype 65535) then Some (lit "pcap_open_dead failed")
  else compile filter linktype.
