(* ===== verification/CaptureSpec.v ===== *)
(** * What the packet sources promise

    The read loop delivers exactly the frames that arrive before it ends, in
    order and at most the requested number, whatever backend answers ([run_exact]
    over the laws [BackendLaws], which both backends satisfy).  The raw-socket
    backend acquires and releases its resources in order on every path of [open],
    and the default interface is the one the comment describes. *)

From S2P Require Import Prelude.
From S2P Require Import Machine.
From S2P Require Import Protocol.
From S2P Require Import ByteString.
From S2P Require Import Analyzer.
From S2P Require Import AnalyzerSpec.
From S2P Require Import Capture.
#[local] Open Scope Z_scope.

(** ** The contract of a backend *)

(** A frame as the sink sees it: the captured bytes, the length on the wire and
    the time stamp. *)
Record captured := mkView { g_bytes : list byte; g_wirelen : Z; g_ts : timeval }.
Definition view (f : Frame) : captured :=
  mkView (take (Z.to_nat f.(c_caplen)) (default [] f.(c_data))) f.(c_wirelen) f.(c_ts).

(** What an event means to the loop. *)
Inductive turn := TIdle | TFrame (g : captured) | TEnd | TError (err : list byte).

Class BackendLaws (C E : Type) `{Backend C E} := {
  cap_inv : C -> Prop;
  event_ok : E -> Prop;
  turn_of : C -> E -> turn;
  fetch_turn : forall c e, cap_inv c -> event_ok e ->
    match fetch c e, turn_of c e with
    | Again c', TIdle => cap_inv c' /\ turn_of c' = turn_of c
    | Got f c', TFrame g => cap_inv c' /\ turn_of c' = turn_of c /\ frame_ok f /\ f.(c_data) <> None /\ view f = g
    | EndOfInput c', TEnd => True
    | Failed err c', TError err' => err = err' /\ err <> []
    | _, _ => False
    end;
  refresh_turn : forall c, cap_inv c -> cap_inv (refresh_counters c) /\ turn_of (refresh_counters c) = turn_of c;
  close_shuts : forall c, is_open (capture_close c) = false;
}.

(** The turns before the loop has to end, and what ends it. *)
Fixpoint arrivals (turns : list (option turn)) : list captured :=
  match turns with
  | Some TIdle :: turns => arrivals turns
  | Some (TFrame g) :: turns => g :: arrivals turns
  | _ => []
  end.
Fixpoint ending (turns : list (option turn)) : option (option (list byte)) :=
  match turns with
  | [] => None
  | Some TIdle :: turns | Some (TFrame _) :: turns => ending turns
  | Some (TError err) :: _ => Some (Some err)
  | Some TEnd :: _ | None :: _ => Some None
  end.

(** Feeding a list of frames to the sink. *)
Fixpoint feed {St} (sink : St -> Frame -> mem St) (s : St) (fs : list Frame) : mem St :=
  match fs with [] => mret s | f :: fs => s ← sink s f; feed sink s fs end.

Section loop.
Context {C E St : Type} `{L : BackendLaws C E}.
Variable sink : St -> Frame -> mem St.
Variable max_packets : Z.
Implicit Types (c : C) (events : list (option E)) (s : St).

Definition turns c events : list (option turn) := map (option_map (turn_of c)) events.

(** What is left of the limit after [n] frames. *)
Definition within (n : Z) (gs : list captured) : list captured :=
  if max_packets =? 0 then gs else take (Z.to_nat (max_packets - n)) gs.
Definition cut (n : Z) (gs : list captured) : bool := negb (max_packets =? 0) && (max_packets <=? n + zlen gs).

Lemma after_sink_turn n c :
  cap_inv c -> cap_inv (after_sink n c) /\ turn_of (after_sink n c) = turn_of c.
Proof. intros. unfold after_sink. case_test; [by apply refresh_turn|done]. Qed.

(** The frames of a call, without a sink. *)
Fixpoint collect c n events : list Frame * progress * C :=
  match events with
  | [] => ([], Running n, c)
  | None :: _ => ([], Returned None, refresh_counters c)
  | Some e :: events =>
      match fetch c e with
      | Again c => collect c n events
      | EndOfInput c => ([], Returned None, refresh_counters c)
      | Failed err c => ([], Returned (Some err), c)
      | Got f c =>
          let n := incr n in
          let c := after_sink n c in
          if limit_reached max_packets n then ([f], Returned None, refresh_counters c)
          else let '(fs, p, c) := collect c n events in (f :: fs, p, c)
      end
  end.

Lemma loop_collect c n s events :
  capture_loop sink max_packets c n s events =
  let '(fs, p, c') := collect c n events in s' ← feed sink s fs; mret (p, c', s').
Proof.
  revert c n s. induction events as [|[e|] events IH]; intros c n s; [done| |done].
  cbn [capture_loop collect]. destruct (fetch c e) as [c1|f c1|c1|err c1]; [apply IH| |done..].
  destruct (limit_reached max_packets (incr n)) eqn:El.
  - cbn [feed]. destruct (sink s f); [done|done].
  - destruct (collect (after_sink (incr n) c1) (incr n) events) as [[fs p] c'] eqn:Ec. cbn [feed].
    destruct (sink s f) as [s1|]; [|done]. cbn. by rewrite IH, Ec.
Qed.

Lemma within_nil n : within n [] = [].
Proof. unfold within. case_test; [done|by rewrite take_nil]. Qed.

Lemma within_cons n g gs :
  max_packets = 0 \/ n < max_packets -> within n (g :: gs) = g :: within (n + 1) gs.
Proof.
  intros Hmax. unfold within. destruct (Z.eqb_spec max_packets 0); [done|].
  by replace (Z.to_nat (max_packets - n)) with (S (Z.to_nat (max_packets - (n + 1)))) by lia.
Qed.

Lemma cut_nil n : max_packets = 0 \/ n < max_packets -> cut n [] = false.
Proof.
  unfold cut. intros [->|Hmax]; [done|].
  replace (n + zlen []) with n by (unfold zlen; simpl; lia).
  by rewrite (proj2 (Z.leb_gt _ _) Hmax), andb_false_r.
Qed.

Lemma cut_cons n g gs : cut n (g :: gs) = cut (n + 1) gs.
Proof. unfold cut. rewrite zlen_cons. by replace (n + (1 + zlen gs)) with (n + 1 + zlen gs) by lia. Qed.

(** What a call of [run] amounts to. *)
Definition outcome (n : Z) (ts : list (option turn)) : progress :=
  if cut n (arrivals ts) then Returned None
  else match ending ts with None => Running (n + zlen (arrivals ts)) | Some r => Returned r end.

(** A failed call says why. *)
Definition explained (p : progress) : Prop :=
  match p with Returned (Some err) => err <> [] | _ => True end.

Lemma limit_within n gs :
  0 <= n -> limit_reached max_packets (n + 1) = true ->
  within (n + 1) gs = [] /\ cut (n + 1) gs = true.
Proof.
  intros Hn El. unfold limit_reached in El. breflect. unfold within, cut.
  rewrite (proj2 (Z.eqb_neq _ _)) by done. pose proof (zlen_nonneg gs).
  rewrite (proj2 (Z.leb_le _ _)) by lia. split; [|done].
  by replace (Z.to_nat (max_packets - (n + 1))) with 0%nat by lia.
Qed.

Lemma collect_exact c n events :
  cap_inv c -> Forall (from_option event_ok True) events ->
  0 <= n -> n + zlen events < 2 ^ 64 -> (max_packets = 0 \/ n < max_packets) ->
  let '(fs, p, _) := collect c n events in
  Forall (fun f => frame_ok f /\ f.(c_data) <> None) fs /\
  map view fs = within n (arrivals (turns c events)) /\ p = outcome n (turns c events) /\ explained p.
Proof.
  revert c n. induction events as [|e events IH]; intros c n Hc Hev Hn Hlen Hmax; unfold outcome.
  { cbn. rewrite cut_nil, zlen_nil, Z.add_0_r, within_nil by done. split_and!; [constructor|done..]. }
  rewrite zlen_cons in Hlen. pose proof (zlen_nonneg events).
  inversion Hev as [|? ? He Hevs]; subst. destruct e as [e|]; simpl in He.
  2: { cbn. rewrite cut_nil, within_nil by done. split_and!; [constructor|done..]. }
  pose proof (fetch_turn c e Hc He) as Hf. cbn [turns map option_map collect].
  destruct (fetch c e) as [c1|f c1|c1|err c1], (turn_of c e) as [|g| |err']; try done.
  - destruct Hf as [Hc1 Ht]. specialize (IH c1 n Hc1 Hevs ltac:(done) ltac:(lia) Hmax).
    unfold turns in IH. rewrite Ht in IH. exact IH.
  - destruct Hf as (Hc1 & Ht & Hfr & Hd & Hg). cbn [arrivals ending].
    destruct (after_sink_turn (incr n) c1 Hc1) as [Hc2 Ht2].
    assert (Hi : incr n = n + 1) by (apply u64_id; unfold in_u64; lia).
    rewrite within_cons, cut_cons, Hi in * by done.
    destruct (limit_reached max_packets (n + 1)) eqn:El.
    + destruct (limit_within n (arrivals (map (option_map (turn_of c)) events)) Hn El) as [-> ->].
      rewrite <-Hg. split_and!; [constructor; [done|constructor]|done..].
    + assert (Hmax' : max_packets = 0 \/ n + 1 < max_packets).
      { unfold limit_reached in El. destruct (Z.eqb_spec max_packets 0); [by left|right]. simpl in El. by apply Z.leb_gt. }
      specialize (IH (after_sink (n + 1) c1) (n + 1) Hc2 Hevs ltac:(lia) ltac:(lia) Hmax').
      destruct (collect (after_sink (n + 1) c1) (n + 1) events) as [[fs p] c'].
      unfold turns, outcome in IH. rewrite Ht2, Ht in IH. destruct IH as (H1 & H2 & H3 & H4).
      cbn [map]. rewrite H2, Hg, zlen_cons.
      replace (n + (1 + zlen (arrivals (map (option_map (turn_of c)) events)))) with
        (n + 1 + zlen (arrivals (map (option_map (turn_of c)) events))) by lia.
      split_and!; [by constructor|done| |done]. by rewrite H3.
  - cbn. rewrite cut_nil, within_nil by done. split_and!; [constructor|done..].
  - destruct Hf as [-> Herr]. cbn. rewrite cut_nil, within_nil by done. split_and!; [constructor|done..].
Qed.
End loop.

(** ** The raw socket satisfies the contract *)

Lemma view_mk data caplen wirelen t : view (mkCaptured (Some data) caplen wirelen t) = mkView (take (Z.to_nat caplen) data) wirelen t.
Proof. done. Qed.

Section raw.
Import RawSocketCapture.
Variable strerror : Z -> list byte.
Variable kstats : Z -> option (Z * Z).
Variable os : raw_os.

Definition raw_turn (buflen snap : Z) (e : raw_event) : turn :=
  match e with
  | PollTimeout => TIdle
  | PollFailed errno => if errno =? EINTR then TIdle else TError (lit "poll failed: " ++ strerror errno)
  | RecvFailed errno =>
      if (errno =? EINTR) || (errno =? EAGAIN) then TIdle else TError (lit "recvfrom failed: " ++ strerror errno)
  | Received data stamp now =>
      let n := Z.min (zlen data) buflen in
      TFrame (mkView (take (Z.to_nat (Z.min n snap)) data) n (default now stamp))
  end.

(** The buffer holds a frame of [snaplen_] bytes. *)
Record raw_inv (c : t) : Prop := {
  ri_snap : 0 <= c.(snaplen_);
  ri_buffer : zlen c.(buffer_) < 2 ^ 32;
}.

Lemma raw_fetch_turn c e :
  raw_inv c ->
  match fetch strerror c e, raw_turn (zlen c.(buffer_)) c.(snaplen_) e with
  | Again c', TIdle => c' = c
  | Got f c', TFrame g =>
      raw_inv c' /\ zlen c'.(buffer_) = zlen c.(buffer_) /\ c'.(snaplen_) = c.(snaplen_) /\
      frame_ok f /\ f.(c_data) <> None /\ view f = g
  | Failed err c', TError err' => err = err' /\ err <> []
  | _, _ => False
  end.
Proof.
  intros [Hs Hb]. destruct e as [errno| |errno|data stamp now]; cbn [fetch raw_turn].
  - by case_test.
  - done.
  - by case_test.
  - set (n := Z.min (zlen data) (zlen (buffer_ c))). cbn [buffer_ snaplen_ set_field].
    pose proof (zlen_nonneg data). pose proof (zlen_nonneg (buffer_ c)).
    rewrite (u32_id n) by (unfold in_u32; lia).
    set (b' := firstn (Z.to_nat n) data ++ skipn (Z.to_nat n) (buffer_ c)).
    assert (Hb' : zlen b' = zlen (buffer_ c)) by (unfold b'; rewrite zlen_app, zlen_take, zlen_drop; lia).
    assert (Hcap : (if n <? snaplen_ c then n else snaplen_ c) = Z.min n (snaplen_ c)) by (case_test; breflect; lia).
    rewrite Hcap. split_and!; [constructor; simpl; lia|done|done| |done|].
    + split; simpl; unfold in_u32; lia.
    + rewrite view_mk. f_equal. unfold b'.
      rewrite take_app_le by (unfold zlen in *; rewrite length_take; lia). by rewrite take_take, Nat.min_l by lia.
Qed.

#[export, refine] Instance raw_laws : BackendLaws (H := raw_backend strerror kstats os) t raw_event := {|
  cap_inv := raw_inv;
  event_ok := fun _ => True;
  turn_of := fun c => raw_turn (zlen c.(buffer_)) c.(snaplen_);
  fetch_turn := _; refresh_turn := _; close_shuts := _;
|}.
Proof.
  - intros c e Hc _. pose proof (raw_fetch_turn c e Hc) as Hf. cbn [Capture.fetch raw_backend].
    destruct (fetch strerror c e), (raw_turn _ _ e); try done.
    + by subst.
    + destruct Hf as (? & -> & -> & ? & ? & ?). by split_and!.
  - intros c [Hs Hb]. cbn [Capture.refresh_counters raw_backend]. unfold refresh_counters.
    destruct (fd_ c <? 0); [by split|]. destruct (kstats (stat_reads c)) as [[? ?]|]; by split; [constructor|].
  - intros c. cbn [is_open capture_close raw_backend]. unfold close. by destruct (0 <=? fd_ c) eqn:E.
Defined.
End raw.

(** ** libpcap satisfies it

    What [pcap_next_ex] documents: [caplen] bytes are readable. *)

Section pcap.
Import PcapCapture.
Variable pstats : Z -> option (Z * Z * Z).
Variable lib : pcap_lib.

Definition pcap_turn (e : pcap_event) : turn :=
  match e with
  | NextPacket caplen len ts data => TFrame (mkView (take (Z.to_nat caplen) data) len ts)
  | NextOther rc msg =>
      if rc =? 0 then TIdle else if rc =? PCAP_ERROR_BREAK then TEnd else TError (lit "read error: " ++ msg)
  end.

Definition pcap_event_ok (e : pcap_event) : Prop :=
  match e with
  | NextPacket caplen len ts data => in_u32 caplen /\ caplen <= zlen data
  | NextOther _ _ => True
  end.

#[export, refine] Instance pcap_laws : BackendLaws (H := pcap_backend pstats lib) t pcap_event := {|
  cap_inv := fun _ => True;
  event_ok := pcap_event_ok;
  turn_of := fun _ => pcap_turn;
  fetch_turn := _; refresh_turn := _; close_shuts := _;
|}.
Proof.
  - intros c [caplen len ts data|rc msg] _ Hev; cbn.
    + split_and!; [done..| |done|done]. done.
    + by repeat case_test.
  - done.
  - intros c. cbn. unfold close. by destruct (handle_ c) eqn:E.
Defined.
End pcap.

(** C10: [run] delivers what arrives. For either backend, whatever the operating
    system answers: the sink gets the frames that arrive before the loop ends, in
    order, each with its captured bytes, wire length and time stamp and each
    readable to its captured length; with a limit it gets exactly the first
    [max_packets]; and the call returns true when the limit is reached, the input
    ends or [running] was cleared, false only for an error, with a message. *)
Theorem run_exact {C E St} `{L : BackendLaws C E} (sink : St -> Frame -> mem St) max_packets c s events :
  is_open c = true -> cap_inv c -> Forall (from_option event_ok True) events ->
  zlen events < 2 ^ 64 -> 0 <= max_packets ->
  exists fs,
    Forall (fun f => frame_ok f /\ f.(c_data) <> None) fs /\
    map view fs = (let gs := arrivals (turns c events) in
                   if max_packets =? 0 then gs else take (Z.to_nat max_packets) gs) /\
    explained (outcome max_packets 0 (turns c events)) /\
    forall s', feed sink s fs = Val s' ->
      exists c', run sink max_packets c s events = Val (outcome max_packets 0 (turns c events), c', s').
Proof.
  intros Ho Hc Hev Hlen Hmax.
  pose proof (collect_exact max_packets c 0 events Hc Hev ltac:(done) ltac:(lia) ltac:(lia)) as Hx.
  pose proof (loop_collect sink max_packets c 0 s events) as Hl.
  destruct (collect max_packets c 0 events) as [[fs p] c']. destruct Hx as (Hfs & Hv & -> & Hp).
  exists fs. split_and!; [done| |done|].
  - rewrite Hv. unfold within. by rewrite Z.sub_0_r.
  - intros s' Hs. exists c'. unfold run. by rewrite Ho, Hl, Hs.
Qed.

Definition append_sink (l : list Frame) (f : Frame) : mem (list Frame) := Val (l ++ [f]).

(** A machine on which everything succeeds. *)
Definition quiet_os : raw_os :=
  mkRawOs (3, 0) (fun _ => 2) (fun _ => inr 1) (fun _ _ => true) (fun _ _ => None) None (fun _ => None) None.

Lemma run_exact_witness :
  let c := RawSocketCapture.mk 3 2 1 200 64 false (replicate 128 Byte.x00) 0 0 0 counters_zero 0 [] in
  exists fs c', map view fs = [mkView (lit "abc") 3 timeval_zero] /\
    run (H := RawSocketCapture.raw_backend (fun _ => []) (fun _ => None) quiet_os) append_sink 1 c []
      [Some PollTimeout; Some (Received (lit "abc") None timeval_zero); None] = Val (Returned None, c', fs).
Proof.
  intros c.
  destruct (run_exact (L := raw_laws (fun _ => []) (fun _ => None) quiet_os) append_sink 1 c []
    [Some PollTimeout; Some (Received (lit "abc") None timeval_zero); None]) as (fs & _ & Hv & _ & Hrun);
    [reflexivity|by constructor|by repeat constructor|done|done|].
  pose proof (f_equal length Hv) as Hl. rewrite length_map in Hl.
  destruct fs as [|f [|g fs]]; [discriminate Hl| |discriminate Hl].
  destruct (Hrun [f] eq_refl) as [c' E]. exists [f], c'. split; [|exact E]. rewrite Hv. reflexivity.
Defined.

(** ** Resources of the raw socket *)

Section resources.
Import RawSocketCapture.
Variable strerror : Z -> list byte.
Variable kstats : Z -> option (Z * Z).

Lemma refresh_frame c :
  let c' := refresh_counters kstats c in
  c'.(fd_) = c.(fd_) /\ c'.(calls_) = c.(calls_) /\ c'.(promisc_on_) = c.(promisc_on_) /\ c'.(ifindex_) = c.(ifindex_).
Proof. unfold refresh_counters. case_test; [done|]. by destruct (kstats _) as [[??]|]. Qed.

Lemma close_calls c :
  0 <= c.(fd_) ->
  (close kstats c).(fd_) = -1 /\
  (close kstats c).(calls_) =
    c.(calls_) ++ (if c.(promisc_on_) then [SysDropPromisc c.(fd_) c.(ifindex_)] else []) ++ [SysClose c.(fd_)].
Proof.
  intros Hfd. unfold close. rewrite (proj2 (Z.leb_le _ _)) by done.
  destruct (refresh_frame c) as (H1 & H2 & H3 & H4). rewrite H3.
  destruct (promisc_on_ c); (split; [done|]); cbn; by rewrite H2, H1, ?H4, <-?app_assoc.
Qed.

Variable os : raw_os.

Definition setup_call (s : syscall) : Prop :=
  match s with SysAttach _ _ _ _ | SysBind _ _ => True | _ => False end.

(** A call that fails after [open] got its descriptor closes it. *)
Definition gave_up (fd : Z) (calls : list syscall) : Prop :=
  exists setup : list syscall, calls = SysSocket fd :: setup ++ [SysClose fd] /\ Forall setup_call setup.

(** Where [open] is before the membership: the descriptor, what was found out
    about the interface and the calls made. *)
Record preparing (fd idx lt : Z) (setup : list syscall) (c : t) : Prop := {
  pr_frame : (c.(fd_), c.(ifindex_), c.(linktype_)) = (fd, idx, lt);
  pr_fresh : (c.(promisc_on_), c.(snaplen_), c.(buffer_)) = (false, 65536, []);
  pr_calls : c.(calls_) = SysSocket fd :: setup;
  pr_setup : Forall setup_call setup;
}.

Lemma close_gave_up fd idx lt setup c :
  0 <= fd -> preparing fd idx lt setup c -> (close kstats c).(fd_) < 0 /\ gave_up fd (close kstats c).(calls_).
Proof.
  intros Hfd [Hc Hp Hs Hset]. simplify_eq. destruct (close_calls c Hfd) as [-> ->].
  split; [lia|]. exists setup. by rewrite H, Hs.
Qed.

(** A step of [open] fails with a message and changes nothing, or leaves its trace. *)
Definition step_spec (r : opened t) (c c' : t) : Prop :=
  (exists err, err <> [] /\ r = (Some err, c)) \/ r = (None, c').

Ltac step_failed := left; eexists; split; [|reflexivity]; done.

Lemma detect_spec iface c :
  exists lt, step_spec (detect_linktype strerror os iface c) c (c <| linktype_ := lt |>).
Proof. unfold detect_linktype. destruct (os_hwaddr _ _) as [e|family]; [exists 0; step_failed|eexists; by right]. Qed.

Lemma attach_spec filter c :
  c.(snaplen_) = 65536 ->
  step_spec (attach_filter strerror os filter c) c (call (SysAttach c.(fd_) filter c.(linktype_) 65536) c).
Proof.
  intros Hs. unfold attach_filter. rewrite Hs.
  destruct (negb (os_open_dead _ _ _)); [step_failed|].
  destruct (os_compile _ _ _); [step_failed|]. destruct (os_attach _); [step_failed|by right].
Qed.

Lemma bind_spec c : step_spec (bind_socket strerror os c) c (call (SysBind c.(fd_) c.(ifindex_)) c).
Proof. unfold bind_socket. destruct (os_bind _ _); [step_failed|by right]. Qed.

Lemma promisc_spec c :
  step_spec (enable_promisc strerror os c) c (call (SysAddPromisc c.(fd_) c.(ifindex_)) c <| promisc_on_ := true |>).
Proof. unfold enable_promisc. destruct (os_promisc _); [step_failed|by right]. Qed.

Lemma skip_spec c : step_spec (None, c) c c. Proof. by right. Qed.

(** One step of [open]: it fails and everything is closed, or the next one runs. *)
Lemma or_close_step fd idx lt setup r c c' k (Q : opened t -> Prop) :
  0 <= fd -> preparing fd idx lt setup c -> step_spec r c c' ->
  (forall err c', err <> [] -> c'.(fd_) < 0 -> gave_up fd c'.(calls_) -> Q (Some err, c')) ->
  Q (k c') -> Q (or_close kstats r k).
Proof.
  intros Hfd Hp [(err & Herr & ->)| ->] Hbad Hgood; [|done].
  destruct (close_gave_up fd idx lt setup c Hfd Hp). by apply Hbad.
Qed.

Lemma refresh_inv c : raw_inv c -> raw_inv (refresh_counters kstats c).
Proof. intros [? ?]. unfold refresh_counters. case_test; [done|]. by destruct (kstats _) as [[??]|]. Qed.

Definition fd : Z := os.(os_socket).1.

(** The calls of a successful [open], in order. *)
Definition setup_calls (cfg : CaptureConfig) (ifindex linktype : Z) : list syscall :=
  SysSocket fd ::
  (if str_empty cfg.(filter) then [] else [SysAttach fd cfg.(filter) linktype 65536]) ++
  [SysBind fd ifindex] ++
  (if cfg.(promiscuous) then [SysAddPromisc fd ifindex] else []) ++ [SysRcvbuf fd rcvbuf_size].

Definition open_post (cfg : CaptureConfig) (o : opened t) : Prop :=
  match o.1 with
  | Some err => err <> [] /\ o.2.(fd_) < 0 /\ (o.2.(calls_) = [] \/ gave_up fd o.2.(calls_))
  | None =>
      0 <= fd /\ o.2.(fd_) = fd /\ o.2.(promisc_on_) = cfg.(promiscuous) /\
      o.2.(calls_) = setup_calls cfg o.2.(ifindex_) o.2.(linktype_) /\
      o.2.(snaplen_) = (if 0 <? cfg.(snaplen) then u32 cfg.(snaplen) else 65536) /\
      zlen o.2.(buffer_) = Z.max 65536 o.2.(snaplen_)
  end.

Lemma open_cases cfg : open_post cfg (open strerror kstats os cfg init).
Proof.
  unfold open. destruct (negb (str_empty (pcap_file cfg))); [by split_and!; [| |left]|].
  destruct (str_empty (interface cfg)); [by split_and!; [| |left]|].
  remember (open_post cfg) as Q eqn:HQ. unfold open_post, setup_calls, fd in HQ.
  destruct (os_socket os) as [fd errno]. cbn [fst] in HQ.
  destruct (Z.ltb_spec fd 0) as [|Hfd]; [subst Q; split_and!; [done|done|by left]|].
  assert (Hbad : forall err c', err <> [] -> c'.(fd_) < 0 -> gave_up fd c'.(calls_) -> Q (Some err, c'))
    by (subst Q; intros; split_and!; [done|done|by right]).
  set (idx := os_nametoindex os (interface cfg)).
  set (c0 := call (SysSocket fd) (init <| fd_ := fd |>) <| ifindex_ := idx |>).
  assert (Hp0 : preparing fd idx kDltEthernet [] c0) by by constructor.
  cbn zeta. destruct (ifindex_ c0 =? 0).
  { destruct (close_gave_up fd _ _ [] c0 Hfd Hp0). by apply Hbad. }
  destruct (detect_spec (interface cfg) c0) as [lt Hs].
  apply (or_close_step _ _ _ _ _ _ _ _ _ Hfd Hp0 Hs Hbad). clear Hs Hp0.
  set (c1 := c0 <| linktype_ := lt |>). assert (Hp1 : preparing fd idx lt [] c1) by by constructor.
  set (added := if str_empty (filter cfg) then [] else [SysAttach fd (filter cfg) lt 65536]).
  set (c2 := c1 <| calls_ := SysSocket fd :: added |>).
  assert (Hs : step_spec (if negb (str_empty (filter cfg)) then attach_filter strerror os (filter cfg) c1 else (None, c1)) c1 c2).
  { subst added c2. destruct (str_empty (filter cfg)); [apply skip_spec|by apply attach_spec]. }
  apply (or_close_step _ _ _ _ _ _ _ _ _ Hfd Hp1 Hs Hbad). clear Hs Hp1.
  assert (Hp2 : preparing fd idx lt added c2).
  { constructor; [done..|]. subst added. destruct (str_empty _); repeat constructor. }
  apply (or_close_step _ _ _ _ _ _ _ _ _ Hfd Hp2 (bind_spec c2) Hbad).
  set (c3 := call _ c2). assert (Hp3 : preparing fd idx lt (added ++ [SysBind fd idx]) c3).
  { constructor; [done..|]. apply Forall_app. split; [by destruct Hp2|by repeat constructor]. }
  clear Hp2. set (c4 := if promiscuous cfg then call (SysAddPromisc fd idx) c3 <| promisc_on_ := true |> else c3).
  assert (Hs : step_spec (if promiscuous cfg then enable_promisc strerror os c3 else (None, c3)) c3 c4).
  { subst c4. destruct (promiscuous cfg); [apply promisc_spec|apply skip_spec]. }
  apply (or_close_step _ _ _ _ _ _ _ _ _ Hfd Hp3 Hs Hbad). clear Hs Hp3 Hbad.
  subst Q c4 c3 c2. cbn [fst snd].
  assert (Hr : forall n : Z, 0 <= n -> zlen (resize (Z.to_nat n) Byte.x00 []) = n)
    by (intros; unfold zlen; rewrite length_resize; lia).
  pose proof (u32_in (snaplen cfg)) as Hu. unfold in_u32 in Hu.
  destruct (promiscuous cfg); (split_and!; [done|done|done| |done|]); cbn;
    rewrite <-?app_assoc; try done; destruct (0 <? snaplen cfg); cbn;
    repeat case_test; breflect; rewrite Hr by lia; lia.
Qed.
End resources.

(** A backend as the factory functions make it, and what a successful [open]
    leaves to the read loop. *)
Class BackendStart (C E : Type) `{BackendLaws C E} := {
  cap_init : C;
  open_ready : forall cfg c, capture_open cfg cap_init = (None, c) -> cap_inv c /\ is_open c = true;
}.

Lemma open_raw_inv strerror kstats os cfg c :
  RawSocketCapture.open strerror kstats os cfg RawSocketCapture.init = (None, c) ->
  raw_inv c /\ 0 <= c.(RawSocketCapture.fd_).
Proof.
  intros E. pose proof (open_cases strerror kstats os cfg) as Ho. unfold open_post in Ho. rewrite E in Ho.
  cbn [fst snd] in Ho. destruct Ho as (Hpos & -> & _ & _ & Hsnap & Hbuf). split; [|done].
  assert (in_u32 (RawSocketCapture.snaplen_ c)).
  { rewrite Hsnap. case_test; [auto with word|done]. }
  unfold in_u32 in *. constructor; lia.
Qed.

#[export, refine] Instance raw_start strerror kstats os :
    BackendStart RawSocketCapture.t raw_event (H0 := raw_laws strerror kstats os) := {|
  cap_init := RawSocketCapture.init; open_ready := _ |}.
Proof.
  intros cfg c Ho. destruct (open_raw_inv _ _ _ _ _ Ho). split; [done|]. cbn. by apply Z.leb_le.
Defined.

#[export, refine] Instance pcap_start pstats lib :
    BackendStart PcapCapture.t pcap_event (H0 := pcap_laws pstats lib) := {|
  cap_init := PcapCapture.init; open_ready := _ |}.
Proof.
  intros cfg c. cbn. intros Ho. split; [done|]. unfold PcapCapture.open in Ho.
  assert (Hs : forall r c', (if negb (str_empty (pcap_file cfg)) then PcapCapture.open_offline lib cfg PcapCapture.init
                             else PcapCapture.activate_live lib cfg PcapCapture.init) = (r, c') ->
                r = None -> PcapCapture.handle_ c' = true).
  { intros r c' E ->. destruct (negb (str_empty (pcap_file cfg))).
    - unfold PcapCapture.open_offline in E. destruct (lib_open_offline _ _); by simplify_eq.
    - unfold PcapCapture.activate_live in E. destruct (lib_create _ _); [done|].
      destruct (lib_activate _ _) as [rc msg]. destruct (rc <? 0); [done|]. simplify_eq. by destruct (0 <? rc). }
  destruct (if negb (str_empty (pcap_file cfg)) then _ else _) as [[e|] c'] eqn:E; [done|].
  specialize (Hs _ _ eq_refl eq_refl). destruct (negb (str_empty (filter cfg))); [|by simplify_eq].
  unfold PcapCapture.install_filter in Ho. destruct (lib_compile _ _); [done|].
  destruct (lib_setfilter _); by simplify_eq.
Defined.

(** A choice between two backends satisfies the contract too. *)
Section either.
Context {C1 E1 C2 E2 : Type} {B1 : Backend C1 E1} {B2 : Backend C2 E2}.
Context (L1 : BackendLaws C1 E1) (L2 : BackendLaws C2 E2).

#[refine] Definition either_laws : BackendLaws (H := either_backend B1 B2) (C1 + C2) (E1 + E2) := {|
  cap_inv := fun c => match c with inl c => cap_inv c | inr c => cap_inv c end;
  event_ok := fun e => match e with inl e => event_ok e | inr e => event_ok e end;
  turn_of := fun c e => match c, e with
                        | inl c, inl e => turn_of c e
                        | inr c, inr e => turn_of c e
                        | _, _ => TIdle
                        end;
  fetch_turn := _; refresh_turn := _; close_shuts := _;
|}.
Proof.
  - intros [c|c] [e|e] Hc He; cbn; try done.
    + pose proof (fetch_turn c e Hc He) as Hf. destruct (fetch c e), (turn_of c e); cbn; try done;
        [destruct Hf as [? ->]|destruct Hf as (? & -> & ? & ? & ?)]; by split_and!.
    + pose proof (fetch_turn c e Hc He) as Hf. destruct (fetch c e), (turn_of c e); cbn; try done;
        [destruct Hf as [? ->]|destruct Hf as (? & -> & ? & ? & ?)]; by split_and!.
  - intros [c|c] Hc; cbn; destruct (refresh_turn c Hc) as [? Ht]; (split; [done|]); by rewrite ?Ht.
  - intros [c|c]; cbn; apply close_shuts.
Defined.
End either.

(** C15: The raw socket acquires and releases in order. Whatever the kernel
    answers to [open] on a new backend: on failure there is a message, nothing
    stays open and the interface was never left in promiscuous mode; on success
    the calls are, in this order, the socket, the filter if there is one, the
    bind, the membership in promiscuous mode and the buffer size, the buffer holds
    a frame of the snapshot length, and [close] drops the membership exactly when
    it was taken and closes the descriptor. *)
Theorem raw_open_close strerror kstats os cfg :
  let '(r, c) := RawSocketCapture.open strerror kstats os cfg RawSocketCapture.init in
  let fd := os.(os_socket).1 in
  let closed := RawSocketCapture.close kstats c in
  match r with
  | Some err =>
      err <> [] /\ closed = c /\
      (c.(RawSocketCapture.calls_) = [] \/ gave_up fd c.(RawSocketCapture.calls_))
  | None =>
      c.(RawSocketCapture.calls_) = setup_calls os cfg c.(RawSocketCapture.ifindex_) c.(RawSocketCapture.linktype_) /\
      zlen c.(RawSocketCapture.buffer_) = Z.max 65536 c.(RawSocketCapture.snaplen_) /\
      raw_inv c /\
      closed.(RawSocketCapture.fd_) = -1 /\
      closed.(RawSocketCapture.calls_) =
        c.(RawSocketCapture.calls_) ++
        (if cfg.(promiscuous) then [SysDropPromisc fd c.(RawSocketCapture.ifindex_)] else []) ++ [SysClose fd]
  end.
Proof.
  pose proof (open_cases strerror kstats os cfg) as Ho.
  destruct (RawSocketCapture.open _ _ _ _ _) as [[err|] c] eqn:Er; unfold open_post in Ho; cbn [fst snd] in Ho.
  - destruct Ho as (? & Hfd & ?). split_and!; [done| |done]. unfold RawSocketCapture.close.
    by rewrite (proj2 (Z.leb_gt _ _)).
  - destruct (open_raw_inv _ _ _ _ _ Er) as [Hinv _].
    destruct Ho as (Hpos & Hfd & Hpr & Hcalls & Hsnap & Hbuf). unfold fd in *.
    destruct (close_calls kstats c) as [Hc1 Hc2]; [lia|]. by rewrite Hpr, Hfd in Hc2.
Qed.

(** The totals of the kernel's read-and-reset counters. *)
Definition drops_until (kstats : Z -> option (Z * Z)) (n : Z) : Z :=
  zsum (fun i => match kstats i with Some (_, d) => d | None => 0 end) (seqZ 0 n).

Definition drops_counted (kstats : Z -> option (Z * Z)) (c : RawSocketCapture.t) : Prop :=
  0 <= c.(RawSocketCapture.fd_) /\ 0 <= c.(RawSocketCapture.stat_reads) /\
  c.(RawSocketCapture.kernel_dropped_) = u64 (drops_until kstats c.(RawSocketCapture.stat_reads)).

(** Every refresh reports all drops the kernel has admitted to so far. *)
Lemma refresh_drops kstats c :
  drops_counted kstats c ->
  let c' := RawSocketCapture.refresh_counters kstats c in
  drops_counted kstats c' /\ c'.(RawSocketCapture.stat_reads) = 1 + c.(RawSocketCapture.stat_reads) /\
  c'.(RawSocketCapture.counters_).(dropped) = u64 (drops_until kstats c'.(RawSocketCapture.stat_reads)).
Proof.
  intros (Hfd & Hr & Hd). unfold RawSocketCapture.refresh_counters. rewrite (proj2 (Z.ltb_ge _ _)) by done.
  set (n := RawSocketCapture.stat_reads c) in *.
  assert (Hsum : drops_until kstats (1 + n) = drops_until kstats n + match kstats n with Some (_, d) => d | None => 0 end).
  { unfold drops_until. rewrite Z.add_comm, seqZ_app by lia. apply zsum_snoc. }
  assert (Hu : forall a b, u64 (u64 a + b) = u64 (a + b)) by (intros; unfold u64; apply Zplus_mod_idemp_l).
  unfold drops_counted. destruct (kstats n) as [[pk dr]|];
    cbn [set_field RawSocketCapture.fd_ RawSocketCapture.stat_reads RawSocketCapture.kernel_dropped_
         RawSocketCapture.counters_ dropped]; fold n; rewrite Hsum, ?Hd, ?Hu, ?Z.add_0_r;
    split_and!; done || lia.
Qed.

(** ** The default interface *)

(** An interface worth capturing from, and one that can carry traffic now. *)
Definition eligible (i : InterfaceInfo) : bool :=
  negb (i.(is_loopback) || str_empty i.(if_name) || is_pseudo i.(if_name)).
Definition ready (i : InterfaceInfo) : bool := i.(is_up) && negb (str_empty i.(if_address)).

Lemma pick_loop_spec l fallback :
  pick_loop l fallback =
  match List.filter ready (List.filter eligible l) with
  | i :: _ => inl i.(if_name)
  | [] => inr (match fallback with Some i => Some i | None => hd_error (List.filter eligible l) end)
  end.
Proof.
  revert fallback. induction l as [|i l IH]; intros fallback; [by destruct fallback|].
  cbn [pick_loop List.filter]. fold (ready i).
  destruct (eligible i) eqn:E; unfold eligible in E; [apply negb_true_iff in E|apply negb_false_iff in E];
    rewrite E; [|apply IH].
  cbn [List.filter]. destruct (ready i); [done|]. rewrite IH. by destruct fallback.
Qed.

(** [pick_default_interface] is the choice its comment describes. Among the
    interfaces libpcap lists, without loopback, unnamed and pseudo devices, it
    returns the first that is up and has an IPv4 address, otherwise the first,
    and otherwise no name but an error message. *)
Lemma pick_default_interface_spec ntop found :
  let ifaces := (list_interfaces ntop found).1 in
  let candidates := List.filter eligible ifaces in
  let '(name, err) := pick_default_interface ntop found in
  match List.filter ready candidates, candidates with
  | i :: _, _ | [], i :: _ => name = i.(if_name) /\ eligible i = true /\ name <> []
  | [], [] => name = [] /\ err <> []
  end.
Proof.
  intros ifaces candidates. unfold pick_default_interface. fold ifaces.
  rewrite (surjective_pairing (list_interfaces ntop found)). fold ifaces. cbn iota.
  rewrite pick_loop_spec. fold candidates.
  assert (Hc : forall i, In i candidates -> eligible i = true /\ if_name i <> []).
  { intros i [_ Hi]%filter_In. split; [done|]. unfold eligible in Hi. intros E.
    by rewrite E, orb_true_r in Hi. }
  destruct (List.filter ready candidates) as [|i l] eqn:Er.
  - destruct candidates as [|i l]; cbn [hd_error].
    + split; [done|]. by destruct (list_interfaces ntop found).2.
    + destruct (Hc i); [by left|]. done.
  - destruct (Hc i); [|done]. apply (filter_In ready). rewrite Er. by left.
Qed.
