(* ===== verification/Dashboard.v ===== *)
(** * The terminal dashboard (include/dashboard.hpp, src/dashboard.cpp)

    The terminal is the settings [tcgetattr] reads and the bytes written so far;
    [render] is the frame it draws, built from the lines the code pushes (a line
    is ended by "clear to end of line" and CR LF).  What the C library leaves open
    is a parameter: the sort, the iteration order of the hash maps, and
    [ip_str], the text form of addresses. *)

From S2P Require Import Prelude.
From S2P Require Import Machine.
From S2P Require Import Containers.
From S2P Require Import Protocol.
From S2P Require Import Parser.
From S2P Require Import ByteString.
From S2P Require Import Float.
From S2P Require Import Format.
From S2P Require Import Dissect.
From S2P Require Import Flow.
From S2P Require Import FlowTable.
From S2P Require Import Stats.
From S2P Require Import Analyzer.
#[local] Open Scope Z_scope.

(** ** ANSI sequences *)

Definition esc (s : string) : list byte := Byte.x1b :: lit s.
Definition kReset : list byte := esc "[0m".
Definition kBold : list byte := esc "[1m".
Definition kDim : list byte := esc "[2m".
Definition kReverse : list byte := esc "[7m".
Definition kRed : list byte := esc "[31m".
Definition kGreen : list byte := esc "[32m".
Definition kYellow : list byte := esc "[33m".
Definition kBlue : list byte := esc "[34m".
Definition kMagenta : list byte := esc "[35m".
Definition kCyan : list byte := esc "[36m".
Definition kGrey : list byte := esc "[90m".
Definition kAltScreenOn : list byte := esc "[?1049h".
Definition kAltScreenOff : list byte := esc "[?1049l".
Definition kHideCursor : list byte := esc "[?25l".
Definition kShowCursor : list byte := esc "[?25h".
Definition kHome : list byte := esc "[H".
Definition kClearScreen : list byte := esc "[2J".
Definition kClearToEol : list byte := esc "[K".
Definition crlf : list byte := [Byte.x0d; Byte.x0a].

(** UTF-8 of U+2580 + [k], a block element. *)
Definition block (k : Z) : list byte := [Byte.xe2; Byte.x96; byte_of (128 + k)].
(** [kSparkLevels[i]] *)
Definition spark_level (i : Z) : list byte := if i =? 0 then lit " " else block i.
Definition full_block : list byte := block 8.
Definition light_shade : list byte := block 17.

(** ** Fields *)

Definition fit (s : list byte) (width : nat) : list byte :=
  if (width <? length s)%nat then
    if (width <=? 2)%nat then firstn width s else firstn (width - 2) s ++ lit ".."
  else s ++ spaces (width - length s).

Definition right_ (s : list byte) (width : nat) : list byte :=
  if (width <=? length s)%nat then firstn width s else spaces (width - length s) ++ s.

Definition color_for_protocol (name : string) : list byte :=
  if String.eqb name "TCP" then kCyan
  else if String.eqb name "UDP" then kGreen
  else if String.eqb name "ICMP" then kYellow
  else if String.eqb name "ARP" then kMagenta
  else kGrey.

Definition color_for_state (s : TcpState.t) : list byte :=
  match s with
  | TcpState.Established => kGreen
  | TcpState.SynSent | TcpState.SynReceived => kYellow
  | TcpState.Reset => kRed
  | TcpState.Closed | TcpState.Closing | TcpState.FinWait => kGrey
  | TcpState.None => kReset
  end.

Definition one_half : f64 := f64_dyadic 1 (-1).

Definition bar (fraction : f64) (width : nat) : mem (list byte) :=
  let fraction := if flt fraction f0 then f0 else fraction in
  let fraction := if flt (f64_of 1) fraction then f64_of 1 else fraction in
  filled ← to_u64 (fadd (fmul fraction (f64_of (Z.of_nat width))) one_half);
  mret (concat (map (fun i => if Z.of_nat i <? filled then full_block else light_shade) (seq 0 width))).

(** ** State *)

Record SessionInfo := mkSessionInfo {
  i_source : list byte; i_filter : list byte; i_backend : list byte; i_snaplen : Z; i_offline : bool;
}.

Module DashboardKey.
Inductive t := None | Quit | Pause | CycleSort | Reset.
#[global] Instance t_eq_dec : EqDecision t. Proof. solve_decision. Defined.
End DashboardKey.

Record Dashboard := mkDashboard {
  rows_ : Z; cols_ : Z; active_ : bool; paused_ : bool; sort_ : FlowSort.t; frame_ : list byte;
}.
#[export] Instance Dashboard_eta : Eta Dashboard := fun d =>
  mkDashboard d.(rows_) d.(cols_) d.(active_) d.(paused_) d.(sort_) d.(frame_).
Definition new_dashboard : Dashboard := mkDashboard 24 100 false false FlowSort.Bytes [].

(** The terminal: its settings (the local flags and two control characters)
    and what was written to it; [g_saved_termios] and [g_termios_saved]. *)
Record termios := mkTermios { c_lflag : Z; c_vmin : Z; c_vtime : Z }.
#[export] Instance termios_eta : Eta termios := fun t => mkTermios t.(c_lflag) t.(c_vmin) t.(c_vtime).
Record Tty := mkTty {
  settings : termios; screen : list byte; g_saved_termios : termios; g_termios_saved : bool;
}.
#[export] Instance Tty_eta : Eta Tty := fun t =>
  mkTty t.(settings) t.(screen) t.(g_saved_termios) t.(g_termios_saved).

Definition ICANON : Z := 2.
Definition ECHO : Z := 8.

(** [fputs(s, stdout)] *)
Definition emit (s : list byte) (t : Tty) : Tty := t <| screen ::= fun o => o ++ s |>.

(** ** Operations *)

Definition clamp (x lo hi : Z) : Z := if x <? lo then lo else if hi <? x then hi else x.

(** [ws] is the answer of the TIOCGWINSZ ioctl: columns and rows. *)
Definition query_size (ws : option (Z * Z)) (d : Dashboard) : Dashboard :=
  let d := match ws with
           | Some (col, row) => if 0 <? col then d <| cols_ := col |> <| rows_ := row |> else d
           | None => d
           end in
  d <| cols_ ::= fun c => clamp c 60 220 |> <| rows_ ::= fun r => clamp r 16 80 |>.

(** [begin()]: [tty_out], [tty_in] and [getattr_ok] are the answers of [isatty]
    and [tcgetattr]. *)
Definition begin_ (tty_out tty_in getattr_ok : bool) (ws : option (Z * Z)) (d : Dashboard) (t : Tty)
    : bool * Dashboard * Tty :=
  if negb tty_out || negb tty_in then (false, d, t)
  else
    let t := if getattr_ok then
               let t := t <| g_saved_termios := t.(settings) |> <| g_termios_saved := true |> in
               let raw := t.(g_saved_termios) <| c_lflag ::= fun f => Z.land f (Z.lnot (Z.lor ICANON ECHO)) |>
                            <| c_vmin := 0 |> <| c_vtime := 0 |> in
               t <| settings := raw |>
             else t in
    let d := query_size ws d in
    let t := emit kClearScreen (emit kHideCursor (emit kAltScreenOn t)) in
    (true, d <| active_ := true |>, t).

Definition end_ (d : Dashboard) (t : Tty) : Dashboard * Tty :=
  if negb d.(active_) then (d, t)
  else
    let t := emit kReset (emit kAltScreenOff (emit kShowCursor t)) in
    let t := if t.(g_termios_saved) then t <| settings := t.(g_saved_termios) |> <| g_termios_saved := false |>
             else t in
    (d <| active_ := false |>, t).

(** [poll_key()]: [input] is the byte [read] returned, if it returned one. *)
Definition poll_key (d : Dashboard) (input : option byte) : DashboardKey.t :=
  if negb d.(active_) then DashboardKey.None
  else match input with
  | Some c =>
      if existsb (Byte.eqb c) [("q")%byte; ("Q")%byte; Byte.x03] then DashboardKey.Quit
      else if existsb (Byte.eqb c) [("p")%byte; ("P")%byte; (" ")%byte] then DashboardKey.Pause
      else if existsb (Byte.eqb c) [("s")%byte; ("S")%byte] then DashboardKey.CycleSort
      else if existsb (Byte.eqb c) [("r")%byte; ("R")%byte] then DashboardKey.Reset
      else DashboardKey.None
  | None => DashboardKey.None
  end.

Definition toggle_pause (d : Dashboard) : Dashboard := d <| paused_ ::= negb |>.

Definition cycle_sort (d : Dashboard) : Dashboard :=
  d <| sort_ ::= fun s =>
    match s with
    | FlowSort.Bytes => FlowSort.Packets
    | FlowSort.Packets => FlowSort.Retransmits
    | FlowSort.Retransmits => FlowSort.Rtt
    | FlowSort.Rtt => FlowSort.Recent
    | FlowSort.Recent => FlowSort.Bytes
    end |>.

(** ** The frame *)

(** [os << color << text << kReset] *)
Definition colored (color : list byte) (s : list byte) : list byte := color ++ s ++ kReset.

(** [frame_ += text; frame_ += kClearToEol; frame_ += "\r\n";] *)
Definition push_line (text : list byte) : list byte := text ++ kClearToEol ++ crlf.

(** The round-trip column: "%.1fms" in a buffer of 16 bytes. *)
Definition rtt_text (rtt : f64) : list byte :=
  snprintf 16 (if fle f0 rtt then fixed 1 rtt ++ lit "ms" else lit "-").

(** The name of a protocol held as an integer (an enumerator of [AppProtocol]). *)
Definition app_name (code : Z) : list byte :=
  lit (match find (fun p => AppProtocol.to_int p =? code)
             [AppProtocol.HTTP; AppProtocol.TLS; AppProtocol.DNS; AppProtocol.SSH; AppProtocol.DHCP;
              AppProtocol.NTP; AppProtocol.Other] with
       | Some p => AppProtocol_to_string p
       | None => AppProtocol_to_string AppProtocol.Unknown
       end).

Section render.
Variable ip_str : IpAddress -> list byte.
Variable sorter : forall A, (A -> A -> bool) -> list A -> list A.
Variable it_flows : iteration FlowKey Flow.
Variable it_apps : iteration Z Z.

Section sections.
Variables (stats : Statistics.t) (flows : FlowTable) (info : SessionInfo) (W : nat).

Definition title_line (paused : bool) : mem (list byte) :=
  up ← human_duration (Statistics.elapsed_sec stats);
  let text :=
    lit " netscope  " ++ (if info.(i_offline) then lit "file=" else lit "iface=") ++ info.(i_source) ++
    lit "  backend=" ++ info.(i_backend) ++
    (match info.(i_filter) with [] => [] | f => lit "  bpf=" ++ [Byte.x22] ++ f ++ [Byte.x22] end) ++
    lit "  up " ++ up ++ (if paused then lit "  [PAUSED]" else []) in
  mret (kReverse ++ kBold ++ fit text W ++ kReset).

Definition totals_line : mem (list byte) :=
  pps ← to_u64 (Statistics.recent_pps stats 5);
  mret (lit " " ++ colored kBold (lit "pkts") ++ lit " " ++ human_count (Statistics.packets_ stats) ++
        lit "   " ++ colored kBold (lit "vol") ++ lit " " ++ human_bytes (f64_of (Statistics.bytes_ stats)) ++
        lit "   " ++ colored kBold (lit "now") ++ lit " " ++ human_rate_bits (Statistics.recent_bps stats 5) ++
        lit " / " ++ dec pps ++ lit " pps" ++
        lit "   " ++ colored kBold (lit "avg") ++ lit " " ++ human_rate_bits (Statistics.avg_bps stats) ++
        lit "   " ++ colored kBold (lit "flows") ++ lit " " ++ dec (table_size flows) ++ lit "/" ++
        dec flows.(next_id_)).

Definition drops_line : list byte :=
  let drops := u64 (Statistics.kernel_dropped_ stats + Statistics.if_dropped_ stats) in
  lit " " ++ colored kDim (lit "drops") ++ lit " " ++
  colored (if negb (drops =? 0) then kRed else kGrey) (dec drops) ++
  lit "   " ++ colored kDim (lit "decode-err") ++ lit " " ++ dec (Statistics.decode_errors_ stats) ++
  lit "   " ++ colored kDim (lit "trunc") ++ lit " " ++ dec (Statistics.truncated_ stats) ++
  lit "   " ++ colored kDim (lit "bad-cksum") ++ lit " " ++ dec (Statistics.bad_checksums_ stats) ++
  lit "   " ++ colored kDim (lit "frags") ++ lit " " ++ dec (Statistics.fragments_ stats) ++
  lit "   " ++ colored kDim (lit "snaplen") ++ lit " " ++ dec_signed info.(i_snaplen).

Definition distribution_line (total : f64) (bar_w : nat) (p : ProtocolCount) : mem (list byte) :=
  let frac := fdiv (f64_of p.(pc_packets)) total in
  let color := color_for_protocol p.(pc_name) in
  b ← bar frac bar_w;
  percent ← to_int (fadd (fmul frac (f64_of 100)) one_half);
  mret (lit "  " ++ colored color (fit (lit p.(pc_name)) 6) ++ colored color b ++ lit " " ++
        right_ (dec_signed percent ++ lit "%") 4 ++ lit "  " ++
        right_ (human_count p.(pc_packets)) 7 ++ lit " pkts  " ++
        right_ (human_bytes (f64_of p.(pc_bytes))) 9).

Definition distribution_lines : mem (list (list byte)) :=
  let dist := Statistics.protocol_distribution (sorter ProtocolCount) stats in
  let total := f64_of (Z.max (Statistics.packets_ stats) 1) in
  let bar_w := Nat.min 40 (if (55 <? W)%nat then W - 46 else 12) in
  lines ← mapM (distribution_line total bar_w) (List.filter (fun p => negb (p.(pc_packets) =? 0)) dist);
  mret ([kBold ++ lit " PROTOCOL DISTRIBUTION" ++ kReset] ++ lines ++
        (if Statistics.packets_ stats =? 0 then [kGrey ++ lit "  waiting for packets..." ++ kReset] else [])).

Definition spark (peak : Z) (b : ThroughputBucket) : mem (list byte) :=
  level ← to_u64 (fadd (fmul (fdiv (f64_of b.(bk_bytes)) (f64_of peak)) (f64_of 8)) one_half);
  let level := if (0 <? b.(bk_bytes)) && (level =? 0) then 1 else level in
  mret (spark_level (Z.min level 8)).

Definition throughput_lines : mem (list (list byte)) :=
  let hist := Statistics.throughput_history stats in
  let peak := Z.max (Statistics.peak_bucket_bytes stats) 1 in
  let head := kBold ++ lit " THROUGHPUT" ++ kReset ++ kDim ++ lit "  (last " ++ dec (zlen hist) ++
              lit "s, peak " ++ human_rate_bits (fmul (f64_of peak) (f64_of 8)) ++ lit ")" ++ kReset in
  let avail := (if (6 <? W)%nat then W - 6 else 20)%nat in
  let start := (if (avail <? length hist)%nat then length hist - avail else 0)%nat in
  bars ← mapM (spark peak) (skipn start hist);
  mret [head; kCyan ++ lit "  " ++ concat bars ++ kReset].

Definition retransmit_percent : f64 :=
  let segs := flows.(total_data_segments_) in
  if segs =? 0 then f0
  else fdiv (fmul (f64_of 100) (f64_of flows.(total_retransmits_))) (f64_of segs).

Definition tcp_lines : list (list byte) :=
  let rate := retransmit_percent in
  let rate_color := if fle (f64_of 5) rate then kRed else if fle (f64_of 1) rate then kYellow else kGreen in
  let mean_rtt := mean_rtt_ms it_flows flows in
  let health :=
    kBold ++ lit " TCP HEALTH" ++ kReset ++
    lit "  established " ++ colored kGreen (dec (active_tcp it_flows flows)) ++
    lit "   syn " ++ dec (Statistics.tcp_syn_ stats) ++ lit "   fin " ++ dec (Statistics.tcp_fin_ stats) ++
    lit "   rst " ++ colored (if negb (Statistics.tcp_rst_ stats =? 0) then kRed else kReset) (dec (Statistics.tcp_rst_ stats)) ++
    lit "   retrans " ++
    colored rate_color (dec flows.(total_retransmits_) ++ lit " / " ++ dec flows.(total_data_segments_) ++
                        lit " (" ++ fixed 2 rate ++ lit "%)") ++
    lit "   ooo " ++ dec flows.(total_out_of_order_) ++
    (if fle f0 mean_rtt then lit "   rtt " ++ fixed 1 mean_rtt ++ lit " ms" else []) in
  let apps := app_protocols (sorter (Z * Z)) it_apps flows in
  [health] ++
  (match apps with
   | [] => []
   | _ => [kBold ++ lit " APPLICATION" ++ kReset ++ lit " " ++
           concat (map (fun pc => lit " " ++ colored kBlue (app_name pc.1) ++ lit " " ++ dec pc.2) apps)]
   end).

(** Column widths: what the fixed columns leave is split between the endpoint
    pair and the application detail. *)
Definition fixed_width : nat := 2 + 6 + 11 + 7 + 9 + 5 + 7 + 6 + 1.
Definition flexible : nat := if (fixed_width + 24 <? W)%nat then W - fixed_width else 24.
Definition ep_w : nat := Nat.min 42 (Nat.max 24 (flexible * 55 / 100)).
Definition detail_w : nat := if (ep_w + 8 <? flexible)%nat then flexible - ep_w else 0.

Definition flow_header (sort : FlowSort.t) : list (list byte) :=
  let hdr := lit "  " ++ fit (lit "PROTO") 6 ++ fit (lit "ENDPOINTS") ep_w ++ lit " " ++ fit (lit "STATE") 11 ++
             right_ (lit "PKTS") 7 ++ right_ (lit "BYTES") 9 ++ right_ (lit "RETX") 5 ++
             right_ (lit "RTT") 7 ++ right_ (lit "AGE") 6 ++
             (if Nat.eqb detail_w 0 then [] else lit "  " ++ fit (lit "APPLICATION") (detail_w - 2)) in
  [kBold ++ lit " TOP FLOWS" ++ kReset ++ kDim ++ lit "  sorted by " ++ lit (FlowSort_to_string sort) ++ kReset;
   kDim ++ fit hdr W ++ kReset].

Definition flow_line (f : Flow) : mem (list byte) :=
  age ← human_duration (duration_sec f);
  mret (lit "  " ++ fit (lit (L4Proto_to_string f.(f_l4))) 6 ++ fit (label ip_str f) ep_w ++ lit " " ++
        colored (color_for_state f.(f_state)) (fit (lit (TcpState_to_string f.(f_state))) 11) ++
        right_ (human_count (f_packets f)) 7 ++ right_ (human_bytes (f64_of (f_bytes f))) 9 ++
        colored (if negb (f_retransmits f =? 0) then kYellow else kReset) (right_ (dec (f_retransmits f)) 5) ++
        right_ (rtt_text (best_rtt_ms f)) 7 ++ right_ age 6 ++
        (if Nat.eqb detail_w 0 then [] else lit "  " ++ colored kBlue (fit (app_summary f) (detail_w - 2)))).

Definition flow_lines (budget : Z) (sort : FlowSort.t) : mem (list (list byte)) :=
  let reserved := 2 in
  let max_rows := Z.max 1 (budget - reserved) in
  let best := top (sorter Flow) it_flows flows max_rows sort in
  lines ← mapM flow_line best;
  mret (lines ++ (match best with [] => [kGrey ++ lit "  no flows yet" ++ kReset] | _ => [] end)).

Definition footer_line : list byte :=
  kReverse ++ fit (lit " q quit   p pause   s sort   r reset ") W ++ kReset.
End sections.

(** The lines pushed for a terminal of [rows] by [cols]; an empty line is
    [push("")]. *)
Definition frame_lines (d : Dashboard) (stats : Statistics.t) (flows : FlowTable) (info : SessionInfo)
    : mem (list (list byte)) :=
  let W := Z.to_nat d.(cols_) in
  title ← title_line stats info W d.(paused_);
  totals ← totals_line stats flows;
  distribution ← distribution_lines stats W;
  throughput ← throughput_lines stats W;
  let above := [title; totals; drops_line stats info; []] ++ distribution ++ [[]] ++ throughput ++ [[]] ++
               tcp_lines stats flows ++ [[]] ++ flow_header W d.(sort_) in
  rows ← flow_lines flows W (d.(rows_) - zlen above) d.(sort_);
  let lines := above ++ rows in
  mret (lines ++ replicate (Z.to_nat (d.(rows_) - zlen lines - 1)) [] ++ [footer_line W]).

Definition render (ws : option (Z * Z)) (d : Dashboard) (a : Analyzer) (info : SessionInfo) : mem Dashboard :=
  if negb d.(active_) then mret d
  else
    let d := query_size ws d in
    lines ← frame_lines d a.(stats_) a.(a_flows_) info;
    mret (d <| frame_ := kHome ++ concat (map push_line lines) |>).
End render.

(** The loop around [write]: each answer is its return value and [errno];
    the result is how much of the frame got out and whether the loop has ended. *)
Fixpoint write_loop (size written : Z) (answers : list (Z * Z)) : Z * bool :=
  if size <=? written then (written, true)
  else match answers with
  | [] => (written, false)
  | (n, errno) :: answers =>
      if 0 <? n then write_loop size (written + n) answers
      else if (n <? 0) && (errno =? 4) then write_loop size written answers
      else (written, true)
  end.
