(* ===== verification/DashboardRange.v ===== *)
(** * The dashboard can always draw

    [render] and [print_summary] convert doubles to integer types, which C++
    leaves undefined out of range.  The conversions are in range whatever was
    captured, as long as no time span reaches 2^31 seconds and no second carries
    2^59 bytes: shares never exceed their total, and rounding does not leave a
    power of two ([FloatRange]). *)

From S2P Require Import Prelude.
From S2P Require Import Machine.
From S2P Require Import Containers.
From S2P Require Import Protocol.
From S2P Require Import Float.
From S2P Require Import Format.
From S2P Require Import FormatSpec.
From S2P Require Import FloatRange.
From S2P Require Import Dissect.
From S2P Require Import Flow.
From S2P Require Import FlowTable.
From S2P Require Import Stats.
From S2P Require Import StatsSpec.
From S2P Require Import Analyzer.
From S2P Require Import AnalyzerSpec.
From S2P Require Import Dashboard.
#[local] Open Scope Z_scope.

(** ** Preconditions *)

(** A time span that [human_duration] can print. *)
Definition span_ok (x : f64) : Prop := exists n, to_int x = Val n.

(** No protocol has more packets than there are. *)
Definition shares_ok (n : Z) (s : Statistics.t) : Prop :=
  0 <= Statistics.packets_ s <= n /\
  forall c, 0 <= cat_packets c s <= Statistics.packets_ s.

Definition quiet_ring (s : Statistics.t) : Prop :=
  Forall (fun b => 0 <= b.(bk_bytes) <= 2 ^ 59) (Statistics.ring_ s).

Lemma add_shares ip_str n s p : n < 2 ^ 64 - 1 -> shares_ok n s -> shares_ok (n + 1) (Statistics.add ip_str s p).
Proof.
  intros Hn [Hp Hc].
  assert (Hw : forall w x, 0 <= w <= 1 -> 0 <= x <= n -> add64 w x = x + w)
    by (intros; unfold add64; rewrite u64_id; [done|unfold in_u64; lia]).
  assert (Ep : Statistics.packets_ (Statistics.add ip_str s p) = Statistics.packets_ s + 1).
  { rewrite (proj2 (counts_packets ip_str)) by (unfold in_u64; lia). apply Hw; lia. }
  split; [lia|]. intros c. specialize (Hc c).
  rewrite (proj2 (counts_category ip_str c)) by (unfold in_u64; lia). cbv beta.
  rewrite Hw by (try destruct (in_cat c p); lia). destruct (in_cat c p); lia.
Qed.

Lemma shares_init n : 0 <= n -> shares_ok n Statistics.init.
Proof. intros. split; [simpl; lia|]. intros []; simpl; lia. Qed.

(** In every state the program reaches. *)
Lemma execution_shares `{HostOrder} `{Dissector} ip_str linktype tr a :
  run_ops ip_str (new_analyzer linktype) tr = Val a -> zlen tr < 2 ^ 64 - 1 -> shares_ok (zlen tr) a.(stats_).
Proof.
  intros Hr Hlen.
  enough (Hg : 0 + zlen tr < 2 ^ 64 -> shares_ok (0 + zlen tr) a.(stats_)) by (apply Hg; lia).
  apply (run_ops_stats _ ip_str (fun n s => n < 2 ^ 64 -> shares_ok n s)) with (a := new_analyzer linktype);
    [..|done| |exact Hr].
  - intros n Hn _. by apply shares_init.
  - intros n s p Hn Hs Hlt. apply add_shares; [lia|]. apply Hs. lia.
  - intros n s r d i Hs Hlt. specialize (Hs Hlt). destruct Hs as [Hp Hc]. split; [done|].
    intros c. specialize (Hc c). by destruct c.
  - intros n s Hs Hlt. destruct Hs as [Hp Hc]; [lia|]. split; [lia|done].
  - intros _. by apply shares_init.
Qed.

(** ** Conversions *)

Lemma mapM_total {A B} (f : A -> mem B) l :
  (forall x, In x l -> exists y, f x = Val y) -> exists k, mapM f l = Val k.
Proof.
  induction l as [|x l IH]; intros Hf; [by eexists|].
  destruct (Hf x) as [y Ey]; [by left|]. destruct IH as [k Ek]; [intros z Hz; apply Hf; by right|].
  exists (y :: k). cbn. by rewrite Ey, Ek.
Qed.

Lemma duration_total x : span_ok x -> exists s, human_duration x = Val s.
Proof. intros [n E]. unfold human_duration. rewrite E. by eexists. Qed.

Lemma within_half k : 0 <= k -> within k one_half.
Proof.
  intros Hk. apply (within_mono 0); [lia|]. vm_compute. split; [discriminate|discriminate].
Qed.

Lemma bar_total x width : within 1 x -> (width <= 64)%nat -> exists s, bar x width = Val s.
Proof.
  intros Hx Hw. unfold bar. cbv zeta.
  set (x1 := if flt x f0 then f0 else x). assert (Hx1 : within 1 x1) by (unfold x1; by case_match).
  set (x2 := if flt (f64_of 1) x1 then f64_of 1 else x1).
  assert (Hx2 : within 1 x2) by (unfold x2; case_match; [apply f64_of_within; lia|done]).
  destruct (within_u64 8 (fadd (fmul x2 (f64_of (Z.of_nat width))) one_half)) as (n & En & _); [|lia|].
  - apply (within_add 7); [|apply within_half|]; try lia. apply (within_mul 1 6); [done| |lia].
    apply f64_of_within; lia.
  - rewrite En. by eexists.
Qed.

(** What [top] returns is in the table. *)
Lemma top_members (sorter : forall A, (A -> A -> bool) -> list A -> list A) (it_flows : iteration FlowKey Flow)
    (sorted : forall A, std_sort (sorter A)) flows n sort f :
  f ∈ top (sorter Flow) it_flows flows n sort -> exists k, flows.(flows_) !! k = Some f.
Proof.
  unfold top, keep_best. intros Hf.
  assert (Hs : f ∈ sorter Flow (flow_cmp sort) (map snd (iterate it_flows (flows_ flows)))).
  { destruct (n <? zlen _); [|done]. by eapply elem_of_take in Hf as (? & ? & _); eapply list_elem_of_lookup_2. }
  rewrite (std_perm _ (sorted Flow)) in Hs. apply list_elem_of_fmap in Hs as ([k f'] & -> & Hk).
  rewrite iterate_perm in Hk. apply elem_of_map_to_list in Hk. by exists k.
Qed.

Section frame.
Variable ip_str : IpAddress -> list byte.
Variable sorter : forall A, (A -> A -> bool) -> list A -> list A.
Variable it_flows : iteration FlowKey Flow.
Variable it_apps : iteration Z Z.
Hypothesis sorted : forall A, std_sort (sorter A).
Variables (stats : Statistics.t) (flows : FlowTable) (info : SessionInfo).
Variable n : Z.
Hypothesis n_small : n < 2 ^ 64.
Hypothesis shares : shares_ok n stats.
Hypothesis quiet : quiet_ring stats.
Hypothesis elapsed : span_ok (Statistics.elapsed_sec stats).
Hypothesis durations : forall k f, flows.(flows_) !! k = Some f -> span_ok (duration_sec f).

Lemma title_total W paused : exists l, title_line stats info W paused = Val l.
Proof. unfold title_line. destruct (duration_total _ elapsed) as [up ->]. by eexists. Qed.

Lemma recent_total_range field seconds : 0 <= Statistics.recent_total field stats seconds < 2 ^ 64.
Proof.
  unfold Statistics.recent_total. generalize (seqZ 1 seconds) as l. intros l.
  assert (Hg : forall t, 0 <= t < 2 ^ 64 ->
    0 <= fold_left (fun total i => match Statistics.bucket_at stats (Statistics.newest_sec_ stats - i) with
                                   | Some b => add64 (field b) total | None => total end) l t < 2 ^ 64).
  { induction l as [|i l IH]; intros t Ht; [done|]. cbn [fold_left]. apply IH.
    destruct (Statistics.bucket_at _ _) as [b|]; [|done].
    pose proof (u64_in (t + field b)) as Hu. unfold in_u64 in Hu. exact Hu. }
  by apply Hg.
Qed.

Lemma totals_total : exists l, totals_line stats flows = Val l.
Proof.
  unfold totals_line. destruct (within_u64 62 (Statistics.recent_pps stats 5)) as (k & -> & _); [|lia|by eexists].
  unfold Statistics.recent_pps. destruct (_ || _); [done|]. cbv zeta.
  apply (within_div 64 2); [| |lia].
  - apply f64_of_within; [|lia]. pose proof (recent_total_range bk_packets (Z.min 5 kThroughputWindow)). lia.
  - apply (f64_of_at_least 5). lia.
Qed.
Lemma distribution_total W : exists l, distribution_lines sorter stats W = Val l.
Proof.
  unfold distribution_lines. cbv zeta. destruct shares as [Hp Hc].
  set (total := Z.max (Statistics.packets_ stats) 1).
  set (bar_w := Nat.min 40 _). assert (bar_w <= 40)%nat by (unfold bar_w; lia).
  destruct (mapM_total (distribution_line (f64_of total) bar_w)
    (List.filter (fun p => negb (p.(pc_packets) =? 0))
       (Statistics.protocol_distribution (sorter ProtocolCount) stats))) as [k ->]; [|by eexists].
  intros p [Hin _]%filter_In. unfold Statistics.protocol_distribution in Hin.
  eapply Permutation_in in Hin; [|apply std_perm, sorted].
  assert (Hshare : 0 <= pc_packets p <= total).
  { pose proof (Hc CTcp). pose proof (Hc CUdp). pose proof (Hc CIcmp). pose proof (Hc CArp). pose proof (Hc COther).
    cbn [cat_packets] in *. unfold total.
    repeat (destruct Hin as [<-|Hin]; [cbn [pc_packets]; lia|]). destruct Hin. }
  assert (Hfrac : within 1 (fdiv (f64_of (pc_packets p)) (f64_of total))).
  { apply ratio_within; [done|]. unfold total. split; [lia|].
    assert (2 ^ 64 < 2 ^ 900) by (apply Z.pow_lt_mono_r; lia). lia. }
  unfold distribution_line. cbv zeta. destruct (bar_total _ bar_w Hfrac) as [b ->]; [lia|]. cbn [mbind mem_bind].
  destruct (within_int 9 (fadd (fmul (fdiv (f64_of (pc_packets p)) (f64_of total)) (f64_of 100)) one_half)) as (m & -> & _);
    [|lia|by eexists].
  apply (within_add 8); [|apply within_half|]; try lia. apply (within_mul 1 7); [done| |lia].
  apply f64_of_within; lia.
Qed.

Lemma spark_total peak b : 1 <= peak < 2 ^ 64 -> 0 <= b.(bk_bytes) <= 2 ^ 59 -> exists s, spark peak b = Val s.
Proof.
  intros Hp Hb. unfold spark.
  destruct (within_u64 63 (fadd (fmul (fdiv (f64_of (bk_bytes b)) (f64_of peak)) (f64_of 8)) one_half)) as (m & -> & _);
    [|lia|by eexists].
  apply (within_add 62); [|apply within_half|]; try lia. apply (within_mul 59 3); [|apply f64_of_within; lia|lia].
  pose proof (Z.log2_nonneg peak).
  assert (Hlog : Z.log2 peak < 64) by (apply Z.log2_lt_pow2; lia).
  apply (within_mono (59 - Z.log2 peak)); [lia|]. apply within_div; [apply f64_of_within; lia| |lia].
  apply f64_of_at_least. assert (2 ^ 64 < 2 ^ 900) by (apply Z.pow_lt_mono_r; lia). lia.
Qed.

Lemma bucket_at_quiet sec b : Statistics.bucket_at stats sec = Some b -> 0 <= b.(bk_bytes) <= 2 ^ 59.
Proof.
  unfold Statistics.bucket_at. case_bool_decide; [|done]. intros Hb.
  eapply Forall_lookup_1 in quiet; [|exact Hb]. done.
Qed.

Lemma peak_range : 0 <= Statistics.peak_bucket_bytes stats <= 2 ^ 59.
Proof.
  unfold Statistics.peak_bucket_bytes. generalize (seq 0 (Z.to_nat kThroughputWindow)) as l.
  assert (Hg : forall l t, 0 <= t <= 2 ^ 59 ->
    0 <= fold_left (fun peak i => match Statistics.ring_sec_ stats !! i, Statistics.ring_ stats !! i with
                                  | Some sec, Some b => if negb (sec =? 0) then Z.max peak b.(bk_bytes) else peak
                                  | _, _ => peak end) l t <= 2 ^ 59).
  { induction l as [|i l IH]; intros t Ht; [done|]. cbn [fold_left]. apply IH.
    destruct (Statistics.ring_sec_ stats !! i); [|done].
    destruct (Statistics.ring_ stats !! i) as [b|] eqn:Eb; [|done]. destruct (negb _); [|done].
    eapply Forall_lookup_1 in quiet; [|exact Eb]. cbv beta in quiet. lia. }
  intros l. by apply Hg.
Qed.

Lemma throughput_total W : exists l, throughput_lines stats W = Val l.
Proof.
  unfold throughput_lines. cbv zeta. set (peak := Z.max _ 1). set (hist := Statistics.throughput_history stats).
  assert (Hpeak : 1 <= peak < 2 ^ 64) by (unfold peak; pose proof peak_range; lia).
  set (start := if (_ <? length hist)%nat then _ else _).
  destruct (mapM_total (spark peak) (skipn start hist)) as [k ->]; [|by eexists].
  intros b Hin. apply spark_total; [done|].
  assert (Hin' : In b hist) by (rewrite <-(firstn_skipn start hist); apply in_app_iff; by right).
  unfold hist, Statistics.throughput_history in Hin'. destruct (_ =? 0); [done|].
  apply in_map_iff in Hin' as (i & <- & _).
  destruct (Statistics.bucket_at stats _) as [b'|] eqn:Eb; [by eapply bucket_at_quiet|cbn; lia].
Qed.

Lemma flow_lines_total W budget sort : exists l, flow_lines ip_str sorter it_flows flows W budget sort = Val l.
Proof.
  unfold flow_lines. cbv zeta. edestruct (mapM_total (flow_line ip_str W)) as [k ->]; [|by eexists].
  intros f Hf%list_elem_of_In. apply (top_members sorter it_flows sorted) in Hf as [key Hf].
  unfold flow_line. destruct (duration_total _ (durations key f Hf)) as [age ->]. by eexists.
Qed.

Lemma frame_lines_total d : exists l, frame_lines ip_str sorter it_flows it_apps d stats flows info = Val l.
Proof.
  unfold frame_lines. cbv zeta. set (W := Z.to_nat (cols_ d)).
  destruct (title_total W (paused_ d)) as [l1 ->], totals_total as [l2 ->], (distribution_total W) as [l3 ->],
    (throughput_total W) as [l4 ->]. cbn [mbind mem_bind].
  match goal with |- context [flow_lines ip_str sorter it_flows flows W ?b ?s] =>
    destruct (flow_lines_total W b s) as [l5 ->] end. by eexists.
Qed.
End frame.

(** ** On a running program *)

(** Time spans and traffic within the limits above. *)
Record drawable (a : Analyzer) : Prop := {
  dw_elapsed : span_ok (Statistics.elapsed_sec a.(stats_));
  dw_flows : forall k f, a.(a_flows_).(flows_) !! k = Some f -> span_ok (duration_sec f);
  dw_ring : quiet_ring a.(stats_);
}.

Lemma render_total `{HostOrder} `{Dissector} ip_str sorter it_flows it_apps linktype tr ws d a info :
  (forall A, std_sort (sorter A)) -> run_ops ip_str (new_analyzer linktype) tr = Val a -> zlen tr < 2 ^ 64 - 1 ->
  drawable a -> exists d', render ip_str sorter it_flows it_apps ws d a info = Val d'.
Proof.
  intros Hsort Hrun Hlen [He Hf Hr]. unfold render. destruct (negb (active_ d)); [by eexists|]. cbv zeta.
  pose proof (execution_shares ip_str linktype tr a Hrun Hlen) as Hs.
  destruct (frame_lines_total ip_str sorter it_flows it_apps Hsort (stats_ a) (a_flows_ a) info (zlen tr)
    ltac:(lia) Hs Hr He Hf (query_size ws d)) as [l ->]. by eexists.
Qed.
