(* ===== verification/DashboardSpec.v ===== *)
(** * What reaches the terminal

    The fields of the frame have their widths, the frame has the height the
    layout intends, the keys do what the footer says, the terminal gets its
    settings back, and whatever the network sends, the frame consists of
    printable characters, block elements and the code's own escape sequences. *)

From S2P Require Import Prelude.
From S2P Require Import Machine.
From S2P Require Import Containers.
From S2P Require Import Protocol.
From S2P Require Import Parser.
From S2P Require Import ParserSafe.
From S2P Require Import ByteString.
From S2P Require Import Float.
From S2P Require Import Format.
From S2P Require Import Dissect.
From S2P Require Import DissectSafe.
From S2P Require Import Flow.
From S2P Require Import FlowTable.
From S2P Require Import TableSpec.
From S2P Require Import Stats.
From S2P Require Import Analyzer.
From S2P Require Import AnalyzerSpec.
From S2P Require Import Dashboard.
From S2P Require Import DashboardRange.
From Stdlib Require Import SpecFloat.
#[local] Open Scope Z_scope.

(** ** Field widths *)

Lemma length_spaces n : length (spaces n) = n.
Proof. apply length_replicate. Qed.

Lemma length_fit s w : length (fit s w) = w.
Proof.
  unfold fit. destruct (Nat.ltb_spec w (length s)) as [H|H].
  - destruct (Nat.leb_spec w 2); [rewrite length_firstn; lia|].
    rewrite length_app, length_firstn. change (length (lit "..")) with 2%nat. lia.
  - rewrite length_app, length_spaces. lia.
Qed.

Lemma length_right s w : length (right_ s w) = w.
Proof.
  unfold right_. destruct (Nat.leb_spec w (length s)); [rewrite length_firstn; lia|].
  rewrite length_app, length_spaces. lia.
Qed.

(** A text that fits is shown whole. *)
Lemma fit_short s w : (length s <= w)%nat -> fit s w = s ++ spaces (w - length s).
Proof. intros. unfold fit. by rewrite (proj2 (Nat.ltb_ge _ _)). Qed.

(** ** Printable text *)

Create HintDb safe.

Lemma text_nil : text_ok []. Proof. constructor. Qed.
Lemma text_firstn n s : text_ok s -> text_ok (firstn n s).
Proof. apply Forall_take. Qed.
Lemma text_replicate n b : printable b = true -> text_ok (replicate n b).
Proof. intros. by apply Forall_replicate. Qed.
Lemma text_spaces n : text_ok (spaces n).
Proof. by apply text_replicate. Qed.
Lemma text_fit s w : text_ok s -> text_ok (fit s w).
Proof.
  intros. unfold fit. repeat case_match; auto using text_app, text_firstn, text_spaces.
  apply text_app; [by apply text_firstn|by apply text_lit].
Qed.
Lemma text_right s w : text_ok s -> text_ok (right_ s w).
Proof. intros. unfold right_. case_match; auto using text_app, text_firstn, text_spaces. Qed.
Lemma text_snprintf n s : text_ok s -> text_ok (snprintf n s).
Proof. apply text_firstn. Qed.

(** The conversions only write digits. *)
Lemma text_digits fuel z : text_ok (decimal fuel z).
Proof.
  destruct (Z.lt_ge_cases z 0) as [Hz|Hz].
  - destruct fuel as [|fuel]; cbn [decimal]; [constructor|]. rewrite (proj2 (Z.ltb_lt _ _)) by lia.
    repeat constructor. unfold printable. rewrite bval_byte_of. pose proof (Z.mod_pos_bound z 10 ltac:(lia)).
    unfold u8. rewrite Z.mod_small by lia. rewrite (proj2 (Z.leb_le _ _)), (proj2 (Z.ltb_lt _ _)); lia.
  - eapply Forall_impl; [apply decimal_digits; lia|]. intros b Hb. unfold is_digit, printable in *. simpl in Hb.
    rewrite (proj2 (Z.leb_le _ _)), (proj2 (Z.ltb_lt _ _)); lia.
Qed.
Lemma text_dec z : text_ok (dec z). Proof. apply text_digits. Qed.
#[export] Hint Resolve text_nil text_spaces text_digits text_dec : safe.
#[export] Hint Extern 1 (text_ok (lit _)) => (apply text_lit; reflexivity) : safe.

Lemma text_if (b : bool) s t : text_ok s -> text_ok t -> text_ok (if b then s else t).
Proof. by destruct b. Qed.

Ltac text_safe :=
  repeat match goal with
  | |- text_ok (_ ++ _) => apply text_app
  | |- text_ok (if _ then _ else _) => apply text_if
  | |- text_ok (fit _ _) => apply text_fit
  | |- text_ok (right_ _ _) => apply text_right
  | |- text_ok (snprintf _ _) => apply text_snprintf
  end; eauto with safe.

Lemma text_pad_zero n s : text_ok s -> text_ok (pad_zero n s).
Proof. intros. unfold pad_zero. apply text_app; [by apply text_replicate|done]. Qed.
Lemma text_pad_left n s : text_ok s -> text_ok (pad_left n s).
Proof. intros. unfold pad_left. text_safe. Qed.
Lemma text_pad_right n s : text_ok s -> text_ok (pad_right n s).
Proof. intros. unfold pad_right. text_safe. Qed.
Lemma text_signed z : text_ok (dec_signed z).
Proof. unfold dec_signed. text_safe. Qed.
#[export] Hint Resolve text_pad_zero text_pad_left text_pad_right text_signed : safe.
Lemma text_dec_zero n z : text_ok (dec_zero n z).
Proof. unfold dec_zero. text_safe. Qed.
#[export] Hint Resolve text_dec_zero : safe.

Lemma text_fixed k x : text_ok (fixed k x).
Proof.
  assert (Hs : forall s, text_ok (sign_str s)) by (intros []; unfold sign_str; text_safe).
  assert (Hd : forall n, text_ok (fixed_digits k n)) by (intros; unfold fixed_digits; text_safe).
  destruct x; simpl; text_safe.
Qed.
#[export] Hint Resolve text_fixed : safe.

Lemma text_unit_bytes u : text_ok (unit_name byte_units u).
Proof. unfold unit_name. do 5 (destruct u as [|u]; [by apply text_lit|]). by destruct u; apply text_lit. Qed.
Lemma text_unit_bits u : text_ok (unit_name bit_units u).
Proof. unfold unit_name. do 4 (destruct u as [|u]; [by apply text_lit|]). by destruct u; apply text_lit. Qed.
#[export] Hint Resolve text_unit_bytes text_unit_bits : safe.

Lemma text_human_bytes x : text_ok (human_bytes x).
Proof. unfold human_bytes. destruct (scale_unit _ _ _ _). text_safe. Qed.
Lemma text_human_rate x : text_ok (human_rate_bits x).
Proof. unfold human_rate_bits. destruct (scale_unit _ _ _ _). text_safe. Qed.
Lemma text_human_count n : text_ok (human_count n).
Proof. unfold human_count. text_safe. Qed.
Lemma text_rtt x : text_ok (rtt_text x).
Proof. unfold rtt_text. text_safe. Qed.
#[export] Hint Resolve text_human_bytes text_human_rate text_human_count text_rtt : safe.

(** What a computation that may be undefined returns when it is defined. *)
Definition yields {A} (m : mem A) (P : A -> Prop) : Prop := forall a, m = Val a -> P a.

Lemma yields_ret {A} (a : A) P : P a -> yields (mret a) P.
Proof. by intros ? a' [= <-]. Qed.
Lemma yields_bind {A B} (m : mem A) (k : A -> mem B) (P : A -> Prop) Q :
  yields m P -> (forall a, P a -> yields (k a) Q) -> yields (m ≫= k) Q.
Proof. intros Hm Hk b. destruct m as [a|]; [|done]. simpl. apply Hk, Hm. done. Qed.
Lemma yields_any {A} (m : mem A) : yields m (fun _ => True).
Proof. done. Qed.
Lemma yields_mapM {A B} (f : A -> mem B) l (P : A -> Prop) Q :
  (forall x, P x -> yields (f x) Q) -> Forall P l -> yields (mapM f l) (Forall Q).
Proof.
  intros Hf. induction 1 as [|x l Hx Hl IH]; simpl; [apply yields_ret; constructor|].
  eapply yields_bind; [by apply Hf|]. intros y Hy. eapply yields_bind; [exact IH|]. intros ys Hys.
  apply yields_ret. by constructor.
Qed.

Lemma yields_and {A} (m : mem A) P Q : yields m P -> yields m Q -> yields m (fun a => P a /\ Q a).
Proof. intros HP HQ a E. split; [by apply HP|by apply HQ]. Qed.
Lemma zlen_mapM {A B} (f : A -> mem B) l : yields (mapM f l) (fun k => zlen k = zlen l).
Proof.
  induction l as [|x l IH]; simpl; [by apply yields_ret|]. eapply yields_bind; [apply yields_any|]. intros y _.
  eapply yields_bind; [exact IH|]. intros ys Hys. apply yields_ret. rewrite !zlen_cons. by rewrite Hys.
Qed.

Lemma text_human_duration x : yields (human_duration x) text_ok.
Proof.
  unfold human_duration. eapply yields_bind; [apply yields_any|]. intros total _. apply yields_ret. text_safe.
Qed.

(** The summary of an identified application. *)
Lemma text_summary_of f : (identified f.(f_app) = true -> info_ok f.(f_app)) -> text_ok (app_summary f).
Proof.
  intros Ha. unfold app_summary. destruct (identified (f_app f)); simpl; [|constructor].
  destruct (Ha eq_refl) as (_ & Hs & _).
  apply text_app; [destruct (proto (f_app f)); by apply text_lit|].
  case_bool_decide; [constructor|]. by constructor.
Qed.

(** ** Safe output *)

(** The escape sequences of the dashboard's source. *)
Definition own_escapes : list (list byte) :=
  [kReset; kBold; kDim; kReverse; kRed; kGreen; kYellow; kBlue; kMagenta; kCyan; kGrey].

(** Printable characters, block elements and the code's own colours. *)
Inductive safe : list byte -> Prop :=
| safe_nil : safe []
| safe_char b s : printable b = true -> safe s -> safe (b :: s)
| safe_escape e s : e ∈ own_escapes -> safe s -> safe (e ++ s)
| safe_block k s : 0 <= k < 64 -> safe s -> safe (block k ++ s).

Lemma safe_app s t : safe s -> safe t -> safe (s ++ t).
Proof.
  induction 1 as [|b s Hb _ IH|e s He _ IH|k s Hk _ IH]; intros Ht; [done|..].
  - by apply safe_char; [|apply IH].
  - rewrite <-app_assoc. by apply safe_escape; [|apply IH].
  - rewrite <-app_assoc. by apply safe_block; [|apply IH].
Qed.

Lemma safe_text s : text_ok s -> safe s.
Proof. by induction 1; constructor. Qed.

Lemma safe_color e : e ∈ own_escapes -> safe e.
Proof. intros. rewrite <-(app_nil_r e). by apply safe_escape; [|constructor]. Qed.

Lemma safe_concat l : Forall safe l -> safe (concat l).
Proof. induction 1; simpl; [constructor|by apply safe_app]. Qed.

Lemma own_color (e : list byte) : existsb (fun x => bool_decide (e = x)) own_escapes = true -> safe e.
Proof.
  intros (x & Hx & E)%existsb_exists. apply bool_decide_eq_true in E as ->.
  apply safe_color. by apply list_elem_of_In.
Qed.

Lemma safe_kReset : safe kReset. Proof. by apply own_color. Qed.
Lemma safe_kBold : safe kBold. Proof. by apply own_color. Qed.
Lemma safe_kDim : safe kDim. Proof. by apply own_color. Qed.
Lemma safe_kReverse : safe kReverse. Proof. by apply own_color. Qed.
Lemma safe_kRed : safe kRed. Proof. by apply own_color. Qed.
Lemma safe_kGreen : safe kGreen. Proof. by apply own_color. Qed.
Lemma safe_kYellow : safe kYellow. Proof. by apply own_color. Qed.
Lemma safe_kBlue : safe kBlue. Proof. by apply own_color. Qed.
Lemma safe_kMagenta : safe kMagenta. Proof. by apply own_color. Qed.
Lemma safe_kCyan : safe kCyan. Proof. by apply own_color. Qed.
Lemma safe_kGrey : safe kGrey. Proof. by apply own_color. Qed.
#[export] Hint Resolve safe_nil safe_kReset safe_kBold safe_kDim safe_kReverse safe_kRed safe_kGreen
  safe_kYellow safe_kBlue safe_kMagenta safe_kCyan safe_kGrey : safe.

Lemma safe_protocol_color n : safe (color_for_protocol n).
Proof. unfold color_for_protocol. repeat case_match; auto with safe. Qed.
Lemma safe_state_color s : safe (color_for_state s).
Proof. destruct s; simpl; auto with safe. Qed.
Lemma safe_colored c s : safe c -> safe s -> safe (colored c s).
Proof. intros. unfold colored. auto using safe_app, safe_kReset. Qed.
Lemma safe_if (b : bool) s t : safe s -> safe t -> safe (if b then s else t).
Proof. by destruct b. Qed.
#[export] Hint Resolve safe_protocol_color safe_state_color : safe.

Lemma safe_spark i : 0 <= i <= 8 -> safe (spark_level i).
Proof.
  intros. unfold spark_level. case_test; [by apply safe_text, text_lit|].
  rewrite <-(app_nil_r (block i)). apply safe_block; [lia|constructor].
Qed.

Lemma safe_bar x w : yields (bar x w) safe.
Proof.
  unfold bar. eapply yields_bind; [apply yields_any|]. intros filled _. apply yields_ret, safe_concat.
  apply Forall_map, Forall_true. intros i. unfold full_block, light_shade. simpl.
  case_test; rewrite <-(app_nil_r (block _)); (apply safe_block; [lia|constructor]).
Qed.

Lemma to_u64_nonneg x : yields (to_u64 x) (fun n => 0 <= n).
Proof. unfold to_u64. destruct (trunc x); [|done]. case_test; [|done]. intros ? [= <-]. by breflect. Qed.

(** A line is safe when its pieces are. *)
Ltac line_safe :=
  cbv zeta; repeat match goal with
  | |- safe (_ ++ _) => apply safe_app
  | |- safe (colored _ _) => apply safe_colored
  | |- safe (if _ then _ else _) => apply safe_if
  end; eauto with safe; try (apply safe_text; solve [text_safe]).

Section frame.
Variable ip_str : IpAddress -> list byte.
Variable sorter : forall A, (A -> A -> bool) -> list A -> list A.
Variable it_flows : iteration FlowKey Flow.
Variable it_apps : iteration Z Z.
Hypothesis ip_text : forall a, text_ok (ip_str a).
Hypothesis sorted : forall A, std_sort (sorter A).

Variables (stats : Statistics.t) (flows : FlowTable) (info : SessionInfo).
Hypothesis flows_ok : table_ok flows.
Hypothesis source_text : text_ok info.(i_source) /\ text_ok info.(i_filter) /\ text_ok info.(i_backend).

Lemma safe_title W paused : yields (title_line stats info W paused) safe.
Proof.
  destruct source_text as (Hs & Hf & Hb).
  unfold title_line. eapply yields_bind; [apply text_human_duration|]. intros up Hup. apply yields_ret.
  line_safe. apply safe_text. text_safe. destruct (i_filter info); [apply text_nil|].
  text_safe; by repeat constructor.
Qed.

Lemma safe_totals : yields (totals_line stats flows) safe.
Proof.
  unfold totals_line. eapply yields_bind; [apply yields_any|]. intros pps _. apply yields_ret. line_safe.
Qed.

Lemma safe_drops : safe (drops_line stats info).
Proof. unfold drops_line. line_safe. Qed.

Lemma safe_distribution W : yields (distribution_lines sorter stats W) (Forall safe).
Proof.
  unfold distribution_lines. eapply yields_bind.
  - eapply (yields_mapM _ _ (fun p => text_ok (lit p.(pc_name))) safe).
    + intros p Hp. unfold distribution_line. eapply yields_bind; [apply safe_bar|]. intros b Hb.
      eapply yields_bind; [apply yields_any|]. intros percent _. apply yields_ret. line_safe.
    + apply List.Forall_forall. intros p [Hp _]%filter_In. unfold Statistics.protocol_distribution in Hp.
      eapply Permutation_in in Hp; [|apply std_perm, sorted].
      repeat (destruct Hp as [<-|Hp]; [by apply text_lit|]). destruct Hp.
  - intros lines Hl. apply yields_ret. apply Forall_app. split; [constructor; [line_safe|constructor]|].
    apply Forall_app. split; [done|]. case_test; [|constructor]. constructor; [line_safe|constructor].
Qed.

Lemma safe_throughput W : yields (throughput_lines stats W) (Forall safe).
Proof.
  unfold throughput_lines. cbv zeta. eapply yields_bind.
  - eapply (yields_mapM _ _ (fun _ => True) safe); [|by apply Forall_true].
    intros b _. unfold spark. eapply yields_bind; [apply to_u64_nonneg|]. intros level Hl. apply yields_ret.
    cbv zeta beta in *. apply safe_spark. case_test; lia.
  - intros bars Hb. apply yields_ret. constructor; [line_safe|]. constructor; [|constructor].
    line_safe. by apply safe_concat.
Qed.

Lemma text_app_name n : text_ok (app_name n).
Proof. unfold app_name. destruct (find _ _) as [[]|]; by apply text_lit. Qed.

Lemma safe_tcp : Forall safe (tcp_lines sorter it_flows it_apps stats flows).
Proof.
  unfold tcp_lines. cbv zeta. constructor; [line_safe|].
  destruct (app_protocols _ _ _) as [|x apps]; [constructor|]. constructor; [|constructor].
  line_safe. apply safe_concat, Forall_map, Forall_true. intros [code n]. line_safe.
  apply safe_text, text_app_name.
Qed.

Lemma safe_flow_header W sort : Forall safe (flow_header W sort).
Proof.
  unfold flow_header. cbv zeta. constructor; [|constructor; [|constructor]]; line_safe.
  destruct sort; by apply safe_text, text_lit.
Qed.

Lemma text_label f : text_ok (label ip_str f).
Proof. unfold label. cbv zeta. text_safe. Qed.

Lemma text_app_summary k f : flows.(flows_) !! k = Some f -> text_ok (app_summary f).
Proof. intros Hf. apply text_summary_of, (tk_flows _ flows_ok k f Hf). Qed.

Lemma safe_flow_line W f : text_ok (app_summary f) -> yields (flow_line ip_str W f) safe.
Proof.
  intros Ha. pose proof (text_label f). unfold flow_line.
  eapply yields_bind; [apply text_human_duration|]. intros age Hage. apply yields_ret.
  line_safe; apply safe_text; text_safe.
  - destruct (f_l4 f); by apply text_lit.
  - destruct (f_state f); by apply text_lit.
Qed.

Lemma safe_flow_lines W budget sort :
  yields (flow_lines ip_str sorter it_flows flows W budget sort) (Forall safe).
Proof.
  unfold flow_lines. cbv zeta. eapply yields_bind.
  - eapply (yields_mapM _ _ (fun f => text_ok (app_summary f)) safe); [apply safe_flow_line|].
    apply Forall_forall. intros f Hf. apply (top_members sorter it_flows sorted) in Hf as [k Hk]. by eapply text_app_summary.
  - intros lines Hl. apply yields_ret. apply Forall_app. split; [done|].
    destruct (top _ _ _ _ _); [|constructor]. constructor; [line_safe|constructor].
Qed.

Lemma safe_footer W : safe (footer_line W).
Proof. unfold footer_line. line_safe. Qed.

(** ** The height of the frame *)

(** The lines above the flows. *)
Definition app_rows : Z := match app_protocols (sorter (Z * Z)) it_apps flows with [] => 0 | _ => 1 end.
Definition dist_rows : Z :=
  zlen (List.filter (fun p => negb (p.(pc_packets) =? 0))
          (Statistics.protocol_distribution (sorter ProtocolCount) stats)) +
  (if Statistics.packets_ stats =? 0 then 1 else 0).
Definition fixed_rows : Z := 13 + dist_rows + app_rows.

Lemma zlen_distribution W : yields (distribution_lines sorter stats W) (fun l => zlen l = 1 + dist_rows).
Proof.
  unfold distribution_lines, dist_rows. cbv zeta. eapply yields_bind; [apply zlen_mapM|]. intros lines Hl.
  apply yields_ret. rewrite !zlen_app, Hl. case_test; autorewrite with zlen; lia.
Qed.

Lemma zlen_throughput W : yields (throughput_lines stats W) (fun l => zlen l = 2).
Proof. unfold throughput_lines. cbv zeta. eapply yields_bind; [apply yields_any|]. intros bars _. by apply yields_ret. Qed.

Lemma zlen_tcp : zlen (tcp_lines sorter it_flows it_apps stats flows) = 1 + app_rows.
Proof. unfold tcp_lines, app_rows. cbv zeta. by destruct (app_protocols _ _ _). Qed.

Lemma zlen_flow_lines W budget sort :
  yields (flow_lines ip_str sorter it_flows flows W budget sort) (fun l => 1 <= zlen l <= Z.max 1 (budget - 2)).
Proof.
  unfold flow_lines. cbv zeta. set (n := Z.max 1 (budget - 2)).
  eapply yields_bind; [apply zlen_mapM|]. intros lines Hl. apply yields_ret.
  rewrite zlen_app, Hl. clear Hl.
  assert (Hz : zlen (top (sorter Flow) it_flows flows n sort) <= n).
  { unfold top, keep_best. destruct (Z.ltb_spec n (zlen (map snd (iterate it_flows (flows_ flows))))).
    - rewrite zlen_take. lia.
    - by rewrite (std_perm _ (sorted Flow)). }
  destruct (top _ _ _ _ _) as [|f fs]; autorewrite with zlen in *; [lia|]. pose proof (zlen_nonneg fs). lia.
Qed.

Lemma frame_lines_safe d :
  yields (frame_lines ip_str sorter it_flows it_apps d stats flows info) (Forall safe).
Proof.
  unfold frame_lines. cbv zeta. set (W := Z.to_nat (cols_ d)).
  eapply yields_bind; [apply safe_title|]. intros title Ht.
  eapply yields_bind; [apply safe_totals|]. intros totals Ho.
  eapply yields_bind; [apply safe_distribution|]. intros dist Hd.
  eapply yields_bind; [apply safe_throughput|]. intros thr Hr.
  eapply yields_bind; [apply safe_flow_lines|]. intros rows Hf. apply yields_ret.
  pose proof safe_drops. pose proof safe_tcp. pose proof (safe_flow_header W (sort_ d)).
  pose proof (safe_footer W). rewrite !Forall_app, !Forall_cons, !Forall_nil.
  split_and!; try done; try constructor. by apply Forall_replicate; constructor.
Qed.

Lemma frame_lines_height d :
  yields (frame_lines ip_str sorter it_flows it_apps d stats flows info)
    (fun lines => zlen lines = Z.max d.(rows_) (fixed_rows + 2)).
Proof.
  unfold frame_lines. cbv zeta. set (W := Z.to_nat (cols_ d)).
  eapply yields_bind; [apply yields_any|]. intros title _.
  eapply yields_bind; [apply yields_any|]. intros totals _.
  eapply yields_bind; [apply zlen_distribution|]. intros dist Hdl.
  eapply yields_bind; [apply zlen_throughput|]. intros thr Hrl. cbv beta in *.
  set (above := _ ++ _). assert (Hal : zlen above = fixed_rows).
  { subst above. unfold fixed_rows. rewrite !zlen_app, Hdl, Hrl, zlen_tcp.
    change (zlen (flow_header W (sort_ d))) with 2. autorewrite with zlen. lia. }
  clearbody above. eapply yields_bind; [apply zlen_flow_lines|]. intros rows Hfl. cbv beta in Hfl.
  apply yields_ret. rewrite !zlen_app, Hal in *.
  assert (Hp : forall k, zlen (replicate (Z.to_nat k) ([] : list byte)) = Z.max 0 k)
    by (intros; unfold zlen; rewrite length_replicate; lia).
  rewrite Hp. change (zlen [footer_line W]) with 1. lia.
Qed.

Lemma fixed_rows_bounds : 13 <= fixed_rows <= 20.
Proof.
  unfold fixed_rows, dist_rows, app_rows.
  assert (Hf : forall (f : ProtocolCount -> bool) l, 0 <= zlen (List.filter f l) <= zlen l).
  { intros f l. pose proof (zlen_nonneg (List.filter f l)). pose proof (List.filter_length_le f l). unfold zlen in *. lia. }
  set (dist := Statistics.protocol_distribution (sorter ProtocolCount) stats).
  assert (Hd : zlen dist = 5) by (subst dist; unfold Statistics.protocol_distribution; by rewrite (std_perm _ (sorted ProtocolCount))).
  pose proof (Hf (fun p => negb (pc_packets p =? 0)) dist) as Hn. rewrite Hd in Hn.
  destruct (_ =? 0), (app_protocols _ _ _); lia.
Qed.
End frame.

(** The frame a call of [render] leaves in [frame_]. *)
Lemma render_frame ip_str sorter it_flows it_apps ws d a info d' :
  d.(active_) = true -> render ip_str sorter it_flows it_apps ws d a info = Val d' ->
  exists lines,
    frame_lines ip_str sorter it_flows it_apps (query_size ws d) a.(stats_) a.(a_flows_) info = Val lines /\
    d'.(frame_) = kHome ++ concat (map push_line lines) /\
    d'.(rows_) = (query_size ws d).(rows_) /\ d'.(cols_) = (query_size ws d).(cols_).
Proof.
  unfold render. intros ->. simpl negb. cbv iota zeta.
  destruct (frame_lines _ _ _ _ _ _ _ _) as [lines|]; [|done]. intros [= <-]. by exists lines.
Qed.

Lemma clamp_bounds x lo hi : lo <= hi -> lo <= clamp x lo hi <= hi.
Proof. unfold clamp. repeat case_test; breflect; lia. Qed.

Lemma query_size_bounds ws d : 16 <= (query_size ws d).(rows_) <= 80 /\ 60 <= (query_size ws d).(cols_) <= 220.
Proof.
  unfold query_size. set (d0 := match ws with Some _ => _ | None => d end). cbn [rows_ cols_ set_field].
  split; apply clamp_bounds; lia.
Qed.

(** C11: Nothing from the network can steer the terminal. After any execution of
    the analyser on arbitrary frames, every frame the dashboard draws is the
    cursor-home sequence followed by lines that consist of printable ASCII, block
    elements and the eleven colour sequences of the source only, each ended by
    clear-to-end-of-line and CR LF: no byte of a packet, name or header reaches
    the terminal as a control character. And it can draw: none of the conversions
    to integers is out of range unless a time span reaches 2^31 seconds or a
    second carries 2^59 bytes. *)
Theorem render_no_injection `{HostOrder} ip_str sorter it_flows it_apps linktype tr c ws d info :
  execution ip_str (mkConfig (new_analyzer linktype) Idle) tr c -> Forall op_ok tr -> zlen tr < 2 ^ 64 - 1 ->
  (forall a, text_ok (ip_str a)) -> (forall A, std_sort (sorter A)) ->
  text_ok info.(i_source) -> text_ok info.(i_filter) -> text_ok info.(i_backend) ->
  d.(active_) = true ->
  (drawable c.(shared) -> exists d', render ip_str sorter it_flows it_apps ws d c.(shared) info = Val d') /\
  forall d', render ip_str sorter it_flows it_apps ws d c.(shared) info = Val d' ->
    exists lines, d'.(frame_) = kHome ++ concat (map push_line lines) /\ Forall safe lines.
Proof.
  intros He Hok Hlen Hip Hsort Hs Hf Hb Ha.
  destruct (execution_ok netscope_dissector netscope_dissector_laws ip_str linktype tr c He Hok Hlen) as [Hrun [Ht _ _ _] _ _ _].
  split; [by eapply render_total|]. intros d' Hr.
  destruct (render_frame _ _ _ _ _ _ _ _ _ Ha Hr) as (lines & E & -> & _). exists lines. split; [done|].
  by eapply (frame_lines_safe ip_str sorter it_flows it_apps).
Qed.

(** C39: The frame has the height of the terminal. For every state of the
    analyser, rendering pushes exactly as many lines as the terminal has rows
    (clamped to 16..80), or two more than the fixed sections take when those leave
    less room; with 22 rows or more it is always the number of rows. *)
Theorem render_height ip_str sorter it_flows it_apps ws d a info d' :
  (forall A, std_sort (sorter A)) -> d.(active_) = true ->
  render ip_str sorter it_flows it_apps ws d a info = Val d' ->
  exists lines,
    d'.(frame_) = kHome ++ concat (map push_line lines) /\
    zlen lines = Z.max d'.(rows_) (fixed_rows sorter it_apps a.(stats_) a.(a_flows_) + 2) /\
    16 <= d'.(rows_) <= 80 /\ 60 <= d'.(cols_) <= 220 /\ (22 <= d'.(rows_) -> zlen lines = d'.(rows_)).
Proof.
  intros Hsort Ha Hr. destruct (render_frame _ _ _ _ _ _ _ _ _ Ha Hr) as (lines & E & -> & Hrows & Hcols).
  pose proof (query_size_bounds ws d) as [Hb1 Hb2]. rewrite Hrows, Hcols.
  pose proof (frame_lines_height ip_str sorter it_flows it_apps Hsort _ _ _ _ _ E) as Hh.
  pose proof (fixed_rows_bounds sorter it_apps Hsort (stats_ a) (a_flows_ a)).
  cbv beta in Hh. exists lines. split_and!; try done; lia.
Qed.

(** A dashboard on a standard terminal. *)
Definition shown_dashboard : Dashboard := new_dashboard <| active_ := true |>.
Definition live_session : SessionInfo := mkSessionInfo (lit "eth0") (lit "tcp") (lit "libpcap") 262144 false.
Definition sorter0 (A : Type) : (A -> A -> bool) -> list A -> list A := merge_sorter.
Definition text0 (a : IpAddress) : list byte := lit "10.0.0.1".

(** Decidable forms of "it returns". *)
Definition returns {A} (m : mem A) (P : A -> bool) : bool := match m with Val a => P a | OOB => false end.
Lemma is_val {A} (m : mem A) : returns m (fun _ => true) = true -> exists a, m = Val a.
Proof. destruct m; [by eexists|done]. Qed.
Lemma is_val_and {A} (m : mem A) (f : A -> Z) z :
  returns m (fun a => f a =? z) = true -> exists a, m = Val a /\ f a = z.
Proof. destruct m as [a|]; [|done]. intros H%Z.eqb_eq. by exists a. Qed.

(** The analyser after a null frame. *)
Definition null_packet : DecodedPacket := packet_default <| wirelen := 60 |> <| error := Some "empty frame"%string |>.
Definition first_config : config :=
  let a := new_analyzer 1 in
  let a2 := a <| stats_ := Statistics.add text0 a.(stats_) null_packet |> in
  mkConfig (a2 <| a_flows_ := a2.(a_flows_) |> <| last_ts_ := null_frame.(c_ts) |>) Idle.

Lemma first_execution :
  execution (H := little_endian) text0 (mkConfig (new_analyzer 1) Idle) [Consume any_order null_frame] first_config.
Proof.
  apply (exec_snoc _ _ [] (mkConfig (new_analyzer 1) (Decoded null_frame false null_packet))
           (Some (Consume any_order null_frame))).
  - apply (exec_snoc _ _ [] (mkConfig (new_analyzer 1) Idle) None); [constructor|by constructor].
  - apply (t_commit _ any_order (new_analyzer 1) null_frame false null_packet (null_packet, None)). reflexivity.
Qed.

Lemma null_frame_ok : Forall op_ok [Consume any_order null_frame].
Proof. repeat constructor; vm_compute; intuition discriminate. Qed.

Lemma first_drawable : drawable first_config.(shared).
Proof.
  constructor.
  - exists 0. by vm_compute.
  - intros k f Hf. exfalso. revert Hf. vm_compute. discriminate.
  - unfold quiet_ring. apply Forall_forall. intros b Hb.
    assert (Hall : forallb (fun b => (0 <=? b.(bk_bytes)) && (b.(bk_bytes) <=? 2 ^ 59)) (Statistics.ring_ first_config.(shared).(stats_)) = true)
      by (vm_compute; reflexivity).
    rewrite forallb_forall in Hall. specialize (Hall b (proj1 (list_elem_of_In _ _) Hb)). lia.
Qed.

Lemma render_no_injection_witness :
  exists d' lines,
    render text0 sorter0 any_order any_order (Some (100, 30)) shown_dashboard first_config.(shared) live_session = Val d' /\
    d'.(frame_) = kHome ++ concat (map push_line lines) /\ Forall safe lines.
Proof.
  destruct (render_no_injection text0 sorter0 any_order any_order 1 [Consume any_order null_frame] first_config
              (Some (100, 30)) shown_dashboard live_session first_execution) as [Htotal Hsafe].
  - exact null_frame_ok.
  - reflexivity.
  - intros a. by apply text_lit.
  - intros A. apply merge_sorter_std.
  - by apply text_lit.
  - by apply text_lit.
  - by apply text_lit.
  - reflexivity.
  - destruct (Htotal first_drawable) as [d' Hr]. destruct (Hsafe d' Hr) as (lines & H1 & H2). by exists d', lines.
Defined.

Lemma render_height_witness :
  exists d' lines,
    render text0 sorter0 any_order any_order (Some (100, 24)) shown_dashboard (new_analyzer 1) live_session = Val d' /\
    d'.(frame_) = kHome ++ concat (map push_line lines) /\ zlen lines = 24.
Proof.
  assert (Hr : exists d', render text0 sorter0 any_order any_order (Some (100, 24)) shown_dashboard (new_analyzer 1) live_session = Val d'
                          /\ rows_ d' = 24) by (apply is_val_and; vm_compute; reflexivity).
  destruct Hr as (d' & Hr & Hrows). exists d'.
  destruct (render_height text0 sorter0 any_order any_order (Some (100, 24)) shown_dashboard (new_analyzer 1) live_session d')
    as (lines & H1 & _ & _ & _ & H2); [intros A; apply merge_sorter_std|reflexivity|exact Hr|].
  exists lines. split_and!; [done..|]. rewrite H2; lia.
Defined.

(** ** Keys and the terminal's settings *)

(** The footer's keys, and only they, have an effect. *)
Lemma poll_key_footer d :
  d.(active_) = true ->
  poll_key d (Some "q"%byte) = DashboardKey.Quit /\ poll_key d (Some "p"%byte) = DashboardKey.Pause /\
  poll_key d (Some "s"%byte) = DashboardKey.CycleSort /\ poll_key d (Some "r"%byte) = DashboardKey.Reset /\
  poll_key d None = DashboardKey.None /\ forall c, poll_key (d <| active_ := false |>) c = DashboardKey.None.
Proof. intros Ha. unfold poll_key. rewrite Ha. by split_and!. Qed.

(** Five presses of the sort key come back to the same order, visiting all. *)
Lemma cycle_sort_orbit d s :
  exists n, (n < 5)%nat /\ (Nat.iter n cycle_sort d).(sort_) = s.
Proof.
  assert (Hs : sort_ (cycle_sort d) = match sort_ d with
    FlowSort.Bytes => FlowSort.Packets | FlowSort.Packets => FlowSort.Retransmits
    | FlowSort.Retransmits => FlowSort.Rtt | FlowSort.Rtt => FlowSort.Recent | FlowSort.Recent => FlowSort.Bytes end) by done.
  destruct d as [r c a p [] f], s;
    ((by exists 0%nat; split; [lia|]) || (by exists 1%nat; split; [lia|]) || (by exists 2%nat; split; [lia|])
     || (by exists 3%nat; split; [lia|]) || (by exists 4%nat; split; [lia|])).
Qed.

(** [begin] followed by [end] gives the terminal its settings back, whatever the
    system answered, and leaves the alternate screen it entered. *)
Lemma terminal_restored tty_out tty_in getattr_ok ws d t :
  d.(active_) = false -> t.(g_termios_saved) = false ->
  let '(ok, d1, t1) := begin_ tty_out tty_in getattr_ok ws d t in
  let '(d2, t2) := end_ d1 t1 in
  t2.(settings) = t.(settings) /\ t2.(g_termios_saved) = false /\ d2.(active_) = false /\
  t2.(screen) = t.(screen) ++ (if ok then kAltScreenOn ++ kHideCursor ++ kClearScreen ++
                                          kShowCursor ++ kAltScreenOff ++ kReset else []).
Proof.
  intros Ha Hg. unfold begin_. destruct (negb tty_out || negb tty_in).
  - unfold end_. rewrite Ha. simpl. by rewrite app_nil_r.
  - unfold end_. destruct getattr_ok; cbn; rewrite ?Hg; cbn; (split_and!; [done..|]); by rewrite <-!app_assoc.
Qed.

(** [write] never claims more than it was offered. *)
Fixpoint answers_ok (size written : Z) (answers : list (Z * Z)) : Prop :=
  match answers with
  | [] => True
  | (n, _) :: answers => n <= size - written /\ answers_ok size (written + Z.max 0 n) answers
  end.

(** The write loop puts out a prefix of the frame; it ends early only at an
    error other than an interruption (or a write of nothing), and otherwise ends
    with the whole frame out. *)
Lemma write_loop_spec size answers : forall written,
  0 <= written <= size -> answers_ok size written answers ->
  let '(w, ended) := write_loop size written answers in
  written <= w <= size /\
  (Forall (fun a => 0 < a.1 \/ (a.1 < 0 /\ a.2 = 4)) answers -> ended = true -> w = size).
Proof.
  induction answers as [|[n errno] answers IH]; intros written Hw Ha; cbn [write_loop].
  - destruct (Z.leb_spec size written); (split; [lia|]); intros; [lia|done].
  - destruct Ha as [Hn Ha]. destruct (Z.leb_spec size written); [split; [lia|intros; lia]|].
    destruct (Z.ltb_spec 0 n) as [Hp|Hp].
    + rewrite Z.max_r in Ha by lia. specialize (IH (written + n) ltac:(lia) Ha).
      destruct (write_loop _ _ _) as [w ended]. destruct IH as [H1 H2]. split; [lia|].
      intros Hall. inversion Hall; subst. by apply H2.
    + destruct (Z.ltb_spec n 0), (Z.eqb_spec errno 4); cbn [andb].
      1: { rewrite Z.max_l, Z.add_0_r in Ha by lia. specialize (IH written Hw Ha).
           destruct (write_loop _ _ _) as [w ended]. destruct IH as [H1 H2]. split; [lia|].
           intros Hall. inversion Hall; subst. by apply H2. }
      all: split; [lia|]; intros Hall; inversion Hall as [|? ? [|[? ?]]]; simpl in *; subst; lia.
Qed.
