(* ===== verification/Report.v ===== *)
(** * Plain-text output

    The packet lines of text mode ([format_packet_line], src/parser.cpp, and the
    observer of src/main.cpp), the interface list (src/main.cpp) and the summary
    printed at the end (src/dashboard.cpp).  [ip_str] is the text form of an
    address and [localtime] the local hour, minute and second of a time stamp. *)

From S2P Require Import Prelude.
From S2P Require Import Machine.
From S2P Require Import Containers.
From S2P Require Import Protocol.
From S2P Require Import Parser.
From S2P Require Import ByteString.
From S2P Require Import Float.
From S2P Require Import Format.
From S2P Require Import Dissect.
From S2P Require Import Flow.
From S2P Require Import FlowTable.
From S2P Require Import Stats.
From S2P Require Import Analyzer.
From S2P Require Import Capture.
From S2P Require Import Dashboard.
#[local] Open Scope Z_scope.

Definition newline : list byte := [Byte.x0a].

(** ** Packet lines *)

Section packets.
Variable localtime : Z -> Z * Z * Z.
Variable ip_str : IpAddress -> list byte.

Definition clock_text (t : timeval) : list byte :=
  let '(hour, min, sec) := localtime t.(tv_sec) in
  snprintf 32 (dec_zero 2 hour ++ lit ":" ++ dec_zero 2 min ++ lit ":" ++ dec_zero 2 sec ++ lit "." ++
               dec_zero 6 t.(tv_usec)).

Definition port_text (p : DecodedPacket) (port : Z) : list byte :=
  if has_ports p then lit ":" ++ dec port else [].

Definition format_packet_line (p : DecodedPacket) : list byte :=
  let prefix := clock_text p.(ts) ++ lit " " in
  match p.(error) with
  | Some e => prefix ++ lit "[undecoded: " ++ lit e ++ lit "] " ++ dec p.(wirelen) ++ lit "B"
  | None =>
      if decide (p.(l3) = L3Proto.ARP) then prefix ++ lit "ARP " ++ dec p.(wirelen) ++ lit "B"
      else
        prefix ++
        lit (L4Proto_to_string p.(l4)) ++ lit " " ++ ip_str p.(src_ip) ++ port_text p p.(sport) ++
        lit " > " ++ ip_str p.(dst_ip) ++ port_text p p.(dport) ++
        (match p.(l4) with
         | L4Proto.TCP => lit " [" ++ lit (tcp_flag_string p) ++ lit "] seq=" ++ dec p.(seqno) ++
                          lit " win=" ++ dec p.(window)
         | L4Proto.ICMP | L4Proto.ICMPv6 =>
             lit " type=" ++ dec p.(icmp_type) ++ lit " code=" ++ dec p.(icmp_code)
         | _ => []
         end) ++
        lit " len=" ++ dec p.(payload_len) ++ lit " ttl=" ++ dec p.(ttl) ++
        (if p.(has_vlan) then lit " vlan=" ++ dec p.(vlan_id) else []) ++
        (if p.(fragmented) then lit " [frag]" else []) ++
        (if p.(bad_ip_checksum) then lit " [bad-cksum]" else []) ++
        (if p.(truncated) then lit " [trunc]" else [])
  end.

(** The observer of text mode: the line it puts. *)
Definition observer_line (e : event) : list byte :=
  let '(p, flow) := e in
  format_packet_line p ++
  (match flow with
   | Some f => if decide (f.(f_l4) = L4Proto.TCP) then lit " state=" ++ lit (TcpState_to_string f.(f_state)) else []
   | None => []
   end) ++
  (match flow with
   | Some f => if identified f.(f_app) then lit " [" ++ app_summary f ++ lit "]" else []
   | None => []
   end).
End packets.

(** ** The interface list *)

Definition interface_row (name ipv4 state notes : list byte) : list byte :=
  pad_right 16 name ++ lit " " ++ pad_right 18 ipv4 ++ lit " " ++ pad_right 8 state ++ lit " " ++ notes ++ newline.

Definition interface_line (i : InterfaceInfo) : list byte :=
  interface_row i.(if_name) (if str_empty i.(if_address) then lit "-" else i.(if_address))
    (if i.(is_up) then lit "up" else lit "down")
    ((if i.(is_loopback) then lit "loopback " else []) ++ i.(if_description)).

(** [do_list_interfaces()]: the exit code, what goes to standard output and what
    to standard error. *)
Definition do_list_interfaces (ntop : list byte -> list byte) (found : list byte + list pcap_if)
    : Z * list byte * list byte :=
  let '(ifaces, err) := list_interfaces ntop found in
  match ifaces with
  | [] => (1, [], lit "no interfaces found" ++ (if str_empty err then [] else lit ": ") ++ err ++ newline)
  | _ => (0, interface_row (lit "INTERFACE") (lit "IPV4") (lit "STATE") (lit "NOTES") ++
             concat (map interface_line ifaces), [])
  end.

(** ** The summary *)

Section summary.
Variable ip_str : IpAddress -> list byte.
Variable sorter : forall A, (A -> A -> bool) -> list A -> list A.
Variable it_flows : iteration FlowKey Flow.
Variable it_apps it_ports : iteration Z Z.
Variable it_talkers : iteration (list byte) Z.
Variables (stats : Statistics.t) (flows : FlowTable) (info : SessionInfo).

Definition summary_head : mem (list byte) :=
  duration ← human_duration (Statistics.elapsed_sec stats);
  pps ← to_u64 (Statistics.avg_pps stats);
  mret (newline ++ lit "==================== capture summary ====================" ++ newline ++
        lit "source              : " ++ info.(i_source) ++ lit " (" ++ info.(i_backend) ++ lit ")" ++ newline ++
        (match info.(i_filter) with [] => [] | f => lit "bpf filter          : " ++ f ++ newline end) ++
        lit "duration            : " ++ duration ++ newline ++
        lit "packets captured    : " ++ dec (Statistics.packets_ stats) ++ newline ++
        lit "bytes captured      : " ++ human_bytes (f64_of (Statistics.bytes_ stats)) ++
        lit " (" ++ dec (Statistics.bytes_ stats) ++ lit " B)" ++ newline ++
        lit "average throughput  : " ++ human_rate_bits (Statistics.avg_bps stats) ++ lit "  (" ++ dec pps ++
        lit " pps)" ++ newline ++
        (if negb (Statistics.kernel_dropped_ stats =? 0) || negb (Statistics.if_dropped_ stats =? 0) then
           lit "dropped             : " ++ dec (Statistics.kernel_dropped_ stats) ++ lit " kernel, " ++
           dec (Statistics.if_dropped_ stats) ++ lit " interface" ++ newline
         else []) ++
        (if negb (Statistics.decode_errors_ stats =? 0) || negb (Statistics.truncated_ stats =? 0) ||
            negb (Statistics.bad_checksums_ stats =? 0) then
           lit "anomalies           : " ++ dec (Statistics.decode_errors_ stats) ++ lit " undecoded, " ++
           dec (Statistics.truncated_ stats) ++ lit " truncated, " ++ dec (Statistics.bad_checksums_ stats) ++
           lit " bad IPv4 checksums, " ++ dec (Statistics.fragments_ stats) ++ lit " fragments" ++ newline
         else [])).

Definition protocol_row (total : f64) (p : ProtocolCount) : list byte :=
  snprintf 128
    (lit "  " ++ pad_right 6 (lit p.(pc_name)) ++ lit " " ++ pad_left 8 (dec p.(pc_packets)) ++ lit " pkts  " ++
     pad_left 6 (fixed 2 (fdiv (fmul (f64_of 100) (f64_of p.(pc_packets))) total)) ++ lit "%  " ++
     pad_left 10 (human_bytes (f64_of p.(pc_bytes))) ++ newline).

Definition summary_protocols : list byte :=
  let total := f64_of (Z.max (Statistics.packets_ stats) 1) in
  newline ++ lit "protocol distribution" ++ newline ++
  concat (map (protocol_row total)
    (List.filter (fun p => negb (p.(pc_packets) =? 0))
       (Statistics.protocol_distribution (sorter ProtocolCount) stats))).

Definition summary_tcp : list byte :=
  let mean_rtt := mean_rtt_ms it_flows flows in
  newline ++ lit "tcp" ++ newline ++
  lit "  flows tracked     : " ++ dec flows.(next_id_) ++ lit " (" ++ dec (table_size flows) ++
  lit " still active)" ++ newline ++
  lit "  established now   : " ++ dec (active_tcp it_flows flows) ++ newline ++
  lit "  syn/fin/rst       : " ++ dec (Statistics.tcp_syn_ stats) ++ lit " / " ++ dec (Statistics.tcp_fin_ stats) ++
  lit " / " ++ dec (Statistics.tcp_rst_ stats) ++ newline ++
  snprintf 128
    (lit "  retransmissions   : " ++ dec flows.(total_retransmits_) ++ lit " of " ++
     dec flows.(total_data_segments_) ++ lit " data segments (" ++ fixed 2 (retransmit_percent flows) ++ lit "%)" ++ newline) ++
  lit "  out-of-order      : " ++ dec flows.(total_out_of_order_) ++ lit " segments" ++ newline ++
  (if 0 <? flows.(total_reassembled_bytes_) then
     lit "  stream reassembly : " ++ human_bytes (f64_of flows.(total_reassembled_bytes_)) ++
     lit " delivered in order" ++ newline
   else []) ++
  (if fle f0 mean_rtt then
     snprintf 128 (lit "  round-trip time   : " ++ fixed 2 mean_rtt ++ lit " ms mean over " ++
                   dec flows.(total_rtt_samples_) ++ lit " samples" ++ newline)
   else []).

(** A titled table, left out when it has no rows. *)
Definition titled {A} (title : string) (row : A -> list byte) (rows : list A) : list byte :=
  match rows with [] => [] | _ => newline ++ lit title ++ newline ++ concat (map row rows) end.

Definition app_row (pc : Z * Z) : list byte :=
  snprintf 64 (lit "  " ++ pad_right 8 (app_name pc.1) ++ lit " " ++ pad_left 6 (dec pc.2) ++ lit " flows" ++ newline).

Definition port_row (pb : Z * Z) : list byte :=
  let svc := match service_name pb.1 L4Proto.TCP with
             | Some s => Some s
             | None => service_name pb.1 L4Proto.UDP
             end in
  snprintf 96 (lit "  " ++ pad_right 6 (dec pb.1) ++ lit " " ++ pad_right 12 (lit (default "-"%string svc)) ++ lit " " ++
               pad_left 10 (human_bytes (f64_of pb.2)) ++ newline).

Definition talker_row (ab : list byte * Z) : list byte :=
  snprintf 128 (lit "  " ++ pad_right 42 ab.1 ++ lit " " ++ pad_left 10 (human_bytes (f64_of ab.2)) ++ newline).

Definition flow_row (f : Flow) : list byte :=
  snprintf 288
    (lit "  " ++ pad_right 5 (lit (L4Proto_to_string f.(f_l4))) ++ lit " " ++ pad_right 46 (label ip_str f) ++ lit " " ++
     pad_right 12 (lit (TcpState_to_string f.(f_state))) ++ lit " " ++ pad_left 7 (dec (f_packets f)) ++ lit " pkts " ++
     pad_left 9 (human_bytes (f64_of (f_bytes f))) ++ lit " retx=" ++ pad_right 4 (dec (f_retransmits f)) ++
     lit " rtt=" ++ pad_right 8 (rtt_text (best_rtt_ms f)) ++ lit " " ++ app_summary f ++ newline).

Definition print_summary : mem (list byte) :=
  head ← summary_head;
  mret (head ++ summary_protocols ++ summary_tcp ++
        titled "application protocols identified" app_row (app_protocols (sorter (Z * Z)) it_apps flows) ++
        titled "top service ports by volume" port_row (Statistics.top_ports (sorter (Z * Z)) it_ports stats 5) ++
        titled "top talkers by bytes sent" talker_row (Statistics.top_talkers (sorter (list byte * Z)) it_talkers stats 5) ++
        titled "top flows by bytes" flow_row (top (sorter Flow) it_flows flows 10 FlowSort.Bytes) ++
        lit "=========================================================" ++ newline).
End summary.
