(* ===== verification/ReportSpec.v ===== *)
(** * What text mode prints

    Packet lines and the final summary consist of printable characters and the
    line ends of the program, whatever the network sends. *)

From S2P Require Import Prelude.
From S2P Require Import Machine.
From S2P Require Import Containers.
From S2P Require Import Protocol.
From S2P Require Import Parser.
From S2P Require Import ParserSafe.
From S2P Require Import ByteString.
From S2P Require Import Float.
From S2P Require Import Format.
From S2P Require Import Dissect.
From S2P Require Import DissectSafe.
From S2P Require Import Flow.
From S2P Require Import FlowTable.
From S2P Require Import TableSpec.
From S2P Require Import Stats.
From S2P Require Import StatsSpec.
From S2P Require Import Analyzer.
From S2P Require Import AnalyzerSpec.
From S2P Require Import Capture.
From S2P Require Import Dashboard.
From S2P Require Import DashboardRange.
From S2P Require Import DashboardSpec.
From S2P Require Import Report.
#[local] Open Scope Z_scope.

(** ** Decoder errors are texts of the program *)

Definition error_text (p : DecodedPacket) : Prop := forall e, p.(error) = Some e -> text_ok (lit e).

Lemma error_text_none p : p.(error) = None -> error_text p.
Proof. intros E e. by rewrite E. Qed.
Lemma error_text_set p e : text_ok (lit e) -> error_text (p <| error := Some e |>).
Proof. intros Ht e' [= <-]. done. Qed.
Lemma error_text_eq p q : q.(error) = p.(error) -> error_text p -> error_text q.
Proof. unfold error_text. by intros ->. Qed.

Lemma yields_if {A} (b : bool) (x y : mem A) P : yields x P -> yields y P -> yields (if b then x else y) P.
Proof. by destruct b. Qed.

(** One step through the decoder: only the updates of [error] matter. *)
Ltac error_step :=
  cbv zeta;
  match goal with
  | |- yields (mret _) _ =>
      apply yields_ret; cbn [snd fst];
      solve [ by apply error_text_set, text_lit | eapply error_text_eq; [|eassumption]; reflexivity ]
  | |- yields (if _ then _ else _) _ => apply yields_if
  | |- yields (match take ?c ?n with _ => _ end) _ => destruct (take c n) as [[?|] ?]
  | |- yields (match skip ?c ?n with _ => _ end) _ => destruct (skip c n) as [[] ?]
  end.

Section errors.
Context `{HostOrder}.
Variable m : list byte.

Lemma decode_l4_error cur out : error_text out -> yields (decode_l4 m cur out) (fun r => error_text r.2).
Proof.
  intros Ho. unfold decode_l4.
  repeat first [error_step | eapply yields_bind; [apply yields_any|]; intros ? _].
Qed.

Lemma ipv6_walk_error hops : forall cur next out,
  error_text out -> yields (ipv6_walk m hops cur next out) (fun r => error_text r.2).
Proof.
  induction hops as [|hops IH]; intros cur next out Ho; cbn [ipv6_walk]; [by apply yields_ret|].
  repeat first [error_step | apply IH; (eapply error_text_eq; [|eassumption]; reflexivity)
               | eapply yields_bind; [apply yields_any|]; intros ? _].
Qed.

(** Closes a goal about a packet that differs in other fields only. *)
Ltac same_error := eapply error_text_eq; [|eassumption]; reflexivity.

Lemma decode_ipv4_error cur out : error_text out -> yields (decode_ipv4 m cur out) (fun r => error_text r.2).
Proof.
  intros Ho. unfold decode_ipv4. error_step; [|error_step].
  eapply yields_bind; [apply yields_any|]. intros ip _. error_step; [error_step|]. error_step; [error_step|].
  eapply (yields_bind _ _ error_text).
  - cbv zeta. apply yields_if; [eapply yields_bind; [apply yields_any|]; intros ck _|]; apply yields_ret; same_error.
  - clear out Ho. intros out Ho. error_step; [|error_step]. error_step; [error_step|by apply decode_l4_error].
Qed.

Lemma decode_ipv6_error cur out : error_text out -> yields (decode_ipv6 m cur out) (fun r => error_text r.2).
Proof.
  intros Ho. unfold decode_ipv6. error_step; [|error_step].
  eapply yields_bind; [apply yields_any|]. intros ip _. error_step; [error_step|]. cbv zeta.
  eapply (yields_bind _ _ (fun r => error_text r.2)); [apply ipv6_walk_error; same_error|].
  clear out Ho. intros [[next cur'] out] Ho. cbn [snd] in Ho. error_step; [error_step|]. error_step; [error_step|].
  apply decode_l4_error. same_error.
Qed.

Lemma unwrap_vlan_error n : forall cur ety out,
  error_text out -> yields (unwrap_vlan m n cur ety out) (fun r => error_text r.2).
Proof.
  induction n as [|n IH]; intros cur ety out Ho; cbn [unwrap_vlan]; [by apply yields_ret|].
  error_step; [|error_step]. error_step; [|error_step].
  eapply yields_bind; [apply yields_any|]. intros vlan _. cbv zeta. apply IH. same_error.
Qed.

Lemma decode_l2_error linktype cur out :
  error_text out -> yields (decode_l2 m linktype cur out) (fun r => error_text r.2).
Proof.
  intros Ho. unfold decode_l2. cbv zeta.
  destruct (LinkType.of_int linktype) as [[]|]; try error_step; try error_step;
    try (eapply yields_bind; [apply yields_any|]; intros ? _; try error_step).
  cbv zeta. eapply (yields_bind _ _ (fun r => error_text r.2)); [apply unwrap_vlan_error; same_error|].
  clear out Ho. intros [[[cur' ety]|] out] Ho; cbn [snd] in Ho; error_step.
Qed.

Lemma decode_l3_error cur ety out : error_text out -> yields (decode_l3 m cur ety out) (fun r => error_text r.2).
Proof.
  intros Ho. unfold decode_l3. error_step; [error_step|]. apply yields_if; [by apply decode_ipv4_error|].
  apply yields_if; [by apply decode_ipv6_error|error_step].
Qed.
End errors.

Lemma decode_packet_error `{HostOrder} data caplen wirelen t linktype :
  yields (decode_packet data caplen wirelen t linktype) (fun r => error_text r.2).
Proof.
  unfold decode_packet. cbv zeta. destruct data as [m|]; [|error_step]. error_step; [error_step|].
  eapply (yields_bind _ _ (fun r => error_text r.2)).
  - apply decode_l2_error. by apply error_text_none.
  - intros [[[cur ety]|] out] Ho; cbn [snd] in Ho; [by apply decode_l3_error|error_step].
Qed.

(** ** Packet lines *)

Section lines.
Variable localtime : Z -> Z * Z * Z.
Variable ip_str : IpAddress -> list byte.
Hypothesis ip_text : forall a, text_ok (ip_str a).

Lemma text_flags p : text_ok (lit (tcp_flag_string p)).
Proof.
  unfold tcp_flag_string. destruct (l4 p); try (by apply text_lit).
  repeat match goal with |- context [has_flag ?f ?b] => destruct (has_flag f b) end; by apply text_lit.
Qed.

Lemma text_clock t : text_ok (clock_text localtime t).
Proof. unfold clock_text. destruct (localtime _) as [[? ?] ?]. text_safe. Qed.

Lemma text_ports p port : text_ok (port_text p port).
Proof. unfold port_text. text_safe. Qed.
#[local] Hint Resolve text_flags text_clock text_ports : safe.

Lemma text_packet_line p : error_text p -> text_ok (format_packet_line localtime ip_str p).
Proof.
  intros He. unfold format_packet_line. cbv zeta. destruct (error p) as [e|] eqn:E.
  - specialize (He e E). text_safe.
  - case_decide; [text_safe|]. text_safe; [destruct (l4 p); by apply text_lit|].
    destruct (l4 p); text_safe.
Qed.

Lemma text_observer p flow :
  error_text p -> (forall f, flow = Some f -> identified f.(f_app) = true -> info_ok f.(f_app)) ->
  text_ok (observer_line localtime ip_str (p, flow)).
Proof.
  intros Hp Hf. unfold observer_line. pose proof (text_packet_line p Hp). text_safe.
  - destruct flow as [f|]; [|constructor]. case_decide; [|constructor].
    apply text_app; [by apply text_lit|]. destruct (f_state f); by apply text_lit.
  - destruct flow as [f|]; [|constructor]. pose proof (text_summary_of f (Hf f eq_refl)). text_safe.
Qed.
End lines.

(** The flow the observer is shown is one of the table after the update. *)
Lemma commit_event (D : Dissector) (DL : DissectorLaws D) ip_str it n a f ok pkt ev a' :
  analyzer_ok n a -> n < 2 ^ 64 - 1 ->
  (ok = true -> payload_ok (zlen (default [] f.(c_data))) pkt /\ pkt.(payload_len) < 2 ^ 32) ->
  commit ip_str it a f ok pkt = Val (ev, a') ->
  ev.1 = pkt /\ forall fl, ev.2 = Some fl -> identified fl.(f_app) = true -> info_ok fl.(f_app).
Proof.
  intros [Ht Hr Hi Hp] Hn Hok. unfold commit. destruct ok; [|by intros [= <- <-]].
  destruct (Hok eq_refl) as [Hpay Hlen]. cbn [a_flows_ set_field].
  destruct (update_total D DL (default [] (c_data f)) it (a_flows_ a) pkt Hr Hpay Hlen) as (r & t' & E & Hpost).
  destruct (table_step_ok D DL (a_flows_ a) t') as [Ht' _]; [|done..|].
  { pose proof (tk_next _ Ht). eapply step_update; [exact Hpay|done|lia|exact E]. }
  rewrite E. intros [= <- <-]. split; [done|]. cbn [snd]. intros fl ->.
  case_decide; [|by destruct Hpost]. destruct Hpost as (f' & [= ->] & Hu).
  destruct (up_room _ _ _ _ Hu) as (base & _ & Hb).
  apply (tk_flows _ Ht' (make_flow_key pkt).1 f'). by rewrite Hb, lookup_insert_eq.
Qed.

(** ** The summary *)

(** Printable characters and line feeds. *)
Definition clean (s : list byte) : Prop := Forall (fun b => printable b = true \/ b = Byte.x0a) s.

Lemma clean_text s : text_ok s -> clean s.
Proof. intros Hs. eapply Forall_impl; [exact Hs|]. by left. Qed.
Lemma clean_newline : clean newline. Proof. constructor; [by right|constructor]. Qed.
Lemma clean_app s t : clean s -> clean t -> clean (s ++ t).
Proof. intros. by apply Forall_app. Qed.
Lemma clean_snprintf n s : clean s -> clean (snprintf n s).
Proof. apply Forall_take. Qed.
Lemma clean_nil : clean []. Proof. constructor. Qed.
Lemma clean_concat l : Forall clean l -> clean (concat l).
Proof. induction 1; simpl; [constructor|by apply clean_app]. Qed.
Lemma clean_titled {A} title (row : A -> list byte) rows :
  text_ok (lit title) -> (forall x, x ∈ rows -> clean (row x)) -> clean (titled title row rows).
Proof.
  intros Ht Hr. unfold titled. destruct rows as [|x rows]; [constructor|].
  apply clean_app; [apply clean_newline|]. apply clean_app; [by apply clean_text|].
  apply clean_app; [apply clean_newline|].
  apply clean_concat, Forall_map, Forall_forall. exact Hr.
Qed.

Ltac clean_line :=
  repeat match goal with
  | |- clean (_ ++ _) => apply clean_app
  | |- clean (snprintf _ _) => apply clean_snprintf
  | |- clean newline => apply clean_newline
  | |- clean [] => apply clean_nil
  | |- clean (if _ then _ else _) => case_test
  end; try (apply clean_text; solve [text_safe]).

Lemma text_service port : text_ok (lit (default "-"%string
  (match service_name port L4Proto.TCP with Some s => Some s | None => service_name port L4Proto.UDP end))).
Proof.
  unfold service_name. repeat match goal with |- context [if ?b then _ else _] => destruct b end;
    by apply text_lit.
Qed.

Section summary.
Variable ip_str : IpAddress -> list byte.
Variable sorter : forall A, (A -> A -> bool) -> list A -> list A.
Variable it_flows : iteration FlowKey Flow.
Variable it_apps it_ports : iteration Z Z.
Variable it_talkers : iteration (list byte) Z.
Variables (stats : Statistics.t) (flows : FlowTable) (info : SessionInfo).
Hypothesis ip_text : forall a, text_ok (ip_str a).
Hypothesis sorted : forall A, std_sort (sorter A).
Hypothesis flows_ok : table_ok flows.
Hypothesis source_text : text_ok info.(i_source) /\ text_ok info.(i_filter) /\ text_ok info.(i_backend).
Hypothesis talkers_text : forall a n, Statistics.talker_bytes_ stats !! a = Some n -> text_ok a.

Lemma clean_head : yields (summary_head stats info) clean.
Proof.
  destruct source_text as (Hs & Hf & Hb). unfold summary_head.
  eapply yields_bind; [apply text_human_duration|]. intros d Hd. eapply yields_bind; [apply yields_any|].
  intros pps _. apply yields_ret. clean_line. destruct (i_filter info); clean_line.
Qed.

Lemma clean_protocols : clean (summary_protocols sorter stats).
Proof.
  unfold summary_protocols. cbv zeta. clean_line. apply clean_concat, Forall_map, List.Forall_forall.
  intros p [Hp _]%filter_In. unfold Statistics.protocol_distribution in Hp.
  eapply Permutation_in in Hp; [|apply std_perm, sorted]. unfold protocol_row.
  repeat (destruct Hp as [<-|Hp]; [clean_line; by apply clean_text, text_pad_right, text_lit|]). destruct Hp.
Qed.

Lemma clean_tcp : clean (summary_tcp it_flows stats flows).
Proof. unfold summary_tcp. cbv zeta. clean_line. Qed.

Lemma keep_best_members {A} cmp n (l : list A) x : x ∈ keep_best (sorter A) cmp n l -> x ∈ l.
Proof.
  unfold keep_best. intros Hx. rewrite <-(std_perm _ (sorted A) cmp l). destruct (n <? zlen l); [|done].
  eapply elem_of_take in Hx as (? & ? & _). by eapply list_elem_of_lookup_2.
Qed.

Lemma print_summary_clean :
  yields (print_summary ip_str sorter it_flows it_apps it_ports it_talkers stats flows info) clean.
Proof.
  unfold print_summary. eapply yields_bind; [apply clean_head|]. intros head Hh. apply yields_ret.
  pose proof clean_protocols. pose proof clean_tcp.
  do 3 (apply clean_app; [done|]).
  apply clean_app; [apply clean_titled; [by apply text_lit|]|].
  { intros pc _. unfold app_row. clean_line. apply clean_text, text_pad_right, text_app_name. }
  apply clean_app; [apply clean_titled; [by apply text_lit|]|].
  { intros pb _. unfold port_row. cbv zeta. clean_line. apply clean_text, text_pad_right, text_service. }
  apply clean_app; [apply clean_titled; [by apply text_lit|]|].
  { intros [a n] Ha%keep_best_members. rewrite iterate_perm in Ha. apply elem_of_map_to_list in Ha.
    pose proof (talkers_text a n Ha). unfold talker_row. clean_line. }
  apply clean_app; [apply clean_titled; [by apply text_lit|]|].
  { intros f Hf. destruct (top_members sorter it_flows sorted flows 10 FlowSort.Bytes f Hf) as [k Hk].
    pose proof (text_app_summary flows flows_ok k f Hk). pose proof (text_label ip_str ip_text f).
    unfold flow_row. clean_line; apply clean_text, text_pad_right;
      [destruct (f_l4 f)|destruct (f_state f)]; by apply text_lit. }
  clean_line.
Qed.
End summary.

(** The talkers the statistics know are printed addresses. *)
Definition talkers_ok (s : Statistics.t) : Prop :=
  forall a n, Statistics.talker_bytes_ s !! a = Some n -> text_ok a.

Section talkers.
Context `{HostOrder}.
Variable ip_str : IpAddress -> list byte.
Hypothesis ip_text : forall a, text_ok (ip_str a).

Lemma add_talkers s p : talkers_ok s -> talkers_ok (Statistics.add ip_str s p).
Proof.
  intros Hs a n. rewrite add_split, tally_talkers, capture_talkers.
  destruct (talker_of ip_str p) as [k|] eqn:E; [|apply Hs]. unfold talker_of in E.
  case_match; [|done]. injection E as <-. unfold map_add. rewrite lookup_insert_Some. intros [[<- _]|[_ Hl]]; [apply ip_text|by eapply Hs].
Qed.

Lemma run_ops_talkers `{Dissector} ops a a' :
  talkers_ok a.(stats_) -> run_ops ip_str a ops = Val a' -> talkers_ok a'.(stats_).
Proof.
  intros Ha. apply (run_ops_stats _ ip_str (fun _ => talkers_ok)) with (n := 0); try done.
  intros n s p _. apply add_talkers.
Qed.
End talkers.

(** The average rate fits the integer it is printed as. *)
Definition rate_ok (s : Statistics.t) : Prop := exists n, to_u64 (Statistics.avg_pps s) = Val n.

Lemma print_summary_total ip_str sorter it_flows it_apps it_ports it_talkers stats flows info :
  span_ok (Statistics.elapsed_sec stats) -> rate_ok stats ->
  exists out, print_summary ip_str sorter it_flows it_apps it_ports it_talkers stats flows info = Val out.
Proof.
  intros Hs [n Hn]. unfold print_summary, summary_head. destruct (duration_total _ Hs) as [d ->].
  cbn [mbind mem_bind]. rewrite Hn. by eexists.
Qed.

(** C40: Text mode cannot be abused either. After any execution of the analyser
    on arbitrary frames, the summary is made of printable ASCII and line feeds
    (and it is printed, if the duration and the average rate fit the integers they
    are printed as), and any further frame, whether it decodes or not and whether
    it has a flow or not, is consumed and its line is printable ASCII throughout:
    one frame is always one line. *)
Theorem text_output_no_injection `{HostOrder} localtime ip_str sorter it_flows it_apps it_ports it_talkers
    linktype tr c info :
  execution ip_str (mkConfig (new_analyzer linktype) Idle) tr c -> Forall op_ok tr -> zlen tr < 2 ^ 64 - 1 ->
  (forall a, text_ok (ip_str a)) -> (forall A, std_sort (sorter A)) ->
  text_ok info.(i_source) -> text_ok info.(i_filter) -> text_ok info.(i_backend) ->
  let summary := print_summary ip_str sorter it_flows it_apps it_ports it_talkers
                   c.(shared).(stats_) c.(shared).(a_flows_) info in
  (span_ok (Statistics.elapsed_sec c.(shared).(stats_)) -> rate_ok c.(shared).(stats_) ->
   exists out, summary = Val out) /\
  (forall out, summary = Val out -> clean out) /\
  (forall it f, frame_ok f -> exists ev a',
     consume ip_str it c.(shared) f = Val (ev, a') /\ text_ok (observer_line localtime ip_str ev)).
Proof.
  intros He Hok Hlen Hip Hsort Hs Hf Hb summary.
  destruct (execution_ok netscope_dissector netscope_dissector_laws ip_str linktype tr c He Hok Hlen) as [Hrun Ha _ _ _].
  split_and!.
  - apply print_summary_total.
  - intros out Hout. eapply (print_summary_clean ip_str sorter it_flows it_apps it_ports it_talkers); try done.
    + by destruct Ha.
    + eapply (run_ops_talkers ip_str Hip); [|exact Hrun]. intros a n.
      change (Statistics.talker_bytes_ (stats_ (new_analyzer linktype))) with (∅ : gmap (list byte) Z).
      by rewrite lookup_empty.
  - intros it f Hfr. destruct (decode_frame_total (linktype_ (shared c)) f Hfr) as (ok & pkt & E & Hpay).
    destruct (commit_total _ netscope_dissector_laws ip_str it _ _ f ok pkt Ha Hlen Hpay) as (ev & a' & Hc & _).
    exists ev, a'. unfold consume. rewrite E. cbn [mbind mem_bind]. split; [exact Hc|].
    destruct (commit_event netscope_dissector netscope_dissector_laws _ it _ _ f ok pkt ev a' Ha Hlen Hpay Hc) as [Hev Hfl].
    destruct ev as [p fl]. cbn [fst snd] in *. subst p. apply text_observer; [done| |done].
    exact (decode_packet_error _ _ _ _ _ _ E).
Qed.

Lemma text_output_no_injection_witness :
  exists out, print_summary text0 sorter0 any_order any_order any_order any_order
    first_config.(shared).(stats_) first_config.(shared).(a_flows_) live_session = Val out /\ clean out.
Proof.
  destruct (text_output_no_injection (fun _ => (0, 0, 0)) text0 sorter0 any_order any_order any_order any_order 1
    [Consume any_order null_frame] first_config live_session first_execution null_frame_ok) as (Ht & Hs & _);
    [reflexivity|intros a; by apply text_lit|intros A; apply merge_sorter_std|by apply text_lit..|].
  destruct Ht as [out Ho]; [apply first_drawable|exists 0; by vm_compute|].
  exists out. split; [exact Ho|by apply Hs].
Defined.
