(* ===== verification/Options.v ===== *)
(** * The command line (src/main.cpp)

    The number conversions of the C library on the text of an argument
    ([strtoull], [atoi], [strtod]; [atoi] of a number outside [int] is undefined)
    and the option parser, argument by argument as the loop reads them. *)

From S2P Require Import Prelude.
From S2P Require Import Machine.
From S2P Require Import ByteString.
From S2P Require Import Float.
From S2P Require Import Protocol.
From S2P Require Import Analyzer.
From S2P Require Import Capture.
#[local] Open Scope Z_scope.

(** ** Numbers in text *)

(** [isspace] in the C locale. *)
Definition is_space (b : byte) : bool := (bval b =? 32) || ((9 <=? bval b) && (bval b <=? 13)).

Fixpoint skip_spaces (s : list byte) : list byte :=
  match s with b :: s' => if is_space b then skip_spaces s' else s | [] => [] end.

(** An optional sign: whether it is a minus, and the rest. *)
Definition read_sign (s : list byte) : bool * list byte :=
  match s with
  | b :: s' => if Byte.eqb b "-"%byte then (true, s') else if Byte.eqb b "+"%byte then (false, s') else (false, s)
  | [] => (false, [])
  end.

Definition digit_value (b : byte) : option Z :=
  if (48 <=? bval b) && (bval b <=? 57) then Some (bval b - 48) else None.

Definition hex_value (b : byte) : option Z :=
  match digit_value b with
  | Some d => Some d
  | None => let c := bval (tolower b) in if (97 <=? c) && (c <=? 102) then Some (c - 87) else None
  end.

(** The digits a text starts with: their value from [acc] on, how many there
    are, and the rest. *)
Section digits.
Variables (base : Z) (value : byte -> option Z).
Fixpoint read_base (acc : Z) (s : list byte) : Z * Z * list byte :=
  match s with
  | b :: s' =>
      match value b with
      | Some d => let '(v, n, rest) := read_base (acc * base + d) s' in (v, n + 1, rest)
      | None => (acc, 0, s)
      end
  | [] => (acc, 0, [])
  end.

(** Digits with a fraction: the value without the point, the number of digits,
    how many of them follow the point, and the rest. *)
Definition read_mantissa (s : list byte) : Z * Z * Z * list byte :=
  let '(v, n, rest) := read_base 0 s in
  match rest with
  | b :: rest' =>
      if Byte.eqb b "."%byte then
        let '(v', k, rest') := read_base v rest' in
        if n + k =? 0 then (0, 0, 0, s) else (v', n + k, k, rest')
      else (v, n, 0, rest)
  | [] => (v, n, 0, [])
  end.
End digits.
Definition read_digits : Z -> list byte -> Z * Z * list byte := read_base 10 digit_value.

(** A signed decimal integer; 0 when there are no digits. *)
Definition read_integer (s : list byte) : bool * Z :=
  let '(neg, s) := read_sign (skip_spaces s) in (neg, (read_digits 0 s).1.1).

(** [strtoull(s, nullptr, 10)]: out of range is [ULLONG_MAX]; a minus negates
    in the unsigned type. *)
Definition strtoull (s : list byte) : Z :=
  let '(neg, v) := read_integer s in
  if 2 ^ 64 <=? v then 2 ^ 64 - 1 else if neg then u64 (- v) else v.

Definition atoi (s : list byte) : mem Z :=
  let '(neg, v) := read_integer s in
  let v := if neg then - v else v in
  if (- 2 ^ 31 <=? v) && (v <? 2 ^ 31) then Val v else OOB.

(** The double nearest to [m * 10^e] (correctly rounded: the quotient keeps a
    sticky bit far below the last place). *)
Definition f64_decimal (m e : Z) : f64 :=
  if 0 <=? e then f64_of (m * 10 ^ e)
  else
    let d := 10 ^ (- e) in
    let k := Z.max 0 (Z.log2 d - Z.log2 m + 66) in
    let q := Z.shiftl m k / d in
    f64_dyadic (2 * q + (if Z.shiftl m k mod d =? 0 then 0 else 1)) (- k - 1).

(** An exponent part that starts with [letter], if one is there. *)
Definition read_exponent (letter : byte) (s : list byte) : Z :=
  match s with
  | b :: s' =>
      if Byte.eqb (tolower b) letter then
        let '(neg, s') := read_sign s' in
        let '(v, n, _) := read_digits 0 s' in if n =? 0 then 0 else if neg then - v else v
      else 0
  | [] => 0
  end.

(** [strtod(s, nullptr)]: a decimal or hexadecimal number, an infinity or a NaN;
    0 when there is no number. *)
Definition strtod (s : list byte) : f64 :=
  let '(neg, s) := read_sign (skip_spaces s) in
  let signed x := if neg then SpecFloat.SFopp x else x in
  let decimal_number :=
    let '(v, _, frac, rest) := read_mantissa 10 digit_value s in
    signed (f64_decimal v (read_exponent "e"%byte rest - frac)) in
  if is_prefix_nocase (lit "inf") s then signed (SpecFloat.S754_infinity false)
  else if is_prefix_nocase (lit "nan") s then SpecFloat.S754_nan
  else if is_prefix_nocase (lit "0x") s then
    let '(v, n, frac, rest) := read_mantissa 16 hex_value (skipn 2 s) in
    if n =? 0 then decimal_number else signed (f64_dyadic v (read_exponent "p"%byte rest - 4 * frac))
  else decimal_number.

(** ** Options *)

Record Options := mkOptions {
  capture_cfg : CaptureConfig;
  backend : list byte;
  max_packets : Z;
  expire_sec : f64;
  text_mode : bool;
  quiet : bool;
  list_mode : bool;             (* list_interfaces *)
  dissect : bool;
  write_path : list byte;
}.
#[export] Instance Options_eta : Eta Options := fun o =>
  mkOptions o.(capture_cfg) o.(backend) o.(max_packets) o.(expire_sec) o.(text_mode) o.(quiet)
    o.(list_mode) o.(dissect) o.(write_path).
Definition options_default : Options :=
  mkOptions config_default (lit "pcap") 0 (f64_of 120) false false false true [].

(** Why [parse_options] returns false, with what goes to the terminal. *)
Inductive refusal :=
| Usage
| NeedsValue (flag : string)
| SnaplenTooSmall
| BadBackend
| UnknownOption (arg : list byte).

(** [exit_code] *)
Definition refusal_code (r : refusal) : Z := match r with Usage => 0 | _ => 2 end.

(** One turn of the loop: the options so far with whether the next argument was
    consumed as a value, or the refusal. *)
Definition parsed : Type := (Options * bool) + refusal.

(** [need_value(i, flag)] followed by [k]. *)
Definition need_value (next : option (list byte)) (flag : string) (k : list byte -> mem parsed) : mem parsed :=
  match next with Some v => k v | None => mret (inr (NeedsValue flag)) end.

Definition is_option (arg : list byte) (s l : string) : bool :=
  bool_decide (arg = lit s) || bool_decide (arg = lit l).

Definition set_capture (f : CaptureConfig -> CaptureConfig) (opt : Options) : Options := opt <| capture_cfg ::= f |>.

Definition parse_arg (opt : Options) (arg : list byte) (next : option (list byte)) : mem parsed :=
  let is_ := is_option arg in
  let flag (opt : Options) : mem parsed := mret (inl (opt, false)) in
  let value (opt : Options) : mem parsed := mret (inl (opt, true)) in
  if is_ "-h" "--help" then mret (inr Usage)
  else if is_ "-L" "--list" then flag (opt <| list_mode := true |>)
  else if is_ "-i" "--interface" then
    need_value next "--interface" (fun v => value (set_capture (fun c => c <| interface := v |>) opt))
  else if is_ "-r" "--read" then
    need_value next "--read" (fun v => value (set_capture (fun c => c <| pcap_file := v |>) opt))
  else if is_ "-f" "--filter" then
    need_value next "--filter" (fun v => value (set_capture (fun c => c <| filter := v |>) opt))
  else if is_ "-c" "--count" then
    need_value next "--count" (fun v => value (opt <| max_packets := strtoull v |>))
  else if is_ "-s" "--snaplen" then
    need_value next "--snaplen" (fun v =>
      n ← atoi v;
      if n <? 64 then mret (inr SnaplenTooSmall)
      else value (set_capture (fun c => c <| snaplen := n |>) opt))
  else if is_ "-b" "--backend" then
    need_value next "--backend" (fun v =>
      if negb (bool_decide (v = lit "pcap")) && negb (bool_decide (v = lit "raw")) then mret (inr BadBackend)
      else value (opt <| backend := v |>))
  else if is_ "-e" "--expire" then
    need_value next "--expire" (fun v => value (opt <| expire_sec := strtod v |>))
  else if is_ "-w" "--write" then
    need_value next "--write" (fun v => value (opt <| write_path := v |>))
  else if is_ "-D" "--no-dissect" then flag (opt <| dissect := false |>)
  else if is_ "-P" "--no-promisc" then flag (set_capture (fun c => c <| promiscuous := false |>) opt)
  else if is_ "-t" "--text" then flag (opt <| text_mode := true |>)
  else if is_ "-q" "--quiet" then flag (opt <| quiet := true |> <| text_mode := true |>)
  else mret (inr (UnknownOption arg)).

(** The loop over [argv[1..]]. *)
Fixpoint parse_args (opt : Options) (args : list (list byte)) : mem (Options + refusal) :=
  match args with
  | [] => mret (inl opt)
  | arg :: rest =>
      parse_arg opt arg (head rest) ≫= fun r : parsed =>
      match r with
      | inr why => mret (inr why)
      | inl (opt, consumed) =>
          if consumed : bool then match rest with [] => mret (inl opt) | _ :: rest => parse_args opt rest end
          else parse_args opt rest
      end
  end.

Definition parse_options (args : list (list byte)) : mem (Options + refusal) := parse_args options_default args.
