(* ===== verification/OptionsSpec.v ===== *)
(** * What the command line means

    Accepted options are well formed, printing options and parsing them gives
    them back, and a value is never taken for an option. *)

From S2P Require Import Prelude.
From S2P Require Import Machine.
From S2P Require Import ByteString.
From S2P Require Import Float.
From S2P Require Import Format.
From S2P Require Import FormatSpec.
From S2P Require Import Capture.
From S2P Require Import Options.
#[local] Open Scope Z_scope.

(** ** Numbers *)

Lemma digit_value_bounds b d : digit_value b = Some d -> 0 <= d < 10.
Proof. unfold digit_value. case_test; [|done]. intros [= <-]. breflect. lia. Qed.

Lemma read_digits_nonneg s : forall acc, 0 <= acc -> 0 <= (read_digits acc s).1.1.
Proof.
  induction s as [|b s IH]; intros acc Ha; [done|]. unfold read_digits in *. cbn [read_base].
  destruct (digit_value b) as [d|] eqn:E; [|done]. apply digit_value_bounds in E.
  specialize (IH (acc * 10 + d) ltac:(lia)). by destruct (read_base _ _ _ _) as [[? ?] ?].
Qed.

Lemma strtoull_range s : in_u64 (strtoull s).
Proof.
  unfold strtoull, read_integer. destruct (read_sign _) as [neg s'].
  pose proof (read_digits_nonneg s' 0 ltac:(done)). set (v := (read_digits 0 s').1.1) in *.
  destruct (Z.leb_spec (2 ^ 64) v); [unfold in_u64; lia|]. destruct neg; [auto with word|unfold in_u64; lia].
Qed.

Lemma digit_value_char d : 0 <= d < 10 -> digit_value (byte_of (48 + d)) = Some d.
Proof.
  intros Hd. unfold digit_value. rewrite bval_byte_of. unfold u8. rewrite Z.mod_small by lia.
  rewrite !(proj2 (Z.leb_le _ _)) by lia. f_equal. lia.
Qed.

Lemma read_digits_app s b d : forall acc v n,
  read_digits acc s = (v, n, []) -> digit_value b = Some d -> read_digits acc (s ++ [b]) = (v * 10 + d, n + 1, []).
Proof.
  unfold read_digits. induction s as [|a s IH]; intros acc v n Hr Hb; cbn [app read_base] in *.
  - injection Hr as <- <-. by rewrite Hb.
  - destruct (digit_value a) as [e|]; [|by injection Hr].
    destruct (read_base 10 digit_value (acc * 10 + e) s) as [[v' n'] rest] eqn:E. injection Hr as <- <- ->.
    by rewrite (IH _ _ _ E Hb).
Qed.

(** Printed numbers are read back. *)
Lemma read_decimal fuel : forall z, 0 <= z < 10 ^ Z.of_nat fuel -> exists n, read_digits 0 (decimal fuel z) = (z, n, []).
Proof.
  induction fuel as [|fuel IH]; intros z Hz; cbn [decimal].
  { change (10 ^ Z.of_nat 0) with 1 in Hz. assert (z = 0) as -> by lia. by exists 0. }
  pose proof (Z.mod_pos_bound z 10 ltac:(lia)) as Hm. pose proof (Z.div_mod z 10 ltac:(lia)) as Hd.
  destruct (Z.ltb_spec z 10).
  - exists 1. cbn [app]. unfold read_digits. cbn [read_base]. rewrite digit_value_char by lia.
    rewrite Z.mod_small by lia. done.
  - rewrite Nat2Z.inj_succ, Z.pow_succ_r in Hz by lia.
    destruct (IH (z / 10)) as [n Hn]; [split; [apply Z.div_pos|apply Z.div_lt_upper_bound]; lia|].
    exists (n + 1). rewrite (read_digits_app _ _ (z mod 10) _ _ _ Hn) by (apply digit_value_char; lia).
    by rewrite Z.mul_comm, <-Hd.
Qed.

Lemma decimal_first fuel z : 0 <= z -> (0 < fuel)%nat ->
  exists b s, decimal fuel z = b :: s /\ is_digit b.
Proof.
  intros Hz Hf. pose proof (decimal_digits fuel z Hz) as Hd.
  destruct (decimal fuel z) as [|b s] eqn:E; [|exists b, s; by inversion Hd].
  destruct fuel; [lia|]. cbn [decimal] in E. by apply app_nil in E as [_ [=]].
Qed.

Lemma read_integer_decimal fuel z :
  0 <= z < 10 ^ Z.of_nat fuel -> (0 < fuel)%nat -> read_integer (decimal fuel z) = (false, z).
Proof.
  intros Hz Hf. destruct (read_decimal fuel z Hz) as [n Hn].
  destruct (decimal_first fuel z ltac:(lia) Hf) as (b & s & E & Hb). unfold is_digit in Hb.
  unfold read_integer. rewrite E in *. cbn [skip_spaces].
  assert (Hs : is_space b = false).
  { unfold is_space. rewrite (proj2 (Z.eqb_neq _ _)), (proj2 (Z.leb_gt (bval b) 13)), andb_false_r by lia. done. }
  rewrite Hs. cbn [read_sign].
  assert (Hc : forall c, bval c < 48 -> Byte.eqb b c = false).
  { intros c Hlt. destruct (Byte.eqb b c) eqn:Eb; [|done]. apply Byte.byte_dec_bl in Eb as ->. lia. }
  rewrite !Hc by (vm_compute; done). by rewrite Hn.
Qed.

Lemma strtoull_decimal n : in_u64 n -> strtoull (to_decimal n) = n.
Proof.
  unfold in_u64, strtoull, to_decimal. intros Hn. rewrite read_integer_decimal by (lia || (simpl; lia)).
  by rewrite (proj2 (Z.leb_gt _ _)) by lia.
Qed.

Lemma atoi_decimal n : 0 <= n < 2 ^ 31 -> atoi (to_decimal n) = Val n.
Proof.
  unfold atoi, to_decimal. intros Hn. rewrite read_integer_decimal by (lia || (simpl; lia)).
  by rewrite (proj2 (Z.leb_le _ _)), (proj2 (Z.ltb_lt _ _)) by lia.
Qed.

(** ** Accepted options are well formed *)

Record options_ok (o : Options) : Prop := {
  oo_snaplen : 64 <= o.(capture_cfg).(snaplen) < 2 ^ 31;
  oo_backend : o.(backend) = lit "pcap" \/ o.(backend) = lit "raw";
  oo_count : in_u64 o.(max_packets);
  oo_quiet : o.(quiet) = true -> o.(text_mode) = true;
  oo_timeout : o.(capture_cfg).(timeout_ms) = 200;
}.

Lemma options_default_ok : options_ok options_default.
Proof. constructor; simpl; unfold in_u64; auto; lia. Qed.

Lemma atoi_range s n : atoi s = Val n -> - 2 ^ 31 <= n < 2 ^ 31.
Proof.
  unfold atoi. destruct (read_integer s) as [neg v].
  set (w := if neg then - v else v). destruct (Z.leb_spec (- 2 ^ 31) w), (Z.ltb_spec w (2 ^ 31)); simpl; try done.
  intros [= <-]. lia.
Qed.

Lemma parse_arg_ok o arg next o' consumed :
  options_ok o -> parse_arg o arg next = Val (inl (o', consumed)) -> options_ok o'.
Proof.
  intros [H1 H2 H3 H4 H5]. unfold parse_arg, need_value. cbv zeta.
  repeat match goal with |- (if ?b then _ else _) = _ -> _ => destruct b end; try done;
    try (by intros [= <- _]; constructor);
    destruct next as [v|]; try done; try (by intros [= <- _]; constructor).
  - intros [= <- _]. constructor; try done. apply strtoull_range.
  - destruct (atoi v) as [n|] eqn:En; [|done]. cbn [mbind mem_bind].
    destruct (Z.ltb_spec n 64); [done|]. intros [= <- _]. apply atoi_range in En. constructor; try done. simpl. lia.
  - destruct (decide (v = lit "pcap")) as [->|Hp]; [|destruct (decide (v = lit "raw")) as [->|Hr]].
    + intros [= <- _]. constructor; auto.
    + intros [= <- _]. constructor; auto.
    + rewrite !bool_decide_eq_false_2 by done. done.
Qed.

Lemma parse_args_ok args : forall o o', options_ok o -> parse_args o args = Val (inl o') -> options_ok o'.
Proof.
  induction args as [args IH] using (well_founded_induction (Wf_nat.well_founded_ltof _ length)).
  unfold Wf_nat.ltof in IH. intros o o' Ho. destruct args as [|arg rest]; cbn [parse_args].
  { by intros [= <-]. }
  destruct (parse_arg o arg (head rest)) as [[[o1 consumed]|why]|] eqn:E; cbn [mbind mem_bind]; try done.
  apply parse_arg_ok in E; [|done]. destruct consumed; [destruct rest as [|v rest]|].
  - by intros [= <-].
  - apply IH; [simpl; lia|done].
  - apply IH; [simpl; lia|done].
Qed.

(** C23: Whatever is on the command line, the options the program starts with are
    well formed: the snapshot length is an [int] of at least 64, the backend is
    one of the two that exist, the packet limit fits 64 bits, and quiet mode
    implies text mode. *)
Theorem parse_options_typed args o : parse_options args = Val (inl o) -> options_ok o.
Proof. apply parse_args_ok, options_default_ok. Qed.

Lemma parse_options_typed_witness :
  exists o, parse_options (map lit ["-s"; "96"; "-b"; "raw"; "-q"]%string) = Val (inl o) /\ options_ok o.
Proof.
  eexists. split; [reflexivity|].
  apply (parse_options_typed (map lit ["-s"; "96"; "-b"; "raw"; "-q"]%string)). reflexivity.
Defined.

(** ** Round trip *)

(** A command line that sets the options [o], with the idle timeout given as
    the text [expire]. *)
Definition render_options (o : Options) (expire : list byte) : list (list byte) :=
  let c := o.(capture_cfg) in
  [lit "-i"; c.(interface); lit "-r"; c.(pcap_file); lit "-f"; c.(filter);
   lit "-c"; to_decimal o.(max_packets); lit "-s"; to_decimal c.(snaplen); lit "-b"; o.(backend);
   lit "-e"; expire; lit "-w"; o.(write_path)] ++
  (if o.(list_mode) then [lit "-L"] else []) ++ (if o.(dissect) then [] else [lit "-D"]) ++
  (if c.(promiscuous) then [] else [lit "-P"]) ++ (if o.(text_mode) then [lit "-t"] else []) ++
  (if o.(quiet) then [lit "-q"] else []).

(** Each option followed by its value. *)
Section steps.
Variables (o : Options) (v : list byte) (rest : list (list byte)).
Lemma parse_i : parse_args o (lit "-i" :: v :: rest) = parse_args (set_capture (fun c => c <| interface := v |>) o) rest.
Proof. reflexivity. Qed.
Lemma parse_r : parse_args o (lit "-r" :: v :: rest) = parse_args (set_capture (fun c => c <| pcap_file := v |>) o) rest.
Proof. reflexivity. Qed.
Lemma parse_f : parse_args o (lit "-f" :: v :: rest) = parse_args (set_capture (fun c => c <| filter := v |>) o) rest.
Proof. reflexivity. Qed.
Lemma parse_c : parse_args o (lit "-c" :: v :: rest) = parse_args (o <| max_packets := strtoull v |>) rest.
Proof. reflexivity. Qed.
Lemma parse_e : parse_args o (lit "-e" :: v :: rest) = parse_args (o <| expire_sec := strtod v |>) rest.
Proof. reflexivity. Qed.
Lemma parse_w : parse_args o (lit "-w" :: v :: rest) = parse_args (o <| write_path := v |>) rest.
Proof. reflexivity. Qed.

Lemma parse_s n :
  64 <= n < 2 ^ 31 ->
  parse_args o (lit "-s" :: to_decimal n :: rest) = parse_args (set_capture (fun c => c <| snaplen := n |>) o) rest.
Proof.
  intros Hn. cbn [parse_args head hd_error].
  change (parse_arg o (lit "-s") (Some (to_decimal n))) with
    (n ← atoi (to_decimal n);
     if n <? 64 then mret (inr SnaplenTooSmall)
     else mret (inl (set_capture (fun c => c <| snaplen := n |>) o, true)) : mem parsed).
  rewrite atoi_decimal by lia. cbn [mbind mem_bind]. by rewrite (proj2 (Z.ltb_ge _ _)) by lia.
Qed.

Lemma parse_b :
  v = lit "pcap" \/ v = lit "raw" -> parse_args o (lit "-b" :: v :: rest) = parse_args (o <| backend := v |>) rest.
Proof. intros [-> | ->]; reflexivity. Qed.

Lemma parse_L (b : bool) :
  parse_args o ((if b then [lit "-L"] else []) ++ rest) = parse_args (if b then o <| list_mode := true |> else o) rest.
Proof. by destruct b. Qed.
Lemma parse_D (b : bool) :
  parse_args o ((if b then [] else [lit "-D"]) ++ rest) = parse_args (if b then o else o <| dissect := false |>) rest.
Proof. by destruct b. Qed.
Lemma parse_P (b : bool) :
  parse_args o ((if b then [] else [lit "-P"]) ++ rest) =
  parse_args (if b then o else set_capture (fun c => c <| promiscuous := false |>) o) rest.
Proof. by destruct b. Qed.
Lemma parse_t (b : bool) :
  parse_args o ((if b then [lit "-t"] else []) ++ rest) = parse_args (if b then o <| text_mode := true |> else o) rest.
Proof. by destruct b. Qed.
Lemma parse_q (b : bool) :
  parse_args o ((if b then [lit "-q"] else []) ++ rest) =
  parse_args (if b then o <| quiet := true |> <| text_mode := true |> else o) rest.
Proof. by destruct b. Qed.
End steps.

(** C24: The command line can say everything. For all well-formed options, the
    command line that spells them out is parsed to exactly these options (the
    idle timeout to what [strtod] makes of its text), whatever the interface,
    file, filter and output names are: a value that looks like an option is still
    a value. *)
Theorem options_roundtrip o expire :
  options_ok o -> parse_options (render_options o expire) = Val (inl (o <| expire_sec := strtod expire |>)).
Proof.
  intros [H1 H2 H3 H4 H5]. unfold parse_options, render_options. cbv zeta. cbn [app].
  rewrite parse_i, parse_r, parse_f, parse_c, parse_s, parse_b, parse_e, parse_w by done.
  rewrite parse_L, parse_D, parse_P, parse_t.
  rewrite <-(app_nil_r (if quiet o then _ else _)), parse_q, strtoull_decimal by done.
  destruct o as [[i r f s p t] b n e tm q l d w]. simpl in *. subst t.
  destruct l, d, p, tm, q; first [reflexivity | by specialize (H4 eq_refl)].
Qed.

Lemma options_roundtrip_witness :
  parse_options (render_options (options_default <| write_path := lit "-h" |>) (lit "2.5")) =
  Val (inl (options_default <| write_path := lit "-h" |> <| expire_sec := strtod (lit "2.5") |>)).
Proof. apply options_roundtrip. constructor; simpl; unfold in_u64; auto; lia. Defined.
