(* ===== verification/Main.v ===== *)
(** * The program (src/main.cpp)

    What [main] does before the threads start, with the exit code of every early
    return, and the running session as a step relation: the capture thread (the
    read loop of [Capture], whose sink writes the frame to the capture file and
    then feeds the analyser), the main thread with the dashboard's loop and the
    shutdown, and the signal handler.  A step is one access to shared state: a
    test or a store of [g_running], one critical section of the analyser, one
    call into the backend or the writer.

    A rendering step does not change the shared state; the frame it draws is
    [Dashboard.render].  Sleeping and blocking take no step. *)

From S2P Require Import Prelude.
From S2P Require Import Machine.
From S2P Require Import Containers.
From S2P Require Import Protocol.
From S2P Require Import ByteString.
From S2P Require Import Float.
From S2P Require Import Dissect.
From S2P Require Import Flow.
From S2P Require Import FlowTable.
From S2P Require Import Stats.
From S2P Require Import PcapWriter.
From S2P Require Import Analyzer.
From S2P Require Import Capture.
From S2P Require Import Dashboard.
From S2P Require Import Report.
From S2P Require Import Options.
#[local] Open Scope Z_scope.

(** ** Before the threads *)

(** An early return of [main] with its exit code and message, or the session's
    parts. *)
Inductive startup (C : Type) :=
| ExitNow (code : Z) (out err : list byte)
| Start (cap : C) (info : SessionInfo) (analyzer : Analyzer) (writer : PcapWriter.t).
Arguments ExitNow {C}. Arguments Start {C}.

Definition error_line (msg : list byte) : list byte := lit "error: " ++ msg ++ newline.

Section setup.
Context `{HostOrder} {C E : Type} `{Backend C E}.
(** libpcap's answers, and the C stream of the capture file. *)
Variable ntop : list byte -> list byte.
Variable found : list byte + list pcap_if.
Variable open_dead : Z -> Z -> bool.
Variable compile : list byte -> Z -> option (list byte).
Variable accept : Z -> Z.
Variable fopen_ok : bool.

(** Resolving the interface when neither a file nor an interface is given. *)
Definition resolve_interface (opt : Options) : Options + list byte :=
  if str_empty opt.(capture_cfg).(pcap_file) && str_empty opt.(capture_cfg).(interface) then
    let '(name, err) := pick_default_interface ntop found in
    if str_empty name then inr (error_line (err ++ lit " (try --list)"))
    else inl (set_capture (fun c => c <| interface := name |>) opt)
  else inl opt.

Definition session_info (opt : Options) (cap : C) : SessionInfo :=
  let c := opt.(capture_cfg) in
  mkSessionInfo (if str_empty c.(pcap_file) then c.(interface) else c.(pcap_file)) c.(filter)
    (capture_name cap) c.(snaplen) (capture_offline cap).

Definition open_writer (opt : Options) (linktype : Z) : option PcapWriter.open_error * PcapWriter.t :=
  if str_empty opt.(write_path) then (None, PcapWriter.init)
  else PcapWriter.open accept PcapWriter.init fopen_ok opt.(write_path) linktype opt.(capture_cfg).(snaplen).

(** From the parsed options to the running threads, for the backend [c0]. *)
Definition setup (opt : Options) (c0 : C) (writer_message : PcapWriter.open_error -> list byte) : startup C :=
  if opt.(list_mode) then let '(code, out, err) := do_list_interfaces ntop found in ExitNow code out err
  else match resolve_interface opt with
  | inr msg => ExitNow 1 [] msg
  | inl opt =>
      match validate_bpf_filter open_dead compile opt.(capture_cfg).(filter) 1 with
      | Some msg => ExitNow 2 [] (error_line msg)
      | None =>
          match capture_open opt.(capture_cfg) c0 with
          | (Some msg, _) => ExitNow 1 [] (error_line msg)
          | (None, cap) =>
              let analyzer := analyzer_set_dissection (new_analyzer (capture_linktype cap)) opt.(dissect) in
              match open_writer opt (capture_linktype cap) with
              | (Some e, _) => ExitNow 1 [] (error_line (writer_message e))
              | (None, writer) => Start cap (session_info opt cap) analyzer writer
              end
          end
      end
  end.
End setup.

(** The backend [main] makes: [opt.backend == "raw"]. *)
Definition make_capture (opt : Options) : RawSocketCapture.t + PcapCapture.t :=
  if bool_decide (opt.(backend) = lit "raw") then inl RawSocketCapture.init else inr PcapCapture.init.

(** [main] up to the threads, with the answers of the kernel and of libpcap. *)
Definition main_setup `{HostOrder} (strerror : Z -> list byte) (kstats : Z -> option (Z * Z)) (os : raw_os)
    (pstats : Z -> option (Z * Z * Z)) (lib : pcap_lib) (ntop : list byte -> list byte)
    (found : list byte + list pcap_if) (open_dead : Z -> Z -> bool) (compile : list byte -> Z -> option (list byte))
    (accept : Z -> Z) (fopen_ok : bool) (opt : Options) (writer_message : PcapWriter.open_error -> list byte) :
    startup (RawSocketCapture.t + PcapCapture.t) :=
  setup (H0 := either_backend (RawSocketCapture.raw_backend strerror kstats os) (PcapCapture.pcap_backend pstats lib))
    ntop found open_dead compile accept fopen_ok opt (make_capture opt) writer_message.

(** [const bool use_tui = !opt.text_mode && dashboard.begin()]; the other
    arguments are what the terminal answers. *)
Definition start_screen (text_mode tty_out tty_in getattr_ok : bool) (ws : option (Z * Z)) (t : Tty)
    : bool * Dashboard * Tty :=
  if text_mode then (false, new_dashboard, t) else begin_ tty_out tty_in getattr_ok ws new_dashboard t.

(** ** The session *)

(** Where the capture thread is; [delivered] is the local of [run]. *)
Inductive cpc :=
| CTest (delivered : Z)                    (* while (running.load()) *)
| CFetch (delivered : Z)                   (* poll and recvfrom, or pcap_next_ex *)
| CWrite (f : Frame) (delivered : Z)       (* sink: writer.write *)
| CDecode (f : Frame) (delivered : Z)      (* sink: consume before the lock *)
| CCommit (f : Frame) (ok : bool) (pkt : DecodedPacket) (delivered : Z)
| CAfter (delivered : Z)                   (* ++delivered and the limit *)
| CReturned (err : option (list byte))     (* run has returned *)
| CClear                                   (* running.store(false) after an error *)
| CSetDone | CClearEnd | CExited.

(** Where the main thread is. *)
Inductive upc :=
| UTest | UPoll | UCounters | URender | UTick | UExpire
| UHold                                    (* after the loop *)
| UJoin | UEnd | UFinalCounters | UClose | UExited (code : Z).

Section session.
Context `{HostOrder} `{Dissector} {C E : Type} `{Backend C E}.
Variable ip_str : IpAddress -> list byte.
Variable accept : Z -> Z.
(** What the operating system may answer to the backend. *)
Variable answers : E -> Prop.
Variable max_packets : Z.
Variable expire_sec : f64.

Record session := mkSession {
  g_running : bool; capture_done : bool; capture_error : list byte;
  cap : C; writer : PcapWriter.t; analyzer : Analyzer;
  dash : Dashboard; tty : Tty; ticks : Z;
  cthread : cpc; uthread : upc;
}.
#[export] Instance session_eta : Eta session := fun s =>
  mkSession s.(g_running) s.(capture_done) s.(capture_error) s.(cap) s.(writer) s.(analyzer)
    s.(dash) s.(tty) s.(ticks) s.(cthread) s.(uthread).

(** [handle_signal] *)
Definition handle_signal (s : session) : session := s <| g_running := false |>.

(** The state when both threads run: the dashboard was begun unless in text
    mode ([begin] says whether there is a terminal). *)
Definition initial (c : C) (a : Analyzer) (w : PcapWriter.t) (d : Dashboard) (t : Tty) (use_tui : bool) : session :=
  mkSession true false [] c w a d t 0 (CTest 0) (if use_tui then UTest else UJoin).

(** [if (writer.is_open()) writer.write(...)] *)
Definition write_frame (w : PcapWriter.t) (f : Frame) : mem PcapWriter.t :=
  match w.(PcapWriter.file_) with
  | Some _ => PcapWriter.write accept w f.(c_data) f.(c_caplen) f.(c_wirelen) f.(c_ts)
  | None => mret w
  end.

(** What the loop does with the answer of the backend. *)
Definition fetched_step (delivered : Z) (r : fetched C) (s : session) : session :=
  match r with
  | Again c => s <| cap := c |> <| cthread := CTest delivered |>
  | Got f c => s <| cap := c |> <| cthread := CWrite f delivered |>
  | EndOfInput c => s <| cap := refresh_counters c |> <| cthread := CReturned None |>
  | Failed err c => s <| cap := c |> <| cthread := CReturned (Some err) |>
  end.

(** [++delivered % 256 == 0] and the limit. *)
Definition after_step (delivered : Z) (s : session) : session :=
  let delivered := incr delivered in
  let c := after_sink delivered s.(cap) in
  if limit_reached max_packets delivered
  then s <| cap := refresh_counters c |> <| cthread := CReturned None |>
  else s <| cap := c |> <| cthread := CTest delivered |>.

Definition counters_op (s : session) : op :=
  let c := capture_counters s.(cap) in UpdateCounters c.(received) c.(dropped) c.(if_dropped).

(** What a key does, and the operation of the analyser it calls. *)
Definition key_step (k : DashboardKey.t) (s : session) : session * option op :=
  match k with
  | DashboardKey.Quit => (s <| g_running := false |>, None)
  | DashboardKey.Pause => (s <| dash ::= toggle_pause |>, None)
  | DashboardKey.CycleSort => (s <| dash ::= cycle_sort |>, None)
  | DashboardKey.Reset => (s <| analyzer ::= analyzer_reset |>, Some Reset)
  | DashboardKey.None => (s, None)
  end.

(** After a key: [if (!dashboard.paused())]. *)
Definition after_key (s : session) : session :=
  s <| uthread := if s.(dash).(paused_) then UTest else UCounters |>.

Definition tick_step (s : session) : session :=
  let ticks' := s.(ticks) + 1 in
  s <| ticks := ticks' |> <| uthread := if ticks' mod 10 =? 0 then UExpire else UTest |>.

(** A step of the capture thread, labelled with the analyser's operation it
    completes. *)
Inductive capture_step : session -> option op -> session -> Prop :=
| s_test_go s n :
    s.(cthread) = CTest n -> s.(g_running) = true -> capture_step s None (s <| cthread := CFetch n |>)
| s_test_stop s n :
    s.(cthread) = CTest n -> s.(g_running) = false ->
    capture_step s None (s <| cap ::= refresh_counters |> <| cthread := CReturned None |>)
| s_fetch s n e :
    s.(cthread) = CFetch n -> answers e -> capture_step s None (fetched_step n (fetch s.(cap) e) s)
| s_write s f n w :
    s.(cthread) = CWrite f n -> write_frame s.(writer) f = Val w ->
    capture_step s None (s <| writer := w |> <| cthread := CDecode f n |>)
| s_decode s f n ok pkt :
    s.(cthread) = CDecode f n -> decode_frame s.(analyzer).(linktype_) f = Val (ok, pkt) ->
    capture_step s None (s <| cthread := CCommit f ok pkt n |>)
| s_commit s it f ok pkt n ev a :
    s.(cthread) = CCommit f ok pkt n -> commit ip_str it s.(analyzer) f ok pkt = Val (ev, a) ->
    capture_step s (Some (Consume it f)) (s <| analyzer := a |> <| cthread := CAfter n |>)
| s_after s n : s.(cthread) = CAfter n -> capture_step s None (after_step n s)
| s_returned_ok s : s.(cthread) = CReturned None -> capture_step s None (s <| cthread := CSetDone |>)
| s_returned_err s err :
    s.(cthread) = CReturned (Some err) ->
    capture_step s None (s <| capture_error := err |> <| cthread := CClear |>)
| s_clear s : s.(cthread) = CClear -> capture_step s None (s <| g_running := false |> <| cthread := CSetDone |>)
| s_done s : s.(cthread) = CSetDone -> capture_step s None (s <| capture_done := true |> <| cthread := CClearEnd |>)
| s_clear_end s :
    s.(cthread) = CClearEnd -> capture_step s None (s <| g_running := false |> <| cthread := CExited |>).

(** A step of the main thread. *)
Inductive main_step : session -> option op -> session -> Prop :=
| s_ui_go s : s.(uthread) = UTest -> s.(g_running) = true -> main_step s None (s <| uthread := UPoll |>)
| s_ui_stop s : s.(uthread) = UTest -> s.(g_running) = false -> main_step s None (s <| uthread := UHold |>)
| s_ui_poll s input :
    s.(uthread) = UPoll ->
    main_step s (key_step (poll_key s.(dash) input) s).2 (after_key (key_step (poll_key s.(dash) input) s).1)
| s_ui_counters s a :
    s.(uthread) = UCounters -> apply_op ip_str s.(analyzer) (counters_op s) = Val a ->
    main_step s (Some (counters_op s)) (s <| analyzer := a |> <| uthread := URender |>)
| s_ui_render s ws :
    s.(uthread) = URender -> main_step s None (s <| dash ::= query_size ws |> <| uthread := UTick |>)
| s_ui_tick s : s.(uthread) = UTick -> main_step s None (tick_step s)
| s_ui_expire s it a :
    s.(uthread) = UExpire -> apply_op ip_str s.(analyzer) (Expire it expire_sec) = Val a ->
    main_step s (Some (Expire it expire_sec)) (s <| analyzer := a |> <| uthread := UTest |>)
| s_ui_hold s ws :
    s.(uthread) = UHold ->
    main_step s None (s <| dash := (if s.(capture_done) && capture_offline s.(cap)
                                       then query_size ws s.(dash) else s.(dash)) |> <| uthread := UJoin |>)
| s_ui_join s : s.(uthread) = UJoin -> s.(cthread) = CExited -> main_step s None (s <| uthread := UEnd |>)
| s_ui_end s :
    s.(uthread) = UEnd ->
    main_step s None (s <| dash := (end_ s.(dash) s.(tty)).1 |> <| tty := (end_ s.(dash) s.(tty)).2 |>
                           <| uthread := UFinalCounters |>)
| s_ui_final s a :
    s.(uthread) = UFinalCounters -> apply_op ip_str s.(analyzer) (counters_op s) = Val a ->
    main_step s (Some (counters_op s)) (s <| analyzer := a |> <| uthread := UClose |>)
| s_ui_close s :
    s.(uthread) = UClose ->
    main_step s None (s <| cap ::= capture_close |> <| writer ::= (fun w => (PcapWriter.close w).1) |>
                           <| uthread := UExited (if str_empty s.(capture_error) then 0 else 1) |>).

(** The two threads and the signal handler.  A signal that finds the flag
    cleared changes nothing and takes no step. *)
Inductive session_step : session -> option op -> session -> Prop :=
| s_signal s : s.(g_running) = true -> session_step s None (handle_signal s)
| s_capture s o s' : capture_step s o s' -> session_step s o s'
| s_main s o s' : main_step s o s' -> session_step s o s'.

(** Runs with the number of steps and the completed operations in order. *)
Inductive session_run : session -> nat -> list op -> session -> Prop :=
| run_nil s : session_run s 0 [] s
| run_snoc s n tr s' o s'' :
    session_run s n tr s' -> session_step s' o s'' -> session_run s (S n) (tr ++ option_list o) s''.

Definition finished (s : session) : Prop :=
  s.(cthread) = CExited /\ exists code, s.(uthread) = UExited code.
End session.
Arguments session C : clear implicits.
