(* ===== verification/SetupSpec.v ===== *)
(** * What [main] starts the threads with

    [setup] either ends the program with an exit code and a message, or hands the
    session an open backend, a matching analyser and a matching capture file. *)

From S2P Require Import Prelude.
From S2P Require Import Machine.
From S2P Require Import Protocol.
From S2P Require Import ByteString.
From S2P Require Import Stats.
From S2P Require Import PcapWriter.
From S2P Require Import PcapSpec.
From S2P Require Import Analyzer.
From S2P Require Import Capture.
From S2P Require Import CaptureSpec.
From S2P Require Import Dashboard.
From S2P Require Import Report.
From S2P Require Import Options.
From S2P Require Import Main.
#[local] Open Scope Z_scope.

Section setup.
Context `{Hh : HostOrder} {C E : Type} `{BS : BackendStart C E}.
Variable ntop : list byte -> list byte.
Variable found : list byte + list pcap_if.
Variable open_dead : Z -> Z -> bool.
Variable compile : list byte -> Z -> option (list byte).
Variable accept : Z -> Z.
Variable fopen_ok : bool.

(** A capture file, when one was asked for, has its header. *)
Definition writer_ready (opt : Options) (linktype : Z) (w : PcapWriter.t) : Prop :=
  0 <= w.(PcapWriter.snaplen_) /\
  match w.(PcapWriter.file_) with
  | None => opt.(write_path) = []
  | Some f => opt.(write_path) <> [] /\ w.(PcapWriter.path_) = opt.(write_path) /\
              read_file (content f) = Some (mkFileHeader w.(PcapWriter.snaplen_) (u32 linktype), [])
  end.

Lemma open_writer_ready opt linktype w :
  open_writer accept fopen_ok opt linktype = (None, w) -> writer_ready opt linktype w.
Proof.
  unfold open_writer. destruct (write_path opt) as [|b path] eqn:Ep; cbn [str_empty].
  - intros [= <-]. by split.
  - destruct fopen_ok; [|done]. intros E'. destruct (open_header accept _ _ _ _ _ E') as (f & Hf & Hp & Hs & Hr).
    unfold writer_ready. rewrite Hf, Ep. by split_and!.
Qed.

(** Resolving the interface changes nothing else, and finds one. *)
Lemma resolve_spec opt :
  match resolve_interface ntop found opt with
  | inr msg => msg <> []
  | inl opt' =>
      (exists name, opt' = set_capture (fun c => c <| interface := name |>) opt) /\
      (str_empty opt'.(capture_cfg).(pcap_file) && str_empty opt'.(capture_cfg).(interface)) = false
  end.
Proof.
  unfold resolve_interface. destruct (_ && _) eqn:Ee.
  - destruct (pick_default_interface ntop found) as [name err]. destruct (str_empty name) eqn:En; [done|].
    split; [by exists name|]. cbn. by rewrite En, andb_false_r.
  - split; [|done]. exists (interface (capture_cfg opt)). by destruct opt as [[] ? ? ? ? ? ? ? ?].
Qed.

(** C14: [main] starts the threads only on a working set-up. For either backend,
    so for the one its options choose ([main_setup_chosen]),
    and whatever libpcap, the kernel and the disk answer: [--list] prints the
    interfaces; every other early return has a message on standard error and the
    exit code 2 when there is an interface and the filter does not compile, 1 in
    all other cases; otherwise the backend is
    open and ready for the read loop, the source has a name, the analyser is new
    with the backend's link type and the dissection switch, and the capture file,
    if one was asked for, is open and holds the header of an empty file with that
    link type. *)
Theorem setup_ready opt writer_message :
  match setup ntop found open_dead compile accept fopen_ok opt cap_init writer_message with
  | ExitNow code out err =>
      if opt.(list_mode) then (code, out, err) = do_list_interfaces ntop found
      else out = [] /\ err <> [] /\
           code = match resolve_interface ntop found opt,
                        validate_bpf_filter open_dead compile opt.(capture_cfg).(filter) 1 with
                  | inl _, Some _ => 2
                  | _, _ => 1
                  end
  | Start cap info analyzer writer =>
      opt.(list_mode) = false /\
      validate_bpf_filter open_dead compile opt.(capture_cfg).(filter) 1 = None /\
      is_open cap = true /\ cap_inv cap /\
      info.(i_source) <> [] /\ info.(i_offline) = capture_offline cap /\
      analyzer = analyzer_set_dissection (new_analyzer (capture_linktype cap)) opt.(dissect) /\
      writer_ready opt (capture_linktype cap) writer
  end.
Proof.
  unfold setup. destruct (list_mode opt) eqn:El.
  { destruct (do_list_interfaces ntop found) as [[code out] err]. done. }
  pose proof (resolve_spec opt) as Hres. destruct (resolve_interface ntop found opt) as [opt'|msg].
  2: { by split_and!. }
  destruct Hres as [[name ->] Hsrc]. set (opt' := set_capture _ opt) in *.
  assert (Hf : filter (capture_cfg opt') = filter (capture_cfg opt)) by done. rewrite Hf.
  destruct (validate_bpf_filter open_dead compile _ 1) as [msg|] eqn:Ev.
  { by split_and!. }
  destruct (capture_open (capture_cfg opt') cap_init) as [[msg|] cap] eqn:Eo.
  { by split_and!. }
  destruct (open_writer accept fopen_ok opt' (capture_linktype cap)) as [[e|] w] eqn:Ew.
  { by split_and!. }
  destruct (open_ready _ _ Eo) as [Hinv Hopen]. split_and!; try done.
  - unfold session_info. cbn [i_source]. destruct (pcap_file (capture_cfg opt')) as [|b bs]; [|done].
    cbn [str_empty andb] in *. by destruct (interface (capture_cfg opt')).
  - by apply (open_writer_ready opt').
Qed.
End setup.

(** The backend [main] makes from its options starts well whichever it is, so the
    theorem holds of [main_setup]: it is [setup] for that backend. *)
#[refine] Definition chosen_start strerror kstats os pstats lib (opt : Options) :
    BackendStart (RawSocketCapture.t + PcapCapture.t) (raw_event + pcap_event)
      (H0 := either_laws (raw_laws strerror kstats os) (pcap_laws pstats lib)) := {|
  cap_init := make_capture opt; open_ready := _ |}.
Proof.
  intros cfg c. unfold make_capture. case_bool_decide; cbn [capture_open either_backend].
  - pose proof (open_ready (BackendStart := raw_start strerror kstats os) cfg) as Hr.
    destruct (capture_open cfg RawSocketCapture.init) as [err c'] eqn:E. intros [= -> <-]. by apply Hr.
  - pose proof (open_ready (BackendStart := pcap_start pstats lib) cfg) as Hr.
    destruct (capture_open cfg PcapCapture.init) as [err c'] eqn:E. intros [= -> <-]. by apply Hr.
Defined.

Lemma main_setup_chosen `{HostOrder} strerror kstats os pstats lib ntop found open_dead compile accept fopen_ok opt msg :
  main_setup strerror kstats os pstats lib ntop found open_dead compile accept fopen_ok opt msg =
  setup (H0 := either_backend (RawSocketCapture.raw_backend strerror kstats os) (PcapCapture.pcap_backend pstats lib))
    ntop found open_dead compile accept fopen_ok opt
    (cap_init (BackendStart := chosen_start strerror kstats os pstats lib opt)) msg.
Proof. reflexivity. Qed.
