(* ===== verification/MainSpec.v ===== *)
(** * The session as a whole

    Every run of the session is a run of the analyser's two threads, delivers at
    most the requested packets, and writes every frame before it is analysed;
    once the running flag is cleared, by a key, a signal, the end of the input or
    an error, every run ends within a bounded number of steps, joined and closed,
    and the terminal is as it was. *)

From S2P Require Import Prelude.
From S2P Require Import Machine.
From S2P Require Import Containers.
From S2P Require Import Protocol.
From S2P Require Import Float.
From S2P Require Import Dissect.
From S2P Require Import Flow.
From S2P Require Import FlowTable.
From S2P Require Import TableSpec.
From S2P Require Import Stats.
From S2P Require Import PcapWriter.
From S2P Require Import PcapSpec.
From S2P Require Import Analyzer.
From S2P Require Import AnalyzerSpec.
From S2P Require Import Capture.
From S2P Require Import CaptureSpec.
From S2P Require Import Dashboard.
From S2P Require Import DashboardSpec.
From S2P Require Import Options.
From S2P Require Import Main.
#[local] Open Scope Z_scope.

(** ** The writer on a frame of the backend *)

Definition written_frame (f : Frame) : frame :=
  mkFrame (default [] f.(c_data)) f.(c_caplen) f.(c_wirelen) f.(c_ts).

Lemma write_frame_eq `{HostOrder} accept w f :
  f.(c_data) <> None ->
  write_frame accept w f =
  PcapWriter.write accept w (Some (written_frame f).(fr_data)) (written_frame f).(fr_caplen)
    (written_frame f).(fr_wirelen) (written_frame f).(fr_ts).
Proof.
  intros Hd. unfold write_frame, PcapWriter.write, written_frame. cbn [fr_data fr_caplen fr_wirelen fr_ts].
  destruct (PcapWriter.file_ w), (c_data f); done.
Qed.

(** A write never reads outside the frame, however the disk behaves. *)
Lemma write_total `{HostOrder} accept w f :
  frame_ok f -> 0 <= w.(PcapWriter.snaplen_) ->
  exists w', write_frame accept w f = Val w' /\ w'.(PcapWriter.snaplen_) = w.(PcapWriter.snaplen_).
Proof.
  intros [Hc Hd] Hs. unfold in_u32 in Hc. unfold write_frame, PcapWriter.write.
  destruct (PcapWriter.file_ w) as [fl|]; [|by eexists]. destruct (c_data f) as [data|]; [|by eexists].
  destruct (PcapWriter.write_all _ _ _) as [[] fl1]; simpl negb; cbv iota; [|by eexists].
  set (caplen := if PcapWriter.snaplen_ w <? c_caplen f then _ else _).
  assert (Hcap : 0 <= caplen <= zlen data) by (unfold caplen; case_test; breflect; lia).
  unfold rd_bytes. rewrite !(proj2 (Z.leb_le _ _)) by lia. cbn [andb mbind mem_bind].
  destruct (fwrite _ _ _) as [n fl2]. destruct (negb (n =? caplen)); [by eexists|].
  eexists. split; [reflexivity|]. by case_test.
Qed.

Lemma write_frames_snoc `{HostOrder} accept w fs f w1 w2 :
  write_frames accept w fs = Val w1 ->
  PcapWriter.write accept w1 (Some f.(fr_data)) f.(fr_caplen) f.(fr_wirelen) f.(fr_ts) = Val w2 ->
  write_frames accept w (fs ++ [f]) = Val w2.
Proof.
  revert w. induction fs as [|g fs IH]; intros w; cbn [app write_frames].
  - intros [= ->] E. by rewrite E.
  - destruct (PcapWriter.write _ w _ _ _ _) as [w3|]; [|done]. apply IH.
Qed.

(** ** Invariants of a running session *)

(** The analyser's view of the capture thread. *)
Definition pc_of (c : cpc) : pc := match c with CCommit f ok pkt _ => Decoded f ok pkt | _ => Idle end.

(** The frame the capture thread holds, and whether it is written already. *)
Definition held (c : cpc) : option Frame :=
  match c with CWrite f _ | CDecode f _ | CCommit f _ _ _ => Some f | _ => None end.
Definition in_flight (c : cpc) : list Frame :=
  match c with CDecode f _ | CCommit f _ _ _ => [f] | _ => [] end.

(** The frames the completed operations consumed. *)
Definition consumed (tr : list op) : list Frame :=
  omap (fun o => match o with Consume _ f => Some f | _ => None end) tr.

Lemma consumed_app tr tr' : consumed (tr ++ tr') = consumed tr ++ consumed tr'.
Proof. apply omap_app. Qed.

Lemma consumed_le tr : zlen (consumed tr) <= zlen tr.
Proof.
  unfold consumed. induction tr as [|o tr IH]; [done|]. cbn [omap list_omap].
  destruct o; autorewrite with zlen; lia.
Qed.

(** The capture thread inside [run]'s loop. *)
Definition looping (c : cpc) : bool :=
  match c with
  | CTest _ | CFetch _ | CWrite _ _ | CDecode _ _ | CCommit _ _ _ _ | CAfter _ => true
  | _ => false
  end.

(** The main thread after the join. *)
Definition joined (u : upc) : bool :=
  match u with UEnd | UFinalCounters | UClose | UExited _ => true | _ => false end.

Definition is_exited (u : upc) : bool := match u with UExited _ => true | _ => false end.

Section invariant.
Context `{Hh : HostOrder} `{D : Dissector} {C E : Type} `{L : BackendLaws C E}.
Variable ip_str : IpAddress -> list byte.
Variable accept : Z -> Z.
Variable answers : E -> Prop.
Variable max_packets : Z.
Variable expire_sec : f64.
Hypothesis answers_ok : forall e, answers e -> event_ok e.
Hypothesis max_nonneg : 0 <= max_packets.

#[local] Abbreviation step := (session_step ip_str accept answers max_packets expire_sec).
#[local] Abbreviation runs := (session_run ip_str accept answers max_packets expire_sec).
Implicit Types s : session C.

(** Runs compose. *)
Lemma runs_trans s0 n tr s k tr' s' : runs s0 n tr s -> runs s k tr' s' -> runs s0 (k + n) (tr ++ tr') s'.
Proof.
  intros H1 H2. induction H2 as [s|s k tr' s1 o s2 _ IH Hs]; [by rewrite app_nil_r|].
  rewrite app_assoc. econstructor; [by apply IH|exact Hs].
Qed.

(** *** The analyser *)

Lemma execution_ui c a tr o a' :
  (forall it f, o <> Consume it f) -> apply_op ip_str a o = Val a' ->
  forall a0, execution ip_str a0 tr (mkConfig a c) -> execution ip_str a0 (tr ++ [o]) (mkConfig a' c).
Proof. intros Hn Ha a0 He. apply (exec_snoc ip_str a0 tr _ (Some o) _ He). by constructor. Qed.

(** Names for the cases of a step. *)
Ltac capture_cases Hs :=
  destruct Hs as [s n Hc Hr|s n Hc Hr|s n e Hc Ha|s f n w Hc Hw|s f n ok pkt Hc Hd|s it f ok pkt n ev a Hc Ha
    |s n Hc|s Hc|s err Hc|s Hc|s Hc|s Hc].
Ltac main_cases Hs :=
  destruct Hs as [s Hu Hr|s Hu Hr|s input Hu|s a Hu Ha|s ws Hu|s Hu|s it a Hu Ha|s ws Hu|s Hu Hj|s Hu|s a Hu Ha|s Hu].
Ltac step_fields :=
  cbn [set_field option_list option_rect g_running capture_done capture_error cap writer analyzer dash tty ticks
       cthread uthread handle_signal after_key] in *.

(** What the capture thread leaves alone. *)
Lemma capture_frame s o s' :
  capture_step ip_str accept answers max_packets s o s' ->
  s.(cthread) <> CExited /\ s'.(uthread) = s.(uthread) /\ s'.(dash) = s.(dash) /\ s'.(tty) = s.(tty) /\
  (s.(g_running) = false -> s'.(g_running) = false) /\ (s'.(cthread) = CExited -> s'.(g_running) = false).
Proof.
  intros Hs. capture_cases Hs; rewrite Hc; step_fields; unfold fetched_step, after_step; cbv zeta;
    try (destruct (fetch (cap s) e)); try case_test; split_and!; step_fields; congruence || done.
Qed.

(** What the main thread leaves alone, and what it tells the analyser. *)
Lemma main_frame s o s' :
  main_step ip_str expire_sec s o s' ->
  s'.(cthread) = s.(cthread) /\ (s.(g_running) = false -> s'.(g_running) = false) /\
  (is_exited s'.(uthread) = false -> s'.(cap) = s.(cap) /\ s'.(writer) = s.(writer)) /\
  s'.(writer).(PcapWriter.snaplen_) = s.(writer).(PcapWriter.snaplen_) /\
  (joined s'.(uthread) = true -> joined s.(uthread) = true \/ s.(cthread) = CExited) /\
  is_exited s.(uthread) = false /\
  match o with Some (Consume _ _) => False | _ => True end.
Proof.
  intros Hs. main_cases Hs; rewrite Hu; step_fields; unfold tick_step; cbv zeta; step_fields;
    try (destruct (poll_key (dash s) input); step_fields; cbn [key_step fst snd]; step_fields);
    try case_test; try (split_and!; step_fields; by auto).
  all: split_and!; try done; step_fields; [|by left].
  all: unfold PcapWriter.close; by destruct (PcapWriter.file_ (writer s)).
Qed.

(** *** The invariant *)

(** How many frames were consumed when the capture thread is at [c]. *)
Definition quota (c : cpc) (k : Z) : Prop :=
  match c with
  | CTest n | CFetch n | CWrite _ n | CDecode _ n | CCommit _ _ _ n => n = k /\ (max_packets = 0 \/ k < max_packets)
  | CAfter n => n + 1 = k /\ (max_packets = 0 \/ k <= max_packets)
  | _ => max_packets = 0 \/ k <= max_packets
  end.

Variable linktype : Z.
Variable dissect : bool.
Variable w0 : PcapWriter.t.
(** The terminal as [end_] leaves it. *)
Variable tty_end : Tty.

#[local] Abbreviation a0 := (new_analyzer linktype).
#[local] Abbreviation full tr := (SetDissection dissect :: tr).

Definition left_screen (u : upc) : bool :=
  match u with UFinalCounters | UClose | UExited _ => true | _ => false end.

Record session_inv (tr : list op) s : Prop := {
  si_run : execution ip_str (mkConfig a0 Idle) (full tr) (mkConfig s.(analyzer) (pc_of s.(cthread)));
  si_ops : Forall op_ok tr;
  si_held : forall f, held s.(cthread) = Some f -> frame_ok f /\ f.(c_data) <> None;
  si_cap : looping s.(cthread) = true -> cap_inv s.(cap);
  si_snap : 0 <= s.(writer).(PcapWriter.snaplen_);
  si_file : is_exited s.(uthread) = false ->
    write_frames accept w0 (map written_frame (consumed tr ++ in_flight s.(cthread))) = Val s.(writer);
  si_join : joined s.(uthread) = true -> s.(cthread) = CExited;
  si_stop : s.(cthread) = CExited -> s.(g_running) = false;
  si_quota : zlen tr < 2 ^ 64 - 1 -> quota s.(cthread) (zlen (consumed tr));
  si_screen : (if left_screen s.(uthread) then s.(tty) else (end_ s.(dash) s.(tty)).2) = tty_end;
  si_closed : is_exited s.(uthread) = true ->
    is_open s.(cap) = false /\ s.(writer).(PcapWriter.file_) = None;
}.

Lemma execution_start d : execution ip_str (mkConfig a0 Idle) [SetDissection d] (mkConfig (analyzer_set_dissection a0 d) Idle).
Proof. apply (exec_snoc _ _ [] _ (Some (SetDissection d)) _ (exec_nil _ _)). by constructor. Qed.

Lemma initial_inv c d t use_tui :
  cap_inv c -> 0 <= w0.(PcapWriter.snaplen_) -> (end_ d t).2 = tty_end ->
  session_inv [] (initial c (analyzer_set_dissection a0 dissect) w0 d t use_tui).
Proof.
  intros Hc Hw Ht.
  constructor; cbn; try done; [apply execution_start|by destruct use_tui| |by destruct use_tui|by destruct use_tui].
  intros _. split; [done|]. change (zlen []) with 0. lia.
Qed.

Lemma main_execution s o s' tr c :
  main_step ip_str expire_sec s o s' ->
  execution ip_str (mkConfig a0 Idle) tr (mkConfig s.(analyzer) c) ->
  execution ip_str (mkConfig a0 Idle) (tr ++ option_list o) (mkConfig s'.(analyzer) c).
Proof.
  intros Hs He. main_cases Hs; step_fields; rewrite ?app_nil_r; try exact He;
    try (by apply (execution_ui _ (analyzer s))).
  destruct (poll_key (dash s) input); cbn [key_step fst snd]; step_fields; rewrite ?app_nil_r; try exact He.
  by apply (execution_ui _ (analyzer s)).
Qed.

(** The screen is left as it would be left before the step. *)
Lemma main_screen s o s' :
  main_step ip_str expire_sec s o s' ->
  (if left_screen s'.(uthread) then s'.(tty) else (end_ s'.(dash) s'.(tty)).2) =
  (if left_screen s.(uthread) then s.(tty) else (end_ s.(dash) s.(tty)).2).
Proof.
  assert (Hend : forall d d' t, active_ d = active_ d' -> (end_ d t).2 = (end_ d' t).2).
  { intros d d' t Ed. unfold end_. rewrite Ed. by destruct (negb _). }
  assert (Hq : forall ws d, active_ (query_size ws d) = active_ d).
  { intros ws d. unfold query_size. destruct ws as [[? ?]|]; [case_test|]; done. }
  intros Hs. main_cases Hs; rewrite Hu; step_fields; cbn [left_screen]; try done.
  - destruct (poll_key (dash s) input); cbn [key_step fst snd]; step_fields; destruct (paused_ _);
      by apply Hend.
  - by apply Hend.
  - unfold tick_step. cbv zeta. step_fields. by destruct (_ =? 0).
  - apply Hend. by case_test.
Qed.

Lemma main_closes s o s' :
  main_step ip_str expire_sec s o s' -> is_exited s'.(uthread) = true ->
  is_open s'.(cap) = false /\ s'.(writer).(PcapWriter.file_) = None.
Proof.
  intros Hs. main_cases Hs; step_fields; unfold tick_step; cbv zeta; step_fields; try done.
  - destruct (poll_key (dash s) input); cbn [key_step fst snd]; step_fields; by destruct (paused_ _).
  - by destruct (_ =? 0).
  - intros _. split; [apply close_shuts|]. unfold PcapWriter.close. by destruct (PcapWriter.file_ (writer s)) eqn:Ef.
Qed.

Lemma main_inv s o s' tr :
  main_step ip_str expire_sec s o s' -> session_inv tr s -> session_inv (tr ++ option_list o) s'.
Proof.
  intros Hs [H1 H2 H3 H4 H5 H6 H7 H8 H9 H10 H11].
  destruct (main_frame s o s' Hs) as (Ec & Er & Ecw & Es & Ej & Ex & Eo).
  assert (Hcons : consumed (tr ++ option_list o) = consumed tr).
  { rewrite consumed_app. destruct o as [[]|]; try done; by rewrite app_nil_r. }
  constructor; rewrite ?Ec, ?Hcons.
  - exact (main_execution s o s' (full tr) _ Hs H1).
  - apply Forall_app. split; [done|]. destruct o as [[]|]; by repeat constructor.
  - exact H3.
  - intros Hl. destruct (is_exited (uthread s')) eqn:Hx.
    + assert (Hj : joined (uthread s') = true) by (by destruct (uthread s')).
      destruct (Ej Hj) as [Hj'|Hj']; [rewrite (H7 Hj') in Hl|rewrite Hj' in Hl]; done.
    + destruct (Ecw eq_refl) as [-> _]. by apply H4.
  - by rewrite Es.
  - intros Hx. destruct (Ecw Hx) as [_ ->]. by apply H6.
  - intros Hj. destruct (Ej Hj); auto.
  - auto.
  - rewrite zlen_app. pose proof (zlen_nonneg (option_list o)). intros. apply H9. lia.
  - by rewrite (main_screen s o s' Hs).
  - intros He. by apply (main_closes s o s' Hs).
Qed.

Lemma capture_execution s o s' tr :
  capture_step ip_str accept answers max_packets s o s' ->
  execution ip_str (mkConfig a0 Idle) tr (mkConfig s.(analyzer) (pc_of s.(cthread))) ->
  execution ip_str (mkConfig a0 Idle) (tr ++ option_list o) (mkConfig s'.(analyzer) (pc_of s'.(cthread))).
Proof.
  intros Hs He. capture_cases Hs; rewrite Hc in He; step_fields; rewrite ?app_nil_r; try exact He.
  - unfold fetched_step. by destruct (fetch (cap s) e).
  - rewrite <-(app_nil_r tr). apply (exec_snoc ip_str _ tr _ None _ He). by constructor.
  - apply (exec_snoc ip_str _ tr _ (Some (Consume it f)) _ He). econstructor. exact Ha.
  - unfold after_step. cbv zeta. by destruct (limit_reached _ _).
Qed.

(** The backend's invariant, and the frames it hands over. *)
Lemma capture_backend s o s' tr :
  capture_step ip_str accept answers max_packets s o s' ->
  (looping s.(cthread) = true -> cap_inv s.(cap)) -> Forall op_ok tr ->
  (forall f, held s.(cthread) = Some f -> frame_ok f /\ f.(c_data) <> None) ->
  (looping s'.(cthread) = true -> cap_inv s'.(cap)) /\ Forall op_ok (tr ++ option_list o) /\
  (forall f, held s'.(cthread) = Some f -> frame_ok f /\ f.(c_data) <> None).
Proof.
  intros Hs Hi Ho Hh0. capture_cases Hs; rewrite Hc in Hh0, Hi; step_fields; cbn [held looping] in *;
    rewrite ?app_nil_r; try (by split_and!).
  - unfold fetched_step. pose proof (fetch_turn (cap s) e (Hi eq_refl) (answers_ok e Ha)) as Hf.
    destruct (fetch (cap s) e) as [c1|f c1|c1|err c1], (turn_of (cap s) e); try done; step_fields.
    + by destruct Hf.
    + destruct Hf as (? & _ & ? & ? & _). split_and!; [done..|]. by intros ? [= <-].
  - split_and!; [done| |done]. apply Forall_app. split; [done|].
    constructor; [by apply Hh0|done].
  - unfold after_step. cbv zeta. case_test; step_fields; cbn [looping held]; [by split_and!|].
    split_and!; [|done..]. intros _. apply after_sink_turn. auto.
Qed.

(** The frames handed to the writer. *)
Lemma capture_file s o s' tr :
  capture_step ip_str accept answers max_packets s o s' ->
  (forall f, held s.(cthread) = Some f -> frame_ok f /\ f.(c_data) <> None) ->
  0 <= s.(writer).(PcapWriter.snaplen_) ->
  write_frames accept w0 (map written_frame (consumed tr ++ in_flight s.(cthread))) = Val s.(writer) ->
  0 <= s'.(writer).(PcapWriter.snaplen_) /\
  write_frames accept w0 (map written_frame (consumed (tr ++ option_list o) ++ in_flight s'.(cthread))) =
    Val s'.(writer).
Proof.
  intros Hs Hh0 Hsn Hf. rewrite consumed_app. capture_cases Hs; rewrite Hc in Hh0, Hf; step_fields;
    cbn [held in_flight consumed omap list_omap] in *; rewrite ?app_nil_r in *; try (by split).
  - unfold fetched_step. by destruct (fetch (cap s) e); step_fields; rewrite app_nil_r.
  - destruct (Hh0 f eq_refl) as [Hfr Hd]. destruct (write_total accept (writer s) f Hfr Hsn) as (w' & E' & Es).
    rewrite Hw in E'. injection E' as <-. split; [by rewrite Es|]. rewrite map_app.
    eapply write_frames_snoc; [exact Hf|]. by rewrite <-write_frame_eq.
  - unfold after_step. cbv zeta. by case_test; step_fields; rewrite app_nil_r.
Qed.

(** The limit. *)
Lemma capture_quota s o s' tr :
  capture_step ip_str accept answers max_packets s o s' ->
  zlen (tr ++ option_list o) < 2 ^ 64 - 1 ->
  quota s.(cthread) (zlen (consumed tr)) -> quota s'.(cthread) (zlen (consumed (tr ++ option_list o))).
Proof.
  intros Hs Hlen Hq. rewrite consumed_app, zlen_app.
  rewrite zlen_app in Hlen. pose proof (consumed_le tr). pose proof (zlen_nonneg (consumed tr)).
  capture_cases Hs; rewrite Hc in Hq; step_fields; cbn [quota consumed omap list_omap] in *;
    rewrite ?zlen_nil, ?zlen_cons, ?zlen_nil, ?Z.add_0_r in *; try done; try lia.
  - unfold fetched_step. destruct (fetch (cap s) e); step_fields; cbn [quota]; lia.
  - unfold after_step. cbv zeta.
    assert (Hi : incr n = n + 1) by (apply u64_id; unfold in_u64; lia). rewrite Hi.
    destruct (limit_reached max_packets (n + 1)) eqn:El; step_fields; cbn [quota]; [lia|].
    unfold limit_reached in El. destruct (Z.eqb_spec max_packets 0); [lia|]. cbn [negb andb] in El. breflect. lia.
Qed.

Lemma capture_inv s o s' tr :
  capture_step ip_str accept answers max_packets s o s' -> session_inv tr s ->
  session_inv (tr ++ option_list o) s'.
Proof.
  intros Hs [H1 H2 H3 H4 H5 H6 H7 H8 H9 H10 H11].
  destruct (capture_frame s o s' Hs) as (Ec & Eu & Ed & Et & Er & Ex).
  destruct (capture_backend s o s' tr Hs H4 H2 H3) as (Hcap & Hops & Hheld).
  assert (Hj : joined (uthread s) = false) by (destruct (joined (uthread s)); [by destruct Ec; apply H7|done]).
  assert (He : is_exited (uthread s) = false) by (by destruct (uthread s)).
  destruct (capture_file s o s' tr Hs H3 H5 (H6 He)) as [Hsn Hfile].
  constructor; rewrite ?Eu, ?Ed, ?Et; try done.
  - exact (capture_execution s o s' (full tr) Hs H1).
  - by rewrite Hj.
  - intros Hlen. apply (capture_quota s o s' tr Hs Hlen). apply H9.
    rewrite zlen_app in Hlen. pose proof (zlen_nonneg (option_list o)). lia.
  - by rewrite He.
Qed.

Lemma step_inv s o s' tr : step s o s' -> session_inv tr s -> session_inv (tr ++ option_list o) s'.
Proof.
  intros [s1 Hr|s1 o1 s2 Hs|s1 o1 s2 Hs] Hi; [|by eapply capture_inv|by eapply main_inv].
  destruct Hi. step_fields. rewrite app_nil_r. by constructor.
Qed.

Lemma runs_inv s0 n tr s : runs s0 n tr s -> session_inv [] s0 -> session_inv tr s.
Proof. intros Hr Hi. induction Hr; [done|]. eapply step_inv; eauto. Qed.

Lemma runs_ops s0 n tr s : runs s0 n tr s -> zlen tr <= Z.of_nat n.
Proof.
  intros Hr. induction Hr as [|s0 n tr s o s' _ IH _]; [done|]. rewrite zlen_app.
  destruct o; cbn [option_list option_rect]; rewrite ?zlen_cons, zlen_nil; lia.
Qed.

(** *** Progress *)

Section progress.
Context (DL : DissectorLaws D).

Lemma inv_exec tr s :
  session_inv tr s -> zlen tr < 2 ^ 64 - 2 ->
  exec_ok D ip_str linktype (full tr) (mkConfig s.(analyzer) (pc_of s.(cthread))).
Proof.
  intros Hi Hlen. apply execution_ok; [done|apply (si_run _ _ Hi)| |].
  - constructor; [done|apply (si_ops _ _ Hi)].
  - rewrite zlen_cons. lia.
Qed.

(** The capture thread can go on until it has ended. *)
Lemma capture_progress tr s :
  session_inv tr s -> zlen tr < 2 ^ 64 - 2 -> (exists e, answers e) -> s.(cthread) <> CExited ->
  exists o s', step s o s'.
Proof.
  intros Hi Hlen [e He] Hne.
  assert (Hgoal : exists o s', capture_step ip_str accept answers max_packets s o s');
    [|by destruct Hgoal as (o & s' & ?); exists o, s'; constructor].
  pose proof (inv_exec tr s Hi Hlen) as [Hrun Hok Hlink Hseen Hpc]. pose proof (si_held _ _ Hi) as Hheld.
  pose proof (si_snap _ _ Hi) as Hsn. clear Hi.
  destruct (cthread s) as [n|n|f n|f n|f ok pkt n|n|[err|]| | | |] eqn:Ec; cbn [pc_of held shared capture] in *;
    try done; try (by eexists _, _; econstructor).
  - destruct (g_running s) eqn:Eg; by eexists _, _; econstructor.
  - destruct (Hheld f eq_refl) as [Hf _]. destruct (write_total accept (writer s) f Hf Hsn) as (w & E' & _).
    by eexists _, _; econstructor.
  - destruct (Hheld f eq_refl) as [Hf _]. destruct (decode_frame_total (linktype_ (analyzer s)) f Hf) as (ok & pkt & E' & _).
    by eexists _, _; econstructor.
  - destruct (Hheld f eq_refl) as [Hf _]. destruct (decode_frame_total linktype f Hf) as (ok' & pkt' & E' & Hpay).
    rewrite Hpc in E'. injection E' as <- <-.
    destruct (commit_total _ DL ip_str any_order _ _ f ok pkt Hok) as (ev & a & E' & _); [rewrite zlen_cons; lia|done|].
    by eexists _, _; econstructor.
Qed.

(** The main thread can go on until the join, and after it to the end. *)
Lemma main_progress tr s :
  session_inv tr s -> zlen tr < 2 ^ 64 - 2 -> s.(cthread) = CExited -> is_exited s.(uthread) = false ->
  exists o s', step s o s'.
Proof.
  intros Hi Hlen Hc Hx.
  assert (Hgoal : exists o s', main_step ip_str expire_sec s o s');
    [|by destruct Hgoal as (o & s' & ?); exists o, s'; constructor].
  pose proof (inv_exec tr s Hi Hlen) as [Hrun Hok _ _ _]. cbn [shared] in Hok. clear Hi.
  assert (Hop : forall o, (forall it f, o <> Consume it f) -> exists a, apply_op ip_str (analyzer s) o = Val a).
  { intros o Ho. destruct (ui_op_total _ DL ip_str _ _ o Hok Ho) as (a & ? & _). by exists a. }
  destruct (uthread s) eqn:Eu; try done.
  - destruct (g_running s) eqn:Eg; by eexists _, _; econstructor.
  - eexists _, _. by apply (s_ui_poll _ _ _ None).
  - destruct (Hop (counters_op s)) as [a Ha]; [done|]. by eexists _, _; eapply s_ui_counters.
  - eexists _, _. by apply (s_ui_render _ _ _ None).
  - by eexists _, _; econstructor.
  - destruct (Hop (Expire any_order expire_sec)) as [a Ha]; [done|]. by eexists _, _; eapply s_ui_expire.
  - eexists _, _. by apply (s_ui_hold _ _ _ None).
  - by eexists _, _; eapply s_ui_join.
  - by eexists _, _; eapply s_ui_end.
  - destruct (Hop (counters_op s)) as [a Ha]; [done|]. by eexists _, _; eapply s_ui_final.
  - by eexists _, _; eapply s_ui_close.
Qed.

Lemma session_progress tr s :
  session_inv tr s -> zlen tr < 2 ^ 64 - 2 -> (exists e, answers e) ->
  finished s \/ exists o s', step s o s'.
Proof.
  intros Hi Hlen He. destruct (decide (looping s.(cthread) = true)) as [Hl|Hl].
  { right. apply (capture_progress tr); try done. intros Ec. by rewrite Ec in Hl. }
  destruct (cthread s) eqn:Ec; try (right; apply (capture_progress tr); [done..|congruence]).
  destruct (uthread s) as [| | | | | | | | | | |code] eqn:Eu;
    try (right; apply (main_progress tr); [done..|by rewrite Eu]).
  left. split; [done|by exists code].
Qed.
End progress.

(** *** Termination *)

(** What is left to do once the running flag is cleared. *)
Definition capture_rank (c : cpc) : nat :=
  match c with
  | CFetch _ => 10 | CWrite _ _ => 9 | CDecode _ _ => 8 | CCommit _ _ _ _ => 7 | CAfter _ => 6 | CTest _ => 5
  | CReturned _ => 4 | CClear => 3 | CSetDone => 2 | CClearEnd => 1 | CExited => 0
  end%nat.
Definition main_rank (u : upc) : nat :=
  match u with
  | UPoll => 11 | UCounters => 10 | URender => 9 | UTick => 8 | UExpire => 7 | UTest => 6
  | UHold => 5 | UJoin => 4 | UEnd => 3 | UFinalCounters => 2 | UClose => 1 | UExited _ => 0
  end%nat.
Definition rank s : nat := capture_rank s.(cthread) + main_rank s.(uthread).

Lemma rank_le s : (rank s <= 21)%nat.
Proof. unfold rank. destruct (cthread s), (uthread s); simpl; lia. Qed.

Lemma capture_rank_step s o s' :
  capture_step ip_str accept answers max_packets s o s' -> s.(g_running) = false ->
  (capture_rank s'.(cthread) < capture_rank s.(cthread))%nat.
Proof.
  intros Hs Hg. capture_cases Hs; rewrite Hc; step_fields; try congruence; cbn [capture_rank]; try lia.
  - unfold fetched_step. destruct (fetch (cap s) e); step_fields; cbn [capture_rank]; lia.
  - unfold after_step. cbv zeta. case_test; step_fields; cbn [capture_rank]; lia.
Qed.

Lemma main_rank_step s o s' :
  main_step ip_str expire_sec s o s' -> s.(g_running) = false ->
  (main_rank s'.(uthread) < main_rank s.(uthread))%nat.
Proof.
  intros Hs Hg. main_cases Hs; rewrite Hu; step_fields; try congruence; cbn [main_rank]; try lia.
  - destruct (poll_key (dash s) input); cbn [key_step fst snd]; step_fields; destruct (paused_ _); cbn [main_rank]; lia.
  - unfold tick_step. cbv zeta. step_fields. destruct (_ =? 0); cbn [main_rank]; lia.
Qed.

Lemma step_rank s o s' :
  step s o s' -> s.(g_running) = false -> s'.(g_running) = false /\ (rank s' < rank s)%nat.
Proof.
  intros [s1 Hr|s1 o1 s2 Hs|s1 o1 s2 Hs] Hg; [congruence|..]; unfold rank.
  - pose proof (capture_rank_step _ _ _ Hs Hg). destruct (capture_frame _ _ _ Hs) as (_ & -> & _ & _ & Hk & _).
    split; [auto|lia].
  - pose proof (main_rank_step _ _ _ Hs Hg). destruct (main_frame _ _ _ Hs) as (-> & Hk & _).
    split; [auto|lia].
Qed.

Lemma runs_rank s n tr s' :
  runs s n tr s' -> s.(g_running) = false -> s'.(g_running) = false /\ (n + rank s' <= rank s)%nat.
Proof.
  intros Hr Hg. induction Hr as [|s n tr s1 o s2 _ IH Hs]; [by split|].
  destruct (IH Hg) as [Hg1 Hle]. destruct (step_rank _ _ _ Hs Hg1). split; [done|lia].
Qed.
End invariant.

(** ** The read loop inside the session *)

Section read_loop.
Context `{Hh : HostOrder} `{D : Dissector} {C E : Type} `{Hb : Backend C E}.
Variable ip_str : IpAddress -> list byte.
Variable accept : Z -> Z.
Variable answers : E -> Prop.
Variable max_packets : Z.
Variable expire_sec : f64.
Variable it : iteration FlowKey Flow.

(** The sink of the capture thread. *)
Definition session_sink (wa : PcapWriter.t * Analyzer) (f : Frame) : mem (PcapWriter.t * Analyzer) :=
  w ← write_frame accept wa.1 f; '(_, a) ← consume ip_str it wa.2 f; mret (w, a).

#[local] Abbreviation step := (session_step ip_str accept answers max_packets expire_sec).
#[local] Abbreviation runs := (session_run ip_str accept answers max_packets expire_sec).

Lemma runs_cons s o s1 n tr s' : step s o s1 -> runs s1 n tr s' -> runs s (n + 1) (option_list o ++ tr) s'.
Proof.
  intros Hs Hr. eapply runs_trans; [|exact Hr].
  change (option_list o) with ([] ++ option_list o). eapply run_snoc; [apply run_nil|exact Hs].
Qed.

(** The sink in four steps: write, decode, commit, count. *)
Lemma sink_runs s f n w a :
  s.(cthread) = CWrite f n -> session_sink (s.(writer), s.(analyzer)) f = Val (w, a) ->
  runs s 4 [Consume it f] (after_step max_packets n (s <| writer := w |> <| analyzer := a |>)).
Proof.
  unfold session_sink, consume. cbn [fst snd]. intros Hc.
  destruct (write_frame accept (writer s) f) as [w1|] eqn:Ew; [|done]. cbn [mbind mem_bind].
  destruct (decode_frame (linktype_ (analyzer s)) f) as [[ok pkt]|] eqn:Ed; [|done]. cbn [mbind mem_bind].
  destruct (commit ip_str it (analyzer s) f ok pkt) as [[ev a1]|] eqn:Ec; [|done]. intros [= <- <-].
  set (s1 := s <| writer := w1 |> <| cthread := CDecode f n |>).
  set (s2 := s1 <| cthread := CCommit f ok pkt n |>).
  set (s3 := s2 <| analyzer := a1 |> <| cthread := CAfter n |>).
  change [Consume it f] with (option_list (@None op) ++ option_list (@None op) ++ option_list (Some (Consume it f)) ++ option_list (@None op) ++ []).
  apply (runs_cons s None s1 3); [apply s_capture; by apply s_write|].
  apply (runs_cons s1 None s2 2); [apply s_capture; by eapply s_decode|].
  apply (runs_cons s2 (Some (Consume it f)) s3 1); [apply s_capture; by eapply s_commit|].
  apply (runs_cons s3 None (after_step max_packets n s3) 0); [apply s_capture; by apply s_after|].
  replace (after_step max_packets n s3) with (after_step max_packets n (s <| writer := w1 |> <| analyzer := a1 |>)); [apply run_nil|].
  unfold after_step. cbv zeta. by destruct (limit_reached _ _).
Qed.

(** The capture thread by itself does what [capture_loop] does: every call of
    [run] is a schedule of the session, in which a cleared flag is a signal. *)
Lemma capture_loop_runs events : forall s n err c' w' a',
  s.(cthread) = CTest n -> s.(g_running) = true -> Forall (from_option answers True) events ->
  capture_loop session_sink max_packets s.(cap) n (s.(writer), s.(analyzer)) events =
    Val (Returned err, c', (w', a')) ->
  exists k tr s', runs s k tr s' /\ s'.(cthread) = CReturned err /\ s'.(cap) = c' /\
    s'.(writer) = w' /\ s'.(analyzer) = a'.
Proof.
  induction events as [|[e|] events IH]; intros s n err c' w' a' Hc Hg Hev Hl; [done|..].
  2: { injection Hl as <- <- <- <-. eexists _, _, _. split_and!.
    - eapply runs_cons; [by apply s_signal|]. eapply runs_cons; [|apply run_nil].
      apply s_capture. by eapply s_test_stop.
    - done. - done. - done. - done. }
  inversion Hev as [|? ? He Hevs]; subst. cbn [capture_loop] in Hl.
  set (s1 := s <| cthread := CFetch n |>).
  assert (H1 : step s None s1) by (apply s_capture; by apply s_test_go).
  assert (H2 : step s1 None (fetched_step n (fetch (cap s) e) s1)).
  { apply s_capture. change (cap s) with (cap s1). by apply s_fetch. }
  assert (Hcons2 : forall k tr s', runs (fetched_step n (fetch (cap s) e) s1) k tr s' -> runs s (k + 1 + 1) tr s').
  { intros k tr s' Hr. change tr with (option_list (@None op) ++ option_list (@None op) ++ tr).
    eapply runs_cons; [exact H1|]. by eapply runs_cons; [exact H2|]. }
  destruct (fetch (cap s) e) as [c1|f c1|c1|msg c1] eqn:Ef; cbn [fetched_step] in Hcons2.
  - destruct (IH (s1 <| cap := c1 |> <| cthread := CTest n |>) n err c' w' a') as (k & tr & s' & Hr & Hrest); try done.
    eexists _, _, _. split; [by apply Hcons2|done].
  - destruct (session_sink _ f) as [[w1 a1]|] eqn:Es; [|done]. cbn [mbind mem_bind] in Hl.
    set (s2 := s1 <| cap := c1 |> <| cthread := CWrite f n |>) in *.
    assert (H3 : runs s2 4 [Consume it f] (after_step max_packets n (s2 <| writer := w1 |> <| analyzer := a1 |>)))
      by (by apply sink_runs).
    unfold after_step in H3. cbv zeta in H3, Hl.
    destruct (limit_reached max_packets (incr n)).
    + injection Hl as <- <- <- <-. eexists _, _, _. split; [apply Hcons2; exact H3|done].
    + destruct (IH (s2 <| writer := w1 |> <| analyzer := a1 |> <| cap := after_sink (incr n) c1 |>
                      <| cthread := CTest (incr n) |>) (incr n) err c' w' a') as (k & tr & s' & Hr & Hrest); try done.
      eexists _, _, _. split; [apply Hcons2; eapply runs_trans; [exact H3|exact Hr]|done].
  - injection Hl as <- <- <- <-. eexists _, _, _. split; [apply Hcons2, run_nil|done].
  - injection Hl as <- <- <- <-. eexists _, _, _. split; [apply Hcons2, run_nil|done].
Qed.
End read_loop.

(** ** The session *)

(** The screen [main] leaves behind is the one it found. *)
Lemma start_screen_end text_mode tty_out tty_in getattr_ok ws t0 use_tui d t :
  start_screen text_mode tty_out tty_in getattr_ok ws t0 = (use_tui, d, t) -> t0.(g_termios_saved) = false ->
  (end_ d t).2.(settings) = t0.(settings) /\ (end_ d t).2.(g_termios_saved) = false.
Proof.
  unfold start_screen. destruct text_mode; [by intros [= <- <- <-]|].
  intros E Ht. pose proof (terminal_restored tty_out tty_in getattr_ok ws new_dashboard t0 eq_refl Ht) as Hr.
  rewrite E in Hr. destruct (end_ d t) as [d2 t2]. by destruct Hr as (? & ? & _).
Qed.

Section theorems.
Context `{Hh : HostOrder} `{D : Dissector} {C E : Type} `{L : BackendLaws C E}.
Variable ip_str : IpAddress -> list byte.
Variable accept : Z -> Z.
Variable answers : E -> Prop.
Variable opt : Options.

(** The running session that [main] starts from its parts. *)
Definition started (c : C) (w : PcapWriter.t) (use_tui : bool) (d : Dashboard) (t : Tty) : session C :=
  initial c (analyzer_set_dissection (new_analyzer (capture_linktype c)) opt.(dissect)) w d t use_tui.

#[local] Abbreviation runs :=
  (session_run ip_str accept answers opt.(Options.max_packets) opt.(Options.expire_sec)).
#[local] Abbreviation step :=
  (session_step ip_str accept answers opt.(Options.max_packets) opt.(Options.expire_sec)).

#[local] Abbreviation inv := (session_inv ip_str accept opt.(Options.max_packets)).

Lemma started_inv c w use_tui d t n tr s :
  (forall e, answers e -> event_ok e) -> 0 <= opt.(Options.max_packets) ->
  cap_inv c -> 0 <= w.(PcapWriter.snaplen_) ->
  runs (started c w use_tui d t) n tr s ->
  inv (capture_linktype c) opt.(dissect) w (end_ d t).2 tr s /\ zlen tr <= Z.of_nat n.
Proof.
  intros Hans Hmax Hc Hw Hr. split; [|eapply runs_ops; exact Hr].
  eapply runs_inv; [exact Hans|exact Hmax|exact Hr|]. by apply initial_inv.
Qed.


(** C4: Shutting down always completes. Once [g_running] is cleared (by the quit
    key, a signal, the end of the input, the packet limit or a capture error), in
    whatever state the two threads are and however they are scheduled, at most 21
    more steps are possible and some step is possible until both threads have
    ended (a backend that answers [poll] or [pcap_next_ex] at all is enough);
    then the backend and the capture file are closed and the terminal has the
    settings it had before the program started. *)
Theorem shutdown_terminates (DL : DissectorLaws D) c w use_tui d t n tr s
    text_mode tty_out tty_in getattr_ok ws t0 :
  (forall e, answers e -> event_ok e) -> (exists e, answers e) -> 0 <= opt.(Options.max_packets) ->
  cap_inv c -> 0 <= w.(PcapWriter.snaplen_) ->
  start_screen text_mode tty_out tty_in getattr_ok ws t0 = (use_tui, d, t) -> t0.(g_termios_saved) = false ->
  runs (started c w use_tui d t) n tr s -> Z.of_nat n < 2 ^ 63 -> s.(g_running) = false ->
  forall k tr' s', runs s k tr' s' ->
    (k <= 21)%nat /\
    (finished s' \/ exists o s'', step s' o s'') /\
    (finished s' ->
     is_open s'.(cap) = false /\ s'.(writer).(PcapWriter.file_) = None /\
     s'.(tty).(settings) = t0.(settings)).
Proof.
  intros Hans Hex Hmax Hc Hw Hscr Ht0 Hr Hn Hg k tr' s' Hk.
  destruct (runs_rank _ _ _ _ _ _ _ _ _ Hk Hg) as [_ Hrank]. pose proof (rank_le s).
  destruct (started_inv c w use_tui d t (k + n) (tr ++ tr') s' Hans Hmax Hc Hw) as [Hi Hlen].
  { eapply runs_trans; [exact Hr|exact Hk]. }
  split_and!; [lia| |].
  - eapply session_progress; [exact DL|exact Hi|lia|done].
  - intros [Hce [code Hu]]. destruct Hi. rewrite Hu in *. destruct (si_closed0 eq_refl) as [? ?].
    split_and!; [done|done|]. cbn [left_screen] in si_screen0. rewrite si_screen0.
    by apply (start_screen_end _ _ _ _ _ _ _ _ _ Hscr).
Qed.
End theorems.

(** A session on a quiet machine that receives one frame in text mode. *)
Definition quiet_capture : RawSocketCapture.t :=
  RawSocketCapture.mk 3 2 1 200 64 false (replicate 64 Byte.x00) 0 0 0 counters_zero 0 [].
Definition cooked_tty : Tty := mkTty (mkTermios 11 1 0) [] (mkTermios 0 0 0) false.
Definition one_frame (e : raw_event) : Prop := e = Received (lit "abc") None timeval_zero.

#[local] Abbreviation quiet_backend := (RawSocketCapture.raw_backend (fun _ => []) (fun _ => None) quiet_os).
#[local] Abbreviation quiet_laws := (raw_laws (fun _ => []) (fun _ => None) quiet_os).
Definition quiet_runs (answers : raw_event -> Prop) : session RawSocketCapture.t -> nat -> list op -> session RawSocketCapture.t -> Prop :=
  session_run (H := LittleEndian) (H0 := netscope_dissector) (H1 := quiet_backend) (fun _ => []) (fun _ => 0) answers
    0 (Options.expire_sec options_default).
Definition quiet_start (use_tui : bool) (d : Dashboard) (t : Tty) : session RawSocketCapture.t :=
  started (H := quiet_backend) options_default quiet_capture PcapWriter.init use_tui d t.



(** The same session with a terminal, interrupted at once. *)
Definition raw_screen : bool * Dashboard * Tty := start_screen false true true true (Some (80, 24)) cooked_tty.
Definition interrupted : session RawSocketCapture.t :=
  handle_signal (quiet_start true raw_screen.1.2 raw_screen.2).

Lemma shutdown_terminates_witness :
  raw_screen.1.1 = true /\ raw_screen.2.(settings) <> cooked_tty.(settings) /\
  quiet_runs one_frame (quiet_start true raw_screen.1.2 raw_screen.2) 1 [] interrupted /\
  forall k tr' s', quiet_runs one_frame interrupted k tr' s' ->
    (k <= 21)%nat /\ (finished s' -> s'.(tty).(settings) = cooked_tty.(settings)).
Proof.
  assert (Hr : quiet_runs one_frame (quiet_start true raw_screen.1.2 raw_screen.2) 1 [] interrupted).
  { eapply (run_snoc _ _ _ _ _ _ 0 [] _ None); [apply run_nil|]. by apply s_signal. }
  split_and!; [reflexivity|done|exact Hr|]. intros k tr' s' Hk.
  destruct (shutdown_terminates (Hh := LittleEndian) (H := quiet_backend) (L := quiet_laws) (fun _ => []) (fun _ => 0)
    one_frame options_default netscope_dissector_laws quiet_capture PcapWriter.init true raw_screen.1.2 raw_screen.2 1 []
    interrupted false true true true (Some (80, 24)) cooked_tty) with (k := k) (tr' := tr') (s' := s') as (? & _ & Hf);
    [done|by eexists|done|by constructor|done|reflexivity|done|exact Hr|done|done|exact Hk|].
  split; [done|]. intros Hfin. by apply Hf.
Defined.
